(** * WuKongEasySDK-JS: the connection and protocol session manager (class [WKIM])

    A shallow embedding of the TypeScript class [WKIM] together with the part
    of the JavaScript run time it talks to: WebSocket objects, timers,
    promises with their reaction (micro-task) queue, and the listeners
    registered by the application.

    Every method of the class is a function [World -> World]; an event-loop
    turn is one task (an application call, a transport callback, a timer)
    followed by the reactions of the promises it settled, one micro-task at a
    time. *)

From stdpp Require Import gmap strings list fin_maps pretty.
From Stdlib Require Import ZArith Lia.

#[local] Set Warnings "-register-all".

Open Scope string_scope.
Open Scope list_scope.
Open Scope nat_scope.

(** ** JavaScript values *)

(** Values that cross the wire or are handed to listeners.  Numbers are kept
    as integers: the session only copies them or tests them against zero. *)
Inductive JSVal : Type :=
  | JUndefined
  | JNull
  | JBool (b : bool)
  | JNum (n : Z)
  | JStr (s : string)
  | JArr (items : list JSVal)
  | JObj (fields : list (string * JSVal)).

(** A value that can be thrown, passed to a listener, or used to settle a
    promise: plain data, or an [Error] object with its message. *)
Inductive Value : Type :=
  | VJson (v : JSVal)
  | VError (message : string).

(** JavaScript truthiness, as used by [!x], [x || y] and [if (x)]. *)
Definition truthy (v : JSVal) : bool :=
  match v with
  | JUndefined | JNull => false
  | JBool b => b
  | JNum n => negb (n =? 0)%Z
  | JStr s => negb (String.eqb s "")
  | JArr _ | JObj _ => true
  end.

Fixpoint assoc (k : string) (fields : list (string * JSVal)) : option JSVal :=
  match fields with
  | [] => None
  | (k', v) :: rest => if String.eqb k k' then Some v else assoc k rest
  end.

(** Property read [v.k].  [None] is the [TypeError] raised when [v] is
    [undefined] or [null]; a missing property reads as [undefined]. *)
Definition get_prop (v : JSVal) (k : string) : option JSVal :=
  match v with
  | JUndefined | JNull => None
  | JObj fields => Some (default JUndefined (assoc k fields))
  | _ => Some JUndefined
  end.

(** The [in] operator: ['k' in v] raises a [TypeError] ([None]) unless [v] is
    an object. *)
Definition has_prop (k : string) (v : JSVal) : option bool :=
  match v with
  | JObj fields => Some (bool_decide (is_Some (assoc k fields)))
  | JArr _ => Some false
  | _ => None
  end.

(** [typeof v === 'object' && v !== null] *)
Definition is_object (v : JSVal) : bool :=
  match v with
  | JObj _ | JArr _ => true
  | _ => false
  end.

(** Text used where the source interpolates a thrown value into a message. *)
Definition describe (r : Value) : string :=
  match r with
  | VError m => m
  | VJson v =>
      match get_prop v "message" with
      | Some (JStr m) => if String.eqb m "" then "[object]" else m
      | _ => "[object]"
      end
  end.

(** ** Enumerations and interfaces of the SDK *)

Module Event.
Inductive t : Type :=
  | Connect | Disconnect | Message | Error | SendAck | Reconnecting | CustomEvent.

(** The run-time value of each member of [enum Event]. *)
Definition name (e : t) : string :=
  match e with
  | Connect => "connect"
  | Disconnect => "disconnect"
  | Message => "message"
  | Error => "error"
  | SendAck => "sendack"
  | Reconnecting => "reconnecting"
  | CustomEvent => "customevent"
  end.

Definition all : list t :=
  [Connect; Disconnect; Message; Error; SendAck; Reconnecting; CustomEvent].
End Event.

Record AuthOptions : Type := mkAuth {
  uid : string;
  token : string;
  deviceId : option string;
  deviceFlag : option Z
}.

(** [interface Header]: four optional flags. *)
Record Header : Type := mkHeader {
  noPersist : option bool;
  redDot : option bool;
  syncOnce : option bool;
  dup : option bool
}.

Definition empty_header : Header := mkHeader None None None None.

Definition opt_bool (o : option bool) : JSVal :=
  match o with Some b => JBool b | None => JUndefined end.

Definition header_to_js (h : Header) : JSVal :=
  JObj [("noPersist", opt_bool (noPersist h)); ("redDot", opt_bool (redDot h));
        ("syncOnce", opt_bool (syncOnce h)); ("dup", opt_bool (dup h))].

(** Outbound frames, as handed to [JSON.stringify]. *)
Inductive Frame : Type :=
  | Request (method : string) (params : JSVal) (id : string)
  | Notification (method : string) (params : JSVal).

(** ** The run time: sockets, timers, promises *)

Inductive ReadyState : Type := CONNECTING | OPEN | CLOSING | CLOSED.

Global Instance ReadyState_eq_dec : EqDecision ReadyState.
Proof. solve_decision. Defined.

(** A WebSocket object.  [attached] says whether [onopen], [onmessage],
    [onerror] and [onclose] are set (they are set and cleared together). *)
Record WebSocket : Type := mkWebSocket {
  readyState : ReadyState;
  attached : bool;
  sent : list Frame;
  closeCalls : list (Z * string)
}.

(** What runs when a timer expires. *)
Inductive TimerCallback : Type :=
  | TRequestTimeout (requestId : string) (method : string) (reject : nat)
  | TPing
  | TReconnect.

Record Timer : Type := mkTimer {
  callback : TimerCallback;
  delay : Z;
  repeating : bool
}.

(** Who is waiting on a promise returned by [connect] or [sendRequest]. *)
Inductive Continuation : Type :=
  | KApp              (* application code *)
  | KAuthThen         (* sendConnectRequest: .then(...) *)
  | KAuthCatch        (* sendConnectRequest: .catch(...) *)
  | KPingThen         (* startPing: .then(handlePong) *)
  | KPingCatch        (* startPing: .catch(...) *)
  | KReconnectCatch.  (* scheduleReconnect: connect().catch(...) *)

Inductive Origin : Type :=
  | FromConnect                         (* new Promise(...) in connect *)
  | FromSendRequest (method : string)   (* new Promise(...) in sendRequest *)
  | FromSend.                           (* Promise.reject(...) in send *)

Record PromiseRec : Type := mkPromise {
  origin : Origin;
  reaction : Continuation
}.

Inductive Settle : Type :=
  | Resolve (v : Value)
  | Reject (r : Value).

(** Which statement of the source made a [resolve] or [reject] call; kept in
    the log only to tell the calls apart. *)
Inductive Cause : Type :=
  | ByResponse        (* handleResponse *)
  | ByTimeout         (* the setTimeout callback of sendRequest *)
  | BySweep           (* the forEach of cleanupConnection *)
  | BySendRequest     (* sendRequest itself: socket not open, or write failed *)
  | ByConnect         (* connect itself *)
  | BySend            (* Promise.reject in send *)
  | ByHandshake       (* sendConnectRequest's then / catch *)
  | ByClose           (* the onclose handler *)
  | ByCleanup.        (* cleanupConnection, on the connection promise *)

Record Settlement : Type := mkSettlement {
  target : nat;
  outcome : Settle;
  cause : Cause
}.

(** ** The instance *)

Record PendingRequest : Type := mkPending {
  resolve : nat;       (* promise whose resolve function is stored *)
  reject : nat;        (* promise whose reject function is stored *)
  timeoutTimer : nat
}.

Record ConnectionPromise : Type := mkConn {
  cp_resolve : nat;
  cp_reject : nat
}.

Record WKIM : Type := mkWKIM {
  ws : option nat;
  url : string;
  auth : AuthOptions;
  isConnected : bool;
  connectionPromise : option ConnectionPromise;
  pingInterval : option nat;
  pingTimeout : option nat;
  pendingRequests : gmap string PendingRequest;
  eventListeners : gmap string (list nat);
  reconnectAttempts : nat;
  maxReconnectAttempts : nat;
  initialReconnectDelay : Z;
  isReconnecting : bool;
  manualDisconnect : bool;
  sessionId : string;
  beforeUnloadHandler : bool
}.

Definition PING_INTERVAL_MS : Z := (25 * 1000)%Z.
Definition PONG_TIMEOUT_MS : Z := (10 * 1000)%Z.

(** The instance together with the run-time objects it created and the
    observations made of it. *)
Record World : Type := mkWorld {
  this : WKIM;
  sockets : list WebSocket;            (* handle = position *)
  timers : gmap nat Timer;             (* the timers that are still armed *)
  nextTimer : nat;
  promises : list PromiseRec;          (* handle = position *)
  settlements : list Settlement;       (* every resolve / reject call *)
  microtasks : list (Continuation * Settle);
  emitted : list (Event.t * Value);    (* every call of emit *)
  delivered : list (nat * Event.t * Value);  (* every listener invocation *)
  heap : list Header                   (* header objects owned by the caller *)
}.

(** *** Field updates *)

Definition set_ws x (o : WKIM) : WKIM :=
  mkWKIM x (url o) (auth o) (isConnected o) (connectionPromise o) (pingInterval o)
    (pingTimeout o) (pendingRequests o) (eventListeners o) (reconnectAttempts o)
    (maxReconnectAttempts o) (initialReconnectDelay o) (isReconnecting o)
    (manualDisconnect o) (sessionId o) (beforeUnloadHandler o).
Definition set_isConnected x (o : WKIM) : WKIM :=
  mkWKIM (ws o) (url o) (auth o) x (connectionPromise o) (pingInterval o)
    (pingTimeout o) (pendingRequests o) (eventListeners o) (reconnectAttempts o)
    (maxReconnectAttempts o) (initialReconnectDelay o) (isReconnecting o)
    (manualDisconnect o) (sessionId o) (beforeUnloadHandler o).
Definition set_connectionPromise x (o : WKIM) : WKIM :=
  mkWKIM (ws o) (url o) (auth o) (isConnected o) x (pingInterval o)
    (pingTimeout o) (pendingRequests o) (eventListeners o) (reconnectAttempts o)
    (maxReconnectAttempts o) (initialReconnectDelay o) (isReconnecting o)
    (manualDisconnect o) (sessionId o) (beforeUnloadHandler o).
Definition set_pingInterval x (o : WKIM) : WKIM :=
  mkWKIM (ws o) (url o) (auth o) (isConnected o) (connectionPromise o) x
    (pingTimeout o) (pendingRequests o) (eventListeners o) (reconnectAttempts o)
    (maxReconnectAttempts o) (initialReconnectDelay o) (isReconnecting o)
    (manualDisconnect o) (sessionId o) (beforeUnloadHandler o).
Definition set_pingTimeout x (o : WKIM) : WKIM :=
  mkWKIM (ws o) (url o) (auth o) (isConnected o) (connectionPromise o) (pingInterval o)
    x (pendingRequests o) (eventListeners o) (reconnectAttempts o)
    (maxReconnectAttempts o) (initialReconnectDelay o) (isReconnecting o)
    (manualDisconnect o) (sessionId o) (beforeUnloadHandler o).
Definition set_pendingRequests x (o : WKIM) : WKIM :=
  mkWKIM (ws o) (url o) (auth o) (isConnected o) (connectionPromise o) (pingInterval o)
    (pingTimeout o) x (eventListeners o) (reconnectAttempts o)
    (maxReconnectAttempts o) (initialReconnectDelay o) (isReconnecting o)
    (manualDisconnect o) (sessionId o) (beforeUnloadHandler o).
Definition set_eventListeners x (o : WKIM) : WKIM :=
  mkWKIM (ws o) (url o) (auth o) (isConnected o) (connectionPromise o) (pingInterval o)
    (pingTimeout o) (pendingRequests o) x (reconnectAttempts o)
    (maxReconnectAttempts o) (initialReconnectDelay o) (isReconnecting o)
    (manualDisconnect o) (sessionId o) (beforeUnloadHandler o).
Definition set_reconnectAttempts x (o : WKIM) : WKIM :=
  mkWKIM (ws o) (url o) (auth o) (isConnected o) (connectionPromise o) (pingInterval o)
    (pingTimeout o) (pendingRequests o) (eventListeners o) x
    (maxReconnectAttempts o) (initialReconnectDelay o) (isReconnecting o)
    (manualDisconnect o) (sessionId o) (beforeUnloadHandler o).
Definition set_isReconnecting x (o : WKIM) : WKIM :=
  mkWKIM (ws o) (url o) (auth o) (isConnected o) (connectionPromise o) (pingInterval o)
    (pingTimeout o) (pendingRequests o) (eventListeners o) (reconnectAttempts o)
    (maxReconnectAttempts o) (initialReconnectDelay o) x
    (manualDisconnect o) (sessionId o) (beforeUnloadHandler o).
Definition set_manualDisconnect x (o : WKIM) : WKIM :=
  mkWKIM (ws o) (url o) (auth o) (isConnected o) (connectionPromise o) (pingInterval o)
    (pingTimeout o) (pendingRequests o) (eventListeners o) (reconnectAttempts o)
    (maxReconnectAttempts o) (initialReconnectDelay o) (isReconnecting o)
    x (sessionId o) (beforeUnloadHandler o).
Definition set_beforeUnloadHandler x (o : WKIM) : WKIM :=
  mkWKIM (ws o) (url o) (auth o) (isConnected o) (connectionPromise o) (pingInterval o)
    (pingTimeout o) (pendingRequests o) (eventListeners o) (reconnectAttempts o)
    (maxReconnectAttempts o) (initialReconnectDelay o) (isReconnecting o)
    (manualDisconnect o) (sessionId o) x.

Definition upd_this (f : WKIM -> WKIM) (w : World) : World :=
  mkWorld (f (this w)) (sockets w) (timers w) (nextTimer w) (promises w)
    (settlements w) (microtasks w) (emitted w) (delivered w) (heap w).
Definition set_sockets x (w : World) : World :=
  mkWorld (this w) x (timers w) (nextTimer w) (promises w)
    (settlements w) (microtasks w) (emitted w) (delivered w) (heap w).
Definition set_timers x (w : World) : World :=
  mkWorld (this w) (sockets w) x (nextTimer w) (promises w)
    (settlements w) (microtasks w) (emitted w) (delivered w) (heap w).
Definition set_nextTimer x (w : World) : World :=
  mkWorld (this w) (sockets w) (timers w) x (promises w)
    (settlements w) (microtasks w) (emitted w) (delivered w) (heap w).
Definition set_promises x (w : World) : World :=
  mkWorld (this w) (sockets w) (timers w) (nextTimer w) x
    (settlements w) (microtasks w) (emitted w) (delivered w) (heap w).
Definition set_settlements x (w : World) : World :=
  mkWorld (this w) (sockets w) (timers w) (nextTimer w) (promises w)
    x (microtasks w) (emitted w) (delivered w) (heap w).
Definition set_microtasks x (w : World) : World :=
  mkWorld (this w) (sockets w) (timers w) (nextTimer w) (promises w)
    (settlements w) x (emitted w) (delivered w) (heap w).
Definition set_emitted x (w : World) : World :=
  mkWorld (this w) (sockets w) (timers w) (nextTimer w) (promises w)
    (settlements w) (microtasks w) x (delivered w) (heap w).
Definition set_delivered x (w : World) : World :=
  mkWorld (this w) (sockets w) (timers w) (nextTimer w) (promises w)
    (settlements w) (microtasks w) (emitted w) x (heap w).
Definition set_heap x (w : World) : World :=
  mkWorld (this w) (sockets w) (timers w) (nextTimer w) (promises w)
    (settlements w) (microtasks w) (emitted w) (delivered w) x.

(** ** Inputs that the run time supplies during one task *)

Record Env : Type := mkEnv {
  request_uuid : string;        (* what generateUUID returns for a request id *)
  message_uuid : string;        (* what generateUUID returns for a clientMsgNo *)
  now : Z;                      (* Date.now() *)
  write_error : option Value;   (* what JSON.stringify / ws.send throws, if anything *)
  ctor_error : option Value;    (* what new WebSocketImpl(url) throws, if anything *)
  has_window : bool             (* typeof window !== 'undefined' *)
}.

(** [options] of [send]; [header] is a reference to the caller's object. *)
Record SendOptions : Type := mkSendOptions {
  clientMsgNo : option string;
  header : option nat;
  setting : JSVal;
  topic : option string
}.

(** ** Run-time primitives *)

Definition is_settled (p : nat) (w : World) : bool :=
  existsb (fun s => Nat.eqb (target s) p) (settlements w).

(** A call of a promise's [resolve] or [reject] function.  Only the first
    call on a promise takes effect and schedules its reaction. *)
Definition settle (p : nat) (o : Settle) (c : Cause) (w : World) : World :=
  let first := negb (is_settled p w) in
  let w := set_settlements (settlements w ++ [mkSettlement p o c]) w in
  if first then
    match promises w !! p with
    | Some r => set_microtasks (microtasks w ++ [(reaction r, o)]) w
    | None => w
    end
  else w.

Definition new_promise (r : PromiseRec) (w : World) : World :=
  set_promises (promises w ++ [r]) w.

(** [setTimeout] / [setInterval]: the handle returned is [nextTimer w]. *)
Definition setTimeout (cb : TimerCallback) (ms : Z) (w : World) : World :=
  set_nextTimer (S (nextTimer w))
    (set_timers (<[nextTimer w := mkTimer cb ms false]> (timers w)) w).

Definition setInterval (cb : TimerCallback) (ms : Z) (w : World) : World :=
  set_nextTimer (S (nextTimer w))
    (set_timers (<[nextTimer w := mkTimer cb ms true]> (timers w)) w).

(** [clearTimeout] / [clearInterval] *)
Definition clearTimer (h : nat) (w : World) : World :=
  set_timers (delete h (timers w)) w.

Definition upd_socket (s : nat) (f : WebSocket -> WebSocket) (w : World) : World :=
  set_sockets (alter f s (sockets w)) w.

(** [this.ws.readyState], when [this.ws] is set *)
Definition ws_readyState (w : World) : option ReadyState :=
  s ← ws (this w); readyState <$> (sockets w !! s).

(** [this.ws && this.ws.readyState === WebSocket.OPEN] *)
Definition ws_is_open (w : World) : bool :=
  bool_decide (ws_readyState w = Some OPEN).

Definition socket_send (f : Frame) (sock : WebSocket) : WebSocket :=
  mkWebSocket (readyState sock) (attached sock) (sent sock ++ [f]) (closeCalls sock).

(** [ws.close(code, reason)] *)
Definition socket_close (code : Z) (reason : string) (sock : WebSocket) : WebSocket :=
  mkWebSocket
    (match readyState sock with CONNECTING | OPEN => CLOSING | st => st end)
    (attached sock) (sent sock) (closeCalls sock ++ [(code, reason)]).

Definition socket_set_attached (b : bool) (sock : WebSocket) : WebSocket :=
  mkWebSocket (readyState sock) b (sent sock) (closeCalls sock).

Definition socket_set_readyState (st : ReadyState) (sock : WebSocket) : WebSocket :=
  mkWebSocket st (attached sock) (sent sock) (closeCalls sock).

(** [this.ws.send(JSON.stringify(frame))] *)
Definition ws_send (f : Frame) (w : World) : World :=
  match ws (this w) with
  | Some s => upd_socket s (socket_send f) w
  | None => w
  end.

Definition ws_close (code : Z) (reason : string) (w : World) : World :=
  match ws (this w) with
  | Some s => upd_socket s (socket_close code reason) w
  | None => w
  end.

Definition generateUUID (env : Env) : string := request_uuid env.

(** ** Methods of the class *)

(** [emit] with listeners that are observers: every listener registered
    for the event is called once, in registration order, and returns (or
    throws, which is caught and logged) without calling back into the
    instance and without writing to its argument.  [emit_live] further down
    is [emit] with listeners that do either, on the array of listeners
    itself; [emit_passive] relates the two. *)
Definition emit (e : Event.t) (arg : Value) (w : World) : World :=
  let w := set_emitted (emitted w ++ [(e, arg)]) w in
  match eventListeners (this w) !! Event.name e with
  | Some listeners =>
      set_delivered (delivered w ++ ((fun l => (l, e, arg)) <$> listeners)) w
  | None => w
  end.

Definition on (e : Event.t) (cb : nat) (w : World) : World :=
  match eventListeners (this w) !! Event.name e with
  | Some listeners =>
      upd_this (fun o => set_eventListeners
                  (<[Event.name e := listeners ++ [cb]]> (eventListeners o)) o) w
  | None => w
  end.

(** [listeners.splice(listeners.indexOf(callback), 1)] *)
Fixpoint remove_first (cb : nat) (l : list nat) : list nat :=
  match l with
  | [] => []
  | x :: rest => if Nat.eqb x cb then rest else x :: remove_first cb rest
  end.

Definition off (e : Event.t) (cb : nat) (w : World) : World :=
  match eventListeners (this w) !! Event.name e with
  | Some listeners =>
      upd_this (fun o => set_eventListeners
                  (<[Event.name e := remove_first cb listeners]> (eventListeners o)) o) w
  | None => w
  end.

Definition stopPing (w : World) : World :=
  let w := match pingInterval (this w) with
           | Some h => upd_this (set_pingInterval None) (clearTimer h w)
           | None => w
           end in
  match pingTimeout (this w) with
  | Some h => upd_this (set_pingTimeout None) (clearTimer h w)
  | None => w
  end.

Definition handlePong (w : World) : World := w.

Definition connection_closed : Value := VError "Connection closed".

(** The body of the [forEach] in [cleanupConnection]. *)
Definition rejectPending (w : World) (pending : PendingRequest) : World :=
  settle (reject pending) (Reject connection_closed) BySweep
    (clearTimer (timeoutTimer pending) w).

(** The end of [cleanupConnection]: the connection promise is rejected,
    unless a reconnection is under way, and forgotten... *)
Definition dropConnectionPromise (w : World) : World :=
  match connectionPromise (this w) with
  | Some c =>
      let w :=
        if negb (isReconnecting (this w)) && negb (isConnected (this w))
        then settle (cp_reject c)
               (Reject (VError "Connection closed during operation")) ByCleanup w
        else w in
      upd_this (set_connectionPromise None) w
  | None => w
  end.

(** ... and the four handlers of the socket are set to [null]. *)
Definition detachHandlers (w : World) : World :=
  match ws (this w) with
  | Some s => upd_socket s (socket_set_attached false) w
  | None => w
  end.

Definition cleanupConnection (w : World) : World :=
  let w := upd_this (set_isConnected false) w in
  let w := stopPing w in
  let w := foldl rejectPending w (snd <$> map_to_list (pendingRequests (this w))) in
  let w := upd_this (set_pendingRequests ∅) w in
  let w := dropConnectionPromise w in
  detachHandlers w.

(** A character of a [string] stands for one UTF-16 code unit in the range
    U+0000 to U+00FF, so that [String.substring] cuts as [substring] does.
    In UTF-8 such a unit takes one byte below U+0080 and two bytes from
    there on. *)
Fixpoint utf8_length (s : string) : nat :=
  match s with
  | EmptyString => 0
  | String (Ascii.Ascii _ _ _ _ _ _ _ high) rest =>
      (if high then 2 else 1) + utf8_length rest
  end.

(** [ws.close(code, reason)] throws a [SyntaxError] when the reason is longer
    than 123 bytes in UTF-8 (the codes used here, 1000 and 3001, are
    accepted). *)
Definition close_throws (reason : string) : bool := (123 <? utf8_length reason)%nat.

(** Whether the [close] call of [handleDisconnect] throws, by the state of
    the socket ... *)
Definition closeSocket_throws (graceful : bool) (reason : string) (w : World) : bool :=
  match ws_readyState w with
  | Some OPEN =>
      if graceful then close_throws "Client disconnected"
      else close_throws (String.substring 0 123 reason)
  | Some CONNECTING => close_throws (String.substring 0 123 reason)
  | _ => false
  end.

(** ... and what it does when it is accepted. *)
Definition closeSocket (graceful : bool) (reason : string) (w : World) : World :=
  match ws_readyState w with
  | Some OPEN =>
      if graceful then ws_close 1000%Z "Client disconnected" w
      else ws_close 3001%Z (String.substring 0 123 reason) w
  | Some CONNECTING => ws_close 3001%Z (String.substring 0 123 reason) w
  | _ => w
  end.

(** When the [close] call throws, the exception leaves [handleDisconnect]
    before [cleanupConnection]. *)
Definition handleDisconnect (graceful : bool) (reason : string) (w : World) : World :=
  match ws (this w) with
  | Some _ =>
      let w := stopPing w in
      if closeSocket_throws graceful reason w then w
      else cleanupConnection (closeSocket graceful reason w)
  | None => cleanupConnection w
  end.

(** Whether [handleDisconnect] is left by that exception. *)
Definition handleDisconnect_throws (graceful : bool) (reason : string) (w : World) : bool :=
  match ws (this w) with
  | Some _ => closeSocket_throws graceful reason (stopPing w)
  | None => false
  end.

Definition cleanupBeforeUnloadHandler (w : World) : World :=
  if beforeUnloadHandler (this w)
  then upd_this (set_beforeUnloadHandler false) w
  else w.

(** The reasons that [disconnect] hands on are constants of at most 20 ASCII
    characters: its [close] call is always accepted. *)
Definition disconnect (w : World) : World :=
  let w := upd_this (set_manualDisconnect true) w in
  let w := upd_this (set_isReconnecting false) w in
  let w := cleanupBeforeUnloadHandler w in
  handleDisconnect true "Manual disconnection" w.

(** [destroy], up to the update of the static [globalInstance] (see [init]). *)
Definition destroy (w : World) : World :=
  let w := disconnect w in
  let w := upd_this (set_eventListeners ∅) w in
  upd_this (set_pendingRequests ∅) w.

Definition reconnecting_info (attempt : nat) (d : Z) : Value :=
  VJson (JObj [("attempt", JNum (Z.of_nat attempt)); ("delay", JNum d)]).

Definition scheduleReconnect (w : World) : World :=
  if (maxReconnectAttempts (this w) <=? reconnectAttempts (this w))%nat then
    let w := upd_this (set_isReconnecting false) w in
    let w := upd_this (set_reconnectAttempts 0) w in
    emit Event.Error (VError "Reconnection failed.") w
  else
    let d := (initialReconnectDelay (this w) * 2 ^ Z.of_nat (reconnectAttempts (this w)))%Z in
    let w := upd_this (fun o => set_reconnectAttempts (S (reconnectAttempts o)) o) w in
    let w := emit Event.Reconnecting (reconnecting_info (reconnectAttempts (this w)) d) w in
    setTimeout TReconnect d w.

Definition tryReconnect (w : World) : World :=
  if isReconnecting (this w) || manualDisconnect (this w) then w
  else scheduleReconnect (upd_this (set_isReconnecting true) w).

(** Text of a JavaScript value inside a template string: an array is its
    elements joined by commas, [null] and [undefined] elements as the empty
    string. *)
Fixpoint to_text (v : JSVal) : string :=
  match v with
  | JUndefined => "undefined"
  | JNull => "null"
  | JBool true => "true"
  | JBool false => "false"
  | JNum n => pretty n
  | JStr s => s
  | JArr items =>
      let fix join (l : list JSVal) : string :=
        match l with
        | [] => ""
        | x :: rest =>
            (match x with JUndefined | JNull => "" | _ => to_text x end)
            +:+ (match rest with [] => "" | _ => "," +:+ join rest end)
        end in
      join items
  | JObj _ => "[object Object]"
  end.

Definition opt_str (o : option string) : JSVal :=
  match o with Some s => JStr s | None => JUndefined end.

(** [a || b] on values *)
Definition js_or (a b : JSVal) : JSVal := if truthy a then a else b.

(** [v?.k] *)
Definition get_prop_opt (v : JSVal) (k : string) : JSVal :=
  default JUndefined (get_prop v k).

Definition sendRequest (method : string) (params : JSVal) (timeoutMs : Z)
    (k : Continuation) (env : Env) (w : World) : World :=
  let p := length (promises w) in
  let w := new_promise (mkPromise (FromSendRequest method) k) w in
  if negb (ws_is_open w) then
    settle p (Reject (VError "WebSocket is not open.")) BySendRequest w
  else
    let requestId := generateUUID env in
    let request := Request method params requestId in
    let timeoutTimer := nextTimer w in
    let w := setTimeout (TRequestTimeout requestId method p) timeoutMs w in
    let w := upd_this (fun o => set_pendingRequests
                         (<[requestId := mkPending p p timeoutTimer]> (pendingRequests o)) o) w in
    match write_error env with
    | None => ws_send request w
    | Some error =>
        let w := clearTimer timeoutTimer w in
        let w := upd_this (fun o => set_pendingRequests
                             (delete requestId (pendingRequests o)) o) w in
        settle p (Reject error) BySendRequest w
    end.

(** The [setTimeout] callback installed by [sendRequest]. *)
Definition request_timeout (requestId method : string) (p : nat) (w : World) : World :=
  let w := upd_this (fun o => set_pendingRequests
                       (delete requestId (pendingRequests o)) o) w in
  settle p
    (Reject (VError ("Request timeout for method " +:+ method +:+
                     " (id: " +:+ requestId +:+ ")")))
    ByTimeout w.

Definition sendNotification (method : string) (params : JSVal) (env : Env)
    (w : World) : World :=
  if negb (ws_is_open w) then w
  else
    let notification := Notification method params in
    match write_error env with
    | None => ws_send notification w
    | Some error =>
        emit Event.Error
          (VError ("Failed to send notification " +:+ method +:+ ": " +:+ describe error)) w
    end.

Definition sendRecvAck (hdr messageId messageSeq : JSVal) (env : Env) (w : World) : World :=
  let params := JObj [("header", hdr); ("messageId", messageId); ("messageSeq", messageSeq)] in
  sendNotification "recvack" params env w.

Definition handleResponse (response : JSVal) (w : World) : World :=
  let id := get_prop_opt response "id" in
  let pending := match id with
                 | JStr i => pendingRequests (this w) !! i
                 | _ => None
                 end in
  match pending, id with
  | Some pending, JStr i =>
      let w := clearTimer (timeoutTimer pending) w in
      let w := upd_this (fun o => set_pendingRequests (delete i (pendingRequests o)) o) w in
      let error := get_prop_opt response "error" in
      if truthy error
      then settle (reject pending) (Reject (VJson error)) ByResponse w
      else settle (resolve pending) (Resolve (VJson (get_prop_opt response "result"))) ByResponse w
  | _, _ => w
  end.

Definition startPing (w : World) : World :=
  let w := stopPing w in
  let h := nextTimer w in
  upd_this (set_pingInterval (Some h)) (setInterval TPing PING_INTERVAL_MS w).

(** The [setInterval] callback installed by [startPing]. *)
Definition ping_tick (env : Env) (w : World) : World :=
  if ws_is_open w
  then sendRequest "ping" (JObj []) PONG_TIMEOUT_MS KPingThen env w
  else stopPing w.

Definition sendConnectRequest (env : Env) (w : World) : World :=
  let a := auth (this w) in
  let params :=
    JObj [("uid", JStr (uid a));
          ("token", JStr (token a));
          ("deviceId", opt_str (deviceId a));
          ("deviceFlag", js_or (match deviceFlag a with
                                | Some f => JNum f | None => JUndefined end) (JNum 2));
          ("clientTimestamp", JNum (now env))] in
  sendRequest "connect" params 5000 KAuthThen env w.

(** [.then(result => ...)] of [sendConnectRequest] *)
Definition auth_then (result : Value) (w : World) : World :=
  let w := upd_this (set_isConnected true) w in
  let w := upd_this (set_reconnectAttempts 0) w in
  let w := upd_this (set_isReconnecting false) w in
  let w := upd_this (set_manualDisconnect false) w in
  let w := startPing w in
  let w := emit Event.Connect result w in
  match connectionPromise (this w) with
  | Some c =>
      upd_this (set_connectionPromise None)
        (settle (cp_resolve c) (Resolve (VJson JUndefined)) ByHandshake w)
  | None => w
  end.

(** [.catch(error => ...)] of [sendConnectRequest]; the reason is a constant
    of 21 ASCII characters, so that [handleDisconnect] returns normally and
    [cleanupConnection] follows. *)
Definition auth_catch (error : Value) (w : World) : World :=
  let w := emit Event.Error (VError ("Authentication failed: " +:+ describe error)) w in
  let w := match connectionPromise (this w) with
           | Some c =>
               upd_this (set_connectionPromise None)
                 (settle (cp_reject c) (Reject error) ByHandshake w)
           | None => w
           end in
  let w := handleDisconnect false "Authentication failed" w in
  cleanupConnection w.

(** [.catch(err => ...)] of the ping request *)
Definition ping_catch (w : World) : World :=
  let w := emit Event.Error (VError "Ping timeout") w in
  tryReconnect w.

(** [.catch(() => ...)] of [connect()] in the reconnect timer *)
Definition reconnect_catch (w : World) : World :=
  if isReconnecting (this w) then scheduleReconnect w else w.

Definition connect (k : Continuation) (env : Env) (w : World) : World :=
  let p := length (promises w) in
  let w := new_promise (mkPromise FromConnect k) w in
  if isConnected (this w) || bool_decide (ws_readyState w = Some CONNECTING) then
    if isConnected (this w) then settle p (Resolve (VJson JUndefined)) ByConnect w
    else
      match connectionPromise (this w) with
      | Some c =>
          let c := mkConn p (cp_reject c) in     (* connectionPromise.resolve = resolve *)
          let c := mkConn (cp_resolve c) p in    (* connectionPromise.reject = reject *)
          upd_this (set_connectionPromise (Some c)) w
      | None =>
          settle p (Reject (VError "Already connecting, but no connection promise found."))
            ByConnect w
      end
  else
    let w := upd_this (set_manualDisconnect false) w in
    let w := upd_this (set_connectionPromise (Some (mkConn p p))) w in
    match ctor_error env with
    | None =>
        let s := length (sockets w) in
        let w := set_sockets (sockets w ++ [mkWebSocket CONNECTING true [] []]) w in
        upd_this (set_ws (Some s)) w
    | Some error =>
        let w := emit Event.Error error w in
        let w := match connectionPromise (this w) with
                 | Some c =>
                     upd_this (set_connectionPromise None)
                       (settle (cp_reject c) (Reject error) ByConnect w)
                 | None => w
                 end in
        cleanupConnection w
    end.

(** [ws.onopen] *)
Definition onopen (env : Env) (w : World) : World := sendConnectRequest env w.

(** [ws.onerror] *)
Definition onerror (error : Value) (w : World) : World := emit Event.Error error w.

(** [ws.onclose] *)
Definition onclose (code : Z) (reason : string) (w : World) : World :=
  let wasConnected := isConnected (this w) in
  let w :=
    match connectionPromise (this w) with
    | Some c =>
        if negb (isConnected (this w))
        then settle (cp_reject c)
               (Reject (VError ("Connection closed before authentication (Code: " +:+
                                pretty code +:+ ")")))
               ByClose w
        else w
    | None => w
    end in
  let w := cleanupConnection w in
  let w := emit Event.Disconnect
             (VJson (JObj [("code", JNum code); ("reason", JStr reason)])) w in
  if wasConnected && negb (manualDisconnect (this w)) then tryReconnect w else w.

(** The [setTimeout] callback installed by [scheduleReconnect]. *)
Definition reconnect_tick (env : Env) (w : World) : World :=
  if negb (isReconnecting (this w)) then w
  else connect KReconnectCatch env w.

(** The handler registered for [beforeunload] and [pagehide]. *)
Definition beforeUnload (w : World) : World :=
  let w := upd_this (set_manualDisconnect true) w in
  let w := upd_this (set_isReconnecting false) w in
  if ws_is_open w then ws_close 1000%Z "Page unloaded" w else w.

Definition header_set_redDot (b : bool) (h : Header) : Header :=
  mkHeader (noPersist h) (Some b) (syncOnce h) (dup h).

(** [Promise.reject(error)] *)
Definition Promise_reject (error : Value) (w : World) : World :=
  let p := length (promises w) in
  settle p (Reject error) BySend (new_promise (mkPromise FromSend KApp) w).

Definition send (channelId : string) (channelType : Z) (payload : JSVal)
    (options : SendOptions) (env : Env) (w : World) : World :=
  if negb (isConnected (this w)) || negb (ws_is_open w) then
    Promise_reject (VError "Not connected. Call connect() first.") w
  else if negb (is_object payload) then
    Promise_reject (VError "Payload must be a non-null object.") w
  else
    (* const header = options.header || {} *)
    let hdr := match header options with
               | Some l => l
               | None => length (heap w)
               end in
    let w := match header options with
             | Some _ => w
             | None => set_heap (heap w ++ [empty_header]) w
             end in
    (* header.redDot = true *)
    let w := set_heap (alter (header_set_redDot true) hdr (heap w)) w in
    let clientMsgNo := match clientMsgNo options with
                       | Some c => if String.eqb c "" then message_uuid env else c
                       | None => message_uuid env
                       end in
    let params :=
      JObj [("clientMsgNo", JStr clientMsgNo);
            ("channelId", JStr channelId);
            ("channelType", JNum channelType);
            ("payload", payload);
            ("header", header_to_js (default empty_header (heap w !! hdr)));
            ("topic", opt_str (topic options));
            ("setting", setting options)] in
    sendRequest "send" params 15000 KApp env w.

(** ** Inbound frames *)

Section Inbound.

(** [JSON.parse]: [None] when it throws a [SyntaxError]. *)
Variable JSON_parse : string -> option JSVal.

Definition event_data (hdr id type timestamp data : JSVal) : JSVal :=
  JObj [("header", hdr); ("id", id); ("type", type);
        ("timestamp", timestamp); ("data", data)].

Definition handleEventNotification (params : JSVal) (w : World) : World :=
  match get_prop params "header", get_prop params "id", get_prop params "type",
        get_prop params "timestamp", get_prop params "data" with
  | Some hdr, Some id, Some type, Some timestamp, Some data =>
      if negb (truthy id) || negb (truthy type) then
        emit Event.Error
          (VError "Invalid event notification: missing required fields") w
      else
        let data :=
          match data with
          | JStr s => match JSON_parse s with
                      | Some parsed => parsed
                      | None => JStr s
                      end
          | _ => data
          end in
        emit Event.CustomEvent (VJson (event_data hdr id type timestamp data)) w
  | _, _, _, _, _ =>
      (* reading a property of undefined / null: the outer catch *)
      emit Event.Error
        (VError "Failed to handle event notification: TypeError") w
  end.

Definition handleNotification (notification : JSVal) (env : Env) (w : World) : World :=
  let params := get_prop_opt notification "params" in
  match get_prop_opt notification "method" with
  | JStr "recv" =>
      let messageData := params in
      let w := emit Event.Message (VJson messageData) w in
      match get_prop messageData "header", get_prop messageData "messageId",
            get_prop messageData "messageSeq" with
      | Some hdr, Some messageId, Some messageSeq =>
          sendRecvAck hdr messageId messageSeq env w
      | _, _, _ => w     (* TypeError leaves the handler *)
      end
  | JStr "pong" => handlePong w
  | JStr "disconnect" =>
      let w := emit Event.Disconnect (VJson params) w in
      handleDisconnect false
        ("Server disconnected: " +:+
         to_text (js_or (get_prop_opt params "reason") (get_prop_opt params "reasonCode")))
        w
  | JStr "event" => handleEventNotification params w
  | _ => w
  end.

Definition handleMessage (data : string) (env : Env) (w : World) : World :=
  match JSON_parse data with
  | None => emit Event.Error (VError "Failed to parse message") w
  | Some message =>
      match has_prop "id" message with
      | None => w        (* TypeError leaves the handler *)
      | Some true => handleResponse message w
      | Some false =>
          match has_prop "method" message with
          | Some true => handleNotification message env w
          | _ => w
          end
      end
  end.

(** ** The event loop *)

(** What can start a turn of the event loop. *)
Inductive Task : Type :=
  | AppConnect
  | AppDisconnect
  | AppDestroy
  | AppSend (channelId : string) (channelType : Z) (payload : JSVal) (options : SendOptions)
  | AppOn (e : Event.t) (cb : nat)
  | AppOff (e : Event.t) (cb : nat)
  | AppNewHeader (h : Header)
  | WsOpen (s : nat)
  | WsMessage (s : nat) (data : string)
  | WsError (s : nat) (error : Value)
  | WsClose (s : nat) (code : Z) (reason : string)
  | TimerFire (t : nat)
  | BeforeUnload.

Definition socket_attached (s : nat) (w : World) : bool :=
  match sockets w !! s with
  | Some sock => attached sock
  | None => false
  end.

Definition fire_timer (t : nat) (env : Env) (w : World) : World :=
  match timers w !! t with
  | Some tm =>
      let w := if repeating tm then w else clearTimer t w in
      match callback tm with
      | TRequestTimeout requestId method p => request_timeout requestId method p w
      | TPing => ping_tick env w
      | TReconnect => reconnect_tick env w
      end
  | None => w
  end.

(** The synchronous part of a turn. *)
Definition handle (t : Task) (env : Env) (w : World) : World :=
  match t with
  | AppConnect => connect KApp env w
  | AppDisconnect => disconnect w
  | AppDestroy => destroy w
  | AppSend channelId channelType payload options =>
      send channelId channelType payload options env w
  | AppOn e cb => on e cb w
  | AppOff e cb => off e cb w
  | AppNewHeader h => set_heap (heap w ++ [h]) w
  | WsOpen s =>
      let w := upd_socket s (socket_set_readyState OPEN) w in
      if socket_attached s w then onopen env w else w
  | WsMessage s data =>
      if socket_attached s w then handleMessage data env w else w
  | WsError s error =>
      if socket_attached s w then onerror error w else w
  | WsClose s code reason =>
      let w := upd_socket s (socket_set_readyState CLOSED) w in
      if socket_attached s w then onclose code reason w else w
  | TimerFire t => fire_timer t env w
  | BeforeUnload =>
      if beforeUnloadHandler (this w) then beforeUnload w else w
  end.

(** One promise reaction.  [p.then(f).catch(g)] takes two reactions to reach
    [g] when [p] is rejected. *)
Definition run_reaction (k : Continuation) (o : Settle) (w : World) : World :=
  match k, o with
  | KApp, _ => w
  | KAuthThen, Resolve result => auth_then result w
  | KAuthThen, Reject r => set_microtasks (microtasks w ++ [(KAuthCatch, Reject r)]) w
  | KAuthCatch, Reject error => auth_catch error w
  | KAuthCatch, Resolve _ => w
  | KPingThen, Resolve _ => handlePong w
  | KPingThen, Reject r => set_microtasks (microtasks w ++ [(KPingCatch, Reject r)]) w
  | KPingCatch, Reject _ => ping_catch w
  | KPingCatch, Resolve _ => w
  | KReconnectCatch, Reject _ => reconnect_catch w
  | KReconnectCatch, Resolve _ => w
  end.

Definition run_microtask (w : World) : World :=
  match microtasks w with
  | [] => w
  | (k, o) :: rest => run_reaction k o (set_microtasks rest w)
  end.

Inductive Label : Type :=
  | LTask (t : Task) (env : Env)
  | LMicro.

Definition socket_in (s : nat) (states : list ReadyState) (w : World) : bool :=
  match sockets w !! s with
  | Some sock => bool_decide (readyState sock ∈ states)
  | None => false
  end.

(** Which tasks the run time can start in [w].  A task starts only when the
    micro-task queue is empty; [generateUUID] never returns the identifier
    of a request that is still in flight. *)
Definition task_enabled (t : Task) (env : Env) (w : World) : bool :=
  bool_decide (microtasks w = [])
  && bool_decide (pendingRequests (this w) !! request_uuid env = None)
  && match t with
     | AppSend _ _ _ options =>
         match header options with
         | Some l => bool_decide (l < length (heap w))
         | None => true
         end
     | WsOpen s => socket_in s [CONNECTING] w
     | WsMessage s _ => socket_in s [OPEN; CLOSING] w
     | WsError s _ => socket_in s [CONNECTING; OPEN; CLOSING] w
     | WsClose s _ _ => socket_in s [CONNECTING; OPEN; CLOSING] w
     | TimerFire t => bool_decide (is_Some (timers w !! t))
     | _ => true
     end.

Definition enabled (l : Label) (w : World) : bool :=
  match l with
  | LTask t env => task_enabled t env w
  | LMicro => negb (bool_decide (microtasks w = []))
  end.

Definition step (l : Label) (w : World) : World :=
  match l with
  | LTask t env => handle t env w
  | LMicro => run_microtask w
  end.

(** Execution of a history; [None] when some label is not enabled. *)
Fixpoint run (ls : list Label) (w : World) : option World :=
  match ls with
  | [] => Some w
  | l :: rest => if enabled l w then run rest (step l w) else None
  end.

End Inbound.

(** ** Construction and the process-wide instance *)

Definition setupBeforeUnloadHandler (env : Env) (w : World) : World :=
  if has_window env then upd_this (set_beforeUnloadHandler true) w else w.

(** [new WKIM(url, auth)] *)
Definition new_WKIM (url : string) (a : AuthOptions) (env : Env) : World :=
  let sessionId := generateUUID env in
  let a :=
    match deviceId a with
    | Some d =>
        if String.eqb d ""
        then mkAuth (uid a) (token a)
               (Some ("web_" +:+ String.substring 0 8 sessionId +:+ "_" +:+ pretty (now env)))
               (deviceFlag a)
        else a
    | None =>
        mkAuth (uid a) (token a)
          (Some ("web_" +:+ String.substring 0 8 sessionId +:+ "_" +:+ pretty (now env)))
          (deviceFlag a)
    end in
  let listeners : gmap string (list nat) :=
    foldl (fun m e => <[Event.name e := []]> m) ∅ Event.all in
  let o := mkWKIM None url a false None None None ∅ listeners 0 5 1000%Z false false
             sessionId false in
  setupBeforeUnloadHandler env (mkWorld o [] ∅ 0 [] [] [] [] [] []).

Record InitOptions : Type := mkInitOptions {
  singleton : option bool
}.

(** The instances created so far and the static field [WKIM.globalInstance]. *)
Record Registry : Type := mkRegistry {
  instances : list World;
  globalInstance : option nat
}.

(** [instance.destroy()], including the update of [globalInstance]. *)
Definition destroy_instance (i : nat) (r : Registry) : Registry :=
  let r := mkRegistry (alter destroy i (instances r)) (globalInstance r) in
  if bool_decide (globalInstance r = Some i)
  then mkRegistry (instances r) None
  else r.

(** [WKIM.init(url, auth, options)]: the registry afterwards, and either the
    error thrown or the handle of the new instance. *)
Definition init (url : string) (a : option AuthOptions) (options : InitOptions)
    (env : Env) (r : Registry) : Registry * (Value + nat) :=
  match a with
  | Some a' =>
      if String.eqb url "" || String.eqb (uid a') "" || String.eqb (token a') "" then
        (r, inl (VError "URL, uid, and token are required for initialization."))
      else
        let r :=
          match singleton options, globalInstance r with
          | Some true, Some g => destroy_instance g r
          | _, _ => r
          end in
        let instance := length (instances r) in
        let r := mkRegistry (instances r ++ [new_WKIM url a' env]) (globalInstance r) in
        let r :=
          match singleton options with
          | Some false => r
          | _ => mkRegistry (instances r) (Some instance)
          end in
        (r, inr instance)
  | None => (r, inl (VError "URL, uid, and token are required for initialization."))
  end.


(** ** Observations used in the statements *)

(** The frames written so far to the socket held in [this.ws]. *)
Definition outbox (w : World) : list Frame :=
  default [] (s ← ws (this w); sent <$> (sockets w !! s)).

(** The rejections that the sweep of [cleanupConnection] adds to the log:
    one per entry of the table. *)
Definition sweep_of (w : World) : list Settlement :=
  (fun pr => mkSettlement (reject pr) (Reject connection_closed) BySweep)
    <$> (snd <$> map_to_list (pendingRequests (this w))).

(** What [cleanupConnection] does with the connection promise: at most one
    more rejection, never of cause [BySweep]. *)
Definition connection_rejection (w : World) : list Settlement :=
  match connectionPromise (this w) with
  | Some c =>
      if negb (isReconnecting (this w))
      then [mkSettlement (cp_reject c)
              (Reject (VError "Connection closed during operation")) ByCleanup]
      else []
  | None => []
  end.

(** The acknowledgment that answers the message [params]. *)
Definition recvack_of (params : JSVal) : Frame :=
  Notification "recvack"
    (JObj [("header", get_prop_opt params "header");
           ("messageId", get_prop_opt params "messageId");
           ("messageSeq", get_prop_opt params "messageSeq")]).

(** The best-effort decode of the [data] field of an event notification. *)
Definition decoded (JSON_parse : string -> option JSVal) (data : JSVal) : JSVal :=
  match data with
  | JStr s => default (JStr s) (JSON_parse s)
  | _ => data
  end.

(** ** Sample inputs used to exercise the statements *)

Definition env_with (u : string) : Env :=
  mkEnv u "msg-1" 1700000000000%Z None None false.

Definition sample_env : Env := env_with "req-1".

Definition sample_auth : AuthOptions := mkAuth "alice" "secret" None None.

(** A stand-in for [JSON.parse] on the handful of frames used in the samples. *)
Definition sample_frames : list (string * JSVal) :=
  [("connack req-1",
    JObj [("id", JStr "req-1");
          ("result", JObj [("serverKey", JStr "k"); ("salt", JStr "s");
                           ("timeDiff", JNum 0); ("reasonCode", JNum 1)])]);
   ("connack req-2",
    JObj [("id", JStr "req-2");
          ("error", JObj [("code", JNum 2); ("message", JStr "auth failed")])]);
   ("recv m1",
    JObj [("method", JStr "recv");
          ("params", JObj [("header", JObj [("redDot", JBool true)]);
                           ("messageId", JStr "m1"); ("messageSeq", JNum 7);
                           ("channelId", JStr "bob"); ("channelType", JNum 1);
                           ("fromUid", JStr "bob"); ("payload", JObj [])])])].

Definition sample_parse (data : string) : option JSVal := assoc data sample_frames.

Definition sample_new : World := new_WKIM "ws://localhost:5100" sample_auth sample_env.

(** The session after [connect()], the transport opening, and the server
    accepting the handshake. *)
Definition connected_history : list Label :=
  [LTask AppConnect (env_with "unused-1");
   LTask (WsOpen 0) (env_with "req-1");
   LTask (WsMessage 0 "connack req-1") (env_with "unused-2");
   LMicro; LMicro].

Definition sample_connected : World :=
  default sample_new (run sample_parse connected_history sample_new).

Definition sample_registry : Registry :=
  (init "ws://localhost:5100" (Some sample_auth) (mkInitOptions None) sample_env
     (mkRegistry [] None)).1.

Definition sample_header : Header := mkHeader (Some true) (Some false) None None.

Definition sample_with_header : World :=
  handle sample_parse (AppNewHeader sample_header) (env_with "unused-3") sample_connected.

Definition sample_options : SendOptions :=
  mkSendOptions None (Some 0) JUndefined None.

Definition sample_recv : JSVal := default JNull (sample_parse "recv m1").

(** [connect()] is called a second time while the first socket is already open
    and the handshake is under way: a second socket is created and becomes
    [this.ws]; the server then accepts the handshake on the first socket. *)
Definition double_connect_history : list Label :=
  [LTask AppConnect (env_with "unused-1");
   LTask (WsOpen 0) (env_with "req-1");
   LTask AppConnect (env_with "unused-2");
   LTask (WsMessage 0 "connack req-1") (env_with "unused-3");
   LMicro; LMicro].

Definition sample_double_connect : World :=
  default sample_new (run sample_parse double_connect_history sample_new).

Definition sample_event_params : JSVal :=
  JObj [("id", JStr ""); ("type", JStr "user.status");
        ("timestamp", JNum 1700000000000); ("data", JStr "online")].

(** The connection is lost after a successful handshake: the first retry is
    scheduled (timer 2, one second). *)
Definition sample_dropped : World :=
  handle sample_parse (WsClose 0 1006 "") (env_with "unused-6") sample_connected.

(** ** The reconnection policy *)

(** The delay of the retry scheduled when the attempt counter is [k]. *)
Definition backoff (w : World) (k : nat) : Z :=
  (initialReconnectDelay (this w) * 2 ^ Z.of_nat k)%Z.

(** The session at a moment when the reconnection policy is invoked:
    disconnected, reconnecting, nothing in flight. *)
Record policy_invoked (w : World) : Prop := {
  pi_disconnected : isConnected (this w) = false;
  pi_reconnecting : isReconnecting (this w) = true;
  pi_idle : microtasks w = [];
  pi_no_pending : pendingRequests (this w) = ∅;
  pi_not_connecting : ws_readyState w ≠ Some CONNECTING;
  pi_settled_known : ∀ s, s ∈ settlements w → target s < length (promises w)
}.

(** One failed reconnection attempt, from one invocation of the policy to the
    next: the retry is scheduled; its timer fires and [connect()] opens a
    socket; the socket closes before it ever opened, which rejects the promise
    of [connect()]; the [catch] of the timer callback starts (the rejection
    has been taken off the micro-task queue). *)
Definition attempt_timer (w : World) : nat := nextTimer w.
Definition attempt_socket (w : World) : nat := length (sockets w).

Definition failed_attempt (JSON_parse : string -> option JSVal)
    (env : Env) (code : Z) (reason : string) (w : World) : World :=
  let w1 := scheduleReconnect w in
  let w2 := handle JSON_parse (TimerFire (attempt_timer w)) env w1 in
  let w3 := handle JSON_parse (WsClose (attempt_socket w) code reason) env w2 in
  set_microtasks [] w3.

Fixpoint after_failures (JSON_parse : string -> option JSVal)
    (env : Env) (code : Z) (reason : string) (K : nat) (w : World) : World :=
  match K with
  | 0 => w
  | S k => after_failures JSON_parse env code reason k
             (failed_attempt JSON_parse env code reason w)
  end.

(** The turns of the event loop that make up [K] failed attempts. *)
Fixpoint failures_history (JSON_parse : string -> option JSVal)
    (env : Env) (code : Z) (reason : string) (K : nat) (w : World) : list Label :=
  match K with
  | 0 => []
  | S k =>
      [LTask (TimerFire (attempt_timer w)) env;
       LTask (WsClose (attempt_socket w) code reason) env;
       LMicro]
      ++ failures_history JSON_parse env code reason k
           (failed_attempt JSON_parse env code reason w)
  end.

(** The session inside the [onclose] handler that follows the loss of an
    established connection, at the point where [tryReconnect] has set
    [isReconnecting] and calls [scheduleReconnect]. *)
Definition sample_lost : World :=
  upd_this (set_isReconnecting true)
    (emit Event.Disconnect (VJson (JObj [("code", JNum 1006); ("reason", JStr "")]))
       (cleanupConnection
          (upd_socket 0 (socket_set_readyState CLOSED) sample_connected))).

(** ** Histories that exercise [connect] and the handshake *)

(** [connect()] is called twice while the socket is still connecting; the
    socket then opens and the server accepts the handshake. *)
Definition chained_connect_history : list Label :=
  [LTask AppConnect (env_with "unused-1");
   LTask AppConnect (env_with "unused-2");
   LTask (WsOpen 0) (env_with "req-1");
   LTask (WsMessage 0 "connack req-1") (env_with "unused-3");
   LMicro; LMicro].

(** An established connection drops; the first retry opens a socket, on which
    the server rejects the handshake. *)
Definition rejected_retry_history : list Label :=
  connected_history
  ++ [LTask (WsClose 0 1006 "") (env_with "unused-4");
      LTask (TimerFire 2) (env_with "unused-5");
      LTask (WsOpen 1) (env_with "req-2");
      LTask (WsMessage 1 "connack req-2") (env_with "unused-6");
      LMicro; LMicro; LMicro].

(** The very first handshake is rejected by the server. *)
Definition rejected_first_history : list Label :=
  [LTask AppConnect (env_with "unused-1");
   LTask (WsOpen 0) (env_with "req-2");
   LTask (WsMessage 0 "connack req-2") (env_with "unused-2");
   LMicro; LMicro; LMicro].

(** The timers armed by [scheduleReconnect] that have not fired yet. *)
Definition reconnect_timers (w : World) : list (nat * Timer) :=
  List.filter
    (fun x : nat * Timer => match callback x.2 with TReconnect => true | _ => false end)
    (map_to_list (timers w)).

(** ** The request/response correlator *)

(** [p] is a promise returned by [sendRequest]. *)
Definition request_promise (proms : list PromiseRec) (p : nat) : Prop :=
  ∃ m k, proms !! p = Some (mkPromise (FromSendRequest m) k).

(** [r] is not a promise of [sendRequest]. *)
Definition other_promise (r : PromiseRec) : Prop :=
  match origin r with FromSendRequest _ => False | _ => True end.

(** The calls made so far of the [resolve] and [reject] functions of promise [p]. *)
Definition calls (p : nat) (setts : list Settlement) : list Settlement :=
  filter (fun s => target s = p) setts.

(** Promise [p] has an entry in the pending-request table. *)
Definition in_table (P : gmap string PendingRequest) (p : nat) : Prop :=
  ∃ id pr, P !! id = Some pr ∧ reject pr = p.

(** The three ways the correlator settles a pending request. *)
Definition by_correlator (c : Cause) : Prop :=
  c = ByResponse ∨ c = ByTimeout ∨ c = BySweep.

(** The call that the sweep of [cleanupConnection] makes for an entry. *)
Definition sweep_call (pr : PendingRequest) : Settlement :=
  mkSettlement (reject pr) (Reject connection_closed) BySweep.

Definition request_timer (tm : Timer) : Prop :=
  match callback tm with TRequestTimeout _ _ _ => True | _ => False end.

(** The invariant of the correlator, on the parts of the world it involves:
    the table, the two ping timer handles, the connection promise, the armed
    timers, the next timer handle, the promises and the settlement log. *)
Record Inv_of (P : gmap string PendingRequest) (pi pt : option nat)
    (cp : option ConnectionPromise) (T : gmap nat Timer) (nt : nat)
    (proms : list PromiseRec) (setts : list Settlement) : Prop := {
  (* an entry holds both functions of one promise of sendRequest, and its
     timeout timer is armed *)
  inv_entry : ∀ id pr, P !! id = Some pr →
    resolve pr = reject pr
    ∧ request_promise proms (reject pr)
    ∧ ∃ m d, T !! timeoutTimer pr
             = Some (mkTimer (TRequestTimeout id m (reject pr)) d false);
  (* an armed timeout timer belongs to the entry of its request *)
  inv_timer : ∀ t id m p d r,
    T !! t = Some (mkTimer (TRequestTimeout id m p) d r) →
    P !! id = Some (mkPending p p t);
  (* no two entries hold the same promise *)
  inv_unique : ∀ id1 id2 pr1 pr2,
    P !! id1 = Some pr1 → P !! id2 = Some pr2 → reject pr1 = reject pr2 → id1 = id2;
  (* a promise of sendRequest is in the table and untouched, or out of the
     table and settled by exactly one call *)
  inv_calls : ∀ p, request_promise proms p →
    (in_table P p ∧ calls p setts = [])
    ∨ (¬ in_table P p ∧ ∃ s, calls p setts = [s]);
  inv_timer_bound : ∀ t tm, T !! t = Some tm → t < nt;
  inv_ping : ∀ h, pi = Some h →
    h < nt ∧ ∀ tm, T !! h = Some tm → ¬ request_timer tm;
  inv_pingTimeout : pt = None;
  inv_conn : ∀ c, cp = Some c →
    (∃ r, proms !! cp_resolve c = Some r ∧ other_promise r)
    ∧ (∃ r, proms !! cp_reject c = Some r ∧ other_promise r);
  inv_settled_known : ∀ s, s ∈ setts → target s < length proms
}.

Definition Inv (w : World) : Prop :=
  Inv_of (pendingRequests (this w)) (pingInterval (this w)) (pingTimeout (this w))
    (connectionPromise (this w)) (timers w) (nextTimer w) (promises w) (settlements w).

(** The failure of [sendRequest] itself: the socket is not open, or the write
    throws and the [catch] block takes back the entry just made. *)
Definition by_request_code (c : Cause) : Prop :=
  by_correlator c ∨ c = BySendRequest.

(** What a piece of code may do to the promises and the settlement log:
    make new promises, and add calls; a call on a promise of [sendRequest]
    comes from the correlator, or from the very [sendRequest] call that made
    the promise. *)
Definition ext_of (proms : list PromiseRec) (setts : list Settlement)
    (proms' : list PromiseRec) (setts' : list Settlement) : Prop :=
  proms `prefix_of` proms'
  ∧ ∃ added, setts' = setts ++ added
      ∧ ∀ s, s ∈ added → request_promise proms' (target s) →
          by_correlator (cause s)
          ∨ (cause s = BySendRequest ∧ length proms ≤ target s).

Definition ext (w w' : World) : Prop :=
  ext_of (promises w) (settlements w) (promises w') (settlements w').

(** [w'] is reached from [w] by code that keeps the invariant. *)
Definition good (w w' : World) : Prop := Inv w → Inv w' ∧ ext w w'.

(** The request of promise [p] is pending: it has its entry in the table,
    which holds the two functions of [p], and its timeout timer is armed. *)
Definition pending (w : World) (p : nat) : Prop :=
  ∃ id pr m d,
    pendingRequests (this w) !! id = Some pr
    ∧ resolve pr = p ∧ reject pr = p
    ∧ timers w !! timeoutTimer pr = Some (mkTimer (TRequestTimeout id m p) d false).

(** Promise [p] has been settled, by the one call [s]. *)
Definition settled_once (w : World) (p : nat) (s : Settlement) : Prop :=
  ¬ in_table (pendingRequests (this w)) p ∧ calls p (settlements w) = [s].

(** The state inside [sendRequest] right after
    [this.pendingRequests.set(requestId, ...)], before the frame is written. *)
Definition registered (method : string) (timeoutMs : Z) (k : Continuation)
    (env : Env) (w : World) : World :=
  let p := length (promises w) in
  let w := new_promise (mkPromise (FromSendRequest method) k) w in
  let requestId := generateUUID env in
  let timeoutTimer := nextTimer w in
  let w := setTimeout (TRequestTimeout requestId method p) timeoutMs w in
  upd_this (fun o => set_pendingRequests
              (<[requestId := mkPending p p timeoutTimer]> (pendingRequests o)) o) w.

(** A message is sent in the session of [sample_connected]: its request is
    pending (promise 2, timer 2)... *)
Definition plain_options : SendOptions := mkSendOptions None None JUndefined None.

Definition pending_history : list Label :=
  connected_history ++ [LTask (AppSend "bob" 1 (JObj []) plain_options) (env_with "req-3")].

Definition sample_pending : World :=
  default sample_new (run sample_parse pending_history sample_new).

(** ... until its timeout fires. *)
Definition timeout_history : list Label :=
  [LTask (TimerFire 2) (env_with "unused-9"); LMicro].

Definition sample_timed_out : World :=
  default sample_pending (run sample_parse timeout_history sample_pending).

(** A run time in which the write of the frame throws. *)
Definition failing_env : Env :=
  mkEnv "req-4" "msg-2" 1700000000000%Z
    (Some (VError "Converting circular structure to JSON")) None false.

(** ** Observations on listeners and sockets *)

(** The callbacks registered for event [e], in registration order; empty
    when the event has no key in [eventListeners]. *)
Definition listeners (e : Event.t) (w : World) : list nat :=
  default [] (eventListeners (this w) !! Event.name e).

(** The [close(code, reason)] calls made so far on the socket in [this.ws]. *)
Definition close_calls (w : World) : list (Z * string) :=
  default [] (s ← ws (this w); closeCalls <$> (sockets w !! s)).

(** How many times callback [cb] occurs in a list of callbacks. *)
Definition registrations (cb : nat) (l : list nat) : nat :=
  length (List.filter (Nat.eqb cb) l).

(** The outcome that [handleResponse] hands to the promise of a request: the
    [error] of the response when it has one, its [result] otherwise. *)
Definition response_outcome (response : JSVal) : Settle :=
  if truthy (get_prop_opt response "error")
  then Reject (VJson (get_prop_opt response "error"))
  else Resolve (VJson (get_prop_opt response "result")).

(** A frame that [handleMessage] can do nothing with: a JSON value on which
    the ['id' in message] test throws (not an object), an object or array
    with neither an [id] nor a [method], or a response whose [id] is not the
    identifier of a pending request. *)
Definition unusable (w : World) (message : JSVal) : Prop :=
  has_prop "id" message = None
  ∨ (has_prop "id" message = Some false ∧ has_prop "method" message = Some false)
  ∨ (has_prop "id" message = Some true
     ∧ ∀ i, get_prop_opt message "id" = JStr i → pendingRequests (this w) !! i = None).

(** ** The keep-alive timer *)

(** Every armed timer that runs the keep-alive callback is the interval whose
    handle is in [pingInterval], with the period it was given by [startPing]:
    there is at most one. *)
Definition ping_timers_ok (w : World) : Prop :=
  ∀ t tm, timers w !! t = Some tm → callback tm = TPing →
    pingInterval (this w) = Some t ∧ tm = mkTimer TPing PING_INTERVAL_MS true.

(** The code run from [w0] to [w] has kept that. *)
Definition keeps_ping (w0 w : World) : Prop := ping_timers_ok w0 → ping_timers_ok w.

(** The reconnection policy with [m] attempts and base delay [b]: the
    configuration is that one, the attempt counter is within the maximum, and
    every armed timer that runs the retry callback is one-shot with one of
    the delays of the policy. *)
Definition retry_policy_ok (m : nat) (b : Z) (w : World) : Prop :=
  maxReconnectAttempts (this w) = m
  ∧ initialReconnectDelay (this w) = b
  ∧ reconnectAttempts (this w) ≤ m
  ∧ ∀ t tm, timers w !! t = Some tm → callback tm = TReconnect →
      repeating tm = false ∧ ∃ k, k < m ∧ delay tm = (b * 2 ^ Z.of_nat k)%Z.

(** The code run from [w0] to [w] has kept that. *)
Definition keeps_retry (m : nat) (b : Z) (w0 w : World) : Prop :=
  retry_policy_ok m b w0 → retry_policy_ok m b w.

(** A reason that a server can send: 110 times the letter e with an acute
    accent (U+00E9, two bytes in UTF-8). *)
Definition sample_long_reason : string :=
  String.string_of_list_ascii (replicate 110 (Ascii.ascii_of_nat 233)).

(** A [disconnect] notification of the server, and a [JSON.parse] that knows
    its frame. *)
Definition server_disconnect : JSVal :=
  JObj [("method", JStr "disconnect");
        ("params", JObj [("reasonCode", JNum 12); ("reason", JStr "kicked")])].

Definition sample_parse_more (data : string) : option JSVal :=
  if String.eqb data "disconnect kicked" then Some server_disconnect else sample_parse data.

(** The connected session with a ping in flight (timer 1 is the keep-alive
    interval), ... *)
Definition sample_pinging : World :=
  handle sample_parse (TimerFire 1) (env_with "req-5") sample_connected.

(** ... which the server then disconnects. *)
Definition kicked_history : list Label :=
  [LTask (WsMessage 0 "disconnect kicked") (env_with "unused-12"); LMicro; LMicro].

(** An instance in a browser: the unload handler is installed. *)
Definition sample_window_env : Env :=
  mkEnv "req-1" "msg-1" 1700000000000%Z None None true.

Definition sample_new_window : World :=
  new_WKIM "ws://localhost:5100" sample_auth sample_window_env.

(** The page is unloaded while the socket is connecting: the handler has no
    open socket to close, the handshake goes on, and the connection is lost
    afterwards. *)
Definition unload_while_connecting_history : list Label :=
  [LTask AppConnect (env_with "unused-1");
   LTask BeforeUnload (env_with "unused-2");
   LTask (WsOpen 0) (env_with "req-1");
   LTask (WsMessage 0 "connack req-1") (env_with "unused-3");
   LMicro; LMicro;
   LTask (WsClose 0 1006 "") (env_with "unused-4")].

(** The page is unloaded while the handshake is under way on the open
    socket: the reply of the server is handled on the closing socket before
    its close event. *)
Definition unload_during_handshake_history : list Label :=
  [LTask AppConnect (env_with "unused-1");
   LTask (WsOpen 0) (env_with "req-1");
   LTask BeforeUnload (env_with "unused-2");
   LTask (WsMessage 0 "connack req-1") (env_with "unused-3");
   LMicro; LMicro;
   LTask (WsClose 0 1000 "Page unloaded") (env_with "unused-4")].

(** The page is unloaded when the session is connected. *)
Definition unload_history : list Label :=
  [LTask (WsError 0 (VError "closing")) (env_with "unused-3");
   LTask (WsClose 0 1000 "Page unloaded") (env_with "unused-4")].

Definition sample_connected_window : World :=
  default sample_new (run sample_parse connected_history sample_new_window).

(** ** Listeners that call back into the instance

    [emit] above takes a listener for an observer: it is called, and that is
    all.  In the source a listener is application code that runs inside
    [emit], on the array of listeners itself ([forEach] does not copy it), and
    it may call the public methods of the instance or write to the object it
    is handed before [emit] returns.  The definitions of this part follow the
    same methods with such listeners; [emit_passive] and the lemmas after it
    show that they agree with the definitions above when every listener
    leaves the instance and its argument alone. *)

(** A call that a listener makes into the instance. *)
Inductive Call : Type :=
  | CallOn (e : Event.t) (cb : nat)
  | CallOff (e : Event.t) (cb : nat)
  | CallConnect (env : Env)
  | CallDisconnect
  | CallDestroy
  | CallSend (channelId : string) (channelType : Z) (payload : JSVal)
      (options : SendOptions) (env : Env).

(** One invocation of a listener: the calls it makes, in order, and what it
    leaves in the object it was handed, when it writes to it.  What it throws
    after that is caught by [emit] and logged. *)
Record Invocation : Type := mkInvocation {
  made : list Call;
  rewritten : option JSVal
}.

(** The application: what the listener [l] does when it is called for the
    event [e] with [arg], the instance being in [w]. *)
Definition Behaviour : Type := World -> nat -> Event.t -> Value -> Invocation.

Definition passive (B : Behaviour) : Prop :=
  ∀ w l e arg, B w l e arg = mkInvocation [] None.

(** Listeners that do nothing of the kind. *)
Definition silent : Behaviour := fun _ _ _ _ => mkInvocation [] None.

(** The argument after an invocation: only an object can be written to, and
    it stays one. *)
Definition leave (arg : Value) (i : Invocation) : Value :=
  match arg, rewritten i with
  | VJson v, Some v' => if is_object v && is_object v' then VJson v' else arg
  | _, _ => arg
  end.

(** The array that [forEach] walks: the one registered for the event, as
    long as the table has it ([destroy] clears the table, not the array). *)
Definition live_array (e : Event.t) (cur : list nat) (w : World) : list nat :=
  default cur (eventListeners (this w) !! Event.name e).

Section Dispatch.

(** The [emit] that a call made by a listener reaches. *)
Variable emit' : Event.t -> Value -> World -> option (World * Value).

Definition connect_live (k : Continuation) (env : Env) (w : World) : option World :=
  let p := length (promises w) in
  let w := new_promise (mkPromise FromConnect k) w in
  if isConnected (this w) || bool_decide (ws_readyState w = Some CONNECTING) then
    if isConnected (this w) then Some (settle p (Resolve (VJson JUndefined)) ByConnect w)
    else
      match connectionPromise (this w) with
      | Some c =>
          let c := mkConn p (cp_reject c) in
          let c := mkConn (cp_resolve c) p in
          Some (upd_this (set_connectionPromise (Some c)) w)
      | None =>
          Some (settle p (Reject (VError "Already connecting, but no connection promise found."))
                  ByConnect w)
      end
  else
    let w := upd_this (set_manualDisconnect false) w in
    let w := upd_this (set_connectionPromise (Some (mkConn p p))) w in
    match ctor_error env with
    | None =>
        let s := length (sockets w) in
        let w := set_sockets (sockets w ++ [mkWebSocket CONNECTING true [] []]) w in
        Some (upd_this (set_ws (Some s)) w)
    | Some error =>
        '(w, _) ← emit' Event.Error error w;
        let w := match connectionPromise (this w) with
                 | Some c =>
                     upd_this (set_connectionPromise None)
                       (settle (cp_reject c) (Reject error) ByConnect w)
                 | None => w
                 end in
        Some (cleanupConnection w)
    end.

Definition call_live (c : Call) (w : World) : option World :=
  match c with
  | CallOn e cb => Some (on e cb w)
  | CallOff e cb => Some (off e cb w)
  | CallConnect env => connect_live KApp env w
  | CallDisconnect => Some (disconnect w)
  | CallDestroy => Some (destroy w)
  | CallSend channelId channelType payload options env =>
      Some (send channelId channelType payload options env w)
  end.

(** The calls of one invocation, with the array as it is after each. *)
Fixpoint calls_live (e : Event.t) (cs : list Call) (cur : list nat) (w : World)
    : option (World * list nat) :=
  match cs with
  | [] => Some (w, cur)
  | c :: rest =>
      w ← call_live c w;
      calls_live e rest (live_array e cur w) w
  end.

(** [listeners.forEach(callback => ...)]: positions [k], [k + 1], ... of the
    array as it is when each is reached, [n] of them; a position that the
    array no longer has is passed over. *)
Fixpoint forEach_live (B : Behaviour) (e : Event.t) (n k : nat) (cur : list nat)
    (arg : Value) (w : World) : option (World * Value) :=
  match n with
  | 0 => Some (w, arg)
  | S n =>
      match cur !! k with
      | Some l =>
          let i := B w l e arg in
          let w := set_delivered (delivered w ++ [(l, e, arg)]) w in
          '(w, cur) ← calls_live e (made i) cur w;
          forEach_live B e n (S k) cur (leave arg i) w
      | None => forEach_live B e n (S k) cur arg w
      end
  end.

Definition emit_body (B : Behaviour) (e : Event.t) (arg : Value) (w : World)
    : option (World * Value) :=
  let w := set_emitted (emitted w ++ [(e, arg)]) w in
  match eventListeners (this w) !! Event.name e with
  | Some listeners => forEach_live B e (length listeners) 0 listeners arg w
  | None => Some (w, arg)
  end.

End Dispatch.

(** [emit] with the listeners of [B]: the instance afterwards and the
    argument as the listeners left it.  Listeners can call [connect], whose
    failure emits an error, whose listeners can call [connect], and so on:
    [fuel] bounds the depth of [emit] inside [emit], and [None] is a
    dispatch deeper than that. *)
Fixpoint emit_live (fuel : nat) (B : Behaviour) (e : Event.t) (arg : Value) (w : World)
    : option (World * Value) :=
  match fuel with
  | 0 => None
  | S fuel => emit_body (emit_live fuel B) B e arg w
  end.

(** *** The methods that emit *)

Section LiveMethods.

Variables (fuel : nat) (B : Behaviour).

(** [JSON.parse]: [None] when it throws a [SyntaxError]. *)
Variable JSON_parse : string -> option JSVal.

Definition emit_then (e : Event.t) (arg : Value) (w : World) : option World :=
  fst <$> emit_live fuel B e arg w.

Definition scheduleReconnect_live (w : World) : option World :=
  if (maxReconnectAttempts (this w) <=? reconnectAttempts (this w))%nat then
    let w := upd_this (set_isReconnecting false) w in
    let w := upd_this (set_reconnectAttempts 0) w in
    emit_then Event.Error (VError "Reconnection failed.") w
  else
    let d := (initialReconnectDelay (this w) * 2 ^ Z.of_nat (reconnectAttempts (this w)))%Z in
    let w := upd_this (fun o => set_reconnectAttempts (S (reconnectAttempts o)) o) w in
    w ← emit_then Event.Reconnecting (reconnecting_info (reconnectAttempts (this w)) d) w;
    Some (setTimeout TReconnect d w).

Definition tryReconnect_live (w : World) : option World :=
  if isReconnecting (this w) || manualDisconnect (this w) then Some w
  else scheduleReconnect_live (upd_this (set_isReconnecting true) w).

Definition sendNotification_live (method : string) (params : JSVal) (env : Env)
    (w : World) : option World :=
  if negb (ws_is_open w) then Some w
  else
    let notification := Notification method params in
    match write_error env with
    | None => Some (ws_send notification w)
    | Some error =>
        emit_then Event.Error
          (VError ("Failed to send notification " +:+ method +:+ ": " +:+ describe error)) w
    end.

Definition sendRecvAck_live (hdr messageId messageSeq : JSVal) (env : Env) (w : World)
    : option World :=
  let params := JObj [("header", hdr); ("messageId", messageId); ("messageSeq", messageSeq)] in
  sendNotification_live "recvack" params env w.

Definition auth_then_live (result : Value) (w : World) : option World :=
  let w := upd_this (set_isConnected true) w in
  let w := upd_this (set_reconnectAttempts 0) w in
  let w := upd_this (set_isReconnecting false) w in
  let w := upd_this (set_manualDisconnect false) w in
  let w := startPing w in
  w ← emit_then Event.Connect result w;
  Some match connectionPromise (this w) with
       | Some c =>
           upd_this (set_connectionPromise None)
             (settle (cp_resolve c) (Resolve (VJson JUndefined)) ByHandshake w)
       | None => w
       end.

Definition auth_catch_live (error : Value) (w : World) : option World :=
  w ← emit_then Event.Error (VError ("Authentication failed: " +:+ describe error)) w;
  let w := match connectionPromise (this w) with
           | Some c =>
               upd_this (set_connectionPromise None)
                 (settle (cp_reject c) (Reject error) ByHandshake w)
           | None => w
           end in
  let w := handleDisconnect false "Authentication failed" w in
  Some (cleanupConnection w).

Definition ping_catch_live (w : World) : option World :=
  w ← emit_then Event.Error (VError "Ping timeout") w;
  tryReconnect_live w.

Definition reconnect_catch_live (w : World) : option World :=
  if isReconnecting (this w) then scheduleReconnect_live w else Some w.

Definition onerror_live (error : Value) (w : World) : option World :=
  emit_then Event.Error error w.

Definition onclose_live (code : Z) (reason : string) (w : World) : option World :=
  let wasConnected := isConnected (this w) in
  let w :=
    match connectionPromise (this w) with
    | Some c =>
        if negb (isConnected (this w))
        then settle (cp_reject c)
               (Reject (VError ("Connection closed before authentication (Code: " +:+
                                pretty code +:+ ")")))
               ByClose w
        else w
    | None => w
    end in
  let w := cleanupConnection w in
  w ← emit_then Event.Disconnect
        (VJson (JObj [("code", JNum code); ("reason", JStr reason)])) w;
  if wasConnected && negb (manualDisconnect (this w)) then tryReconnect_live w else Some w.

Definition reconnect_tick_live (env : Env) (w : World) : option World :=
  if negb (isReconnecting (this w)) then Some w
  else connect_live (emit_live fuel B) KReconnectCatch env w.

Definition handleEventNotification_live (params : JSVal) (w : World) : option World :=
  match get_prop params "header", get_prop params "id", get_prop params "type",
        get_prop params "timestamp", get_prop params "data" with
  | Some hdr, Some id, Some type, Some timestamp, Some data =>
      if negb (truthy id) || negb (truthy type) then
        emit_then Event.Error
          (VError "Invalid event notification: missing required fields") w
      else
        let data :=
          match data with
          | JStr s => match JSON_parse s with
                      | Some parsed => parsed
                      | None => JStr s
                      end
          | _ => data
          end in
        emit_then Event.CustomEvent (VJson (event_data hdr id type timestamp data)) w
  | _, _, _, _, _ =>
      emit_then Event.Error
        (VError "Failed to handle event notification: TypeError") w
  end.

(** What is read from the argument of [emit] after the listeners have run. *)
Definition payload_after (before : JSVal) (after : Value) : JSVal :=
  match after with
  | VJson v => v
  | VError _ => before
  end.

Definition handleNotification_live (notification : JSVal) (env : Env) (w : World)
    : option World :=
  let params := get_prop_opt notification "params" in
  match get_prop_opt notification "method" with
  | JStr "recv" =>
      let messageData := params in
      '(w, after) ← emit_live fuel B Event.Message (VJson messageData) w;
      let messageData := payload_after messageData after in
      match get_prop messageData "header", get_prop messageData "messageId",
            get_prop messageData "messageSeq" with
      | Some hdr, Some messageId, Some messageSeq =>
          sendRecvAck_live hdr messageId messageSeq env w
      | _, _, _ => Some w
      end
  | JStr "pong" => Some (handlePong w)
  | JStr "disconnect" =>
      '(w, after) ← emit_live fuel B Event.Disconnect (VJson params) w;
      let params := payload_after params after in
      Some (handleDisconnect false
              ("Server disconnected: " +:+
               to_text (js_or (get_prop_opt params "reason")
                              (get_prop_opt params "reasonCode")))
              w)
  | JStr "event" => handleEventNotification_live params w
  | _ => Some w
  end.

Definition handleMessage_live (data : string) (env : Env) (w : World) : option World :=
  match JSON_parse data with
  | None => emit_then Event.Error (VError "Failed to parse message") w
  | Some message =>
      match has_prop "id" message with
      | None => Some w
      | Some true => Some (handleResponse message w)
      | Some false =>
          match has_prop "method" message with
          | Some true => handleNotification_live message env w
          | _ => Some w
          end
      end
  end.

Definition fire_timer_live (t : nat) (env : Env) (w : World) : option World :=
  match timers w !! t with
  | Some tm =>
      let w := if repeating tm then w else clearTimer t w in
      match callback tm with
      | TRequestTimeout requestId method p => Some (request_timeout requestId method p w)
      | TPing => Some (ping_tick env w)
      | TReconnect => reconnect_tick_live env w
      end
  | None => Some w
  end.

Definition handle_live (t : Task) (env : Env) (w : World) : option World :=
  match t with
  | AppConnect => connect_live (emit_live fuel B) KApp env w
  | AppDisconnect => Some (disconnect w)
  | AppDestroy => Some (destroy w)
  | AppSend channelId channelType payload options =>
      Some (send channelId channelType payload options env w)
  | AppOn e cb => Some (on e cb w)
  | AppOff e cb => Some (off e cb w)
  | AppNewHeader h => Some (set_heap (heap w ++ [h]) w)
  | WsOpen s =>
      let w := upd_socket s (socket_set_readyState OPEN) w in
      if socket_attached s w then Some (onopen env w) else Some w
  | WsMessage s data =>
      if socket_attached s w then handleMessage_live data env w else Some w
  | WsError s error =>
      if socket_attached s w then onerror_live error w else Some w
  | WsClose s code reason =>
      let w := upd_socket s (socket_set_readyState CLOSED) w in
      if socket_attached s w then onclose_live code reason w else Some w
  | TimerFire t => fire_timer_live t env w
  | BeforeUnload =>
      Some (if beforeUnloadHandler (this w) then beforeUnload w else w)
  end.

Definition run_reaction_live (k : Continuation) (o : Settle) (w : World) : option World :=
  match k, o with
  | KAuthThen, Resolve result => auth_then_live result w
  | KAuthCatch, Reject error => auth_catch_live error w
  | KPingCatch, Reject _ => ping_catch_live w
  | KReconnectCatch, Reject _ => reconnect_catch_live w
  | _, _ => Some (run_reaction k o w)
  end.

Definition run_microtask_live (w : World) : option World :=
  match microtasks w with
  | [] => Some w
  | (k, o) :: rest => run_reaction_live k o (set_microtasks rest w)
  end.

Definition step_live (l : Label) (w : World) : option World :=
  match l with
  | LTask t env => handle_live t env w
  | LMicro => run_microtask_live w
  end.

(** Execution of a history with the listeners of [B]; [None] when some label
    is not enabled or a dispatch is deeper than [fuel]. *)
Fixpoint run_live (ls : list Label) (w : World) : option World :=
  match ls with
  | [] => Some w
  | l :: rest =>
      if enabled l w then w ← step_live l w; run_live rest w else None
  end.

(** The turns [ls] one after the other, wherever the run time starts them. *)
Fixpoint turns_live (ls : list Label) (w : World) : option World :=
  match ls with
  | [] => Some w
  | l :: rest => w ← step_live l w; turns_live rest w
  end.

End LiveMethods.

(** Events that are all [error] events. *)
Definition only_errors (l : list (Event.t * Value)) : Prop :=
  ∀ x, x ∈ l → x.1 = Event.Error.

(** From [w] to [w'] nothing but [error] events has been emitted. *)
Definition emits_errors (w w' : World) : Prop :=
  ∃ errors, emitted w' = emitted w ++ errors ∧ only_errors errors.

(** [emit e arg] has recorded [(e, arg)], and after it nothing but the
    [error] events that the calls of the listeners bring. *)
Definition emits_event (e : Event.t) (arg : Value) (w w' : World) : Prop :=
  ∃ errors, emitted w' = emitted w ++ (e, arg) :: errors ∧ only_errors errors.

(** *** Samples with listeners that call back *)

(** Two listeners for [message] on the connected session. *)
Definition sample_listening : World :=
  on Event.Message 8 (on Event.Message 7 sample_connected).

(** Listener 7 calls [disconnect()] when it is handed a message. *)
Definition disconnecting_listener : Behaviour := fun _ l e _ =>
  match e, l with
  | Event.Message, 7 => mkInvocation [CallDisconnect] None
  | _, _ => mkInvocation [] None
  end.

(** Listener 7 renumbers the message that it is handed. *)
Definition renumbering_listener : Behaviour := fun _ l e _ =>
  match e, l with
  | Event.Message, 7 =>
      mkInvocation []
        (Some (JObj [("header", JObj []); ("messageId", JStr "m2"); ("messageSeq", JNum 8)]))
  | _, _ => mkInvocation [] None
  end.

(** Listener 7 takes itself off when it is called: a one-shot listener. *)
Definition one_shot_listener : Behaviour := fun _ l e _ =>
  match l with
  | 7 => mkInvocation [CallOff e 7] None
  | _ => mkInvocation [] None
  end.

(** ** A session that the application has stopped (C6) *)

(** No handshake can still succeed: no reaction to an accepted [connect]
    request is queued, and no request of the table would start one when it is
    resolved. *)
Definition no_handshake_pending (w : World) : Prop :=
  (∀ k o, (k, o) ∈ microtasks w → k = KAuthThen → ∃ r, o = Reject r)
  ∧ (∀ id pr, pendingRequests (this w) !! id = Some pr →
       ∃ r, promises w !! resolve pr = Some r ∧ reaction r ≠ KAuthThen).

(** The state that [disconnect()] leaves, and that lasts until [connect()] is
    called again: manually disconnected, not reconnecting, the socket of
    [this.ws] neither connecting nor open, no handshake pending. *)
Record stopped (w : World) : Prop := mkStopped {
  st_manual : manualDisconnect (this w) = true;
  st_idle : isReconnecting (this w) = false;
  st_not_connecting : ws_readyState w ≠ Some CONNECTING;
  st_not_open : ws_readyState w ≠ Some OPEN;
  st_no_handshake : no_handshake_pending w
}.

(** The code run from [w0] to [w] has kept the session stopped: it has armed
    no timer and created no socket. *)
Definition stays_stopped (w0 w : World) : Prop :=
  stopped w
  ∧ (∀ t tm, timers w !! t = Some tm → timers w0 !! t = Some tm)
  ∧ length (sockets w) = length (sockets w0).

(** A history in which the application does not call [connect()], ... *)
Definition no_connect_call (h : list Label) : Prop :=
  ∀ env, LTask AppConnect env ∉ h.

(** ... and listeners that never call it either. *)
Definition never_connects (B : Behaviour) : Prop :=
  ∀ w l e arg env, CallConnect env ∉ made (B w l e arg).

(** Listeners that take themselves off when the connection is reported
    lost, and do nothing else. *)
Definition sample_behaviour : Behaviour := fun _ l e _ =>
  match e with
  | Event.Disconnect => mkInvocation [CallOff Event.Disconnect l] None
  | _ => mkInvocation [] None
  end.

(** What the application does after its [disconnect()] in the reconnection
    delay of [sample_dropped]. *)
Definition idle_history : list Label :=
  [LTask (AppOn Event.Disconnect 7) (env_with "unused-7");
   LTask (AppSend "bob" 1 (JObj []) plain_options) (env_with "req-3");
   LMicro;
   LTask AppDisconnect (env_with "unused-8")].

Definition sample_idle : World :=
  default sample_new
    (run_live 1 sample_behaviour sample_parse idle_history (disconnect sample_dropped)).

(** The other course: after [disconnect()] in the reconnection delay of
    [sample_dropped] (timer 2 is armed), a new [connect()] that succeeds on
    socket 1, and the loss of that connection, all before timer 2 fires. *)
Definition stale_timer_history : list Label :=
  [LTask AppConnect (env_with "unused-8");
   LTask (WsOpen 1) (env_with "req-1");
   LTask (WsMessage 1 "connack req-1") (env_with "unused-9");
   LMicro;
   LMicro;
   LTask (WsClose 1 1006 "") (env_with "unused-10")].

Definition sample_stale_timer : World :=
  default sample_new
    (run_live 1 sample_behaviour sample_parse stale_timer_history (disconnect sample_dropped)).
(** * Properties *)

(** ** Reading fields of an updated world *)

(** Reduction of field reads over field updates. *)
Ltac fields :=
  cbv zeta; cbn [this sockets timers nextTimer promises settlements microtasks emitted
       delivered heap
       ws url auth isConnected connectionPromise pingInterval pingTimeout
       pendingRequests eventListeners reconnectAttempts maxReconnectAttempts
       initialReconnectDelay isReconnecting manualDisconnect sessionId
       beforeUnloadHandler
       upd_this set_sockets set_timers set_nextTimer set_promises set_settlements
       set_microtasks set_emitted set_delivered set_heap
       set_ws set_isConnected set_connectionPromise set_pingInterval
       set_pingTimeout set_pendingRequests set_eventListeners
       set_reconnectAttempts set_isReconnecting set_manualDisconnect
       set_beforeUnloadHandler new_promise setTimeout setInterval clearTimer
       upd_socket negb andb orb].

Ltac fields_in H :=
  cbv zeta in H; cbn [this sockets timers nextTimer promises settlements microtasks emitted
       delivered heap
       ws url auth isConnected connectionPromise pingInterval pingTimeout
       pendingRequests eventListeners reconnectAttempts maxReconnectAttempts
       initialReconnectDelay isReconnecting manualDisconnect sessionId
       beforeUnloadHandler
       upd_this set_sockets set_timers set_nextTimer set_promises set_settlements
       set_microtasks set_emitted set_delivered set_heap
       set_ws set_isConnected set_connectionPromise set_pingInterval
       set_pingTimeout set_pendingRequests set_eventListeners
       set_reconnectAttempts set_isReconnecting set_manualDisconnect
       set_beforeUnloadHandler new_promise setTimeout setInterval clearTimer
       upd_socket negb andb orb] in H.

Create Rewrite HintDb world.

Ltac wsimpl :=
  repeat first [progress fields | progress (autorewrite with world)].

Ltac wsimpl_in H :=
  repeat first [progress (fields_in H) | progress (autorewrite with world in H)].

(** Case analysis on whatever the goal still branches on, innermost first. *)
Ltac split_case x :=
  lazymatch x with
  | context [match _ with _ => _ end] => fail
  | _ => let E := fresh "E" in destruct x eqn:E; try wsimpl_in E
  end.

Ltac frame :=
  repeat first
    [ progress wsimpl
    | match goal with
      | |- context [match ?x with _ => _ end] => split_case x
      end ];
  try done; try by simplify_eq.

(** Two instances, and two worlds, are equal when their fields are. *)
Lemma WKIM_ext (o1 o2 : WKIM) :
  ws o1 = ws o2 → url o1 = url o2 → auth o1 = auth o2 →
  isConnected o1 = isConnected o2 → connectionPromise o1 = connectionPromise o2 →
  pingInterval o1 = pingInterval o2 → pingTimeout o1 = pingTimeout o2 →
  pendingRequests o1 = pendingRequests o2 → eventListeners o1 = eventListeners o2 →
  reconnectAttempts o1 = reconnectAttempts o2 →
  maxReconnectAttempts o1 = maxReconnectAttempts o2 →
  initialReconnectDelay o1 = initialReconnectDelay o2 →
  isReconnecting o1 = isReconnecting o2 → manualDisconnect o1 = manualDisconnect o2 →
  sessionId o1 = sessionId o2 → beforeUnloadHandler o1 = beforeUnloadHandler o2 →
  o1 = o2.
Proof. destruct o1, o2. simpl. intros. by subst. Qed.

Lemma World_ext (w1 w2 : World) :
  this w1 = this w2 → sockets w1 = sockets w2 → timers w1 = timers w2 →
  nextTimer w1 = nextTimer w2 → promises w1 = promises w2 →
  settlements w1 = settlements w2 → microtasks w1 = microtasks w2 →
  emitted w1 = emitted w2 → delivered w1 = delivered w2 → heap w1 = heap w2 →
  w1 = w2.
Proof. destruct w1, w2. simpl. intros. by subst. Qed.

(** ** What each method leaves alone *)

(** [settle] only touches the settlement log and the micro-task queue. *)

Lemma settle_this p o c w : this (settle p o c w) = this w.
Proof. unfold settle. frame. Qed.

Lemma settle_sockets p o c w : sockets (settle p o c w) = sockets w.
Proof. unfold settle. frame. Qed.

Lemma settle_timers p o c w : timers (settle p o c w) = timers w.
Proof. unfold settle. frame. Qed.

Lemma settle_nextTimer p o c w : nextTimer (settle p o c w) = nextTimer w.
Proof. unfold settle. frame. Qed.

Lemma settle_promises p o c w : promises (settle p o c w) = promises w.
Proof. unfold settle. frame. Qed.

Lemma settle_emitted p o c w : emitted (settle p o c w) = emitted w.
Proof. unfold settle. frame. Qed.

Lemma settle_delivered p o c w : delivered (settle p o c w) = delivered w.
Proof. unfold settle. frame. Qed.

Lemma settle_heap p o c w : heap (settle p o c w) = heap w.
Proof. unfold settle. frame. Qed.

#[global] Hint Rewrite settle_this settle_sockets settle_timers settle_nextTimer settle_promises settle_emitted settle_delivered settle_heap : world.

Lemma settle_settlements p o c w :
  settlements (settle p o c w) = settlements w ++ [mkSettlement p o c].
Proof. unfold settle. frame. Qed.

#[global] Hint Rewrite settle_settlements : world.

(** [emit] only touches the two event logs. *)

Lemma emit_this e arg w : this (emit e arg w) = this w.
Proof. unfold emit. frame. Qed.

Lemma emit_sockets e arg w : sockets (emit e arg w) = sockets w.
Proof. unfold emit. frame. Qed.

Lemma emit_timers e arg w : timers (emit e arg w) = timers w.
Proof. unfold emit. frame. Qed.

Lemma emit_nextTimer e arg w : nextTimer (emit e arg w) = nextTimer w.
Proof. unfold emit. frame. Qed.

Lemma emit_promises e arg w : promises (emit e arg w) = promises w.
Proof. unfold emit. frame. Qed.

Lemma emit_settlements e arg w : settlements (emit e arg w) = settlements w.
Proof. unfold emit. frame. Qed.

Lemma emit_microtasks e arg w : microtasks (emit e arg w) = microtasks w.
Proof. unfold emit. frame. Qed.

Lemma emit_heap e arg w : heap (emit e arg w) = heap w.
Proof. unfold emit. frame. Qed.

#[global] Hint Rewrite emit_this emit_sockets emit_timers emit_nextTimer emit_promises emit_settlements emit_microtasks emit_heap : world.

Lemma emit_emitted e arg w : emitted (emit e arg w) = emitted w ++ [(e, arg)].
Proof. unfold emit. frame. Qed.

Lemma emit_delivered e arg w :
  delivered (emit e arg w)
  = delivered w
    ++ ((fun l => (l, e, arg)) <$> default [] (eventListeners (this w) !! Event.name e)).
Proof. unfold emit. frame. simpl. by rewrite app_nil_r. Qed.

#[global] Hint Rewrite emit_emitted emit_delivered : world.

(** Writing to, or closing, the socket only touches the sockets. *)

Lemma ws_send_this f w : this (ws_send f w) = this w.
Proof. unfold ws_send. frame. Qed.

Lemma ws_send_timers f w : timers (ws_send f w) = timers w.
Proof. unfold ws_send. frame. Qed.

Lemma ws_send_nextTimer f w : nextTimer (ws_send f w) = nextTimer w.
Proof. unfold ws_send. frame. Qed.

Lemma ws_send_promises f w : promises (ws_send f w) = promises w.
Proof. unfold ws_send. frame. Qed.

Lemma ws_send_settlements f w : settlements (ws_send f w) = settlements w.
Proof. unfold ws_send. frame. Qed.

Lemma ws_send_microtasks f w : microtasks (ws_send f w) = microtasks w.
Proof. unfold ws_send. frame. Qed.

Lemma ws_send_emitted f w : emitted (ws_send f w) = emitted w.
Proof. unfold ws_send. frame. Qed.

Lemma ws_send_delivered f w : delivered (ws_send f w) = delivered w.
Proof. unfold ws_send. frame. Qed.

Lemma ws_send_heap f w : heap (ws_send f w) = heap w.
Proof. unfold ws_send. frame. Qed.

#[global] Hint Rewrite ws_send_this ws_send_timers ws_send_nextTimer ws_send_promises ws_send_settlements ws_send_microtasks ws_send_emitted ws_send_delivered ws_send_heap : world.

Lemma ws_close_this code reason w : this (ws_close code reason w) = this w.
Proof. unfold ws_close. frame. Qed.

Lemma ws_close_timers code reason w : timers (ws_close code reason w) = timers w.
Proof. unfold ws_close. frame. Qed.

Lemma ws_close_nextTimer code reason w : nextTimer (ws_close code reason w) = nextTimer w.
Proof. unfold ws_close. frame. Qed.

Lemma ws_close_promises code reason w : promises (ws_close code reason w) = promises w.
Proof. unfold ws_close. frame. Qed.

Lemma ws_close_settlements code reason w : settlements (ws_close code reason w) = settlements w.
Proof. unfold ws_close. frame. Qed.

Lemma ws_close_microtasks code reason w : microtasks (ws_close code reason w) = microtasks w.
Proof. unfold ws_close. frame. Qed.

Lemma ws_close_emitted code reason w : emitted (ws_close code reason w) = emitted w.
Proof. unfold ws_close. frame. Qed.

Lemma ws_close_delivered code reason w : delivered (ws_close code reason w) = delivered w.
Proof. unfold ws_close. frame. Qed.

Lemma ws_close_heap code reason w : heap (ws_close code reason w) = heap w.
Proof. unfold ws_close. frame. Qed.

#[global] Hint Rewrite ws_close_this ws_close_timers ws_close_nextTimer ws_close_promises ws_close_settlements ws_close_microtasks ws_close_emitted ws_close_delivered ws_close_heap : world.

Lemma ws_send_sockets f w :
  sockets (ws_send f w)
  = match ws (this w) with
    | Some s => alter (socket_send f) s (sockets w)
    | None => sockets w
    end.
Proof. unfold ws_send. frame. Qed.

Lemma ws_close_sockets code reason w :
  sockets (ws_close code reason w)
  = match ws (this w) with
    | Some s => alter (socket_close code reason) s (sockets w)
    | None => sockets w
    end.
Proof. unfold ws_close. frame. Qed.

(** [stopPing] clears the two ping timers and forgets their handles. *)

Lemma stopPing_sockets w : sockets (stopPing w) = sockets w.
Proof. unfold stopPing. frame. Qed.

Lemma stopPing_nextTimer w : nextTimer (stopPing w) = nextTimer w.
Proof. unfold stopPing. frame. Qed.

Lemma stopPing_promises w : promises (stopPing w) = promises w.
Proof. unfold stopPing. frame. Qed.

Lemma stopPing_settlements w : settlements (stopPing w) = settlements w.
Proof. unfold stopPing. frame. Qed.

Lemma stopPing_microtasks w : microtasks (stopPing w) = microtasks w.
Proof. unfold stopPing. frame. Qed.

Lemma stopPing_emitted w : emitted (stopPing w) = emitted w.
Proof. unfold stopPing. frame. Qed.

Lemma stopPing_delivered w : delivered (stopPing w) = delivered w.
Proof. unfold stopPing. frame. Qed.

Lemma stopPing_heap w : heap (stopPing w) = heap w.
Proof. unfold stopPing. frame. Qed.

#[global] Hint Rewrite stopPing_sockets stopPing_nextTimer stopPing_promises stopPing_settlements stopPing_microtasks stopPing_emitted stopPing_delivered stopPing_heap : world.

Definition delete_opt (h : option nat) (m : gmap nat Timer) : gmap nat Timer :=
  match h with Some t => delete t m | None => m end.

Lemma stopPing_this w :
  this (stopPing w) = set_pingTimeout None (set_pingInterval None (this w)).
Proof. apply WKIM_ext; fields; unfold stopPing; frame. Qed.

Lemma stopPing_timers w :
  timers (stopPing w)
  = delete_opt (pingTimeout (this w)) (delete_opt (pingInterval (this w)) (timers w)).
Proof. unfold stopPing, delete_opt. frame. Qed.

#[global] Hint Rewrite stopPing_this stopPing_timers : world.

(** The sweep of [cleanupConnection]. *)

Lemma sweep_settlements l w :
  settlements (foldl rejectPending w l)
  = settlements w
    ++ ((fun pr => mkSettlement (reject pr) (Reject connection_closed) BySweep) <$> l).
Proof.
  revert w. induction l as [|pr l IH]; intros w; simpl.
  - by rewrite app_nil_r.
  - rewrite IH. unfold rejectPending. wsimpl. by rewrite <- app_assoc.
Qed.

Lemma sweep_timers l w :
  timers (foldl rejectPending w l)
  = foldl (fun m pr => delete (timeoutTimer pr) m) (timers w) l.
Proof.
  revert w. induction l as [|pr l IH]; intros w; simpl; [done|].
  rewrite IH. unfold rejectPending. by wsimpl.
Qed.

Lemma sweep_this l w : this (foldl rejectPending w l) = this w.
Proof.
  revert w. induction l as [|pr l IH]; intros w; simpl; [done|].
  rewrite IH. unfold rejectPending. by wsimpl.
Qed.

Lemma sweep_sockets l w : sockets (foldl rejectPending w l) = sockets w.
Proof.
  revert w. induction l as [|pr l IH]; intros w; simpl; [done|].
  rewrite IH. unfold rejectPending. by wsimpl.
Qed.

Lemma sweep_nextTimer l w : nextTimer (foldl rejectPending w l) = nextTimer w.
Proof.
  revert w. induction l as [|pr l IH]; intros w; simpl; [done|].
  rewrite IH. unfold rejectPending. by wsimpl.
Qed.

Lemma sweep_promises l w : promises (foldl rejectPending w l) = promises w.
Proof.
  revert w. induction l as [|pr l IH]; intros w; simpl; [done|].
  rewrite IH. unfold rejectPending. by wsimpl.
Qed.

Lemma sweep_emitted l w : emitted (foldl rejectPending w l) = emitted w.
Proof.
  revert w. induction l as [|pr l IH]; intros w; simpl; [done|].
  rewrite IH. unfold rejectPending. by wsimpl.
Qed.

Lemma sweep_delivered l w : delivered (foldl rejectPending w l) = delivered w.
Proof.
  revert w. induction l as [|pr l IH]; intros w; simpl; [done|].
  rewrite IH. unfold rejectPending. by wsimpl.
Qed.

Lemma sweep_heap l w : heap (foldl rejectPending w l) = heap w.
Proof.
  revert w. induction l as [|pr l IH]; intros w; simpl; [done|].
  rewrite IH. unfold rejectPending. by wsimpl.
Qed.

#[global] Hint Rewrite sweep_settlements sweep_timers sweep_this sweep_sockets
  sweep_nextTimer sweep_promises sweep_emitted sweep_delivered sweep_heap : world.

(** The helpers of [cleanupConnection] and [handleDisconnect]. *)

Lemma dropConnectionPromise_sockets w : sockets (dropConnectionPromise w) = sockets w.
Proof. unfold dropConnectionPromise. frame. Qed.

Lemma dropConnectionPromise_timers w : timers (dropConnectionPromise w) = timers w.
Proof. unfold dropConnectionPromise. frame. Qed.

Lemma dropConnectionPromise_nextTimer w : nextTimer (dropConnectionPromise w) = nextTimer w.
Proof. unfold dropConnectionPromise. frame. Qed.

Lemma dropConnectionPromise_promises w : promises (dropConnectionPromise w) = promises w.
Proof. unfold dropConnectionPromise. frame. Qed.

Lemma dropConnectionPromise_emitted w : emitted (dropConnectionPromise w) = emitted w.
Proof. unfold dropConnectionPromise. frame. Qed.

Lemma dropConnectionPromise_delivered w : delivered (dropConnectionPromise w) = delivered w.
Proof. unfold dropConnectionPromise. frame. Qed.

Lemma dropConnectionPromise_heap w : heap (dropConnectionPromise w) = heap w.
Proof. unfold dropConnectionPromise. frame. Qed.

#[global] Hint Rewrite dropConnectionPromise_sockets dropConnectionPromise_timers dropConnectionPromise_nextTimer dropConnectionPromise_promises dropConnectionPromise_emitted dropConnectionPromise_delivered dropConnectionPromise_heap : world.

Lemma detachHandlers_this w : this (detachHandlers w) = this w.
Proof. unfold detachHandlers. frame. Qed.

Lemma detachHandlers_timers w : timers (detachHandlers w) = timers w.
Proof. unfold detachHandlers. frame. Qed.

Lemma detachHandlers_nextTimer w : nextTimer (detachHandlers w) = nextTimer w.
Proof. unfold detachHandlers. frame. Qed.

Lemma detachHandlers_promises w : promises (detachHandlers w) = promises w.
Proof. unfold detachHandlers. frame. Qed.

Lemma detachHandlers_settlements w : settlements (detachHandlers w) = settlements w.
Proof. unfold detachHandlers. frame. Qed.

Lemma detachHandlers_microtasks w : microtasks (detachHandlers w) = microtasks w.
Proof. unfold detachHandlers. frame. Qed.

Lemma detachHandlers_emitted w : emitted (detachHandlers w) = emitted w.
Proof. unfold detachHandlers. frame. Qed.

Lemma detachHandlers_delivered w : delivered (detachHandlers w) = delivered w.
Proof. unfold detachHandlers. frame. Qed.

Lemma detachHandlers_heap w : heap (detachHandlers w) = heap w.
Proof. unfold detachHandlers. frame. Qed.

#[global] Hint Rewrite detachHandlers_this detachHandlers_timers detachHandlers_nextTimer detachHandlers_promises detachHandlers_settlements detachHandlers_microtasks detachHandlers_emitted detachHandlers_delivered detachHandlers_heap : world.

Lemma closeSocket_this graceful reason w : this (closeSocket graceful reason w) = this w.
Proof. unfold closeSocket. frame. Qed.

Lemma closeSocket_timers graceful reason w : timers (closeSocket graceful reason w) = timers w.
Proof. unfold closeSocket. frame. Qed.

Lemma closeSocket_nextTimer graceful reason w : nextTimer (closeSocket graceful reason w) = nextTimer w.
Proof. unfold closeSocket. frame. Qed.

Lemma closeSocket_promises graceful reason w : promises (closeSocket graceful reason w) = promises w.
Proof. unfold closeSocket. frame. Qed.

Lemma closeSocket_settlements graceful reason w : settlements (closeSocket graceful reason w) = settlements w.
Proof. unfold closeSocket. frame. Qed.

Lemma closeSocket_microtasks graceful reason w : microtasks (closeSocket graceful reason w) = microtasks w.
Proof. unfold closeSocket. frame. Qed.

Lemma closeSocket_emitted graceful reason w : emitted (closeSocket graceful reason w) = emitted w.
Proof. unfold closeSocket. frame. Qed.

Lemma closeSocket_delivered graceful reason w : delivered (closeSocket graceful reason w) = delivered w.
Proof. unfold closeSocket. frame. Qed.

Lemma closeSocket_heap graceful reason w : heap (closeSocket graceful reason w) = heap w.
Proof. unfold closeSocket. frame. Qed.

#[global] Hint Rewrite closeSocket_this closeSocket_timers closeSocket_nextTimer closeSocket_promises closeSocket_settlements closeSocket_microtasks closeSocket_emitted closeSocket_delivered closeSocket_heap : world.

Lemma foldl_delete_lookup_None (l : list PendingRequest) (m : gmap nat Timer) t :
  m !! t = None →
  foldl (fun m pr => delete (timeoutTimer pr) m) m l !! t = None.
Proof.
  revert m. induction l as [|pr l IH]; intros m Hm; simpl; [done|].
  apply IH. rewrite lookup_delete_None. by right.
Qed.

Lemma foldl_delete_lookup (l : list PendingRequest) (m : gmap nat Timer) pr :
  pr ∈ l →
  foldl (fun m pr => delete (timeoutTimer pr) m) m l !! timeoutTimer pr = None.
Proof.
  revert m. induction l as [|pr' l IH]; intros m Hin; simpl.
  - by apply elem_of_nil in Hin.
  - apply elem_of_cons in Hin as [->|Hin].
    + apply foldl_delete_lookup_None, lookup_delete_eq.
    + by apply IH.
Qed.

(** Timers are only ever removed by the sweep. *)
Lemma foldl_delete_lookup_Some (l : list PendingRequest) (m : gmap nat Timer) t tm :
  foldl (fun m pr => delete (timeoutTimer pr) m) m l !! t = Some tm →
  m !! t = Some tm.
Proof.
  revert m. induction l as [|pr l IH]; intros m Hm; simpl in *; [done|].
  apply IH in Hm. by apply lookup_delete_Some in Hm as [_ ?].
Qed.

Lemma delete_opt_lookup_Some h (m : gmap nat Timer) t tm :
  delete_opt h m !! t = Some tm → m !! t = Some tm.
Proof.
  destruct h as [h|]; simpl; [|done]. by intros [_ ?]%lookup_delete_Some.
Qed.

(** [cleanupConnection] *)

Lemma dropConnectionPromise_this w :
  this (dropConnectionPromise w) = set_connectionPromise None (this w).
Proof.
  unfold dropConnectionPromise.
  destruct (connectionPromise (this w)) eqn:Hc; [by frame|].
  apply WKIM_ext; fields; done.
Qed.

Lemma dropConnectionPromise_settlements w :
  settlements (dropConnectionPromise w)
  = settlements w
    ++ match connectionPromise (this w) with
       | Some c =>
           if negb (isReconnecting (this w)) && negb (isConnected (this w))
           then [mkSettlement (cp_reject c)
                   (Reject (VError "Connection closed during operation")) ByCleanup]
           else []
       | None => []
       end.
Proof. unfold dropConnectionPromise. frame; by rewrite app_nil_r. Qed.

Lemma detachHandlers_sockets w :
  sockets (detachHandlers w)
  = match ws (this w) with
    | Some s => alter (socket_set_attached false) s (sockets w)
    | None => sockets w
    end.
Proof. unfold detachHandlers. frame. Qed.

#[global] Hint Rewrite dropConnectionPromise_this dropConnectionPromise_settlements
  detachHandlers_sockets : world.

Lemma cleanupConnection_this w :
  this (cleanupConnection w)
  = set_connectionPromise None
      (set_pendingRequests ∅
         (set_pingTimeout None (set_pingInterval None (set_isConnected false (this w))))).
Proof. unfold cleanupConnection. by wsimpl. Qed.

Lemma cleanupConnection_sockets w :
  sockets (cleanupConnection w)
  = match ws (this w) with
    | Some s => alter (socket_set_attached false) s (sockets w)
    | None => sockets w
    end.
Proof. unfold cleanupConnection. by wsimpl. Qed.

Lemma cleanupConnection_timers w :
  timers (cleanupConnection w)
  = foldl (fun m pr => delete (timeoutTimer pr) m)
      (delete_opt (pingTimeout (this w)) (delete_opt (pingInterval (this w)) (timers w)))
      (snd <$> map_to_list (pendingRequests (this w))).
Proof. unfold cleanupConnection. by wsimpl. Qed.

Lemma cleanupConnection_settlements w :
  settlements (cleanupConnection w)
  = settlements w ++ sweep_of w ++ connection_rejection w.
Proof.
  unfold cleanupConnection, sweep_of, connection_rejection. wsimpl.
  by rewrite <- app_assoc, andb_true_r.
Qed.

Lemma cleanupConnection_nextTimer w : nextTimer (cleanupConnection w) = nextTimer w.
Proof. unfold cleanupConnection. by wsimpl. Qed.

Lemma cleanupConnection_promises w : promises (cleanupConnection w) = promises w.
Proof. unfold cleanupConnection. by wsimpl. Qed.

Lemma cleanupConnection_emitted w : emitted (cleanupConnection w) = emitted w.
Proof. unfold cleanupConnection. by wsimpl. Qed.

Lemma cleanupConnection_delivered w : delivered (cleanupConnection w) = delivered w.
Proof. unfold cleanupConnection. by wsimpl. Qed.

Lemma cleanupConnection_heap w : heap (cleanupConnection w) = heap w.
Proof. unfold cleanupConnection. by wsimpl. Qed.

#[global] Hint Rewrite cleanupConnection_this cleanupConnection_sockets
  cleanupConnection_timers cleanupConnection_settlements cleanupConnection_nextTimer
  cleanupConnection_promises cleanupConnection_emitted cleanupConnection_delivered
  cleanupConnection_heap : world.

Lemma cleanupConnection_timers_lookup w t tm :
  timers (cleanupConnection w) !! t = Some tm → timers w !! t = Some tm.
Proof.
  rewrite cleanupConnection_timers. intros H.
  apply foldl_delete_lookup_Some in H.
  by do 2 apply delete_opt_lookup_Some in H.
Qed.

(** [handleDisconnect] and [disconnect] *)

Lemma handleDisconnect_throws_short graceful reason w :
  close_throws (String.substring 0 123 reason) = false →
  handleDisconnect_throws graceful reason w = false.
Proof.
  intros H. unfold handleDisconnect_throws, closeSocket_throws.
  destruct (ws (this w)); [|done].
  destruct (ws_readyState _) as [[]|]; try done. by destruct graceful.
Qed.

(** [handleDisconnect] when its [close] call is accepted. *)
Lemma handleDisconnect_accepted graceful reason w :
  handleDisconnect_throws graceful reason w = false →
  handleDisconnect graceful reason w
  = cleanupConnection match ws (this w) with
                      | Some _ => closeSocket graceful reason (stopPing w)
                      | None => w
                      end.
Proof.
  unfold handleDisconnect, handleDisconnect_throws.
  destruct (ws (this w)); [|done]. cbv zeta. by intros ->.
Qed.

Lemma handleDisconnect_short graceful reason w :
  close_throws (String.substring 0 123 reason) = false →
  handleDisconnect graceful reason w
  = cleanupConnection match ws (this w) with
                      | Some _ => closeSocket graceful reason (stopPing w)
                      | None => w
                      end.
Proof. intros H. by apply handleDisconnect_accepted, handleDisconnect_throws_short. Qed.

(** The two reasons that the class itself hands on. *)
Lemma handleDisconnect_manual w :
  handleDisconnect true "Manual disconnection" w
  = cleanupConnection match ws (this w) with
                      | Some _ => closeSocket true "Manual disconnection" (stopPing w)
                      | None => w
                      end.
Proof. by apply handleDisconnect_short. Qed.

Lemma handleDisconnect_auth w :
  handleDisconnect false "Authentication failed" w
  = cleanupConnection match ws (this w) with
                      | Some _ => closeSocket false "Authentication failed" (stopPing w)
                      | None => w
                      end.
Proof. by apply handleDisconnect_short. Qed.

Lemma handleDisconnect_this graceful reason w :
  close_throws (String.substring 0 123 reason) = false →
  this (handleDisconnect graceful reason w) = this (cleanupConnection w).
Proof. intros H. rewrite handleDisconnect_short by done. destruct (ws (this w)); by wsimpl. Qed.

Lemma handleDisconnect_timers_lookup graceful reason w t tm :
  timers (handleDisconnect graceful reason w) !! t = Some tm → timers w !! t = Some tm.
Proof.
  unfold handleDisconnect. destruct (ws (this w)); cbv zeta.
  - destruct (closeSocket_throws _ _ _).
    + rewrite stopPing_timers. intros H. by do 2 apply delete_opt_lookup_Some in H.
    + intros H%cleanupConnection_timers_lookup. revert H. wsimpl.
      intros H. by do 2 apply delete_opt_lookup_Some in H.
  - apply cleanupConnection_timers_lookup.
Qed.

Lemma handleDisconnect_promises graceful reason w :
  promises (handleDisconnect graceful reason w) = promises w.
Proof.
  unfold handleDisconnect. destruct (ws (this w)); cbv zeta;
    [destruct (closeSocket_throws _ _ _)|]; by wsimpl.
Qed.

Lemma handleDisconnect_nextTimer graceful reason w :
  nextTimer (handleDisconnect graceful reason w) = nextTimer w.
Proof.
  unfold handleDisconnect. destruct (ws (this w)); cbv zeta;
    [destruct (closeSocket_throws _ _ _)|]; by wsimpl.
Qed.

Lemma handleDisconnect_emitted graceful reason w :
  emitted (handleDisconnect graceful reason w) = emitted w.
Proof.
  unfold handleDisconnect. destruct (ws (this w)); cbv zeta;
    [destruct (closeSocket_throws _ _ _)|]; by wsimpl.
Qed.

Lemma handleDisconnect_delivered graceful reason w :
  delivered (handleDisconnect graceful reason w) = delivered w.
Proof.
  unfold handleDisconnect. destruct (ws (this w)); cbv zeta;
    [destruct (closeSocket_throws _ _ _)|]; by wsimpl.
Qed.

Lemma handleDisconnect_heap graceful reason w :
  heap (handleDisconnect graceful reason w) = heap w.
Proof.
  unfold handleDisconnect. destruct (ws (this w)); cbv zeta;
    [destruct (closeSocket_throws _ _ _)|]; by wsimpl.
Qed.

#[global] Hint Rewrite handleDisconnect_this
  using (first [assumption | vm_compute; reflexivity]) : world.
#[global] Hint Rewrite handleDisconnect_promises
  handleDisconnect_nextTimer handleDisconnect_emitted handleDisconnect_delivered
  handleDisconnect_heap : world.

Lemma disconnect_isReconnecting w : isReconnecting (this (disconnect w)) = false.
Proof. unfold disconnect, cleanupBeforeUnloadHandler. frame. Qed.

Lemma disconnect_manualDisconnect w : manualDisconnect (this (disconnect w)) = true.
Proof. unfold disconnect, cleanupBeforeUnloadHandler. frame. Qed.

Lemma disconnect_timers_lookup w t tm :
  timers (disconnect w) !! t = Some tm → timers w !! t = Some tm.
Proof.
  unfold disconnect. intros H%handleDisconnect_timers_lookup. revert H.
  unfold cleanupBeforeUnloadHandler. frame.
Qed.

(** The socket held in [this.ws] *)

Lemma ws_is_open_inv w :
  ws_is_open w = true →
  ∃ s sock, ws (this w) = Some s ∧ sockets w !! s = Some sock ∧ readyState sock = OPEN.
Proof.
  unfold ws_is_open, ws_readyState. intros H%bool_decide_eq_true.
  destruct (ws (this w)) as [s|]; [|done]. simpl in H.
  destruct (sockets w !! s) as [sock|] eqn:Hs; [|done]. simpl in H.
  exists s, sock. by simplify_eq.
Qed.

Lemma ws_send_outbox f w :
  ws_is_open w = true → outbox (ws_send f w) = outbox w ++ [f].
Proof.
  intros (s & sock & Hws & Hs & _)%ws_is_open_inv.
  unfold outbox. wsimpl. rewrite ws_send_sockets, Hws. simpl.
  by rewrite list_lookup_alter_eq, Hs.
Qed.

Lemma emit_ws_is_open e arg w : ws_is_open (emit e arg w) = ws_is_open w.
Proof. unfold ws_is_open, ws_readyState. by wsimpl. Qed.

Lemma emit_outbox e arg w : outbox (emit e arg w) = outbox w.
Proof. unfold outbox. by wsimpl. Qed.

#[global] Hint Rewrite emit_ws_is_open emit_outbox : world.

Lemma ws_send_other f w s :
  ws (this w) ≠ Some s → sockets (ws_send f w) !! s = sockets w !! s.
Proof.
  intros Hne. rewrite ws_send_sockets.
  destruct (ws (this w)) as [s'|]; [|done].
  apply list_lookup_alter_ne. congruence.
Qed.

(** ** Listeners that leave the instance alone *)

Section Passive.

Variables (B : Behaviour) (f : nat).
Hypothesis HB : passive B.

Lemma bind_Some {X Y : Type} (x : X) (g : X → option Y) : Some x ≫= g = g x.
Proof. done. Qed.

Lemma set_delivered_same (w : World) : set_delivered (delivered w ++ []) w = w.
Proof. destruct w. unfold set_delivered. simpl. by rewrite app_nil_r. Qed.

Lemma forEach_passive emit' e n : ∀ k cur arg w,
  forEach_live emit' B e n k cur arg w
  = Some (set_delivered
            (delivered w ++ ((fun l => (l, e, arg)) <$> take n (drop k cur))) w, arg).
Proof.
  induction n as [|n IH]; intros k cur arg w; simpl.
  - by rewrite set_delivered_same.
  - destruct (cur !! k) as [l|] eqn:Hk.
    + rewrite HB. simpl.
      assert (Hl : leave arg (mkInvocation [] None) = arg) by (by destruct arg).
      rewrite Hl, IH, (drop_S _ _ _ Hk). simpl. unfold set_delivered. fields.
      by rewrite <- app_assoc.
    + apply lookup_ge_None in Hk.
      rewrite IH, (drop_ge cur (S k)), (drop_ge cur k) by lia.
      by rewrite !take_nil.
Qed.

(** With such listeners [emit_live] is [emit], at any depth allowed. *)
Lemma emit_passive e arg w : emit_live (S f) B e arg w = Some (emit e arg w, arg).
Proof.
  simpl. unfold emit_body, emit. cbv zeta. fields.
  destruct (eventListeners (this w) !! Event.name e) as [L|]; [|done].
  rewrite forEach_passive. fields. by rewrite drop_0, firstn_all.
Qed.

Lemma emit_then_passive e arg w : emit_then (S f) B e arg w = Some (emit e arg w).
Proof. unfold emit_then. by rewrite emit_passive. Qed.

Lemma connect_passive k env w :
  connect_live (emit_live (S f) B) k env w = Some (connect k env w).
Proof.
  unfold connect_live, connect. cbv zeta.
  destruct (_ || _).
  - destruct (isConnected _); [done|]. by destruct (connectionPromise _).
  - destruct (ctor_error env); [|done]. by rewrite emit_passive.
Qed.

Lemma scheduleReconnect_passive w :
  scheduleReconnect_live (S f) B w = Some (scheduleReconnect w).
Proof.
  unfold scheduleReconnect_live, scheduleReconnect. cbv zeta.
  destruct (_ <=? _)%nat; by rewrite emit_then_passive.
Qed.

Lemma tryReconnect_passive w : tryReconnect_live (S f) B w = Some (tryReconnect w).
Proof.
  unfold tryReconnect_live, tryReconnect.
  destruct (_ || _); [done|]. apply scheduleReconnect_passive.
Qed.

Lemma sendNotification_passive method params env w :
  sendNotification_live (S f) B method params env w
  = Some (sendNotification method params env w).
Proof.
  unfold sendNotification_live, sendNotification.
  destruct (negb _); [done|]. cbv zeta.
  destruct (write_error env); [|done]. apply emit_then_passive.
Qed.

Lemma sendRecvAck_passive hdr messageId messageSeq env w :
  sendRecvAck_live (S f) B hdr messageId messageSeq env w
  = Some (sendRecvAck hdr messageId messageSeq env w).
Proof. apply sendNotification_passive. Qed.

Lemma auth_then_passive result w : auth_then_live (S f) B result w = Some (auth_then result w).
Proof. unfold auth_then_live, auth_then. cbv zeta. by rewrite emit_then_passive. Qed.

Lemma auth_catch_passive error w :
  auth_catch_live (S f) B error w = Some (auth_catch error w).
Proof. unfold auth_catch_live, auth_catch. cbv zeta. by rewrite emit_then_passive. Qed.

Lemma ping_catch_passive w : ping_catch_live (S f) B w = Some (ping_catch w).
Proof.
  unfold ping_catch_live, ping_catch. cbv zeta. rewrite emit_then_passive, bind_Some.
  apply tryReconnect_passive.
Qed.

Lemma reconnect_catch_passive w :
  reconnect_catch_live (S f) B w = Some (reconnect_catch w).
Proof.
  unfold reconnect_catch_live, reconnect_catch.
  destruct (isReconnecting _); [|done]. apply scheduleReconnect_passive.
Qed.

Lemma onclose_passive code reason w :
  onclose_live (S f) B code reason w = Some (onclose code reason w).
Proof.
  unfold onclose_live, onclose. cbv zeta. rewrite emit_then_passive, bind_Some.
  destruct (_ && _); [|done]. apply tryReconnect_passive.
Qed.

Lemma reconnect_tick_passive env w :
  reconnect_tick_live (S f) B env w = Some (reconnect_tick env w).
Proof.
  unfold reconnect_tick_live, reconnect_tick.
  destruct (negb _); [done|]. apply connect_passive.
Qed.

Section PassiveInbound.

Variable JSON_parse : string -> option JSVal.

Lemma handleEventNotification_passive params w :
  handleEventNotification_live (S f) B JSON_parse params w
  = Some (handleEventNotification JSON_parse params w).
Proof.
  unfold handleEventNotification_live, handleEventNotification.
  repeat (destruct (get_prop params _); [|apply emit_then_passive]).
  destruct (_ || _); apply emit_then_passive.
Qed.

Lemma handleNotification_passive notification env w :
  handleNotification_live (S f) B JSON_parse notification env w
  = Some (handleNotification JSON_parse notification env w).
Proof.
  unfold handleNotification_live, handleNotification. cbv zeta.
  destruct (get_prop_opt notification "method") as [| | | |method| |]; try done.
  destruct (decide (method = "recv")) as [->|H1].
  { rewrite emit_passive. simpl.
    repeat (destruct (get_prop _ _); [|done]). apply sendRecvAck_passive. }
  destruct (decide (method = "pong")) as [->|H2]; [done|].
  destruct (decide (method = "disconnect")) as [->|H3].
  { by rewrite emit_passive. }
  destruct (decide (method = "event")) as [->|H4].
  { apply handleEventNotification_passive. }
  repeat match goal with |- context [match ?x with _ => _ end] => destruct x; try done end.
Qed.

Lemma handleMessage_passive data env w :
  handleMessage_live (S f) B JSON_parse data env w
  = Some (handleMessage JSON_parse data env w).
Proof.
  unfold handleMessage_live, handleMessage.
  destruct (JSON_parse data); [|apply emit_then_passive].
  destruct (has_prop "id" _) as [[]|]; try done.
  destruct (has_prop "method" _) as [[]|]; try done.
  apply handleNotification_passive.
Qed.

Lemma fire_timer_passive t env w :
  fire_timer_live (S f) B t env w = Some (fire_timer t env w).
Proof.
  unfold fire_timer_live, fire_timer.
  destruct (timers w !! t) as [tm|]; [|done]. cbv zeta.
  destruct (callback tm); try done. apply reconnect_tick_passive.
Qed.

Lemma handle_passive t env w :
  handle_live (S f) B JSON_parse t env w = Some (handle JSON_parse t env w).
Proof.
  destruct t; simpl; try done.
  - apply connect_passive.
  - by destruct (socket_attached _ _).
  - destruct (socket_attached _ _); [|done]. apply handleMessage_passive.
  - destruct (socket_attached _ _); [|done]. apply emit_then_passive.
  - destruct (socket_attached _ _); [|done]. apply onclose_passive.
  - apply fire_timer_passive.
Qed.

Lemma run_reaction_passive k o w :
  run_reaction_live (S f) B k o w = Some (run_reaction k o w).
Proof.
  destruct k, o; simpl; try done.
  - apply auth_then_passive.
  - apply auth_catch_passive.
  - apply ping_catch_passive.
  - apply reconnect_catch_passive.
Qed.

Lemma run_microtask_passive w :
  run_microtask_live (S f) B w = Some (run_microtask w).
Proof.
  unfold run_microtask_live, run_microtask.
  destruct (microtasks w) as [|[k o] rest]; [done|]. apply run_reaction_passive.
Qed.

Lemma step_passive l w : step_live (S f) B JSON_parse l w = Some (step JSON_parse l w).
Proof. destruct l; [apply handle_passive|apply run_microtask_passive]. Qed.

(** A history runs with such listeners as it does with observers. *)
Lemma run_passive h : ∀ w, run_live (S f) B JSON_parse h w = run JSON_parse h w.
Proof.
  induction h as [|l h IH]; intros w; simpl; [done|].
  destruct (enabled l w); [|done]. rewrite step_passive, bind_Some. apply IH.
Qed.

Lemma turns_passive ls : ∀ w,
  turns_live (S f) B JSON_parse ls w = Some (foldl (fun w l => step JSON_parse l w) w ls).
Proof.
  induction ls as [|l ls IH]; intros w; simpl; [done|].
  rewrite step_passive, bind_Some. apply IH.
Qed.

End PassiveInbound.

End Passive.

(** ** What listeners can make the instance emit *)

Section Emitted.

Implicit Types (w : World).

Lemma silent_passive : passive silent.
Proof. done. Qed.

Lemma on_emitted e cb w : emitted (on e cb w) = emitted w.
Proof. unfold on. frame. Qed.

Lemma off_emitted e cb w : emitted (off e cb w) = emitted w.
Proof. unfold off. frame. Qed.

Lemma disconnect_emitted w : emitted (disconnect w) = emitted w.
Proof.
  unfold disconnect. cbv zeta. rewrite handleDisconnect_emitted.
  unfold cleanupBeforeUnloadHandler. by frame.
Qed.

Lemma destroy_emitted w : emitted (destroy w) = emitted w.
Proof. unfold destroy. cbv zeta. fields. apply disconnect_emitted. Qed.

Lemma sendRequest_emitted method params timeoutMs k env w :
  emitted (sendRequest method params timeoutMs k env w) = emitted w.
Proof.
  unfold sendRequest. cbv zeta. destruct (negb _); [by wsimpl|].
  destruct (write_error env); by wsimpl.
Qed.

Lemma send_emitted channelId channelType payload options env w :
  emitted (send channelId channelType payload options env w) = emitted w.
Proof.
  unfold send, Promise_reject. cbv zeta.
  destruct (_ || _); [by wsimpl|]. destruct (negb _); [by wsimpl|].
  rewrite sendRequest_emitted. by destruct (header options).
Qed.

Lemma emits_errors_refl w w' : emitted w' = emitted w → emits_errors w w'.
Proof. intros H. exists []. split; [by rewrite app_nil_r|]. by intros x H1%elem_of_nil. Qed.

Lemma emits_errors_trans w1 w2 w3 :
  emits_errors w1 w2 → emits_errors w2 w3 → emits_errors w1 w3.
Proof.
  intros (l1 & H1 & Hl1) (l2 & H2 & Hl2). exists (l1 ++ l2).
  split; [by rewrite H2, H1, app_assoc|].
  intros x [H|H]%elem_of_app; auto.
Qed.

Lemma emits_event_errors arg w w' : emits_event Event.Error arg w w' → emits_errors w w'.
Proof.
  intros (l & H & Hl). exists ((Event.Error, arg) :: l). split; [done|].
  intros x [->|H1]%elem_of_cons; auto.
Qed.

Section Dispatch.

Variable emit' : Event.t -> Value -> World -> option (World * Value).
Hypothesis emit'_spec : ∀ e arg w w' v,
  emit' e arg w = Some (w', v) → emits_event e arg w w'.

Lemma connect_live_emitted k env w w' :
  connect_live emit' k env w = Some w' → emits_errors w w'.
Proof.
  unfold connect_live. cbv zeta. destruct (_ || _).
  - destruct (isConnected _); [intros [= <-]; apply emits_errors_refl; by wsimpl|].
    destruct (connectionPromise _); intros [= <-]; apply emits_errors_refl; by wsimpl.
  - destruct (ctor_error env) as [error|]; [|intros [= <-]; apply emits_errors_refl; by wsimpl].
    destruct (emit' _ _ _) as [[w1 v]|] eqn:He; simpl; [|done].
    intros [= <-]. apply emit'_spec, emits_event_errors in He.
    eapply emits_errors_trans; [|apply emits_errors_refl].
    + eapply emits_errors_trans; [apply emits_errors_refl|exact He]. by wsimpl.
    + destruct (connectionPromise (this w1)); by wsimpl.
Qed.

Lemma call_live_emitted c w w' : call_live emit' c w = Some w' → emits_errors w w'.
Proof.
  destruct c; simpl; try (intros [= <-]; apply emits_errors_refl).
  - apply on_emitted.
  - apply off_emitted.
  - apply connect_live_emitted.
  - apply disconnect_emitted.
  - apply destroy_emitted.
  - apply send_emitted.
Qed.

Lemma calls_live_emitted e cs : ∀ cur w w' cur',
  calls_live emit' e cs cur w = Some (w', cur') → emits_errors w w'.
Proof.
  induction cs as [|c cs IH]; intros cur w w' cur'; simpl.
  - intros [= <- _]. by apply emits_errors_refl.
  - destruct (call_live emit' c w) as [w1|] eqn:Hc; simpl; [|done].
    intros H%IH. apply call_live_emitted in Hc. by eapply emits_errors_trans.
Qed.

Lemma forEach_live_emitted B e n : ∀ k cur arg w w' v,
  forEach_live emit' B e n k cur arg w = Some (w', v) → emits_errors w w'.
Proof.
  induction n as [|n IH]; intros k cur arg w w' v; simpl.
  - intros [= <- _]. by apply emits_errors_refl.
  - destruct (cur !! k) as [l|]; [|by apply IH]. cbv zeta.
    destruct (calls_live _ _ _ _ _) as [[w1 cur1]|] eqn:Hc; simpl; [|done].
    intros H%IH. apply calls_live_emitted in Hc.
    eapply emits_errors_trans; [|exact H].
    eapply emits_errors_trans; [|exact Hc]. by apply emits_errors_refl.
Qed.

Lemma emit_body_emitted B e arg w w' v :
  emit_body emit' B e arg w = Some (w', v) → emits_event e arg w w'.
Proof.
  unfold emit_body. cbv zeta.
  assert (Hgo : ∀ w1, emits_errors (set_emitted (emitted w ++ [(e, arg)]) w) w1 →
                 emits_event e arg w w1).
  { intros w1 (l & H & Hl). exists l. split; [|done]. rewrite H. fields.
    by rewrite <- app_assoc. }
  destruct (eventListeners _ !! _).
  - intros H%forEach_live_emitted. by apply Hgo.
  - intros [= <- _]. apply Hgo. by apply emits_errors_refl.
Qed.

End Dispatch.

Lemma emit_live_emitted fuel B : ∀ e arg w w' v,
  emit_live fuel B e arg w = Some (w', v) → emits_event e arg w w'.
Proof.
  induction fuel as [|fuel IH]; intros e arg w w' v; simpl; [done|].
  by apply emit_body_emitted.
Qed.

End Emitted.
(** ** Teardown of the pending-request table (C3) *)

Section Teardown.

Lemma cleanupConnection_pendingRequests w :
  pendingRequests (this (cleanupConnection w)) = ∅.
Proof. by wsimpl. Qed.

Lemma cleanupConnection_timers_cleared w id pr :
  pendingRequests (this w) !! id = Some pr →
  timers (cleanupConnection w) !! timeoutTimer pr = None.
Proof.
  intros Hin. rewrite cleanupConnection_timers. apply foldl_delete_lookup.
  apply list_elem_of_fmap. exists (id, pr). split; [done|].
  by apply elem_of_map_to_list.
Qed.

(** C3.  Whatever the state of the session, with N entries in the
    pending-request table: [cleanupConnection] calls the [reject] of each of
    the N entries with the error "Connection closed" (these N calls are
    exactly what its sweep adds to the settlement log), clears the timeout
    timer of each entry, and leaves the table empty. *)
Theorem cleanupConnection_rejects_all_pending (w : World) :
  let N := size (pendingRequests (this w)) in
  let w' := cleanupConnection w in
  pendingRequests (this w') = ∅
  ∧ (∀ id pr, pendingRequests (this w) !! id = Some pr →
       timers w' !! timeoutTimer pr = None
       ∧ mkSettlement (reject pr) (Reject (VError "Connection closed")) BySweep
           ∈ sweep_of w)
  ∧ length (sweep_of w) = N
  ∧ (∀ s, s ∈ sweep_of w →
       outcome s = Reject (VError "Connection closed")
       ∧ ∃ id pr, pendingRequests (this w) !! id = Some pr ∧ target s = reject pr)
  ∧ settlements w' = settlements w ++ sweep_of w ++ connection_rejection w
  ∧ (∀ s, s ∈ connection_rejection w → cause s ≠ BySweep).
Proof.
  simpl. split; [apply cleanupConnection_pendingRequests|].
  split; [|split; [|split; [|split]]].
  - intros id pr Hin. split; [by eapply cleanupConnection_timers_cleared|].
    unfold sweep_of. apply list_elem_of_fmap. exists pr. split; [done|].
    apply list_elem_of_fmap. exists (id, pr). split; [done|].
    by apply elem_of_map_to_list.
  - unfold sweep_of. rewrite !length_fmap. by rewrite length_map_to_list.
  - intros s Hs. unfold sweep_of in Hs.
    apply list_elem_of_fmap in Hs as (pr & -> & Hpr).
    apply list_elem_of_fmap in Hpr as ([id pr'] & -> & Hin).
    apply elem_of_map_to_list in Hin. split; [done|]. by exists id, pr'.
  - apply cleanupConnection_settlements.
  - intros s Hs. unfold connection_rejection in Hs.
    destruct (connectionPromise (this w)); [|by apply elem_of_nil in Hs].
    destruct (negb _); [|by apply elem_of_nil in Hs].
    apply list_elem_of_singleton in Hs as ->. done.
Qed.

End Teardown.

(** ** Initialisation (C10) *)

Section Init.

(** C10.  [init] throws when [url] is empty, [auth] is absent, [auth.uid] is
    empty or [auth.token] is empty; nothing else has happened then: no
    instance was constructed and [globalInstance] is what it was. *)
Theorem init_throws_on_missing_arguments
    (url : string) (a : option AuthOptions) (options : InitOptions)
    (env : Env) (r : Registry) :
  url = "" ∨ a = None ∨ (∃ a', a = Some a' ∧ (uid a' = "" ∨ token a' = "")) →
  ∃ error,
    init url a options env r = (r, inl error)
    ∧ instances (init url a options env r).1 = instances r
    ∧ globalInstance (init url a options env r).1 = globalInstance r.
Proof.
  intros H. unfold init.
  destruct a as [a'|]; [|by eexists].
  assert (Hb : String.eqb url "" || String.eqb (uid a') "" || String.eqb (token a') ""
               = true).
  { destruct H as [->|[?|(a'' & [= <-] & [Hu|Ht])]]; [done|done| |].
    - rewrite Hu. by rewrite orb_true_r.
    - rewrite Ht. by rewrite orb_true_r. }
  rewrite Hb. by eexists.
Qed.

Lemma init_throws_on_missing_arguments_witness :
  ∃ error,
    init "ws://localhost:5100" (Some (mkAuth "" "secret" None None))
      (mkInitOptions (Some true)) sample_env sample_registry
    = (sample_registry, inl error)
    ∧ instances (init "ws://localhost:5100" (Some (mkAuth "" "secret" None None))
                   (mkInitOptions (Some true)) sample_env sample_registry).1
      = instances sample_registry
    ∧ globalInstance (init "ws://localhost:5100" (Some (mkAuth "" "secret" None None))
                        (mkInitOptions (Some true)) sample_env sample_registry).1
      = globalInstance sample_registry.
Proof.
  apply (init_throws_on_missing_arguments "ws://localhost:5100"
           (Some (mkAuth "" "secret" None None)) (mkInitOptions (Some true))
           sample_env sample_registry).
  right. right. exists (mkAuth "" "secret" None None). split; [reflexivity|].
  left. reflexivity.
Defined.

End Init.

(** ** Sending a message (C9) *)

Section Send.

Lemma ws_is_open_heap h w : ws_is_open (set_heap h w) = ws_is_open w.
Proof. done. Qed.

Lemma sendRequest_outbox method params timeoutMs k env w :
  ws_is_open w = true →
  outbox (sendRequest method params timeoutMs k env w)
  = outbox w ++ match write_error env with
                | None => [Request method params (request_uuid env)]
                | Some _ => []
                end.
Proof.
  intros Hopen. unfold sendRequest.
  change (ws_is_open (new_promise _ w)) with (ws_is_open w). rewrite Hopen. simpl.
  destruct (write_error env) as [error|].
  - unfold outbox. wsimpl. by rewrite app_nil_r.
  - rewrite ws_send_outbox; [done|]. exact Hopen.
Qed.

Lemma sendRequest_heap method params timeoutMs k env w :
  heap (sendRequest method params timeoutMs k env w) = heap w.
Proof.
  unfold sendRequest. frame.
Qed.

(** C9.  A call of [send] that passes its guards (connected, socket open,
    payload an object) writes at most one frame, the [send] request, whose
    [header] has [redDot] set to [true] whatever the caller put there; the
    header object the caller passed in [options] is itself overwritten
    ([redDot] becomes [true], the other flags stay). *)
Theorem send_overwrites_redDot
    (channelId : string) (channelType : Z) (payload : JSVal)
    (options : SendOptions) (env : Env) (w : World) :
  isConnected (this w) = true →
  ws_is_open w = true →
  is_object payload = true →
  (∀ l, header options = Some l → is_Some (heap w !! l)) →
  let w' := send channelId channelType payload options env w in
  (∀ l h, header options = Some l → heap w !! l = Some h →
     heap w' !! l = Some (header_set_redDot true h)
     ∧ redDot (header_set_redDot true h) = Some true)
  ∧ ∃ params hdr,
      outbox w' = outbox w ++ match write_error env with
                              | None => [Request "send" params (request_uuid env)]
                              | Some _ => []
                              end
      ∧ get_prop params "header" = Some (header_to_js hdr)
      ∧ get_prop (header_to_js hdr) "redDot" = Some (JBool true)
      ∧ hdr = header_set_redDot true
                (match header options with
                 | Some l => default empty_header (heap w !! l)
                 | None => empty_header
                 end).
Proof.
  intros Hconn Hopen Hobj Hvalid w'. subst w'. unfold send.
  rewrite Hconn, Hopen, Hobj. simpl.
  split.
  - intros l h Hl Hh. rewrite Hl. rewrite sendRequest_heap. wsimpl.
    split; [|done]. rewrite list_lookup_alter_eq. by rewrite Hh.
  - eexists _, _. rewrite sendRequest_outbox.
    2:{ destruct (header options); exact Hopen. }
    split.
    { f_equal. destruct (header options); reflexivity. }
    split; [reflexivity|]. split.
    { destruct (header options) as [l|]; wsimpl.
      - destruct (Hvalid l eq_refl) as [h Hh].
        rewrite list_lookup_alter_eq, Hh. done.
      - rewrite list_lookup_alter_eq, lookup_app_r, Nat.sub_diag by done. done. }
    destruct (header options) as [l|]; wsimpl.
    + destruct (Hvalid l eq_refl) as [h Hh].
      rewrite list_lookup_alter_eq, Hh. done.
    + rewrite list_lookup_alter_eq, lookup_app_r, Nat.sub_diag by done. done.
Qed.

Lemma send_overwrites_redDot_witness :
  let w' := send "bob" 1 (JObj [("text", JStr "hi")]) sample_options
              (env_with "req-3") sample_with_header in
  (∀ l h, header sample_options = Some l → heap sample_with_header !! l = Some h →
     heap w' !! l = Some (header_set_redDot true h)
     ∧ redDot (header_set_redDot true h) = Some true)
  ∧ ∃ params hdr,
      outbox w' = outbox sample_with_header
                  ++ match write_error (env_with "req-3") with
                     | None => [Request "send" params (request_uuid (env_with "req-3"))]
                     | Some _ => []
                     end
      ∧ get_prop params "header" = Some (header_to_js hdr)
      ∧ get_prop (header_to_js hdr) "redDot" = Some (JBool true)
      ∧ hdr = header_set_redDot true
                (match header sample_options with
                 | Some l => default empty_header (heap sample_with_header !! l)
                 | None => empty_header
                 end).
Proof.
  apply (send_overwrites_redDot "bob" 1 (JObj [("text", JStr "hi")]) sample_options
           (env_with "req-3") sample_with_header).
  - vm_compute. reflexivity.
  - vm_compute. reflexivity.
  - reflexivity.
  - intros l [= <-]. vm_compute. eexists. reflexivity.
Defined.

End Send.


(** ** Inbound messages and their acknowledgment (C7) *)

Section Recv.

Variable JSON_parse : string -> option JSVal.

Implicit Types (w : World).

(** The [recv] case of [handleNotification]. *)
Lemma handleNotification_recv notification params env w :
  get_prop_opt notification "method" = JStr "recv" →
  get_prop_opt notification "params" = params →
  is_Some (get_prop params "header") →
  handleNotification JSON_parse notification env w
  = sendRecvAck (get_prop_opt params "header") (get_prop_opt params "messageId")
      (get_prop_opt params "messageSeq") env (emit Event.Message (VJson params) w).
Proof.
  intros Hm Hp Hobj. unfold handleNotification. rewrite Hm, Hp. cbv iota beta.
  assert (Hprops : ∀ k, get_prop params k = Some (get_prop_opt params k)).
  { intros k. unfold get_prop_opt. destruct params; simpl in *; try done;
      by destruct Hobj. }
  by rewrite !Hprops.
Qed.

(** The acknowledgment is written when the socket of [this.ws] is open and
    the write does not throw. *)
Lemma sendRecvAck_written params env w :
  ws_is_open w = true → write_error env = None →
  sendRecvAck (get_prop_opt params "header") (get_prop_opt params "messageId")
    (get_prop_opt params "messageSeq") env w
  = ws_send (recvack_of params) w.
Proof. intros Ho Hw. unfold sendRecvAck, sendNotification. by rewrite Ho, Hw. Qed.

Lemma sendRecvAck_failed params env w error :
  ws_is_open w = true → write_error env = Some error →
  sendRecvAck (get_prop_opt params "header") (get_prop_opt params "messageId")
    (get_prop_opt params "messageSeq") env w
  = emit Event.Error
      (VError ("Failed to send notification recvack: " +:+ describe error)) w.
Proof. intros Ho Hw. unfold sendRecvAck, sendNotification. by rewrite Ho, Hw. Qed.

Lemma sendRecvAck_not_open hdr messageId messageSeq env w :
  ws_is_open w = false → sendRecvAck hdr messageId messageSeq env w = w.
Proof. intros Ho. unfold sendRecvAck, sendNotification. by rewrite Ho. Qed.

(** Whatever the listeners do, [sendNotification] emits nothing but an
    [error] event. *)
Lemma sendNotification_live_emitted fuel B method params env w w' :
  sendNotification_live fuel B method params env w = Some w' → emits_errors w w'.
Proof.
  unfold sendNotification_live. destruct (negb _).
  { intros [= <-]. by apply emits_errors_refl. }
  cbv zeta. destruct (write_error env).
  - unfold emit_then. destruct (emit_live _ _ _ _ _) as [[w1 v1]|] eqn:He; simpl; [|done].
    intros [= <-]. by apply emit_live_emitted, emits_event_errors in He.
  - intros [= <-]. apply emits_errors_refl. by wsimpl.
Qed.


End Recv.

Section RecvSamples.



(** Nor does it hold with any listener.  Listener 7 calls [disconnect()]
    when it is handed the message: listener 8 is still called, but the
    socket is closing by the time of the acknowledgment, which is not
    written. *)
Lemma recv_listener_disconnects :
  let params := get_prop_opt sample_recv "params" in
  let w := sample_listening in
  let result :=
    handleNotification_live 1 disconnecting_listener sample_parse sample_recv
      (env_with "unused-4") w in
  ws_is_open w = true
  ∧ (emitted <$> result) = Some (emitted w ++ [(Event.Message, VJson params)])
  ∧ (delivered <$> result)
    = Some (delivered w
            ++ [(7, Event.Message, VJson params); (8, Event.Message, VJson params)])
  ∧ (outbox <$> result) = Some (outbox w)
  ∧ (ws_readyState <$> result) = Some (Some CLOSING).
Proof. cbv zeta. repeat apply conj; vm_compute; reflexivity. Qed.

(** Listener 7 renumbers the message, which is the object that the
    acknowledgment is read from afterwards: listener 8 and the server are
    given the new number and sequence. *)
Lemma recv_listener_renumbers :
  let params := get_prop_opt sample_recv "params" in
  let params' := JObj [("header", JObj []); ("messageId", JStr "m2"); ("messageSeq", JNum 8)] in
  let w := sample_listening in
  let result :=
    handleNotification_live 1 renumbering_listener sample_parse sample_recv
      (env_with "unused-4") w in
  (delivered <$> result)
  = Some (delivered w
          ++ [(7, Event.Message, VJson params); (8, Event.Message, VJson params')])
  ∧ (outbox <$> result) = Some (outbox w ++ [recvack_of params'])
  ∧ recvack_of params' ≠ recvack_of params.
Proof. cbv zeta. repeat apply conj; try (vm_compute; reflexivity). vm_compute. discriminate. Qed.

End RecvSamples.
(** ** Custom event notifications (C8) *)

Section EventNotification.

Variable JSON_parse : string -> option JSVal.


End EventNotification.

Section EventSamples.


End EventSamples.

(** ** Manual disconnection during a reconnection delay (C6) *)

Section Stopped.

Implicit Types (w : World).

Lemma ws_readyState_eq w w' :
  ws (this w') = ws (this w) → readyState <$> sockets w' = readyState <$> sockets w →
  ws_readyState w' = ws_readyState w.
Proof.
  intros Hws Hs. unfold ws_readyState. rewrite Hws.
  destruct (ws (this w)) as [s|]; [|done]. simpl.
  by rewrite <- !list_lookup_fmap, Hs.
Qed.

Lemma readyState_alter (g : WebSocket → WebSocket) s (l : list WebSocket) :
  (∀ x, readyState (g x) = readyState x) →
  readyState <$> alter g s l = readyState <$> l.
Proof.
  intros Hg. apply list_eq. intros i. rewrite !list_lookup_fmap.
  destruct (decide (i = s)) as [->|Hne].
  - rewrite list_lookup_alter_eq. destruct (l !! s); simpl; [|done]. by rewrite Hg.
  - by rewrite list_lookup_alter_ne.
Qed.

(** One step of code that keeps the session stopped. *)
Lemma ss_update w0 w w' :
  stays_stopped w0 w →
  manualDisconnect (this w') = true → isReconnecting (this w') = false →
  (ws_readyState w' = ws_readyState w
   ∨ (ws_readyState w' ≠ Some CONNECTING ∧ ws_readyState w' ≠ Some OPEN)) →
  length (sockets w') = length (sockets w) →
  promises w `prefix_of` promises w' →
  (∀ id pr, pendingRequests (this w') !! id = Some pr →
     pendingRequests (this w) !! id = Some pr) →
  (∀ k o, (k, o) ∈ microtasks w' →
     (k, o) ∈ microtasks w ∨ k ≠ KAuthThen ∨ ∃ r, o = Reject r) →
  (∀ t tm, timers w' !! t = Some tm → timers w !! t = Some tm) →
  stays_stopped w0 w'.
Proof.
  intros ([Hm Hi Hnc Hno [Hq Htab]] & HT & HL) Hm' Hi' Hrs HL' Hp Htab' Hq' HT'.
  split; [|split; [|congruence]].
  - split; try done.
    + destruct Hrs as [->|[? ?]]; done.
    + destruct Hrs as [->|[? ?]]; done.
    + split.
      * intros k o Hin Hk. destruct (Hq' k o Hin) as [H|[H|H]]; [by eapply Hq|done|done].
      * intros id pr Hid. destruct (Htab id pr (Htab' id pr Hid)) as (r & Hr & Hne).
        exists r. split; [|done]. by eapply prefix_lookup_Some.
  - intros t tm Ht. by apply HT, HT'.
Qed.

(** Code that touches nothing the stopped state depends on. *)
Lemma ss_frame w0 w w' :
  manualDisconnect (this w') = manualDisconnect (this w) →
  isReconnecting (this w') = isReconnecting (this w) →
  ws (this w') = ws (this w) →
  pendingRequests (this w') = pendingRequests (this w) →
  readyState <$> sockets w' = readyState <$> sockets w →
  promises w' = promises w → microtasks w' = microtasks w →
  (∀ t tm, timers w' !! t = Some tm → timers w !! t = Some tm) →
  stays_stopped w0 w → stays_stopped w0 w'.
Proof.
  intros E1 E2 E3 E4 E5 E6 E7 HT Hs. pose proof Hs as ([Hm Hi _ _ _] & _ & _).
  apply (ss_update w0 w w' Hs).
  - by rewrite E1.
  - by rewrite E2.
  - left. by apply ws_readyState_eq.
  - by rewrite <- (length_fmap readyState), E5, length_fmap.
  - by rewrite E6.
  - intros id pr. by rewrite E4.
  - intros k o. rewrite E7. tauto.
  - done.
Qed.

Lemma ss_refl w : stopped w → stays_stopped w w.
Proof. by intros H. Qed.

Lemma ss_emit w0 e v w : stays_stopped w0 w → stays_stopped w0 (emit e v w).
Proof. apply ss_frame; by wsimpl. Qed.

Lemma ss_set_heap w0 l w : stays_stopped w0 w → stays_stopped w0 (set_heap l w).
Proof. by apply ss_frame. Qed.

Lemma ss_ws_send w0 f w : stays_stopped w0 w → stays_stopped w0 (ws_send f w).
Proof.
  apply ss_frame; wsimpl; try done. rewrite ws_send_sockets.
  destruct (ws (this w)); [|done]. by apply readyState_alter.
Qed.

Lemma ss_detachHandlers w0 w : stays_stopped w0 w → stays_stopped w0 (detachHandlers w).
Proof.
  apply ss_frame; wsimpl; try done.
  destruct (ws (this w)); [|done]. by apply readyState_alter.
Qed.

(** An update of a field of the instance other than the flags, the socket and
    the table. *)
Lemma ss_upd_this w0 g w :
  (∀ o, manualDisconnect (g o) = manualDisconnect o) →
  (∀ o, isReconnecting (g o) = isReconnecting o) →
  (∀ o, ws (g o) = ws o) →
  (∀ o, pendingRequests (g o) = pendingRequests o) →
  stays_stopped w0 w → stays_stopped w0 (upd_this g w).
Proof. intros G1 G2 G3 G4. apply ss_frame; fields; done. Qed.

Lemma ss_set_manualDisconnect w0 w :
  stays_stopped w0 w → stays_stopped w0 (upd_this (set_manualDisconnect true) w).
Proof.
  intros Hs. pose proof Hs as ([Hm Hi _ _ _] & _ & _).
  apply (ss_update w0 w _ Hs); fields; try done; try tauto.
Qed.

Lemma ss_set_isReconnecting w0 w :
  stays_stopped w0 w → stays_stopped w0 (upd_this (set_isReconnecting false) w).
Proof.
  intros Hs. pose proof Hs as ([Hm Hi _ _ _] & _ & _).
  apply (ss_update w0 w _ Hs); fields; try done; try tauto.
Qed.

Lemma ss_clearTimer w0 t w : stays_stopped w0 w → stays_stopped w0 (clearTimer t w).
Proof.
  apply ss_frame; fields; try done. intros t' tm. by intros [_ H]%lookup_delete_Some.
Qed.

Lemma ss_stopPing w0 w : stays_stopped w0 w → stays_stopped w0 (stopPing w).
Proof.
  apply ss_frame; wsimpl; try done. intros t tm H.
  by do 2 apply delete_opt_lookup_Some in H.
Qed.

Lemma ss_new_promise w0 r w : stays_stopped w0 w → stays_stopped w0 (new_promise r w).
Proof.
  intros Hs. pose proof Hs as ([Hm Hi _ _ _] & _ & _).
  apply (ss_update w0 w _ Hs); fields; try done; try tauto.
  - by apply prefix_app_r.
Qed.

(** A [reject] call. *)
Lemma ss_settle_reject w0 p r c w :
  stays_stopped w0 w → stays_stopped w0 (settle p (Reject r) c w).
Proof.
  intros Hs. pose proof Hs as ([Hm Hi _ _ _] & _ & _).
  apply (ss_update w0 w _ Hs); rewrite ?settle_this, ?settle_sockets, ?settle_promises,
    ?settle_timers; try done; try tauto.
  - left. apply ws_readyState_eq; by rewrite ?settle_this, ?settle_sockets.
  - intros k o. unfold settle. cbv zeta. destruct (negb _); fields; [|tauto].
    destruct (promises w !! p); fields; [|tauto].
    intros [H|[= -> ->]%list_elem_of_singleton]%elem_of_app; [tauto|].
    right. right. by eexists.
Qed.

(** A [resolve] call on a promise that does not continue a handshake. *)
Lemma ss_settle_resolve w0 p v c w :
  (∀ r, promises w !! p = Some r → reaction r ≠ KAuthThen) →
  stays_stopped w0 w → stays_stopped w0 (settle p (Resolve v) c w).
Proof.
  intros Hp Hs. pose proof Hs as ([Hm Hi _ _ _] & _ & _).
  apply (ss_update w0 w _ Hs); rewrite ?settle_this, ?settle_sockets, ?settle_promises,
    ?settle_timers; try done; try tauto.
  - left. apply ws_readyState_eq; by rewrite ?settle_this, ?settle_sockets.
  - intros k o. unfold settle. cbv zeta. destruct (negb _); fields; [|tauto].
    destruct (promises w !! p) as [r|] eqn:Hr; fields; [|tauto].
    intros [H|[= -> ->]%list_elem_of_singleton]%elem_of_app; [tauto|].
    right. left. by apply Hp.
Qed.

(** The queue loses its first job. *)
Lemma ss_pop w0 x rest w :
  microtasks w = x :: rest →
  stays_stopped w0 w → stays_stopped w0 (set_microtasks rest w).
Proof.
  intros Hq Hs. pose proof Hs as ([Hm Hi _ _ _] & _ & _).
  apply (ss_update w0 w _ Hs); fields; try done; try tauto.
  - intros k o Hin. left. rewrite Hq. by right.
Qed.

(** A rejection is passed on to the next [catch]. *)
Lemma ss_push_reject w0 k r w :
  stays_stopped w0 w →
  stays_stopped w0 (set_microtasks (microtasks w ++ [(k, Reject r)]) w).
Proof.
  intros Hs. pose proof Hs as ([Hm Hi _ _ _] & _ & _).
  apply (ss_update w0 w _ Hs); fields; try done; try tauto.
  - intros k' o [H|[= -> ->]%list_elem_of_singleton]%elem_of_app; [tauto|].
    right. right. by eexists.
Qed.

(** An entry leaves the table. *)
Lemma ss_delete w0 id w :
  stays_stopped w0 w →
  stays_stopped w0
    (upd_this (fun o => set_pendingRequests (delete id (pendingRequests o)) o) w).
Proof.
  intros Hs. pose proof Hs as ([Hm Hi _ _ _] & _ & _).
  apply (ss_update w0 w _ Hs); fields; try done; try tauto.
  - intros id' pr. by intros [_ H]%lookup_delete_Some.
Qed.

Lemma ss_clear w0 w :
  stays_stopped w0 w → stays_stopped w0 (upd_this (set_pendingRequests ∅) w).
Proof.
  intros Hs. pose proof Hs as ([Hm Hi _ _ _] & _ & _).
  apply (ss_update w0 w _ Hs); fields; try done; try tauto.
Qed.

Lemma ss_sweep w0 l w :
  stays_stopped w0 w → stays_stopped w0 (foldl rejectPending w l).
Proof.
  revert w. induction l as [|pr l IH]; intros w Hs; simpl; [done|].
  apply IH. unfold rejectPending. by apply ss_settle_reject, ss_clearTimer.
Qed.

(** A [close] call on the socket of [this.ws]. *)
Lemma ss_ws_close w0 code reason w :
  stays_stopped w0 w → stays_stopped w0 (ws_close code reason w).
Proof.
  intros Hs. pose proof Hs as ([Hm Hi Hnc Hno _] & _ & _).
  apply (ss_update w0 w _ Hs); rewrite ?ws_close_this, ?ws_close_promises,
    ?ws_close_microtasks, ?ws_close_timers; try done; try tauto.
  - right. unfold ws_readyState. rewrite ws_close_this, ws_close_sockets.
    destruct (ws (this w)) as [s|]; [|done]. simpl.
    rewrite list_lookup_alter_eq. destruct (sockets w !! s) as [sock|]; [|done].
    simpl. by destruct (readyState sock).
  - rewrite ws_close_sockets. destruct (ws (this w)); [|done]. by rewrite length_alter.
Qed.

(** A socket is reported closed. *)
Lemma ss_socket_closed w0 s w :
  stays_stopped w0 w →
  stays_stopped w0 (upd_socket s (socket_set_readyState CLOSED) w).
Proof.
  intros Hs. pose proof Hs as ([Hm Hi Hnc Hno _] & _ & _).
  apply (ss_update w0 w _ Hs); fields; try done; try tauto.
  - unfold ws_readyState. fields. destruct (ws (this w)) as [s'|] eqn:Hws; [|by left].
    simpl. destruct (decide (s' = s)) as [->|Hne].
    + right. rewrite list_lookup_alter_eq. by destruct (sockets w !! s).
    + left. by rewrite list_lookup_alter_ne.
  - by rewrite length_alter.
Qed.

(** A socket other than a connecting [this.ws] is reported open. *)
Lemma ss_socket_open w0 s w :
  socket_in s [CONNECTING] w = true →
  stays_stopped w0 w →
  stays_stopped w0 (upd_socket s (socket_set_readyState OPEN) w).
Proof.
  intros Hen Hs. pose proof Hs as ([Hm Hi Hnc Hno _] & _ & _).
  apply (ss_update w0 w _ Hs); fields; try done; try tauto.
  - left. unfold ws_readyState in *. fields.
    destruct (ws (this w)) as [s'|] eqn:Hws; [|done]. simpl in *.
    destruct (decide (s' = s)) as [->|Hne]; [|by rewrite list_lookup_alter_ne].
    exfalso. revert Hen. unfold socket_in.
    destruct (sockets w !! s) as [sock|]; [|done]. simpl in *.
    intros H%bool_decide_eq_true. apply list_elem_of_singleton in H.
    apply Hnc. by rewrite H.
  - by rewrite length_alter.
Qed.

End Stopped.

Section StoppedMethods.

Variable JSON_parse : string -> option JSVal.

Implicit Types (w : World).

Lemma stopped_not_open w0 w : stays_stopped w0 w → ws_is_open w = false.
Proof.
  intros ([_ _ _ Hno _] & _ & _). unfold ws_is_open. by apply bool_decide_eq_false_2.
Qed.

Lemma ss_dropConnectionPromise w0 w :
  stays_stopped w0 w → stays_stopped w0 (dropConnectionPromise w).
Proof.
  intros Hs. unfold dropConnectionPromise.
  destruct (connectionPromise (this w)); [|done]. cbv zeta.
  apply ss_upd_this; [done..|]. destruct (_ && _); [|done]. by apply ss_settle_reject.
Qed.

Lemma ss_cleanupConnection w0 w :
  stays_stopped w0 w → stays_stopped w0 (cleanupConnection w).
Proof.
  intros Hs. unfold cleanupConnection. cbv zeta.
  apply ss_detachHandlers, ss_dropConnectionPromise, ss_clear, ss_sweep, ss_stopPing.
  by apply ss_upd_this.
Qed.

Lemma ss_closeSocket w0 graceful reason w :
  stays_stopped w0 w → stays_stopped w0 (closeSocket graceful reason w).
Proof.
  intros Hs. unfold closeSocket.
  destruct (ws_readyState w) as [[]|]; try done; [|destruct graceful];
    by apply ss_ws_close.
Qed.

Lemma ss_handleDisconnect w0 graceful reason w :
  stays_stopped w0 w → stays_stopped w0 (handleDisconnect graceful reason w).
Proof.
  intros Hs. unfold handleDisconnect. cbv zeta.
  destruct (ws (this w)); [|by apply ss_cleanupConnection].
  destruct (closeSocket_throws _ _ _); [by apply ss_stopPing|].
  by apply ss_cleanupConnection, ss_closeSocket, ss_stopPing.
Qed.

Lemma ss_cleanupBeforeUnloadHandler w0 w :
  stays_stopped w0 w → stays_stopped w0 (cleanupBeforeUnloadHandler w).
Proof.
  intros Hs. unfold cleanupBeforeUnloadHandler.
  destruct (beforeUnloadHandler _); [|done]. by apply ss_upd_this.
Qed.

Lemma ss_disconnect w0 w : stays_stopped w0 w → stays_stopped w0 (disconnect w).
Proof.
  intros Hs. unfold disconnect. cbv zeta.
  by apply ss_handleDisconnect, ss_cleanupBeforeUnloadHandler, ss_set_isReconnecting,
    ss_set_manualDisconnect.
Qed.

Lemma ss_destroy w0 w : stays_stopped w0 w → stays_stopped w0 (destroy w).
Proof.
  intros Hs. unfold destroy. cbv zeta.
  apply ss_clear, ss_upd_this; [done..|]. by apply ss_disconnect.
Qed.

Lemma ss_tryReconnect w0 w : stays_stopped w0 w → stays_stopped w0 (tryReconnect w).
Proof.
  intros Hs. pose proof Hs as ([Hm _ _ _ _] & _ & _).
  unfold tryReconnect. by rewrite Hm, orb_true_r.
Qed.

Lemma ss_reconnect_catch w0 w : stays_stopped w0 w → stays_stopped w0 (reconnect_catch w).
Proof.
  intros Hs. pose proof Hs as ([_ Hi _ _ _] & _ & _).
  unfold reconnect_catch. by rewrite Hi.
Qed.

Lemma ss_ping_catch w0 w : stays_stopped w0 w → stays_stopped w0 (ping_catch w).
Proof. intros Hs. unfold ping_catch. by apply ss_tryReconnect, ss_emit. Qed.

Lemma ss_sendRequest w0 method params timeoutMs k env w :
  stays_stopped w0 w → stays_stopped w0 (sendRequest method params timeoutMs k env w).
Proof.
  intros Hs. unfold sendRequest. cbv zeta.
  pose proof (ss_new_promise w0 (mkPromise (FromSendRequest method) k) w Hs) as H1.
  rewrite (stopped_not_open _ _ H1). by apply ss_settle_reject.
Qed.

Lemma ss_sendNotification w0 method params env w :
  stays_stopped w0 w → stays_stopped w0 (sendNotification method params env w).
Proof.
  intros Hs. unfold sendNotification. by rewrite (stopped_not_open _ _ Hs).
Qed.

Lemma ss_Promise_reject w0 error w :
  stays_stopped w0 w → stays_stopped w0 (Promise_reject error w).
Proof. intros Hs. unfold Promise_reject. by apply ss_settle_reject, ss_new_promise. Qed.

Lemma ss_send w0 channelId channelType payload options env w :
  stays_stopped w0 w →
  stays_stopped w0 (send channelId channelType payload options env w).
Proof.
  intros Hs. unfold send. rewrite (stopped_not_open _ _ Hs), orb_true_r.
  by apply ss_Promise_reject.
Qed.

Lemma ss_on w0 e cb w : stays_stopped w0 w → stays_stopped w0 (on e cb w).
Proof. intros Hs. unfold on. destruct (_ !! _); [|done]. by apply ss_upd_this. Qed.

Lemma ss_off w0 e cb w : stays_stopped w0 w → stays_stopped w0 (off e cb w).
Proof. intros Hs. unfold off. destruct (_ !! _); [|done]. by apply ss_upd_this. Qed.

Lemma ss_handleResponse w0 response w :
  stays_stopped w0 w → stays_stopped w0 (handleResponse response w).
Proof.
  intros Hs. pose proof Hs as ([_ _ _ _ [_ Htab]] & _ & _).
  unfold handleResponse. cbv zeta.
  destruct (get_prop_opt response "id") as [| | | |i| |]; try done.
  destruct (pendingRequests (this w) !! i) as [pending|] eqn:Hi; [|done].
  destruct (truthy _).
  - by apply ss_settle_reject, ss_delete, ss_clearTimer.
  - apply ss_settle_resolve; [|by apply ss_delete, ss_clearTimer].
    fields. intros r Hr. destruct (Htab i pending Hi) as (r' & Hr' & Hne). congruence.
Qed.

Lemma ss_request_timeout w0 requestId method p w :
  stays_stopped w0 w → stays_stopped w0 (request_timeout requestId method p w).
Proof. intros Hs. unfold request_timeout. by apply ss_settle_reject, ss_delete. Qed.

Lemma ss_ping_tick w0 env w : stays_stopped w0 w → stays_stopped w0 (ping_tick env w).
Proof.
  intros Hs. unfold ping_tick. rewrite (stopped_not_open _ _ Hs). by apply ss_stopPing.
Qed.

(** The callback of a retry timer returns at its test. *)
Lemma stopped_reconnect_tick w0 env w : stays_stopped w0 w → reconnect_tick env w = w.
Proof. intros ([_ Hi _ _ _] & _ & _). unfold reconnect_tick. by rewrite Hi. Qed.

Lemma ss_auth_catch w0 error w : stays_stopped w0 w → stays_stopped w0 (auth_catch error w).
Proof.
  intros Hs. unfold auth_catch. cbv zeta.
  apply ss_cleanupConnection, ss_handleDisconnect.
  pose proof (ss_emit w0 Event.Error
    (VError ("Authentication failed: " +:+ describe error)) w Hs) as H1.
  revert H1. generalize (emit Event.Error
    (VError ("Authentication failed: " +:+ describe error)) w). intros w1 H1.
  destruct (connectionPromise (this w1)); [|done].
  apply ss_upd_this; [done..|]. by apply ss_settle_reject.
Qed.

Lemma ss_onclose w0 code reason w :
  stays_stopped w0 w → stays_stopped w0 (onclose code reason w).
Proof.
  intros Hs. unfold onclose. cbv zeta.
  match goal with |- context [emit ?e ?v (cleanupConnection ?x)] =>
    assert (H1 : stays_stopped w0 (emit e v (cleanupConnection x))) end.
  { apply ss_emit, ss_cleanupConnection.
    destruct (connectionPromise (this w)); [|done].
    destruct (negb _); [|done]. by apply ss_settle_reject. }
  revert H1.
  match goal with |- context [emit ?e ?v (cleanupConnection ?x)] =>
    generalize (emit e v (cleanupConnection x)) end.
  intros w1 H1. pose proof H1 as ([Hm _ _ _ _] & _ & _).
  by rewrite Hm, andb_false_r.
Qed.

Lemma ss_beforeUnload w0 w : stays_stopped w0 w → stays_stopped w0 (beforeUnload w).
Proof.
  intros Hs. unfold beforeUnload. cbv zeta.
  assert (H1 : stays_stopped w0 (upd_this (set_isReconnecting false)
                                   (upd_this (set_manualDisconnect true) w)))
    by (by apply ss_set_isReconnecting, ss_set_manualDisconnect).
  destruct (ws_is_open _); [|done]. by apply ss_ws_close.
Qed.

Lemma ss_handleEventNotification w0 params w :
  stays_stopped w0 w → stays_stopped w0 (handleEventNotification JSON_parse params w).
Proof.
  intros Hs. unfold handleEventNotification.
  repeat (destruct (get_prop params _); [|by apply ss_emit]).
  destruct (_ || _); by apply ss_emit.
Qed.

Lemma ss_handleNotification w0 notification env w :
  stays_stopped w0 w →
  stays_stopped w0 (handleNotification JSON_parse notification env w).
Proof.
  intros Hs. unfold handleNotification. cbv zeta.
  destruct (get_prop_opt notification "method") as [| | | |method| |]; try done.
  repeat match goal with |- stays_stopped _ (match ?x with _ => _ end) => destruct x end;
    first [ done
          | by apply ss_emit
          | by apply ss_handleDisconnect, ss_emit
          | by apply ss_handleEventNotification
          | by apply ss_sendNotification, ss_emit ].
Qed.

Lemma ss_handleMessage w0 data env w :
  stays_stopped w0 w → stays_stopped w0 (handleMessage JSON_parse data env w).
Proof.
  intros Hs. unfold handleMessage.
  destruct (JSON_parse data) as [message|]; [|by apply ss_emit].
  destruct (has_prop "id" message) as [[]|]; [by apply ss_handleResponse| |done].
  destruct (has_prop "method" message) as [[]|]; [|done|done].
  by apply ss_handleNotification.
Qed.

Lemma ss_fire_timer w0 t env w :
  stays_stopped w0 w → stays_stopped w0 (fire_timer t env w).
Proof.
  intros Hs. unfold fire_timer.
  destruct (timers w !! t) as [[cb d r]|]; [|done]. cbv zeta. simpl.
  assert (H1 : stays_stopped w0 (if r then w else clearTimer t w)).
  { destruct r; [done|]. by apply ss_clearTimer. }
  destruct cb.
  - by apply ss_request_timeout.
  - by apply ss_ping_tick.
  - by rewrite (stopped_reconnect_tick w0).
Qed.

(** A task other than a call of [connect()]. *)
Lemma ss_handle w0 t env w :
  t ≠ AppConnect → task_enabled t env w = true →
  stays_stopped w0 w → stays_stopped w0 (handle JSON_parse t env w).
Proof.
  intros Ht Hen Hs. destruct t; simpl; try done.
  - by apply ss_disconnect.
  - by apply ss_destroy.
  - by apply ss_send.
  - by apply ss_on.
  - by apply ss_off.
  - by apply ss_set_heap.
  - assert (H1 : stays_stopped w0 (upd_socket s (socket_set_readyState OPEN) w)).
    { apply ss_socket_open; [|done]. revert Hen. unfold task_enabled.
      by intros [_ H]%andb_prop. }
    destruct (socket_attached _ _); [|done]. unfold onopen, sendConnectRequest.
    by apply ss_sendRequest.
  - destruct (socket_attached _ _); [|done]. by apply ss_handleMessage.
  - destruct (socket_attached _ _); [|done]. by apply ss_emit.
  - pose proof (ss_socket_closed w0 s w Hs) as H1.
    destruct (socket_attached _ _); [|done]. by apply ss_onclose.
  - by apply ss_fire_timer.
  - destruct (beforeUnloadHandler _); [|done]. by apply ss_beforeUnload.
Qed.

Lemma ss_run_microtask w0 w : stays_stopped w0 w → stays_stopped w0 (run_microtask w).
Proof.
  intros Hs. pose proof Hs as ([_ _ _ _ [Hq _]] & _ & _).
  unfold run_microtask. destruct (microtasks w) as [|[k o] rest] eqn:Hmt; [done|].
  pose proof (ss_pop w0 (k, o) rest w Hmt Hs) as H1.
  destruct k, o; simpl; try done.
  - destruct (Hq KAuthThen (Resolve v)) as [r Hr]; [by left|done|done].
  - by apply ss_push_reject.
  - by apply ss_auth_catch.
  - by apply ss_push_reject.
  - by apply ss_ping_catch.
  - by apply ss_reconnect_catch.
Qed.

Lemma ss_step w0 l w :
  (∀ env, l ≠ LTask AppConnect env) → enabled l w = true →
  stays_stopped w0 w → stays_stopped w0 (step JSON_parse l w).
Proof.
  intros Hl Hen Hs. destruct l as [t env|]; simpl.
  - apply ss_handle; [|done..]. intros ->. by apply (Hl env).
  - by apply ss_run_microtask.
Qed.

Lemma ss_run h : ∀ w0 w w',
  no_connect_call h → run JSON_parse h w = Some w' →
  stays_stopped w0 w → stays_stopped w0 w'.
Proof.
  induction h as [|l h IH]; intros w0 w w' Hh; simpl.
  - by intros [= <-].
  - destruct (enabled l w) eqn:Hen; [|done]. intros Hrun Hs.
    apply (IH w0 (step JSON_parse l w) w'); [|done|].
    + intros env Hin. apply (Hh env). by right.
    + apply ss_step; [|done..]. intros env ->. apply (Hh env). by left.
Qed.

End StoppedMethods.

(** *** [disconnect()] stops the session *)

Section Stops.

Implicit Types (w : World).

Lemma settle_reject_microtasks p r c w k o :
  (k, o) ∈ microtasks (settle p (Reject r) c w) →
  (k, o) ∈ microtasks w ∨ o = Reject r.
Proof.
  unfold settle. cbv zeta. destruct (negb _); [|fields; tauto].
  fields. destruct (promises w !! p); fields; [|tauto].
  intros [H|[= -> ->]%list_elem_of_singleton]%elem_of_app; tauto.
Qed.

Lemma sweep_microtasks l : ∀ w k o,
  (k, o) ∈ microtasks (foldl rejectPending w l) →
  (k, o) ∈ microtasks w ∨ ∃ r, o = Reject r.
Proof.
  induction l as [|pr l IH]; intros w k o; simpl; [tauto|].
  intros [H|H]%IH; [|tauto]. unfold rejectPending in H.
  apply settle_reject_microtasks in H. revert H. fields. intros [H|H]; eauto.
Qed.

Lemma cleanupConnection_microtasks w k o :
  (k, o) ∈ microtasks (cleanupConnection w) →
  (k, o) ∈ microtasks w ∨ ∃ r, o = Reject r.
Proof.
  unfold cleanupConnection, detachHandlers, dropConnectionPromise. cbv zeta.
  match goal with |- context [foldl rejectPending ?x ?l] =>
    pose proof (sweep_microtasks l x k o) as Hsw; revert Hsw;
    replace (microtasks x) with (microtasks w) by (by wsimpl);
    generalize (foldl rejectPending x l) end.
  intros w1 Hsw H.
  assert (H1 : (k, o) ∈ microtasks w1 ∨ ∃ r, o = Reject r); [|destruct H1; tauto].
  revert H. clear Hsw.
  match goal with |- context [match ws ?o with _ => _ end] => destruct (ws o) end;
    fields;
    (match goal with |- context [match connectionPromise ?o with _ => _ end] =>
       destruct (connectionPromise o) end; fields; try tauto);
    (destruct (_ && _); fields; try tauto);
    intros H%settle_reject_microtasks; revert H; fields; intros [H|H]; eauto.
Qed.

Lemma handleDisconnect_microtasks graceful reason w k o :
  (k, o) ∈ microtasks (handleDisconnect graceful reason w) →
  (k, o) ∈ microtasks w ∨ ∃ r, o = Reject r.
Proof.
  unfold handleDisconnect. cbv zeta. destruct (ws (this w)).
  - destruct (closeSocket_throws _ _ _); [wsimpl; tauto|].
    intros H%cleanupConnection_microtasks. revert H. by wsimpl.
  - apply cleanupConnection_microtasks.
Qed.

Lemma disconnect_microtasks w k o :
  (k, o) ∈ microtasks (disconnect w) →
  (k, o) ∈ microtasks w ∨ ∃ r, o = Reject r.
Proof.
  unfold disconnect. cbv zeta. intros H%handleDisconnect_microtasks. revert H.
  unfold cleanupBeforeUnloadHandler. destruct (beforeUnloadHandler _); by fields.
Qed.

Lemma ws_close_readyState code reason w :
  ws_readyState (ws_close code reason w) ≠ Some CONNECTING
  ∧ ws_readyState (ws_close code reason w) ≠ Some OPEN.
Proof.
  unfold ws_readyState. rewrite ws_close_this, ws_close_sockets.
  destruct (ws (this w)) as [s|]; [|done]. simpl.
  rewrite list_lookup_alter_eq. destruct (sockets w !! s) as [sock|]; [|done].
  simpl. by destruct (readyState sock).
Qed.

Lemma closeSocket_readyState graceful reason w :
  ws_readyState (closeSocket graceful reason w) ≠ Some CONNECTING
  ∧ ws_readyState (closeSocket graceful reason w) ≠ Some OPEN.
Proof.
  unfold closeSocket. destruct (ws_readyState w) as [[]|] eqn:Hst;
    rewrite ?Hst; try done; try destruct graceful; apply ws_close_readyState.
Qed.

Lemma cleanupConnection_readyState w :
  ws_readyState (cleanupConnection w) = ws_readyState w.
Proof.
  apply ws_readyState_eq; wsimpl; [by fields|].
  destruct (ws (this w)); [|done]. by apply readyState_alter.
Qed.

Lemma disconnect_readyState w :
  ws_readyState (disconnect w) ≠ Some CONNECTING
  ∧ ws_readyState (disconnect w) ≠ Some OPEN.
Proof.
  unfold disconnect. cbv zeta. rewrite handleDisconnect_manual, cleanupConnection_readyState.
  match goal with |- context [ws (this ?x)] => generalize x end. intros w0.
  destruct (ws (this w0)) eqn:Hws; [apply closeSocket_readyState|].
  unfold ws_readyState. by rewrite Hws.
Qed.

(** After [disconnect()] the session is stopped, unless the reply to a
    handshake has been received and the reaction to it has not run yet. *)
Lemma disconnect_stops w :
  (∀ v, (KAuthThen, Resolve v) ∉ microtasks w) → stopped (disconnect w).
Proof.
  intros Hq. destruct (disconnect_readyState w) as [H1 H2]. split; try done.
  - apply disconnect_manualDisconnect.
  - apply disconnect_isReconnecting.
  - split.
    + intros k o [H|[r ->]]%disconnect_microtasks ->; [|by exists r].
      destruct o as [v|r]; [by destruct (Hq v)|by exists r].
    + intros id pr. unfold disconnect. cbv zeta.
      rewrite handleDisconnect_this, cleanupConnection_this by done. by fields.
Qed.

End Stops.

(** *** The same with listeners that call back into the instance *)

Section StoppedLive.

Variables (fuel : nat) (B : Behaviour).
Variable JSON_parse : string -> option JSVal.
Variable emit' : Event.t -> Value -> World -> option (World * Value).

Hypothesis HB : never_connects B.

Implicit Types (w : World).

Lemma ss_calls_live w0 e cs : ∀ cur w w' cur',
  (∀ env, CallConnect env ∉ cs) →
  stays_stopped w0 w → calls_live emit' e cs cur w = Some (w', cur') →
  stays_stopped w0 w'.
Proof.
  induction cs as [|c cs IH]; intros cur w w' cur' Hcs Hs; simpl.
  - by intros [= <- _].
  - destruct (call_live emit' c w) as [w1|] eqn:Hc; simpl; [|done].
    apply IH.
    + intros env Hin. apply (Hcs env). by right.
    + destruct c; simpl in Hc; try injection Hc as <-.
      * by apply ss_on.
      * by apply ss_off.
      * destruct (Hcs env). by left.
      * by apply ss_disconnect.
      * by apply ss_destroy.
      * by apply ss_send.
Qed.

Lemma ss_forEach_live w0 e n : ∀ k cur arg w w' v,
  stays_stopped w0 w → forEach_live emit' B e n k cur arg w = Some (w', v) →
  stays_stopped w0 w'.
Proof.
  induction n as [|n IH]; intros k cur arg w w' v Hs; simpl.
  - by intros [= <- _].
  - destruct (cur !! k) as [l|]; [|by apply IH]. cbv zeta.
    destruct (calls_live _ _ _ _ _) as [[w1 cur1]|] eqn:Hc; simpl; [|done].
    apply IH. eapply ss_calls_live; [apply HB| |exact Hc].
    by apply (ss_frame w0 w).
Qed.

Lemma ss_emit_body w0 e arg w w' v :
  stays_stopped w0 w → emit_body emit' B e arg w = Some (w', v) →
  stays_stopped w0 w'.
Proof.
  intros Hs. unfold emit_body. cbv zeta.
  assert (H1 : stays_stopped w0 (set_emitted (emitted w ++ [(e, arg)]) w))
    by (by apply (ss_frame w0 w)).
  destruct (eventListeners _ !! _); [by apply ss_forEach_live|]. by intros [= <- _].
Qed.

End StoppedLive.

Section StoppedLiveMethods.

Variables (fuel : nat) (B : Behaviour).
Variable JSON_parse : string -> option JSVal.

Hypothesis HB : never_connects B.

Implicit Types (w : World).

Lemma ss_emit_live w0 e arg w w' v :
  stays_stopped w0 w → emit_live fuel B e arg w = Some (w', v) →
  stays_stopped w0 w'.
Proof. destruct fuel; [done|]. simpl. by apply ss_emit_body. Qed.

Lemma ss_emit_then w0 e arg w w' :
  stays_stopped w0 w → emit_then fuel B e arg w = Some w' → stays_stopped w0 w'.
Proof.
  intros Hs. unfold emit_then.
  destruct (emit_live _ _ _ _ _) as [[w1 v]|] eqn:He; simpl; [|done].
  intros [= <-]. by eapply ss_emit_live.
Qed.

Lemma ss_tryReconnect_live w0 w w' :
  stays_stopped w0 w → tryReconnect_live fuel B w = Some w' → stays_stopped w0 w'.
Proof.
  intros Hs. pose proof Hs as ([Hm _ _ _ _] & _ & _).
  unfold tryReconnect_live. rewrite Hm, orb_true_r. by intros [= <-].
Qed.

Lemma ss_sendNotification_live w0 method params env w w' :
  stays_stopped w0 w → sendNotification_live fuel B method params env w = Some w' →
  stays_stopped w0 w'.
Proof.
  intros Hs. unfold sendNotification_live. rewrite (stopped_not_open _ _ Hs).
  by intros [= <-].
Qed.

Lemma ss_auth_catch_live w0 error w w' :
  stays_stopped w0 w → auth_catch_live fuel B error w = Some w' → stays_stopped w0 w'.
Proof.
  intros Hs. unfold auth_catch_live.
  destruct (emit_then _ _ _ _ _) as [w1|] eqn:He; simpl; [|done].
  apply (ss_emit_then w0) in He; [|done]. intros [= <-].
  apply ss_cleanupConnection, ss_handleDisconnect.
  destruct (connectionPromise (this w1)); [|done].
  apply ss_upd_this; [done..|]. by apply ss_settle_reject.
Qed.

Lemma ss_ping_catch_live w0 w w' :
  stays_stopped w0 w → ping_catch_live fuel B w = Some w' → stays_stopped w0 w'.
Proof.
  intros Hs. unfold ping_catch_live.
  destruct (emit_then _ _ _ _ _) as [w1|] eqn:He; simpl; [|done].
  apply (ss_emit_then w0) in He; [|done]. by apply ss_tryReconnect_live.
Qed.

Lemma ss_reconnect_catch_live w0 w w' :
  stays_stopped w0 w → reconnect_catch_live fuel B w = Some w' → stays_stopped w0 w'.
Proof.
  intros Hs. pose proof Hs as ([_ Hi _ _ _] & _ & _).
  unfold reconnect_catch_live. rewrite Hi. by intros [= <-].
Qed.

Lemma ss_onclose_live w0 code reason w w' :
  stays_stopped w0 w → onclose_live fuel B code reason w = Some w' →
  stays_stopped w0 w'.
Proof.
  intros Hs. unfold onclose_live. cbv zeta.
  destruct (emit_then _ _ _ _ _) as [w1|] eqn:He; simpl; [|done].
  apply (ss_emit_then w0) in He.
  - pose proof He as ([Hm _ _ _ _] & _ & _). rewrite Hm, andb_false_r. by intros [= <-].
  - apply ss_cleanupConnection. destruct (connectionPromise (this w)); [|done].
    destruct (negb _); [|done]. by apply ss_settle_reject.
Qed.

(** The callback of a retry timer returns at its test. *)
Lemma stopped_reconnect_tick_live w0 env w :
  stays_stopped w0 w → reconnect_tick_live fuel B env w = Some w.
Proof. intros ([_ Hi _ _ _] & _ & _). unfold reconnect_tick_live. by rewrite Hi. Qed.

Lemma ss_handleEventNotification_live w0 params w w' :
  stays_stopped w0 w →
  handleEventNotification_live fuel B JSON_parse params w = Some w' →
  stays_stopped w0 w'.
Proof.
  intros Hs. unfold handleEventNotification_live.
  repeat (destruct (get_prop params _); [|by apply ss_emit_then]).
  destruct (_ || _); by apply ss_emit_then.
Qed.

Lemma ss_handleNotification_live w0 notification env w w' :
  stays_stopped w0 w →
  handleNotification_live fuel B JSON_parse notification env w = Some w' →
  stays_stopped w0 w'.
Proof.
  intros Hs. unfold handleNotification_live. cbv zeta.
  destruct (get_prop_opt notification "method") as [| | | |method| |];
    try (by intros [= <-]).
  repeat match goal with
         | |- match ?x with _ => _ end = Some _ → _ => destruct x
         end;
    first [ by intros [= <-]
          | by apply ss_handleEventNotification_live
          | destruct (emit_live _ _ _ _ _) as [[w1 after]|] eqn:He; simpl; [|done];
            apply (ss_emit_live w0) in He; [|done];
            first [ intros [= <-]; by apply ss_handleDisconnect
                  | repeat (destruct (get_prop _ _); [|by intros [= <-]]);
                    by apply ss_sendNotification_live ] ].
Qed.

Lemma ss_handleMessage_live w0 data env w w' :
  stays_stopped w0 w → handleMessage_live fuel B JSON_parse data env w = Some w' →
  stays_stopped w0 w'.
Proof.
  intros Hs. unfold handleMessage_live.
  destruct (JSON_parse data) as [message|]; [|by apply ss_emit_then].
  destruct (has_prop "id" message) as [[]|]; [| |by intros [= <-]].
  - intros [= <-]. by apply ss_handleResponse.
  - destruct (has_prop "method" message) as [[]|]; try (by intros [= <-]).
    by apply ss_handleNotification_live.
Qed.

Lemma ss_fire_timer_live w0 t env w w' :
  stays_stopped w0 w → fire_timer_live fuel B t env w = Some w' → stays_stopped w0 w'.
Proof.
  intros Hs. unfold fire_timer_live.
  destruct (timers w !! t) as [[cb d r]|]; [|by intros [= <-]]. cbv zeta. simpl.
  assert (H1 : stays_stopped w0 (if r then w else clearTimer t w)).
  { destruct r; [done|]. by apply ss_clearTimer. }
  destruct cb.
  - intros [= <-]. by apply ss_request_timeout.
  - intros [= <-]. by apply ss_ping_tick.
  - rewrite (stopped_reconnect_tick_live w0) by done. by intros [= <-].
Qed.

Lemma ss_handle_live w0 t env w w' :
  t ≠ AppConnect → task_enabled t env w = true →
  stays_stopped w0 w → handle_live fuel B JSON_parse t env w = Some w' →
  stays_stopped w0 w'.
Proof.
  intros Ht Hen Hs. destruct t; simpl; try done; try intros [= <-].
  - by apply ss_disconnect.
  - by apply ss_destroy.
  - by apply ss_send.
  - by apply ss_on.
  - by apply ss_off.
  - by apply ss_set_heap.
  - assert (H1 : stays_stopped w0 (upd_socket s (socket_set_readyState OPEN) w)).
    { apply ss_socket_open; [|done]. revert Hen. unfold task_enabled.
      by intros [_ H]%andb_prop. }
    destruct (socket_attached _ _); intros [= <-]; [|done].
    unfold onopen, sendConnectRequest. by apply ss_sendRequest.
  - destruct (socket_attached _ _); [|by intros [= <-]]. by apply ss_handleMessage_live.
  - destruct (socket_attached _ _); [|by intros [= <-]]. by apply ss_emit_then.
  - pose proof (ss_socket_closed w0 s w Hs) as H1.
    destruct (socket_attached _ _); [|by intros [= <-]]. by apply ss_onclose_live.
  - by apply ss_fire_timer_live.
  - destruct (beforeUnloadHandler _); [|done]. by apply ss_beforeUnload.
Qed.

Lemma ss_run_microtask_live w0 w w' :
  stays_stopped w0 w → run_microtask_live fuel B w = Some w' → stays_stopped w0 w'.
Proof.
  intros Hs. pose proof Hs as ([_ _ _ _ [Hq _]] & _ & _).
  unfold run_microtask_live.
  destruct (microtasks w) as [|[k o] rest] eqn:Hmt; [by intros [= <-]|].
  pose proof (ss_pop w0 (k, o) rest w Hmt Hs) as H1.
  destruct k, o; simpl; try (by intros [= <-]).
  - destruct (Hq KAuthThen (Resolve v)) as [r Hr]; [by left|done|done].
  - intros [= <-]. by apply ss_push_reject.
  - by apply ss_auth_catch_live.
  - intros [= <-]. by apply ss_push_reject.
  - by apply ss_ping_catch_live.
  - by apply ss_reconnect_catch_live.
Qed.

Lemma ss_step_live w0 l w w' :
  (∀ env, l ≠ LTask AppConnect env) → enabled l w = true →
  stays_stopped w0 w → step_live fuel B JSON_parse l w = Some w' →
  stays_stopped w0 w'.
Proof.
  intros Hl Hen Hs. destruct l as [t env|]; simpl.
  - apply ss_handle_live; [|done..]. intros ->. by apply (Hl env).
  - by apply ss_run_microtask_live.
Qed.

Lemma ss_run_live h : ∀ w0 w w',
  no_connect_call h → run_live fuel B JSON_parse h w = Some w' →
  stays_stopped w0 w → stays_stopped w0 w'.
Proof.
  induction h as [|l h IH]; intros w0 w w' Hh; simpl.
  - by intros [= <-].
  - destruct (enabled l w) eqn:Hen; [|done].
    destruct (step_live _ _ _ _ _) as [w1|] eqn:Hst; simpl; [|done].
    intros Hrun Hs. apply (IH w0 w1 w'); [|done|].
    + intros env Hin. apply (Hh env). by right.
    + eapply ss_step_live; [|done|done|exact Hst]. intros env ->. apply (Hh env). by left.
Qed.

End StoppedLiveMethods.

(** ** Manual disconnection during a reconnection delay (C6) *)

Section ManualDisconnect.

Variable JSON_parse : string -> option JSVal.


End ManualDisconnect.

Section ManualDisconnectSamples.

Lemma sample_behaviour_never_connects : never_connects sample_behaviour.
Proof.
  intros w l e arg env. unfold sample_behaviour.
  destruct e; simpl; first [apply not_elem_of_nil | by intros [=]%list_elem_of_singleton].
Qed.

Lemma idle_history_no_connect : no_connect_call idle_history.
Proof.
  intros env. unfold idle_history.
  repeat (apply not_elem_of_cons; split; [done|]). apply not_elem_of_nil.
Qed.



End ManualDisconnectSamples.

(** ** The reconnection policy (C4) *)

Section Reconnection.

Variable JSON_parse : string -> option JSVal.

Lemma scheduleReconnect_retry w :
  reconnectAttempts (this w) < maxReconnectAttempts (this w) →
  scheduleReconnect w
  = setTimeout TReconnect (backoff w (reconnectAttempts (this w)))
      (emit Event.Reconnecting
         (reconnecting_info (S (reconnectAttempts (this w)))
            (backoff w (reconnectAttempts (this w))))
         (upd_this (fun o => set_reconnectAttempts (S (reconnectAttempts o)) o) w)).
Proof.
  intros Hlt. unfold scheduleReconnect.
  destruct (Nat.leb_spec (maxReconnectAttempts (this w)) (reconnectAttempts (this w)));
    [lia|done].
Qed.

Lemma scheduleReconnect_give_up w :
  maxReconnectAttempts (this w) ≤ reconnectAttempts (this w) →
  scheduleReconnect w
  = emit Event.Error (VError "Reconnection failed.")
      (upd_this (set_reconnectAttempts 0) (upd_this (set_isReconnecting false) w)).
Proof.
  intros Hle. unfold scheduleReconnect.
  destruct (Nat.leb_spec (maxReconnectAttempts (this w)) (reconnectAttempts (this w)));
    [done|lia].
Qed.

Lemma connect_opens_socket k env w :
  isConnected (this w) = false →
  ws_readyState w ≠ Some CONNECTING →
  ctor_error env = None →
  connect k env w
  = upd_this (set_ws (Some (length (sockets w))))
      (set_sockets (sockets w ++ [mkWebSocket CONNECTING true [] []])
         (upd_this (set_connectionPromise
                      (Some (mkConn (length (promises w)) (length (promises w)))))
            (upd_this (set_manualDisconnect false)
               (new_promise (mkPromise FromConnect k) w)))).
Proof.
  intros Hdis Hnc Hctor. unfold connect. fields. rewrite Hdis, Hctor.
  change (ws_readyState (new_promise _ w)) with (ws_readyState w).
  rewrite bool_decide_eq_false_2 by done. done.
Qed.

Lemma is_settled_false p w :
  (∀ s, s ∈ settlements w → target s ≠ p) → is_settled p w = false.
Proof.
  intros H. unfold is_settled. apply not_true_is_false. intros He.
  apply existsb_exists in He as (s & Hin & Heq).
  apply Nat.eqb_eq in Heq. apply (H s); [|done]. by apply list_elem_of_In.
Qed.

Lemma settle_microtasks_first p o c w r :
  is_settled p w = false → promises w !! p = Some r →
  microtasks (settle p o c w) = microtasks w ++ [(reaction r, o)].
Proof. intros Hs Hp. unfold settle. rewrite Hs. fields. by rewrite Hp. Qed.

Lemma dropConnectionPromise_microtasks_quiet w :
  connectionPromise (this w) = None ∨ isReconnecting (this w) = true →
  microtasks (dropConnectionPromise w) = microtasks w.
Proof.
  unfold dropConnectionPromise. intros [H|H]; rewrite H; [done|].
  by destruct (connectionPromise (this w)).
Qed.

Lemma cleanupConnection_microtasks_quiet w :
  pendingRequests (this w) = ∅ →
  connectionPromise (this w) = None ∨ isReconnecting (this w) = true →
  microtasks (cleanupConnection w) = microtasks w.
Proof.
  intros Hp Hc. unfold cleanupConnection. wsimpl.
  rewrite Hp, map_to_list_empty. simpl.
  rewrite dropConnectionPromise_microtasks_quiet by (by wsimpl).
  by wsimpl.
Qed.

Lemma onclose_before_handshake code reason w c :
  isConnected (this w) = false →
  connectionPromise (this w) = Some c →
  onclose code reason w
  = emit Event.Disconnect
      (VJson (JObj [("code", JNum code); ("reason", JStr reason)]))
      (cleanupConnection
         (settle (cp_reject c)
            (Reject (VError ("Connection closed before authentication (Code: " +:+
                             pretty code +:+ ")")))
            ByClose w)).
Proof. intros Hdis Hc. unfold onclose. by rewrite Hdis, Hc. Qed.

Lemma failed_attempt_steps env code reason w :
  policy_invoked w →
  reconnectAttempts (this w) < maxReconnectAttempts (this w) →
  ctor_error env = None →
  let w1 := scheduleReconnect w in
  let w2 := handle JSON_parse (TimerFire (attempt_timer w)) env w1 in
  let w3 := handle JSON_parse (WsClose (attempt_socket w) code reason) env w2 in
  task_enabled (TimerFire (attempt_timer w)) env w1 = true
  ∧ task_enabled (WsClose (attempt_socket w) code reason) env w2 = true
  ∧ (∃ e, microtasks w3 = [(KReconnectCatch, Reject e)])
  ∧ isConnected (this w3) = false
  ∧ isReconnecting (this w3) = true
  ∧ pendingRequests (this w3) = ∅
  ∧ ws_readyState w3 = Some CLOSED
  ∧ (∀ s, s ∈ settlements w3 → target s < length (promises w3))
  ∧ reconnectAttempts (this w3) = S (reconnectAttempts (this w))
  ∧ maxReconnectAttempts (this w3) = maxReconnectAttempts (this w)
  ∧ initialReconnectDelay (this w3) = initialReconnectDelay (this w).
Proof.
  intros [Hdis Hrec Hidle Hpend Hnc Hknown] Hlt Hctor w1 w2 w3.
  assert (E1 : w1 = setTimeout TReconnect (backoff w (reconnectAttempts (this w)))
      (emit Event.Reconnecting
         (reconnecting_info (S (reconnectAttempts (this w)))
            (backoff w (reconnectAttempts (this w))))
         (upd_this (fun o => set_reconnectAttempts (S (reconnectAttempts o)) o) w)))
    by (by apply scheduleReconnect_retry).
  assert (E2 : w2 = connect KReconnectCatch env (clearTimer (attempt_timer w) w1)).
  { unfold w2, handle, fire_timer. rewrite E1 at 1. wsimpl.
    unfold attempt_timer. rewrite lookup_insert_eq. simpl. unfold reconnect_tick.
    rewrite E1 at 1. wsimpl. rewrite Hrec. done. }
  rewrite connect_opens_socket in E2.
  2:{ rewrite E1. by wsimpl. }
  2:{ rewrite E1. unfold ws_readyState. by wsimpl. }
  2: done.
  clearbody w2. rewrite E1 in E2. clearbody w1. subst w1. wsimpl_in E2.
  set (s := length (sockets w)) in *. set (p := length (promises w)) in *.
  assert (Hs2 : sockets w2 = sockets w ++ [mkWebSocket CONNECTING true [] []])
    by (rewrite E2; by wsimpl).
  assert (Hm2 : microtasks w2 = []) by (rewrite E2; by wsimpl).
  assert (Hp2 : pendingRequests (this w2) = ∅) by (rewrite E2; by wsimpl).
  assert (E3 : w3 = onclose code reason
                      (upd_socket s (socket_set_readyState CLOSED) w2)).
  { unfold w3, handle, socket_attached, attempt_socket. fold s. wsimpl.
    rewrite Hs2, list_lookup_alter_eq, lookup_app_r, Nat.sub_diag by done. done. }
  rewrite (onclose_before_handshake _ _ _ (mkConn p p)) in E3.
  2:{ rewrite E2. by wsimpl. }
  2:{ rewrite E2. by wsimpl. }
  clearbody w3.
  assert (Hthis2 : this w2
                   = set_ws (Some s)
                       (set_connectionPromise (Some (mkConn p p))
                          (set_manualDisconnect false
                             (set_reconnectAttempts (S (reconnectAttempts (this w)))
                                (this w)))))
    by (rewrite E2; by wsimpl).
  assert (Hpr2 : promises w2 = promises w ++ [mkPromise FromConnect KReconnectCatch])
    by (rewrite E2; by wsimpl).
  assert (Hse2 : settlements w2 = settlements w) by (rewrite E2; by wsimpl).
  clear E2.
  set (X := settle (cp_reject (mkConn p p)) _ ByClose _) in E3.
  assert (HthisX : this X = this w2) by (unfold X; by wsimpl).
  assert (HmX : microtasks X = [(KReconnectCatch, Reject
                 (VError ("Connection closed before authentication (Code: " +:+
                          pretty code +:+ ")")))]).
  { unfold X.
    rewrite (settle_microtasks_first _ _ _ _ (mkPromise FromConnect KReconnectCatch)).
    - wsimpl. by rewrite Hm2.
    - apply is_settled_false. wsimpl. rewrite Hse2. intros s0 Hs0%Hknown. simpl. lia.
    - wsimpl. rewrite Hpr2. simpl. by rewrite lookup_app_r, Nat.sub_diag. }
  assert (Hthis3 : this w3
                   = set_connectionPromise None
                       (set_pendingRequests ∅
                          (set_pingTimeout None
                             (set_pingInterval None (set_isConnected false (this w2))))))
    by (rewrite E3; wsimpl; by rewrite HthisX).
  split.
  { unfold task_enabled. wsimpl. unfold attempt_timer.
    rewrite Hidle, Hpend, lookup_empty, lookup_insert_eq. done. }
  split.
  { unfold task_enabled, socket_in, attempt_socket. fold s.
    rewrite Hm2, Hp2, lookup_empty, Hs2, lookup_app_r, Nat.sub_diag by done. done. }
  split.
  { eexists. rewrite E3. wsimpl.
    rewrite cleanupConnection_microtasks_quiet; [exact HmX| |].
    - by rewrite HthisX.
    - right. rewrite HthisX, Hthis2. by wsimpl. }
  rewrite Hthis3, Hthis2. wsimpl.
  repeat split; try done.
  - unfold ws_readyState. rewrite Hthis3, Hthis2. wsimpl. simpl.
    rewrite E3. wsimpl. rewrite HthisX, Hthis2. wsimpl. unfold X. wsimpl.
    rewrite !list_lookup_alter_eq, Hs2, lookup_app_r, Nat.sub_diag by done. done.
  - rewrite E3. wsimpl. unfold sweep_of, connection_rejection.
    rewrite HthisX, Hp2, map_to_list_empty, Hthis2. wsimpl. rewrite Hrec. simpl.
    unfold X. wsimpl. rewrite Hse2, Hpr2, app_nil_r, length_app. simpl.
    intros s0 [Hs0| ->%list_elem_of_singleton]%elem_of_app.
    + apply Hknown in Hs0. lia.
    + simpl. lia.
Qed.

Lemma run_microtask_reconnect_catch e w :
  microtasks w = [(KReconnectCatch, Reject e)] →
  isReconnecting (this w) = true →
  run_microtask w = scheduleReconnect (set_microtasks [] w).
Proof.
  intros Hm Hr. unfold run_microtask. rewrite Hm. simpl. unfold reconnect_catch.
  fields. by rewrite Hr.
Qed.

Lemma failed_attempt_policy_invoked env code reason w :
  policy_invoked w →
  reconnectAttempts (this w) < maxReconnectAttempts (this w) →
  ctor_error env = None →
  let w' := failed_attempt JSON_parse env code reason w in
  policy_invoked w'
  ∧ reconnectAttempts (this w') = S (reconnectAttempts (this w))
  ∧ maxReconnectAttempts (this w') = maxReconnectAttempts (this w)
  ∧ initialReconnectDelay (this w') = initialReconnectDelay (this w).
Proof.
  intros Hpi Hlt Hctor.
  destruct (failed_attempt_steps env code reason w Hpi Hlt Hctor)
    as (_ & _ & _ & H1 & H2 & H3 & H4 & H5 & H6 & H7 & H8).
  unfold failed_attempt. fields. split; [|done]. split; try done.
  unfold ws_readyState in *. fields. by rewrite H4.
Qed.

(** The three turns of one failed attempt are turns the event loop can take,
    and they end with the policy being invoked again. *)
Lemma failed_attempt_run env code reason w rest :
  policy_invoked w →
  reconnectAttempts (this w) < maxReconnectAttempts (this w) →
  ctor_error env = None →
  run JSON_parse
    ([LTask (TimerFire (attempt_timer w)) env;
      LTask (WsClose (attempt_socket w) code reason) env;
      LMicro] ++ rest)
    (scheduleReconnect w)
  = run JSON_parse rest (scheduleReconnect (failed_attempt JSON_parse env code reason w)).
Proof.
  intros Hpi Hlt Hctor.
  destruct (failed_attempt_steps env code reason w Hpi Hlt Hctor)
    as (En1 & En2 & [e Hm] & _ & Hr & _).
  cbn [run app enabled step]. rewrite En1, En2, Hm. cbn [negb bool_decide].
  rewrite bool_decide_eq_false_2 by done. cbn [negb].
  by erewrite run_microtask_reconnect_catch.
Qed.


Lemma after_failures_spec env code reason K :
  ∀ w,
    policy_invoked w →
    ctor_error env = None →
    reconnectAttempts (this w) + K ≤ maxReconnectAttempts (this w) →
    let wK := after_failures JSON_parse env code reason K w in
    policy_invoked wK
    ∧ reconnectAttempts (this wK) = reconnectAttempts (this w) + K
    ∧ maxReconnectAttempts (this wK) = maxReconnectAttempts (this w)
    ∧ initialReconnectDelay (this wK) = initialReconnectDelay (this w)
    ∧ run JSON_parse (failures_history JSON_parse env code reason K w)
        (scheduleReconnect w)
      = Some (scheduleReconnect wK).
Proof.
  induction K as [|k IH]; intros w Hpi Hctor Hle.
  - simpl. split; [done|]. split; [lia|]. done.
  - assert (Hlt : reconnectAttempts (this w) < maxReconnectAttempts (this w)) by lia.
    destruct (failed_attempt_policy_invoked env code reason w Hpi Hlt Hctor)
      as (Hpi1 & Ha1 & Hm1 & Hb1).
    destruct (IH (failed_attempt JSON_parse env code reason w) Hpi1 Hctor)
      as (HpiK & HaK & HmK & HbK & Hrun); [lia|].
    cbn [after_failures failures_history].
    rewrite failed_attempt_run by done.
    split; [done|]. split; [lia|]. split; [congruence|]. split; [congruence|]. done.
Qed.


End Reconnection.

Section ReconnectionSamples.

(** [sample_lost] is where the policy is invoked when the connection of
    [sample_connected] drops. *)
Lemma sample_lost_is_policy_invocation :
  handle sample_parse (WsClose 0 1006 "") (env_with "unused-6") sample_connected
  = scheduleReconnect sample_lost.
Proof. vm_compute. reflexivity. Qed.


End ReconnectionSamples.

(** ** Two callers of [connect()] during one attempt (C2) *)

Section ConnectChain.

(** C2 fails on the code.  Two calls of [connect()] are made while the socket
    is connecting: no second socket is opened, but the second call overwrites
    the [resolve] and [reject] stored for the first.  When the handshake
    succeeds only the promise of the second caller (handle 1) is settled; the
    promise of the first caller (handle 0) has not been settled and nothing
    in the session refers to it any more. *)
Lemma connect_chain_drops_first_caller :
  ∃ w,
    run sample_parse chained_connect_history sample_new = Some w
    ∧ length (sockets w) = 1
    ∧ (origin <$> promises w !! 0) = Some FromConnect
    ∧ (origin <$> promises w !! 1) = Some FromConnect
    ∧ is_settled 1 w = true
    ∧ is_settled 0 w = false
    ∧ isConnected (this w) = true
    ∧ connectionPromise (this w) = None
    ∧ pendingRequests (this w) = ∅
    ∧ microtasks w = [].
Proof. eexists. vm_compute. repeat split; reflexivity. Qed.

(** While connected, [connect()] resolves the promise it returns at once. *)
Lemma connect_when_connected k env w :
  isConnected (this w) = true →
  connect k env w
  = settle (length (promises w)) (Resolve (VJson JUndefined)) ByConnect
      (new_promise (mkPromise FromConnect k) w).
Proof. intros H. unfold connect. fields. by rewrite H. Qed.

End ConnectChain.

(** ** Failure of the handshake (C5) *)

Section HandshakeFailure.

(** C5 fails on the code when the handshake that fails belongs to a
    reconnection attempt.  The connection drops, the first retry opens a
    socket and the server rejects the handshake on it: the promise of
    [connect()] (handle 2) is rejected and the socket is force-closed with
    code 3001, but the [catch] of the retry then runs with [isReconnecting]
    still set and schedules the second retry: a reconnect timer is armed
    (two seconds) and a second [reconnecting] event follows the
    authentication error. *)
Lemma handshake_failure_during_retry_schedules_retry :
  ∃ w,
    run sample_parse rejected_retry_history sample_new = Some w
    ∧ is_settled 2 w = true
    ∧ (closeCalls <$> sockets w !! 1) = Some [(3001%Z, "Authentication failed")]
    ∧ reconnect_timers w = [(4, mkTimer TReconnect 2000 false)]
    ∧ reconnectAttempts (this w) = 2
    ∧ isReconnecting (this w) = true
    ∧ drop 3 (emitted w)
      = [(Event.Error, VError "Authentication failed: auth failed");
         (Event.Reconnecting, reconnecting_info 2 2000)].
Proof. eexists. vm_compute. repeat split; reflexivity. Qed.

(** When the first handshake of a session fails, no retry is scheduled. *)
Lemma handshake_failure_first_connect :
  ∃ w,
    run sample_parse rejected_first_history sample_new = Some w
    ∧ is_settled 0 w = true
    ∧ (closeCalls <$> sockets w !! 0) = Some [(3001%Z, "Authentication failed")]
    ∧ reconnect_timers w = []
    ∧ isReconnecting (this w) = false.
Proof. eexists. vm_compute. repeat split; reflexivity. Qed.

End HandshakeFailure.

(** ** Every pending request is settled exactly once (C1) *)

(** *** The invariant, on its components *)

Section InvariantComponents.

Implicit Types (P : gmap string PendingRequest) (T : gmap nat Timer).
Implicit Types (proms : list PromiseRec) (setts : list Settlement).

Lemma request_promise_app proms r p :
  request_promise proms p → request_promise (proms ++ [r]) p.
Proof. intros (m & k & H). exists m, k. by apply lookup_app_l_Some. Qed.

Lemma request_promise_lt proms p : request_promise proms p → p < length proms.
Proof. intros (m & k & H). by eapply lookup_lt_Some. Qed.

Lemma request_promise_app_inv proms r p :
  request_promise (proms ++ [r]) p →
  request_promise proms p ∨ (p = length proms ∧ ¬ other_promise r).
Proof.
  intros (m & k & H). apply lookup_app_Some in H as [H|[Hle H]].
  - left. by exists m, k.
  - right. apply list_lookup_singleton_Some in H as [Hp ->].
    split; [lia|]. unfold other_promise. simpl. tauto.
Qed.

Lemma request_promise_not_other proms p r :
  request_promise proms p → proms !! p = Some r → ¬ other_promise r.
Proof.
  intros (m & k & H) Hr. rewrite H in Hr. injection Hr as <-.
  unfold other_promise. simpl. tauto.
Qed.

Lemma calls_app p setts1 setts2 : calls p (setts1 ++ setts2) = calls p setts1 ++ calls p setts2.
Proof. apply filter_app. Qed.

Lemma calls_singleton_eq s : calls (target s) [s] = [s].
Proof. unfold calls. by rewrite filter_cons_True. Qed.

Lemma calls_singleton_ne p s : target s ≠ p → calls p [s] = [].
Proof. intros. unfold calls. by rewrite filter_cons_False. Qed.

Lemma calls_unknown p setts :
  (∀ s, s ∈ setts → target s < p) → calls p setts = [].
Proof.
  intros H. unfold calls. induction setts as [|s setts IH]; [done|].
  rewrite filter_cons_False.
  - apply IH. intros s' Hs'. apply H. by right.
  - specialize (H s (ltac:(by left))). lia.
Qed.

Lemma request_promise_prefix_inv proms proms' p :
  proms `prefix_of` proms' → p < length proms →
  request_promise proms' p → request_promise proms p.
Proof.
  intros [rest ->] Hlt (m & k & H). exists m, k. by rewrite lookup_app_l in H.
Qed.

Lemma ext_of_refl proms setts : ext_of proms setts proms setts.
Proof. split; [done|]. exists []. split; [by rewrite app_nil_r|]. by intros s Hs%elem_of_nil. Qed.

Lemma ext_of_trans proms1 setts1 proms2 setts2 proms3 setts3 :
  (∀ s, s ∈ setts2 → target s < length proms2) →
  ext_of proms1 setts1 proms2 setts2 → ext_of proms2 setts2 proms3 setts3 →
  ext_of proms1 setts1 proms3 setts3.
Proof.
  intros Hk [Hp1 (a1 & -> & H1)] [Hp2 (a2 & -> & H2)]. split; [by etrans|].
  exists (a1 ++ a2). split; [by rewrite app_assoc|].
  intros s [Hs|Hs]%elem_of_app Hreq.
  - apply H1; [done|]. eapply request_promise_prefix_inv; [done| |done].
    apply Hk, elem_of_app. by right.
  - destruct (H2 s Hs Hreq) as [Hc|[Hc Hle]]; [by left|]. right. split; [done|].
    apply prefix_length in Hp1. lia.
Qed.

Section Preservation.

Context {P : gmap string PendingRequest} {pi pt : option nat}
  {cp : option ConnectionPromise} {T : gmap nat Timer} {nt : nat}
  {proms : list PromiseRec} {setts : list Settlement}.
Hypothesis HI : Inv_of P pi pt cp T nt proms setts.

(** A call on a promise that is not one of [sendRequest]. *)
Lemma Inv_settle_other p r o c :
  proms !! p = Some r → other_promise r →
  Inv_of P pi pt cp T nt proms (setts ++ [mkSettlement p o c]).
Proof.
  intros Hp Hr. destruct HI as [IE IT IU IC IB IP IPT ICN IK]. split; try done.
  - intros q Hq. rewrite calls_app, calls_singleton_ne, app_nil_r; [by apply IC|].
    simpl. intros ->. by eapply request_promise_not_other.
  - intros s [Hs| ->%list_elem_of_singleton]%elem_of_app; [by apply IK|].
    simpl. by eapply lookup_lt_Some.
Qed.

(** A new promise that is not one of [sendRequest]. *)
Lemma Inv_new_promise_other r :
  other_promise r → Inv_of P pi pt cp T nt (proms ++ [r]) setts.
Proof.
  intros Hr. destruct HI as [IE IT IU IC IB IP IPT ICN IK]. split; try done.
  - intros id pr Hid. destruct (IE id pr Hid) as (E1 & E2 & E3).
    split; [done|]. split; [|done]. by apply request_promise_app.
  - intros q [Hq|[_ Hq]]%request_promise_app_inv; [by apply IC|done].
  - intros c Hc. destruct (ICN c Hc) as [(r1 & L1 & O1) (r2 & L2 & O2)].
    split; [exists r1|exists r2]; split; try done; by apply lookup_app_l_Some.
  - intros s Hs%IK. rewrite length_app. lia.
Qed.

(** The connection promise is forgotten or replaced. *)
Lemma Inv_connectionPromise cp' :
  (∀ c, cp' = Some c →
     (∃ r, proms !! cp_resolve c = Some r ∧ other_promise r)
     ∧ (∃ r, proms !! cp_reject c = Some r ∧ other_promise r)) →
  Inv_of P pi pt cp' T nt proms setts.
Proof. intros H. destruct HI as [IE IT IU IC IB IP IPT ICN IK]. by split. Qed.

(** A timer that is not a request timeout is cleared (or had fired). *)
Lemma Inv_delete_timer t :
  (∀ tm, T !! t = Some tm → ¬ request_timer tm) →
  Inv_of P pi pt cp (delete t T) nt proms setts.
Proof.
  intros Hnr. destruct HI as [IE IT IU IC IB IP IPT ICN IK]. split; try done.
  - intros id pr Hid. destruct (IE id pr Hid) as (E1 & E2 & m & d & Htm).
    split; [done|]. split; [done|]. exists m, d.
    rewrite lookup_delete_ne; [done|]. intros ->. by apply (Hnr _ Htm).
  - intros t' id m p d r [_ Hlk]%lookup_delete_Some. by eapply IT.
  - intros t' tm [_ Hlk]%lookup_delete_Some. by eapply IB.
  - intros h Hh. destruct (IP h Hh) as [Hlt Hq]. split; [done|].
    intros tm [_ Hlk]%lookup_delete_Some. by apply Hq.
Qed.

(** A timer that is not a request timeout is armed. *)
Lemma Inv_add_timer tm :
  ¬ request_timer tm →
  Inv_of P pi pt cp (<[nt := tm]> T) (S nt) proms setts.
Proof.
  intros Htm. destruct HI as [IE IT IU IC IB IP IPT ICN IK]. split; try done.
  - intros id pr Hid. destruct (IE id pr Hid) as (E1 & E2 & m & d & Hlk).
    split; [done|]. split; [done|]. exists m, d.
    rewrite lookup_insert_ne; [done|]. apply IB in Hlk. lia.
  - intros t id m p d r [[<- ->]|[_ Hlk]]%lookup_insert_Some; [by destruct Htm|].
    by eapply IT.
  - intros t tm' [[<- _]|[_ Hlk]]%lookup_insert_Some; [lia|].
    apply IB in Hlk. lia.
  - intros h Hh. destruct (IP h Hh) as [Hlt Hq]. split; [lia|].
    intros tm'. rewrite lookup_insert_ne by lia. apply Hq.
Qed.

(** The next timer handle moves on. *)
Lemma Inv_nextTimer nt' : nt ≤ nt' → Inv_of P pi pt cp T nt' proms setts.
Proof.
  intros Hle. destruct HI as [IE IT IU IC IB IP IPT ICN IK]. split; try done.
  - intros t tm Hlk%IB. lia.
  - intros h Hh. destruct (IP h Hh) as [Hlt Hq]. split; [lia|done].
Qed.

End Preservation.

(** [stopPing] *)
Lemma Inv_stopPing P pi pt cp T nt proms setts :
  Inv_of P pi pt cp T nt proms setts →
  Inv_of P None None cp (delete_opt pt (delete_opt pi T)) nt proms setts.
Proof.
  intros HI.
  assert (Hpt : pt = None) by (by destruct HI). subst pt. simpl.
  assert (H : Inv_of P pi None cp (delete_opt pi T) nt proms setts).
  { destruct pi as [h|] eqn:Hpi; simpl; [|done].
    apply Inv_delete_timer; [done|]. intros tm Htm.
    destruct HI as [_ _ _ _ _ IP _ _ _].
    destruct (IP h eq_refl) as [_ Hq]. by apply Hq. }
  destruct H as [IE IT IU IC IB IP IPT ICN IK]. by split.
Qed.

(** [startPing]: the ping timer is armed and remembered. *)
Lemma Inv_add_ping_timer P pi pt cp T nt proms setts tm :
  Inv_of P pi pt cp T nt proms setts →
  ¬ request_timer tm →
  Inv_of P (Some nt) pt cp (<[nt := tm]> T) (S nt) proms setts.
Proof.
  intros HI Htm. pose proof (Inv_add_timer HI tm Htm) as H.
  destruct H as [IE IT IU IC IB IP IPT ICN IK]. split; try done.
  intros h [= <-]. split; [lia|]. intros tm'. rewrite lookup_insert_eq. by intros [= <-].
Qed.

End InvariantComponents.

(** *** The correlator's own moves *)

Section Correlator.

Context {P : gmap string PendingRequest} {pi pt : option nat}
  {cp : option ConnectionPromise} {T : gmap nat Timer} {nt : nat}
  {proms : list PromiseRec} {setts : list Settlement}.
Hypothesis HI : Inv_of P pi pt cp T nt proms setts.

(** An entry is taken out of the table, its timer cleared (or fired), and its
    promise settled: [handleResponse] and the timeout callback. *)
Lemma Inv_respond id pr o c :
  P !! id = Some pr →
  Inv_of (delete id P) pi pt cp (delete (timeoutTimer pr) T) nt proms
    (setts ++ [mkSettlement (reject pr) o c]).
Proof.
  intros Hid. destruct HI as [IE IT IU IC IB IP IPT ICN IK].
  destruct (IE id pr Hid) as (E1 & E2 & m0 & d0 & Htm0).
  split; try done.
  - intros id' pr' [Hne Hid']%lookup_delete_Some.
    destruct (IE id' pr' Hid') as (E1' & E2' & m & d & Htm).
    split; [done|]. split; [done|]. exists m, d.
    rewrite lookup_delete_ne; [done|]. intros Heq. rewrite Heq in Htm0.
    rewrite Htm in Htm0. by injection Htm0.
  - intros t id' m p d r [Hne Hlk]%lookup_delete_Some.
    pose proof (IT _ _ _ _ _ _ Hlk) as Hent.
    rewrite lookup_delete_ne; [done|]. intros <-.
    rewrite Hid in Hent. injection Hent as ->. by apply Hne.
  - intros id1 id2 pr1 pr2 [_ H1]%lookup_delete_Some [_ H2]%lookup_delete_Some.
    by eapply IU.
  - intros q Hq. rewrite calls_app.
    destruct (decide (q = reject pr)) as [->|Hne].
    + right.
      change (calls (reject pr) [mkSettlement (reject pr) o c])
        with (calls (target (mkSettlement (reject pr) o c)) [mkSettlement (reject pr) o c]).
      rewrite calls_singleton_eq.
      destruct (IC _ Hq) as [[_ Hc]|[Hn _]].
      * rewrite Hc. split; [|by eexists].
        intros (id' & pr' & [Hne' Hid']%lookup_delete_Some & Heq).
        apply Hne'. by eapply IU.
      * exfalso. apply Hn. by exists id, pr.
    + rewrite calls_singleton_ne, app_nil_r by (simpl; congruence).
      destruct (IC q Hq) as [[Hin Hc]|[Hn Hc]].
      * left. split; [|done]. destruct Hin as (id' & pr' & Hid' & Heq).
        exists id', pr'. split; [|done]. rewrite lookup_delete_ne; [done|].
        intros <-. rewrite Hid in Hid'. by injection Hid' as ->.
      * right. split; [|done].
        intros (id' & pr' & [_ Hid']%lookup_delete_Some & Heq).
        apply Hn. by exists id', pr'.
  - intros t tm [_ Hlk]%lookup_delete_Some. by eapply IB.
  - intros h Hh. destruct (IP h Hh) as [Hlt Hq]. split; [done|].
    intros tm [_ Hlk]%lookup_delete_Some. by apply Hq.
  - intros s [Hs| ->%list_elem_of_singleton]%elem_of_app; [by apply IK|].
    simpl. by apply request_promise_lt.
Qed.

(** A request is registered under a fresh id: a new promise, a new entry and
    a new timeout timer. *)
Lemma Inv_register id m k d :
  P !! id = None →
  Inv_of (<[id := mkPending (length proms) (length proms) nt]> P) pi pt cp
    (<[nt := mkTimer (TRequestTimeout id m (length proms)) d false]> T) (S nt)
    (proms ++ [mkPromise (FromSendRequest m) k]) setts.
Proof.
  intros Hfresh. destruct HI as [IE IT IU IC IB IP IPT ICN IK].
  assert (Hnew : ∀ id' pr', P !! id' = Some pr' → reject pr' ≠ length proms).
  { intros id' pr' Hid'. destruct (IE id' pr' Hid') as (_ & Hreq%request_promise_lt & _). lia. }
  split; try done.
  - intros id' pr' [[<- <-]|[Hne Hid']]%lookup_insert_Some.
    + split; [done|]. split.
      * exists m, k. simpl. by rewrite lookup_app_r, Nat.sub_diag.
      * exists m, d. simpl. by rewrite lookup_insert_eq.
    + destruct (IE id' pr' Hid') as (E1 & E2 & m' & d' & Htm).
      split; [done|]. split; [by apply request_promise_app|]. exists m', d'.
      rewrite lookup_insert_ne; [done|]. apply IB in Htm. lia.
  - intros t id' m' p d' r [[<- Heq]|[Hne Hlk]]%lookup_insert_Some.
    + injection Heq as <- <- <- <- <-. by rewrite lookup_insert_eq.
    + pose proof (IT _ _ _ _ _ _ Hlk) as Hent.
      rewrite lookup_insert_ne; [done|]. intros <-. by rewrite Hfresh in Hent.
  - intros id1 id2 pr1 pr2 [[<- <-]|[Hne1 H1]]%lookup_insert_Some
      [[<- <-]|[Hne2 H2]]%lookup_insert_Some Heq; simpl in *; try done.
    + symmetry in Heq. by apply Hnew in H2.
    + by apply Hnew in H1.
    + by eapply IU.
  - intros q [Hq|[-> _]]%request_promise_app_inv.
    + destruct (IC q Hq) as [[Hin Hc]|[Hn Hc]].
      * left. split; [|done]. destruct Hin as (id' & pr' & Hid' & Heq).
        exists id', pr'. split; [|done]. rewrite lookup_insert_ne; [done|].
        intros <-. by rewrite Hfresh in Hid'.
      * right. split; [|done].
        intros (id' & pr' & [[<- <-]|[_ Hid']]%lookup_insert_Some & Heq).
        -- simpl in Heq. apply request_promise_lt in Hq. lia.
        -- apply Hn. by exists id', pr'.
    + left. split.
      * eexists id, _. by rewrite lookup_insert_eq.
      * apply calls_unknown. intros s Hs. by apply IK.
  - intros t tm [[<- _]|[_ Hlk]]%lookup_insert_Some; [lia|].
    apply IB in Hlk. lia.
  - intros h Hh. destruct (IP h Hh) as [Hlt Hq]. split; [lia|].
    intros tm. rewrite lookup_insert_ne by lia. apply Hq.
  - intros c Hc. destruct (ICN c Hc) as [(r1 & L1 & O1) (r2 & L2 & O2)].
    split; [exists r1|exists r2]; split; try done; by apply lookup_app_l_Some.
  - intros s Hs%IK. rewrite length_app. lia.
Qed.

(** A request fails before it is registered: its new promise is rejected on
    the spot, and the table is as it was. *)
Lemma Inv_reject_new m k o c :
  Inv_of P pi pt cp T nt (proms ++ [mkPromise (FromSendRequest m) k])
    (setts ++ [mkSettlement (length proms) o c]).
Proof.
  destruct HI as [IE IT IU IC IB IP IPT ICN IK].
  assert (Hnew : ¬ in_table P (length proms)).
  { intros (id' & pr' & Hid' & Heq).
    destruct (IE id' pr' Hid') as (_ & Hreq%request_promise_lt & _). lia. }
  split; try done.
  - intros id pr Hid. destruct (IE id pr Hid) as (E1 & E2 & E3).
    split; [done|]. split; [|done]. by apply request_promise_app.
  - intros q [Hq|[-> _]]%request_promise_app_inv; rewrite calls_app.
    + rewrite calls_singleton_ne, app_nil_r; [by apply IC|].
      simpl. apply request_promise_lt in Hq. lia.
    + right. split; [done|]. rewrite calls_unknown by (intros s Hs; by apply IK).
      change (calls (length proms) [mkSettlement (length proms) o c])
        with (calls (target (mkSettlement (length proms) o c)) [mkSettlement (length proms) o c]).
      rewrite calls_singleton_eq. by eexists.
  - intros c' Hc. destruct (ICN c' Hc) as [(r1 & L1 & O1) (r2 & L2 & O2)].
    split; [exists r1|exists r2]; split; try done; by apply lookup_app_l_Some.
  - intros s [Hs%IK| ->%list_elem_of_singleton]%elem_of_app;
      rewrite length_app; simpl; lia.
Qed.

End Correlator.

(** *** The sweep of [cleanupConnection] *)

Section Sweep.

Implicit Types (P : gmap string PendingRequest) (T : gmap nat Timer).

Lemma calls_none p setts : (∀ s, s ∈ setts → target s ≠ p) → calls p setts = [].
Proof.
  intros H. unfold calls. induction setts as [|s setts IH]; [done|].
  rewrite filter_cons_False.
  - apply IH. intros s' Hs'. apply H. by right.
  - apply H. by left.
Qed.

(** A promise out of the table is not touched by the sweep. *)
Lemma calls_sweep_out P p :
  ¬ in_table P p → calls p (sweep_call <$> (map_to_list P).*2) = [].
Proof.
  intros Hn. apply calls_none. intros s (pr & -> & Hpr)%list_elem_of_fmap.
  apply list_elem_of_fmap in Hpr as ([id pr'] & -> & Hin).
  apply elem_of_map_to_list in Hin. simpl. intros Heq. apply Hn. by exists id, pr'.
Qed.

(** A promise in the table is rejected once by the sweep. *)
Lemma calls_sweep_in P id pr :
  (∀ id1 id2 pr1 pr2,
     P !! id1 = Some pr1 → P !! id2 = Some pr2 → reject pr1 = reject pr2 → id1 = id2) →
  P !! id = Some pr →
  calls (reject pr) (sweep_call <$> (map_to_list P).*2) = [sweep_call pr].
Proof.
  intros IU Hid. apply Permutation_singleton_r.
  rewrite <- (insert_delete_id P id pr Hid) at 1.
  unfold calls. rewrite map_to_list_insert by apply lookup_delete_eq.
  rewrite !fmap_cons, filter_cons_True by done. simpl.
  fold (calls (reject pr) (sweep_call <$> (map_to_list (delete id P)).*2)).
  rewrite calls_sweep_out; [done|].
  intros (id' & pr' & [Hne Hid']%lookup_delete_Some & Heq).
  apply Hne. by eapply IU.
Qed.

(** All entries are rejected and their timers cleared; the table is emptied. *)
Lemma Inv_sweep P pi pt cp T nt proms setts :
  Inv_of P pi pt cp T nt proms setts →
  Inv_of ∅ pi pt cp
    (foldl (fun m pr => delete (timeoutTimer pr) m) T (map_to_list P).*2) nt proms
    (setts ++ (sweep_call <$> (map_to_list P).*2)).
Proof.
  intros [IE IT IU IC IB IP IPT ICN IK]. split; try done.
  - intros t id m p d r Hlk. exfalso.
    pose proof (foldl_delete_lookup_Some _ _ _ _ Hlk) as Hlk0.
    pose proof (IT _ _ _ _ _ _ Hlk0) as Hent.
    assert (Hin : mkPending p p t ∈ (map_to_list P).*2).
    { apply list_elem_of_fmap. exists (id, mkPending p p t). split; [done|].
      by apply elem_of_map_to_list. }
    apply (foldl_delete_lookup _ T) in Hin. simpl in Hin. by rewrite Hin in Hlk.
  - intros q Hq. right. split.
    { intros (id & pr & Hid & _). by rewrite lookup_empty in Hid. }
    rewrite calls_app. destruct (IC q Hq) as [[(id & pr & Hid & <-) Hc]|[Hn [s Hc]]].
    + rewrite Hc, (calls_sweep_in P id pr IU Hid). by eexists.
    + rewrite Hc, calls_sweep_out, app_nil_r by done. by eexists.
  - intros t tm Hlk%foldl_delete_lookup_Some. by eapply IB.
  - intros h Hh. destruct (IP h Hh) as [Hlt Hnr]. split; [done|].
    intros tm Hlk%foldl_delete_lookup_Some. by apply Hnr.
  - intros s [Hs|Hs]%elem_of_app; [by apply IK|].
    apply list_elem_of_fmap in Hs as (pr & -> & Hpr).
    apply list_elem_of_fmap in Hpr as ([id pr'] & -> & Hin).
    apply elem_of_map_to_list in Hin. simpl.
    destruct (IE id pr' Hin) as (_ & Hreq & _). by apply request_promise_lt.
Qed.

End Sweep.

(** *** The invariant along the code, primitive by primitive

    [good w0 w] reads: the code run so far from [w0] has kept the invariant;
    each lemma extends it over one more call. *)

Lemma good_refl w : good w w.
Proof. intros HI. split; [done|]. apply ext_of_refl. Qed.

Lemma good_trans w0 w1 w2 : good w0 w1 → good w1 w2 → good w0 w2.
Proof.
  intros H1 H2 HI. destruct (H1 HI) as [HI1 He1]. destruct (H2 HI1) as [HI2 He2].
  split; [done|]. eapply ext_of_trans; [|exact He1|exact He2].
  apply (inv_settled_known _ _ _ _ _ _ _ _ HI1).
Qed.

(** Code that touches none of the correlator's components. *)
Lemma good_frame w0 w w' :
  pendingRequests (this w') = pendingRequests (this w) →
  pingInterval (this w') = pingInterval (this w) →
  pingTimeout (this w') = pingTimeout (this w) →
  connectionPromise (this w') = connectionPromise (this w) →
  timers w' = timers w → nextTimer w' = nextTimer w →
  promises w' = promises w → settlements w' = settlements w →
  good w0 w → good w0 w'.
Proof.
  intros E1 E2 E3 E4 E5 E6 E7 E8 Hg HI0. destruct (Hg HI0) as [HI He].
  unfold Inv, ext in *. by rewrite E1, E2, E3, E4, E5, E6, E7, E8.
Qed.

Ltac good_intro :=
  let Hg := fresh "Hg" in let HI0 := fresh "HI0" in
  intros Hg HI0; destruct (Hg HI0) as [HI He]; clear Hg;
  split;
    [|eapply ext_of_trans;
        [exact (inv_settled_known _ _ _ _ _ _ _ _ HI)|exact He|]];
    unfold Inv, ext in *; wsimpl.

Lemma good_emit w0 e v w : good w0 w → good w0 (emit e v w).
Proof. apply good_frame; by wsimpl. Qed.

Lemma good_ws_send w0 f w : good w0 w → good w0 (ws_send f w).
Proof. apply good_frame; by wsimpl. Qed.

Lemma good_ws_close w0 code reason w : good w0 w → good w0 (ws_close code reason w).
Proof. apply good_frame; by wsimpl. Qed.

Lemma good_upd_socket w0 s f w : good w0 w → good w0 (upd_socket s f w).
Proof. apply good_frame; by wsimpl. Qed.

Lemma good_set_sockets w0 l w : good w0 w → good w0 (set_sockets l w).
Proof. apply good_frame; by wsimpl. Qed.

Lemma good_set_heap w0 l w : good w0 w → good w0 (set_heap l w).
Proof. apply good_frame; by wsimpl. Qed.

Lemma good_set_microtasks w0 l w : good w0 w → good w0 (set_microtasks l w).
Proof. apply good_frame; by wsimpl. Qed.

Lemma good_detachHandlers w0 w : good w0 w → good w0 (detachHandlers w).
Proof. apply good_frame; by wsimpl. Qed.

Lemma good_closeSocket w0 graceful reason w :
  good w0 w → good w0 (closeSocket graceful reason w).
Proof. apply good_frame; by wsimpl. Qed.

(** An update of a field of the instance other than the table, the ping
    handles and the connection promise. *)
Lemma good_upd_this w0 f w :
  (∀ o, pendingRequests (f o) = pendingRequests o) →
  (∀ o, pingInterval (f o) = pingInterval o) →
  (∀ o, pingTimeout (f o) = pingTimeout o) →
  (∀ o, connectionPromise (f o) = connectionPromise o) →
  good w0 w → good w0 (upd_this f w).
Proof. intros E1 E2 E3 E4. apply good_frame; wsimpl; done. Qed.

Ltac good_field := apply good_upd_this; [by intros; fields..|].

Lemma good_stopPing w0 w : good w0 w → good w0 (stopPing w).
Proof. good_intro; [by apply Inv_stopPing|apply ext_of_refl]. Qed.

Lemma good_startPing w0 w : good w0 w → good w0 (startPing w).
Proof.
  unfold startPing. good_intro; [|apply ext_of_refl].
  eapply Inv_add_ping_timer; [by apply Inv_stopPing|unfold request_timer; simpl; tauto].
Qed.

(** A new promise that is not one of [sendRequest]. *)
Lemma good_new_promise w0 r w :
  other_promise r → good w0 w → good w0 (new_promise r w).
Proof.
  intros Hr. good_intro; [by apply Inv_new_promise_other|].
  split; [by apply prefix_app_r|]. exists []. split; [by rewrite app_nil_r|].
  by intros s Hs%elem_of_nil.
Qed.

(** A call on a promise that is not one of [sendRequest]. *)
Lemma good_settle_other w0 p o c w :
  (∃ r, promises w !! p = Some r ∧ other_promise r) →
  good w0 w → good w0 (settle p o c w).
Proof.
  intros (r & Hp & Hr). good_intro; [by eapply Inv_settle_other|].
  split; [done|]. eexists. split; [done|].
  intros s ->%list_elem_of_singleton Hreq. simpl in Hreq.
  by destruct (request_promise_not_other _ _ _ Hreq Hp).
Qed.

Lemma good_settle_cp_reject w0 c o cause w :
  connectionPromise (this w) = Some c →
  good w0 w → good w0 (settle (cp_reject c) o cause w).
Proof.
  intros Hc Hg HI0. destruct (Hg HI0) as [HI _].
  destruct (inv_conn _ _ _ _ _ _ _ _ HI c Hc) as [_ H]. by apply good_settle_other.
Qed.

Lemma good_settle_cp_resolve w0 c o cause w :
  connectionPromise (this w) = Some c →
  good w0 w → good w0 (settle (cp_resolve c) o cause w).
Proof.
  intros Hc Hg HI0. destruct (Hg HI0) as [HI _].
  destruct (inv_conn _ _ _ _ _ _ _ _ HI c Hc) as [H _]. by apply good_settle_other.
Qed.

(** The connection promise is forgotten, or replaced by functions of promises
    of [connect]. *)
Lemma good_set_connectionPromise w0 cp' w :
  (∀ c, cp' = Some c →
     (∃ r, promises w !! cp_resolve c = Some r ∧ other_promise r)
     ∧ (∃ r, promises w !! cp_reject c = Some r ∧ other_promise r)) →
  good w0 w → good w0 (upd_this (set_connectionPromise cp') w).
Proof. intros H. good_intro; [by apply (Inv_connectionPromise HI)|apply ext_of_refl]. Qed.

Lemma good_forget_connectionPromise w0 w :
  good w0 w → good w0 (upd_this (set_connectionPromise None) w).
Proof. by apply good_set_connectionPromise. Qed.

(** A timer that is not a request timeout. *)
Lemma good_setTimeout w0 cb d w :
  match cb with TRequestTimeout _ _ _ => False | _ => True end →
  good w0 w → good w0 (setTimeout cb d w).
Proof.
  intros Hcb. good_intro; [|apply ext_of_refl].
  apply Inv_add_timer; [done|]. unfold request_timer. simpl. destruct cb; tauto.
Qed.

Lemma good_clearTimer w0 t w :
  (∀ tm, timers w !! t = Some tm → ¬ request_timer tm) →
  good w0 w → good w0 (clearTimer t w).
Proof. intros H. good_intro; [by apply Inv_delete_timer|apply ext_of_refl]. Qed.

Lemma good_dropConnectionPromise w0 w : good w0 w → good w0 (dropConnectionPromise w).
Proof.
  intros Hg. unfold dropConnectionPromise.
  destruct (connectionPromise (this w)) as [c|] eqn:Hc; [|done].
  cbv zeta. apply good_forget_connectionPromise.
  destruct (negb (isReconnecting (this w)) && negb (isConnected (this w))); [|done].
  by apply good_settle_cp_reject.
Qed.

(** The sweep: every entry rejected, the table emptied. *)
Lemma good_sweep w0 w :
  good w0 w →
  good w0 (upd_this (set_pendingRequests ∅)
             (foldl rejectPending w (map_to_list (pendingRequests (this w))).*2)).
Proof.
  good_intro; [by apply Inv_sweep|].
  split; [done|]. eexists. split; [done|].
  intros s (pr & -> & _)%list_elem_of_fmap _. left. right. by right.
Qed.

Lemma good_cleanupConnection w0 w : good w0 w → good w0 (cleanupConnection w).
Proof.
  intros Hg. unfold cleanupConnection. cbv zeta.
  apply good_detachHandlers, good_dropConnectionPromise, good_sweep, good_stopPing.
  by good_field.
Qed.

Lemma good_handleDisconnect w0 graceful reason w :
  good w0 w → good w0 (handleDisconnect graceful reason w).
Proof.
  intros Hg. unfold handleDisconnect. cbv zeta.
  destruct (ws (this w)); [|by apply good_cleanupConnection].
  destruct (closeSocket_throws _ _ _); [by apply good_stopPing|].
  by apply good_cleanupConnection, good_closeSocket, good_stopPing.
Qed.

Lemma good_cleanupBeforeUnloadHandler w0 w :
  good w0 w → good w0 (cleanupBeforeUnloadHandler w).
Proof.
  intros Hg. unfold cleanupBeforeUnloadHandler.
  destruct (beforeUnloadHandler (this w)); [|done]. by good_field.
Qed.

Lemma good_disconnect w0 w : good w0 w → good w0 (disconnect w).
Proof.
  intros Hg. unfold disconnect. cbv zeta.
  apply good_handleDisconnect, good_cleanupBeforeUnloadHandler.
  good_field. by good_field.
Qed.

(** *** The invariant along the code, method by method *)

Lemma disconnect_pendingRequests w : pendingRequests (this (disconnect w)) = ∅.
Proof.
  unfold disconnect. cbv zeta. by rewrite handleDisconnect_this, cleanupConnection_this by done.
Qed.

Lemma good_clear_empty w0 w :
  pendingRequests (this w) = ∅ →
  good w0 w → good w0 (upd_this (set_pendingRequests ∅) w).
Proof. intros He. apply good_frame; fields; try reflexivity. by rewrite He. Qed.

(** [destroy] clears a table that [disconnect] has already emptied. *)
Lemma good_destroy w0 w : good w0 w → good w0 (destroy w).
Proof.
  intros Hg. unfold destroy. cbv zeta.
  pose proof (good_disconnect w0 w Hg) as Hd.
  pose proof (disconnect_pendingRequests w) as He.
  revert Hd He. generalize (disconnect w). intros w1 Hd He.
  apply good_clear_empty; [by fields|]. by good_field.
Qed.

Lemma good_scheduleReconnect w0 w : good w0 w → good w0 (scheduleReconnect w).
Proof.
  intros Hg. unfold scheduleReconnect.
  destruct (_ <=? _)%nat; cbv zeta.
  - apply good_emit. good_field. by good_field.
  - apply good_setTimeout; [done|]. apply good_emit. by good_field.
Qed.

Lemma good_tryReconnect w0 w : good w0 w → good w0 (tryReconnect w).
Proof.
  intros Hg. unfold tryReconnect. destruct (_ || _); [done|].
  apply good_scheduleReconnect. by good_field.
Qed.

(** [sendRequest], under an identifier that no request in flight has. *)
Lemma good_sendRequest w0 method params timeoutMs k env w :
  pendingRequests (this w) !! request_uuid env = None →
  good w0 w → good w0 (sendRequest method params timeoutMs k env w).
Proof.
  intros Hfresh. unfold sendRequest, generateUUID. cbv zeta.
  destruct (negb _).
  { good_intro; [by apply Inv_reject_new|].
    split; [by apply prefix_app_r|]. eexists. split; [done|].
    intros s ->%list_elem_of_singleton _. right. by split. }
  destruct (write_error env) as [error|].
  - good_intro.
    + rewrite delete_insert_id by done.
      rewrite delete_insert_id by
        (destruct (timers w !! nextTimer w) eqn:Hlk; [|done];
         apply (inv_timer_bound _ _ _ _ _ _ _ _ HI) in Hlk; lia).
      apply (Inv_nextTimer (Inv_reject_new HI _ _ _ _)). lia.
    + split; [by apply prefix_app_r|]. eexists. split; [done|].
      intros s ->%list_elem_of_singleton _. right. by split.
  - good_intro; [by apply Inv_register|].
    split; [by apply prefix_app_r|]. exists []. split; [by rewrite app_nil_r|].
    by intros s Hs%elem_of_nil.
Qed.

Lemma good_handleResponse w0 response w :
  good w0 w → good w0 (handleResponse response w).
Proof.
  unfold handleResponse. cbv zeta.
  destruct (get_prop_opt response "id") as [| | | |i| |]; try done.
  destruct (pendingRequests (this w) !! i) as [pending|] eqn:Hi; [|done].
  destruct (truthy _).
  - good_intro; [by apply Inv_respond|].
    split; [done|]. eexists. split; [done|].
    intros s ->%list_elem_of_singleton _. left. by left.
  - good_intro.
    + rewrite (proj1 (inv_entry _ _ _ _ _ _ _ _ HI i pending Hi)). by apply Inv_respond.
    + split; [done|]. eexists. split; [done|].
      intros s ->%list_elem_of_singleton _. left. by left.
Qed.

Lemma good_sendNotification w0 method params env w :
  good w0 w → good w0 (sendNotification method params env w).
Proof.
  intros Hg. unfold sendNotification. destruct (negb _); [done|]. cbv zeta.
  destruct (write_error env); [by apply good_emit|by apply good_ws_send].
Qed.

Lemma good_sendRecvAck w0 hdr messageId messageSeq env w :
  good w0 w → good w0 (sendRecvAck hdr messageId messageSeq env w).
Proof. apply good_sendNotification. Qed.

Lemma good_ping_tick w0 env w :
  pendingRequests (this w) !! request_uuid env = None →
  good w0 w → good w0 (ping_tick env w).
Proof.
  intros Hfresh Hg. unfold ping_tick. destruct (ws_is_open w).
  - by apply good_sendRequest.
  - by apply good_stopPing.
Qed.

Lemma good_sendConnectRequest w0 env w :
  pendingRequests (this w) !! request_uuid env = None →
  good w0 w → good w0 (sendConnectRequest env w).
Proof. intros Hfresh Hg. by apply good_sendRequest. Qed.

Lemma good_auth_then w0 result w : good w0 w → good w0 (auth_then result w).
Proof.
  intros Hg. unfold auth_then. cbv zeta.
  match goal with |- context [connectionPromise (this ?x)] => set (w1 := x) end.
  assert (H1 : good w0 w1).
  { subst w1. apply good_emit, good_startPing.
    good_field. good_field. good_field. by good_field. }
  clearbody w1. destruct (connectionPromise (this w1)) as [c|] eqn:Hc; [|done].
  by apply good_forget_connectionPromise, good_settle_cp_resolve.
Qed.

Lemma good_auth_catch w0 error w : good w0 w → good w0 (auth_catch error w).
Proof.
  intros Hg. unfold auth_catch. cbv zeta.
  apply good_cleanupConnection, good_handleDisconnect.
  pose proof (good_emit w0 Event.Error
    (VError ("Authentication failed: " +:+ describe error)) w Hg) as H1.
  revert H1. generalize (emit Event.Error
    (VError ("Authentication failed: " +:+ describe error)) w). intros w1 H1.
  destruct (connectionPromise (this w1)) as [c|] eqn:Hc; [|done].
  by apply good_forget_connectionPromise, good_settle_cp_reject.
Qed.

Lemma good_ping_catch w0 w : good w0 w → good w0 (ping_catch w).
Proof. intros Hg. by apply good_tryReconnect, good_emit. Qed.

Lemma good_reconnect_catch w0 w : good w0 w → good w0 (reconnect_catch w).
Proof.
  intros Hg. unfold reconnect_catch. destruct (isReconnecting _); [|done].
  by apply good_scheduleReconnect.
Qed.

Lemma good_new_promise_lookup w0 r w :
  other_promise r → good w0 w →
  good w0 (new_promise r w)
  ∧ ∃ r', promises (new_promise r w) !! length (promises w) = Some r' ∧ other_promise r'.
Proof.
  intros Hr Hg. split; [by apply good_new_promise|]. exists r. split; [|done].
  fields. by rewrite lookup_app_r, Nat.sub_diag.
Qed.

Lemma good_connect w0 k env w : good w0 w → good w0 (connect k env w).
Proof.
  intros Hg. unfold connect. cbv zeta.
  destruct (good_new_promise_lookup w0 (mkPromise FromConnect k) w I Hg) as [H1 Hp].
  revert H1 Hp. generalize (length (promises w)).
  generalize (new_promise (mkPromise FromConnect k) w). clear Hg w.
  intros w p Hg Hp.
  destruct (isConnected (this w) || _).
  - destruct (isConnected (this w)); [by apply good_settle_other|].
    destruct (connectionPromise (this w)) as [c|]; [|by apply good_settle_other].
    apply good_set_connectionPromise; [|done]. by intros c' [= <-].
  - set (w1 := upd_this (set_connectionPromise (Some (mkConn p p))) _).
    assert (H1 : good w0 w1).
    { subst w1. apply good_set_connectionPromise.
      - intros c' [= <-]. by wsimpl.
      - by good_field. }
    destruct (ctor_error env) as [error|].
    + apply good_cleanupConnection.
      pose proof (good_emit w0 Event.Error error w1 H1) as H2.
      revert H2. generalize (emit Event.Error error w1). intros w2 H2.
      destruct (connectionPromise (this w2)) as [c|] eqn:Hc; [|done].
      by apply good_forget_connectionPromise, good_settle_cp_reject.
    + good_field. by apply good_set_sockets.
Qed.

Lemma good_onopen w0 env w :
  pendingRequests (this w) !! request_uuid env = None →
  good w0 w → good w0 (onopen env w).
Proof. apply good_sendConnectRequest. Qed.

Lemma good_onerror w0 error w : good w0 w → good w0 (onerror error w).
Proof. apply good_emit. Qed.

Lemma good_onclose w0 code reason w : good w0 w → good w0 (onclose code reason w).
Proof.
  intros Hg. unfold onclose. cbv zeta.
  match goal with |- context [emit ?e ?v (cleanupConnection ?x)] =>
    assert (H1 : good w0 (emit e v (cleanupConnection x))) end.
  { apply good_emit, good_cleanupConnection.
    destruct (connectionPromise (this w)) as [c|] eqn:Hc; [|done].
    destruct (negb _); [|done]. by apply good_settle_cp_reject. }
  destruct (_ && _); [|done]. by apply good_tryReconnect.
Qed.

Lemma good_reconnect_tick w0 env w : good w0 w → good w0 (reconnect_tick env w).
Proof.
  intros Hg. unfold reconnect_tick. destruct (negb _); [done|]. by apply good_connect.
Qed.

Lemma good_beforeUnload w0 w : good w0 w → good w0 (beforeUnload w).
Proof.
  intros Hg. unfold beforeUnload. cbv zeta.
  assert (H1 : good w0 (upd_this (set_isReconnecting false)
                          (upd_this (set_manualDisconnect true) w))).
  { good_field. by good_field. }
  destruct (ws_is_open _); [|done]. by apply good_ws_close.
Qed.

Lemma good_Promise_reject w0 error w : good w0 w → good w0 (Promise_reject error w).
Proof.
  intros Hg. unfold Promise_reject. cbv zeta.
  destruct (good_new_promise_lookup w0 (mkPromise FromSend KApp) w I Hg) as [H1 Hp].
  by apply good_settle_other.
Qed.

Lemma good_send w0 channelId channelType payload options env w :
  pendingRequests (this w) !! request_uuid env = None →
  good w0 w → good w0 (send channelId channelType payload options env w).
Proof.
  intros Hfresh Hg. unfold send.
  destruct (_ || _); [by apply good_Promise_reject|].
  destruct (negb (is_object payload)); [by apply good_Promise_reject|].
  cbv zeta. apply good_sendRequest; [by destruct (header options)|].
  apply good_set_heap. destruct (header options); [done|]. by apply good_set_heap.
Qed.

Lemma good_on w0 e cb w : good w0 w → good w0 (on e cb w).
Proof.
  intros Hg. unfold on. destruct (_ !! _); [|done]. by good_field.
Qed.

Lemma good_off w0 e cb w : good w0 w → good w0 (off e cb w).
Proof.
  intros Hg. unfold off. destruct (_ !! _); [|done]. by good_field.
Qed.

Section GoodInbound.

Variable JSON_parse : string -> option JSVal.

Lemma good_handleEventNotification w0 params w :
  good w0 w → good w0 (handleEventNotification JSON_parse params w).
Proof.
  intros Hg. unfold handleEventNotification.
  repeat (destruct (get_prop params _); [|by apply good_emit]).
  destruct (_ || _); by apply good_emit.
Qed.

Lemma good_handleNotification w0 notification env w :
  good w0 w → good w0 (handleNotification JSON_parse notification env w).
Proof.
  intros Hg. unfold handleNotification. cbv zeta.
  destruct (get_prop_opt notification "method") as [| | | |m| |]; try done.
  repeat match goal with |- good _ (match ?x with _ => _ end) => destruct x end;
    first [ done
          | by apply good_emit
          | by apply good_handleDisconnect, good_emit
          | by apply good_handleEventNotification
          | by apply good_sendRecvAck, good_emit ].
Qed.

Lemma good_handleMessage w0 data env w :
  good w0 w → good w0 (handleMessage JSON_parse data env w).
Proof.
  intros Hg. unfold handleMessage.
  destruct (JSON_parse data) as [message|]; [|by apply good_emit].
  destruct (has_prop "id" message) as [[]|]; [by apply good_handleResponse| |done].
  destruct (has_prop "method" message) as [[]|]; [|done|done].
  by apply good_handleNotification.
Qed.

(** A timer fires. *)
Lemma good_fire_timer w0 t env w :
  pendingRequests (this w) !! request_uuid env = None →
  good w0 w → good w0 (fire_timer t env w).
Proof.
  intros Hfresh Hg. unfold fire_timer.
  destruct (timers w !! t) as [[cb d r]|] eqn:Ht; [|done]. cbv zeta. simpl.
  destruct cb as [requestId method p| |].
  - (* the timeout of a request: its entry is in the table *)
    intros HI0. destruct (Hg HI0) as [HI He].
    pose proof (inv_timer _ _ _ _ _ _ _ _ HI _ _ _ _ _ _ Ht) as Hent.
    destruct (inv_entry _ _ _ _ _ _ _ _ HI _ _ Hent) as (_ & _ & m' & d' & Ht').
    simpl in Ht'. rewrite Ht in Ht'. injection Ht' as <- <- ->.
    unfold request_timeout. cbv zeta.
    split; [|eapply ext_of_trans;
               [exact (inv_settled_known _ _ _ _ _ _ _ _ HI)|exact He|]];
      unfold Inv, ext in *; wsimpl.
    + apply (Inv_respond HI requestId (mkPending p p t)). done.
    + split; [done|]. eexists. split; [done|].
      intros s ->%list_elem_of_singleton _. left. right. by left.
  - apply good_ping_tick; [by destruct r|].
    destruct r; [done|]. apply good_clearTimer; [|done].
    intros tm. rewrite Ht. intros [= <-]. unfold request_timer. simpl. tauto.
  - apply good_reconnect_tick.
    destruct r; [done|]. apply good_clearTimer; [|done].
    intros tm. rewrite Ht. intros [= <-]. unfold request_timer. simpl. tauto.
Qed.

End GoodInbound.

(** *** The invariant along a history *)

Section GoodRun.

Variable JSON_parse : string -> option JSVal.

Lemma good_handle w0 t env w :
  task_enabled t env w = true →
  good w0 w → good w0 (handle JSON_parse t env w).
Proof.
  intros [[_ Hfresh%bool_decide_eq_true]%andb_prop _]%andb_prop Hg.
  destruct t; simpl.
  - by apply good_connect.
  - by apply good_disconnect.
  - by apply good_destroy.
  - by apply good_send.
  - by apply good_on.
  - by apply good_off.
  - by apply good_set_heap.
  - destruct (socket_attached _ _); [|by apply good_upd_socket].
    apply good_onopen; [done|]. by apply good_upd_socket.
  - destruct (socket_attached _ _); [|done]. by apply good_handleMessage.
  - destruct (socket_attached _ _); [|done]. by apply good_onerror.
  - destruct (socket_attached _ _); [|by apply good_upd_socket].
    by apply good_onclose, good_upd_socket.
  - by apply good_fire_timer.
  - destruct (beforeUnloadHandler _); [|done]. by apply good_beforeUnload.
Qed.

Lemma good_run_reaction w0 k o w :
  good w0 w → good w0 (run_reaction k o w).
Proof.
  intros Hg. destruct k, o; unfold run_reaction, handlePong.
  - exact Hg.
  - exact Hg.
  - by apply good_auth_then.
  - by apply good_set_microtasks.
  - exact Hg.
  - by apply good_auth_catch.
  - exact Hg.
  - by apply good_set_microtasks.
  - exact Hg.
  - by apply good_ping_catch.
  - exact Hg.
  - by apply good_reconnect_catch.
Qed.

Lemma good_run_microtask w0 w : good w0 w → good w0 (run_microtask w).
Proof.
  intros Hg. unfold run_microtask. destruct (microtasks w) as [|[k o] rest]; [done|].
  by apply good_run_reaction, good_set_microtasks.
Qed.

Lemma good_step l w : enabled l w = true → good w (step JSON_parse l w).
Proof.
  intros Hen. destruct l as [t env|]; simpl in *.
  - apply good_handle; [done|apply good_refl].
  - apply good_run_microtask, good_refl.
Qed.

Lemma good_run h : ∀ w w', run JSON_parse h w = Some w' → good w w'.
Proof.
  induction h as [|l h IH]; intros w w'; simpl.
  - intros [= <-]. apply good_refl.
  - destruct (enabled l w) eqn:Hen; [|done]. intros Hrun.
    eapply good_trans; [by apply good_step|by apply IH].
Qed.

End GoodRun.

(** A new instance has no request, no timer and no promise. *)
Lemma Inv_new_WKIM url a env : Inv (new_WKIM url a env).
Proof.
  unfold new_WKIM, setupBeforeUnloadHandler. cbv zeta.
  destruct (has_window env); unfold Inv; fields.
  all: split; try done.
  all: try (by intros *; rewrite lookup_empty).
  all: try (by intros * Hp%request_promise_lt; simpl in Hp; lia).
  all: by intros s Hs%elem_of_nil.
Qed.

Lemma settlements_new_WKIM url a env : settlements (new_WKIM url a env) = [].
Proof. unfold new_WKIM, setupBeforeUnloadHandler. by destruct (has_window env). Qed.

Lemma elem_of_calls p setts s : s ∈ calls p setts → s ∈ setts ∧ target s = p.
Proof. unfold calls. rewrite list_elem_of_filter. tauto. Qed.

(** When the socket is open, [sendRequest] registers the request, and then
    writes the frame or takes the entry back. *)
Lemma sendRequest_registers method params timeoutMs k env w :
  ws_is_open w = true →
  sendRequest method params timeoutMs k env w
  = let w1 := registered method timeoutMs k env w in
    match write_error env with
    | None => ws_send (Request method params (request_uuid env)) w1
    | Some error =>
        settle (length (promises w)) (Reject error) BySendRequest
          (upd_this (fun o => set_pendingRequests
                       (delete (request_uuid env) (pendingRequests o)) o)
             (clearTimer (nextTimer w) w1))
    end.
Proof.
  intros Hopen. unfold sendRequest, registered, generateUUID. cbv zeta.
  replace (ws_is_open (new_promise (mkPromise (FromSendRequest method) k) w))
    with (ws_is_open w) by done.
  by rewrite Hopen.
Qed.

Lemma registered_in_table method timeoutMs k env w :
  in_table (pendingRequests (this (registered method timeoutMs k env w)))
    (length (promises w)).
Proof.
  exists (request_uuid env), (mkPending (length (promises w)) (length (promises w)) (nextTimer w)).
  unfold registered, generateUUID. fields. by rewrite lookup_insert_eq.
Qed.

(** *** The claim *)

Section SettledOnce.

Variable JSON_parse : string -> option JSVal.


End SettledOnce.

Section SettledOnceSamples.



End SettledOnceSamples.

(** *** The requests found in the table (C1) *)

Section PendingSettledOnce.

Variable JSON_parse : string -> option JSVal.

Lemma request_promise_prefix proms proms' p :
  proms `prefix_of` proms' → request_promise proms p → request_promise proms' p.
Proof.
  intros Hpre (m & k & H). exists m, k. by eapply prefix_lookup_Some.
Qed.


End PendingSettledOnce.

Section PendingSettledOnceSamples.


End PendingSettledOnceSamples.

(** * Further properties of the session *)

(** ** Listeners: [on], [off], [emit] *)

Section Listeners.

Lemma Event_name_inj e1 e2 : Event.name e1 = Event.name e2 → e1 = e2.
Proof. by destruct e1, e2. Qed.

Lemma listeners_on_same e cb w L :
  eventListeners (this w) !! Event.name e = Some L →
  listeners e (on e cb w) = L ++ [cb].
Proof.
  intros H. unfold listeners, on. rewrite H. fields. by rewrite lookup_insert_eq.
Qed.

Lemma listeners_on_other e e' cb w :
  e' ≠ e → listeners e' (on e cb w) = listeners e' w.
Proof.
  intros Hne. unfold listeners, on.
  destruct (eventListeners (this w) !! Event.name e); [|done].
  fields. rewrite lookup_insert_ne; [done|]. intros Heq%Event_name_inj. by apply Hne.
Qed.

Lemma delivered_emit e v w :
  delivered (emit e v w) = delivered w ++ ((fun l => (l, e, v)) <$> listeners e w).
Proof.
  rewrite emit_delivered. unfold listeners.
  destruct (eventListeners (this w) !! Event.name e); simpl; [done|].
  by rewrite app_nil_r.
Qed.

(** A callback registered with [on] for an event that the instance knows is
    called by the next [emit] of that event, once and after the callbacks
    registered before it, in their order of registration, and what is
    delivered for any other event is as without the registration: this when
    every listener returns without calling back into the instance and
    without writing to its argument. *)
Theorem emit_after_on fuel B e cb v w L :
  passive B →
  eventListeners (this w) !! Event.name e = Some L →
  (∃ w', emit_live (S fuel) B e v (on e cb w) = Some (w', v)
     ∧ delivered w' = delivered w ++ ((fun l => (l, e, v)) <$> L) ++ [(cb, e, v)])
  ∧ ∀ e' v', e' ≠ e →
      ∃ w1 w2, emit_live (S fuel) B e' v' (on e cb w) = Some (w1, v')
        ∧ emit_live (S fuel) B e' v' w = Some (w2, v')
        ∧ delivered w1 = delivered w2.
Proof.
  intros HB H. split.
  - exists (emit e v (on e cb w)). split; [by apply emit_passive|].
    rewrite delivered_emit, (listeners_on_same _ _ _ _ H), fmap_app. simpl.
    unfold on. rewrite H. by fields.
  - intros e' v' Hne. exists (emit e' v' (on e cb w)), (emit e' v' w).
    split; [by apply emit_passive|]. split; [by apply emit_passive|].
    rewrite !delivered_emit, listeners_on_other by done.
    unfold on. rewrite H. by fields.
Qed.

Lemma emit_after_on_witness :
  let w := on Event.Message 3 sample_new in
  let v := VJson JNull in
  (∃ w', emit_live 1 silent Event.Message v (on Event.Message 7 w) = Some (w', v)
     ∧ delivered w'
       = delivered w ++ ((fun l => (l, Event.Message, v)) <$> [3])
         ++ [(7, Event.Message, v)])
  ∧ ∀ e' v', e' ≠ Event.Message →
      ∃ w1 w2, emit_live 1 silent e' v' (on Event.Message 7 w) = Some (w1, v')
        ∧ emit_live 1 silent e' v' w = Some (w2, v')
        ∧ delivered w1 = delivered w2.
Proof.
  apply (emit_after_on 0 silent Event.Message 7 (VJson JNull)
           (on Event.Message 3 sample_new) [3]).
  - apply silent_passive.
  - vm_compute. reflexivity.
Defined.

(** [forEach] walks the array of listeners itself.  Listener 7, registered
    first, takes itself off when it is called: the array is then [[8]], the
    walk goes on at position 1, and listener 8 is not called by this [emit];
    it is by the next. *)
Lemma emit_skips_listener_after_off :
  let w := on Event.Message 8 (on Event.Message 7 sample_new) in
  let v := VJson JNull in
  let first := emit_live 1 one_shot_listener Event.Message v w in
  let second := first ≫= (fun r => emit_live 1 one_shot_listener Event.Message v r.1) in
  listeners Event.Message w = [7; 8]
  ∧ ((delivered ∘ fst) <$> first) = Some [(7, Event.Message, v)]
  ∧ ((listeners Event.Message ∘ fst) <$> first) = Some [8]
  ∧ ((delivered ∘ fst) <$> second)
    = Some [(7, Event.Message, v); (8, Event.Message, v)].
Proof. cbv zeta. repeat apply conj; vm_compute; reflexivity. Qed.

Lemma remove_first_not_in cb l : cb ∉ l → remove_first cb l = l.
Proof.
  induction l as [|x l IH]; [done|]. intros Hn. simpl.
  destruct (Nat.eqb x cb) eqn:E.
  - apply Nat.eqb_eq in E. subst. exfalso. apply Hn. by left.
  - rewrite IH; [done|]. intros Hin. apply Hn. by right.
Qed.

Lemma remove_first_app_new cb l : cb ∉ l → remove_first cb (l ++ [cb]) = l.
Proof.
  induction l as [|x l IH]; intros Hn; simpl.
  - by rewrite Nat.eqb_refl.
  - destruct (Nat.eqb x cb) eqn:E.
    + apply Nat.eqb_eq in E. subst. exfalso. apply Hn. by left.
    + rewrite IH; [done|]. intros Hin. apply Hn. by right.
Qed.

Lemma registrations_remove_first cb cb' l :
  registrations cb' (remove_first cb l)
  = if Nat.eqb cb' cb then pred (registrations cb' l) else registrations cb' l.
Proof.
  unfold registrations. induction l as [|x l IH]; cbn [remove_first List.filter length].
  - by destruct (Nat.eqb cb' cb).
  - destruct (Nat.eqb x cb) eqn:E.
    + apply Nat.eqb_eq in E. subst x. by destruct (Nat.eqb cb' cb).
    + cbn [List.filter]. destruct (Nat.eqb cb' x) eqn:E2; cbn [length]; rewrite IH.
      * destruct (Nat.eqb cb' cb) eqn:E3; [|done].
        apply Nat.eqb_eq in E2, E3. subst. by rewrite Nat.eqb_refl in E.
      * done.
Qed.

Lemma upd_this_eventListeners_id w e L :
  eventListeners (this w) !! Event.name e = Some L →
  upd_this (fun o => set_eventListeners (<[Event.name e := L]> (eventListeners o)) o) w = w.
Proof.
  intros H. apply World_ext; fields; try done.
  apply WKIM_ext; fields; try done. by apply insert_id.
Qed.

Lemma remove_first_split cb l1 l2 :
  cb ∉ l1 → remove_first cb (l1 ++ cb :: l2) = l1 ++ l2.
Proof.
  induction l1 as [|x l1 IH]; intros Hn; simpl.
  - by rewrite Nat.eqb_refl.
  - destruct (Nat.eqb x cb) eqn:E.
    + apply Nat.eqb_eq in E. subst. exfalso. apply Hn. by left.
    + rewrite IH; [done|]. intros Hin. apply Hn. by right.
Qed.

Lemma listeners_off_other e e' cb w :
  e' ≠ e → listeners e' (off e cb w) = listeners e' w.
Proof.
  intros Hne. unfold listeners, off.
  destruct (eventListeners (this w) !! Event.name e); [|done].
  fields. rewrite lookup_insert_ne; [done|]. intros Heq%Event_name_inj. by apply Hne.
Qed.

(** [off] takes back one registration of the callback, the earliest, and
    keeps every other registration in its place: when the callback is first
    registered after [L1], what is left is [L1] followed by what came after
    that registration, and the listeners of the other events are as they
    were.  So the callback loses one registration and every other callback
    keeps its own; removing a callback that is not registered changes
    nothing, and so does removing a callback right after registering it for
    the first time. *)
Theorem off_removes_one_registration e cb w L :
  eventListeners (this w) !! Event.name e = Some L →
  (∀ L1 L2, L = L1 ++ cb :: L2 → cb ∉ L1 → listeners e (off e cb w) = L1 ++ L2)
  ∧ (∀ e', e' ≠ e → listeners e' (off e cb w) = listeners e' w)
  ∧ (∀ cb', registrations cb' (listeners e (off e cb w))
            = if Nat.eqb cb' cb then pred (registrations cb' L) else registrations cb' L)
  ∧ (cb ∉ L → off e cb w = w)
  ∧ (cb ∉ L → off e cb (on e cb w) = w).
Proof.
  intros H. repeat apply conj.
  - intros L1 L2 -> Hn. unfold listeners, off. rewrite H. fields.
    rewrite lookup_insert_eq. simpl. by apply remove_first_split.
  - intros e' Hne. by apply listeners_off_other.
  - intros cb'. unfold listeners, off. rewrite H. fields.
    rewrite lookup_insert_eq. simpl. apply registrations_remove_first.
  - intros Hn. unfold off. rewrite H, remove_first_not_in by done.
    by apply upd_this_eventListeners_id.
  - intros Hn. unfold off, on. rewrite H. fields. rewrite lookup_insert_eq.
    rewrite remove_first_app_new by done.
    apply World_ext; fields; try done.
    apply WKIM_ext; fields; try done.
    rewrite insert_insert_eq. by apply insert_id.
Qed.

Lemma off_removes_one_registration_witness :
  let w := on Event.Message 7 (on Event.Message 8 (on Event.Message 7 sample_new)) in
  let L := [7; 8; 7] in
  (∀ L1 L2, L = L1 ++ 7 :: L2 → 7 ∉ L1 →
     listeners Event.Message (off Event.Message 7 w) = L1 ++ L2)
  ∧ (∀ e', e' ≠ Event.Message →
       listeners e' (off Event.Message 7 w) = listeners e' w)
  ∧ (∀ cb', registrations cb' (listeners Event.Message (off Event.Message 7 w))
            = if Nat.eqb cb' 7 then pred (registrations cb' L) else registrations cb' L)
  ∧ (7 ∉ L → off Event.Message 7 w = w)
  ∧ (7 ∉ L → off Event.Message 7 (on Event.Message 7 w) = w).
Proof.
  apply (off_removes_one_registration Event.Message 7
           (on Event.Message 7 (on Event.Message 8 (on Event.Message 7 sample_new)))
           [7; 8; 7]).
  vm_compute. reflexivity.
Defined.

(** With two registrations of listener 7 around one of listener 8, [off]
    leaves [[8; 7]]: the first registration is the one that goes. *)
Lemma off_takes_the_earliest :
  let w := on Event.Message 7 (on Event.Message 8 (on Event.Message 7 sample_new)) in
  listeners Event.Message w = [7; 8; 7]
  ∧ listeners Event.Message (off Event.Message 7 w) = [8; 7].
Proof. cbv zeta. split; vm_compute; reflexivity. Qed.

End Listeners.

(** ** Manual disconnection: [disconnect], [destroy] *)

Section Disconnect.

Variable JSON_parse : string -> option JSVal.

Lemma socket_attached_alter_false (s : nat) (l : list WebSocket) :
  default false (attached <$> (alter (socket_set_attached false) s l !! s)) = false.
Proof.
  destruct (l !! s) as [sock|] eqn:Hs.
  - by rewrite list_lookup_alter_eq, Hs.
  - rewrite list_lookup_alter_eq, Hs. done.
Qed.

Lemma socket_attached_spec s w :
  socket_attached s w = default false (attached <$> (sockets w !! s)).
Proof. unfold socket_attached. by destruct (sockets w !! s). Qed.

Lemma cleanupConnection_detaches w s :
  ws (this w) = Some s → socket_attached s (cleanupConnection w) = false.
Proof.
  intros Hws. rewrite socket_attached_spec, cleanupConnection_sockets, Hws.
  apply socket_attached_alter_false.
Qed.

Lemma handleDisconnect_ws graceful reason w :
  ws (this (handleDisconnect graceful reason w)) = ws (this w).
Proof.
  unfold handleDisconnect. destruct (ws (this w)) eqn:Hws; cbv zeta;
    [destruct (closeSocket_throws _ _ _)|]; wsimpl; by rewrite ?Hws.
Qed.

(** When its [close] call is accepted, [handleDisconnect] takes the handlers
    off the socket. *)
Lemma handleDisconnect_detaches graceful reason w s :
  close_throws (String.substring 0 123 reason) = false →
  ws (this w) = Some s → socket_attached s (handleDisconnect graceful reason w) = false.
Proof.
  intros Hok Hws. rewrite handleDisconnect_short by done. rewrite Hws.
  apply cleanupConnection_detaches. by wsimpl.
Qed.

Lemma disconnect_ws w : ws (this (disconnect w)) = ws (this w).
Proof.
  unfold disconnect. cbv zeta. rewrite handleDisconnect_ws.
  unfold cleanupBeforeUnloadHandler. by frame.
Qed.

Lemma disconnect_detaches w s :
  ws (this w) = Some s → socket_attached s (disconnect w) = false.
Proof.
  intros Hws. unfold disconnect. cbv zeta. apply handleDisconnect_detaches; [done|].
  unfold cleanupBeforeUnloadHandler. by frame.
Qed.

Lemma socket_attached_readyState s st w :
  socket_attached s (upd_socket s (socket_set_readyState st) w) = socket_attached s w.
Proof.
  rewrite !socket_attached_spec. fields. rewrite list_lookup_alter_eq.
  by destruct (sockets w !! s).
Qed.

(** A transport event on a socket whose handlers have been taken off. *)
Lemma handle_detached (t : Task) env w s :
  socket_attached s w = false →
  (∃ data, t = WsMessage s data) ∨ (∃ error, t = WsError s error)
  ∨ t = WsOpen s ∨ (∃ code reason, t = WsClose s code reason) →
  ∃ st, handle JSON_parse t env w = w
        ∨ handle JSON_parse t env w = upd_socket s (socket_set_readyState st) w.
Proof.
  intros Hd [[data ->]|[[error ->]|[->|(code & reason & ->)]]]; simpl.
  - exists OPEN. left. by rewrite Hd.
  - exists OPEN. left. by rewrite Hd.
  - exists OPEN. right.
    pose proof (socket_attached_readyState s OPEN w) as H. rewrite Hd in H.
    unfold upd_socket in *. by rewrite H.
  - exists CLOSED. right.
    pose proof (socket_attached_readyState s CLOSED w) as H. rewrite Hd in H.
    unfold upd_socket in *. by rewrite H.
Qed.

(** [disconnect()] emits no event and takes the four handlers off the socket,
    so whatever the transport reports on that socket afterwards (open,
    message, error, close) is not handled: no [disconnect] event is ever
    emitted for a manual disconnection, no listener is called, no retry is
    scheduled, and nothing of the instance changes. *)
Theorem manual_disconnect_is_silent (t : Task) env w s :
  ws (this w) = Some s →
  (∃ data, t = WsMessage s data) ∨ (∃ error, t = WsError s error)
  ∨ t = WsOpen s ∨ (∃ code reason, t = WsClose s code reason) →
  let w1 := disconnect w in
  let w2 := handle JSON_parse t env w1 in
  emitted w1 = emitted w
  ∧ emitted w2 = emitted w
  ∧ delivered w2 = delivered w1
  ∧ this w2 = this w1
  ∧ timers w2 = timers w1
  ∧ promises w2 = promises w1
  ∧ settlements w2 = settlements w1
  ∧ microtasks w2 = microtasks w1.
Proof.
  intros Hws Ht w1 w2.
  pose proof (disconnect_detaches w s Hws) as Hd.
  pose proof (disconnect_emitted w) as He.
  fold w1 in Hd, He.
  destruct (handle_detached t env w1 s Hd Ht) as [st [H|H]];
    unfold w2; rewrite H; fields; by rewrite ?He.
Qed.

End Disconnect.

Section DisconnectSamples.

Lemma manual_disconnect_is_silent_witness :
  let t := WsClose 0 1000 "Client disconnected" in
  let w1 := disconnect sample_connected in
  let w2 := handle sample_parse t (env_with "unused-10") w1 in
  emitted w1 = emitted sample_connected
  ∧ emitted w2 = emitted sample_connected
  ∧ delivered w2 = delivered w1
  ∧ this w2 = this w1
  ∧ timers w2 = timers w1
  ∧ promises w2 = promises w1
  ∧ settlements w2 = settlements w1
  ∧ microtasks w2 = microtasks w1.
Proof.
  apply (manual_disconnect_is_silent sample_parse (WsClose 0 1000 "Client disconnected")
           (env_with "unused-10") sample_connected 0).
  - vm_compute. reflexivity.
  - right. right. right. by exists 1000%Z, "Client disconnected".
Defined.

End DisconnectSamples.
Section DisconnectSocket.

(** What [handleDisconnect] leaves of the socket it closes, when the [close]
    call is accepted. *)
Lemma handleDisconnect_socket graceful reason w s sock :
  handleDisconnect_throws graceful reason w = false →
  ws (this w) = Some s → sockets w !! s = Some sock →
  sockets (handleDisconnect graceful reason w)
  = <[s := match readyState sock with
           | OPEN =>
               mkWebSocket CLOSING false (sent sock)
                 (closeCalls sock
                  ++ [if graceful then (1000%Z, "Client disconnected")
                      else (3001%Z, String.substring 0 123 reason)])
           | CONNECTING =>
               mkWebSocket CLOSING false (sent sock)
                 (closeCalls sock ++ [(3001%Z, String.substring 0 123 reason)])
           | st => mkWebSocket st false (sent sock) (closeCalls sock)
           end]> (sockets w).
Proof.
  intros Hok Hws Hs. rewrite handleDisconnect_accepted by done. rewrite Hws.
  rewrite cleanupConnection_sockets. wsimpl. rewrite Hws.
  unfold closeSocket, ws_readyState. wsimpl. rewrite Hws. simpl. rewrite Hs. simpl.
  apply list_eq. intros i. destruct (decide (i = s)) as [->|Hne].
  - rewrite list_lookup_alter_eq, list_lookup_insert_eq by (by eapply lookup_lt_Some).
    destruct (readyState sock) eqn:Hst; [|destruct graceful| |];
      rewrite ?ws_close_sockets; wsimpl; rewrite ?Hws, ?list_lookup_alter_eq, Hs;
      simpl; unfold socket_close, socket_set_attached; simpl; by rewrite ?Hst.
  - rewrite list_lookup_alter_ne, list_lookup_insert_ne by done.
    destruct (readyState sock); [|destruct graceful| |];
      rewrite ?ws_close_sockets; wsimpl; rewrite ?Hws, ?list_lookup_alter_ne; done.
Qed.

Lemma substring_length_le n s : String.length (String.substring 0 n s) ≤ n.
Proof.
  revert s. induction n as [|n IH]; intros [|c s]; simpl; try lia.
  specialize (IH s). lia.
Qed.

(** When the [close] call throws: which call it was. *)
Lemma handleDisconnect_throws_inv graceful reason w s sock :
  ws (this w) = Some s → sockets w !! s = Some sock →
  handleDisconnect_throws graceful reason w = true →
  close_throws (String.substring 0 123 reason) = true
  ∧ (readyState sock = CONNECTING ∨ (readyState sock = OPEN ∧ graceful = false)).
Proof.
  intros Hws Hs. unfold handleDisconnect_throws, closeSocket_throws, ws_readyState.
  rewrite Hws. wsimpl. rewrite Hws. simpl. rewrite Hs. simpl.
  destruct (readyState sock); try done; [tauto|].
  destruct graceful; [done|tauto].
Qed.

(** Tearing a connection down makes at most one [close] call on the socket,
    and none on a socket that is already closing or closed; the call carries
    code 1000 or 3001 and the reason cut to 123 code units.  When that call
    is accepted, the socket is left without handlers and the session is
    cleaned up.  When it throws, which happens exactly for a socket that is
    connecting or open (and not closed gracefully) and a cut reason longer
    than 123 bytes in UTF-8, no call is recorded and [handleDisconnect] is
    left with the keep-alive stopped and nothing else done: the handlers stay
    on the socket, [isConnected] and the table of pending requests are as
    they were. *)
Theorem handleDisconnect_close_call graceful reason w s sock :
  ws (this w) = Some s → sockets w !! s = Some sock →
  let w' := handleDisconnect graceful reason w in
  (handleDisconnect_throws graceful reason w = false →
     ∃ sock' added,
       sockets w' !! s = Some sock'
       ∧ attached sock' = false
       ∧ sent sock' = sent sock
       ∧ closeCalls sock' = closeCalls sock ++ added
       ∧ length added ≤ 1
       ∧ Forall (fun c => (c.1 = 1000%Z ∨ c.1 = 3001%Z)
                          ∧ String.length c.2 ≤ 123 ∧ utf8_length c.2 ≤ 123) added
       ∧ (readyState sock = CLOSING ∨ readyState sock = CLOSED → added = [])
       ∧ isConnected (this w') = false
       ∧ pendingRequests (this w') = ∅)
  ∧ (handleDisconnect_throws graceful reason w = true →
       w' = stopPing w
       ∧ sockets w' = sockets w
       ∧ isConnected (this w') = isConnected (this w)
       ∧ pendingRequests (this w') = pendingRequests (this w)
       ∧ 123 < utf8_length (String.substring 0 123 reason)
       ∧ (readyState sock = CONNECTING ∨ (readyState sock = OPEN ∧ graceful = false)))
  ∧ ∀ s', s' ≠ s → sockets w' !! s' = sockets w !! s'.
Proof.
  intros Hws Hs. cbv zeta.
  destruct (handleDisconnect_throws graceful reason w) eqn:Hthrow.
  - (* the call throws *)
    assert (E : handleDisconnect graceful reason w = stopPing w).
    { revert Hthrow. unfold handleDisconnect, handleDisconnect_throws. rewrite Hws.
      cbv zeta. by intros ->. }
    destruct (handleDisconnect_throws_inv _ _ _ _ _ Hws Hs Hthrow) as [Hlong Hst].
    split; [done|]. rewrite E. split; [|by wsimpl]. intros _.
    split; [done|]. wsimpl. repeat split; try done.
    unfold close_throws in Hlong. by apply Nat.ltb_lt in Hlong.
  - (* the call is accepted *)
    split; [|split; [done|]]; [intros _|];
      rewrite (handleDisconnect_socket graceful reason w s sock Hthrow Hws Hs).
    2:{ intros s' Hne. by rewrite list_lookup_insert_ne. }
    pose proof (lookup_lt_Some _ _ _ Hs) as Hlt.
    rewrite list_lookup_insert_eq by done.
    pose proof (substring_length_le 123 reason) as Hlen.
    assert (Hthis : isConnected (this (handleDisconnect graceful reason w)) = false
                    ∧ pendingRequests (this (handleDisconnect graceful reason w)) = ∅).
    { rewrite handleDisconnect_accepted by done.
      rewrite cleanupConnection_this. by fields. }
    destruct Hthis as [Hc HP].
    assert (Hshort : readyState sock = CONNECTING ∨ (readyState sock = OPEN ∧ graceful = false) →
              utf8_length (String.substring 0 123 reason) ≤ 123).
    { intros Hst. revert Hthrow.
      unfold handleDisconnect_throws, closeSocket_throws, ws_readyState.
      rewrite Hws. wsimpl. rewrite Hws. simpl. rewrite Hs. simpl.
      unfold close_throws.
      destruct Hst as [->|[-> ->]]; intros H%Nat.ltb_ge; done. }
    destruct (readyState sock) eqn:Hst; [|destruct graceful| |].
    + exists (mkWebSocket CLOSING false (sent sock)
                (closeCalls sock ++ [(3001%Z, String.substring 0 123 reason)])),
        [(3001%Z, String.substring 0 123 reason)].
      repeat split; simpl; try done; try lia; try (by intros [?|?]).
      apply Forall_singleton; simpl. split; [tauto|]. split; [lia|]. apply Hshort. tauto.
    + exists (mkWebSocket CLOSING false (sent sock)
                (closeCalls sock ++ [(1000%Z, "Client disconnected")])),
        [(1000%Z, "Client disconnected")].
      repeat split; simpl; try done; try lia; try (by intros [?|?]).
      apply Forall_singleton; simpl. split; [tauto|]. split; lia.
    + exists (mkWebSocket CLOSING false (sent sock)
                (closeCalls sock ++ [(3001%Z, String.substring 0 123 reason)])),
        [(3001%Z, String.substring 0 123 reason)].
      repeat split; simpl; try done; try lia; try (by intros [?|?]).
      apply Forall_singleton; simpl. split; [tauto|]. split; [lia|]. apply Hshort. tauto.
    + exists (mkWebSocket CLOSING false (sent sock) (closeCalls sock)), [].
      repeat split; simpl; try done; try lia. by rewrite app_nil_r.
    + exists (mkWebSocket CLOSED false (sent sock) (closeCalls sock)), [].
      repeat split; simpl; try done; try lia. by rewrite app_nil_r.
Qed.

Lemma handleDisconnect_close_call_witness :
  let w := sample_connected in
  let reason := "Server disconnected: kicked" in
  let sock := default (mkWebSocket CLOSED false [] []) (sockets w !! 0) in
  let w' := handleDisconnect false reason w in
  (handleDisconnect_throws false reason w = false →
     ∃ sock' added,
       sockets w' !! 0 = Some sock'
       ∧ attached sock' = false
       ∧ sent sock' = sent sock
       ∧ closeCalls sock' = closeCalls sock ++ added
       ∧ length added ≤ 1
       ∧ Forall (fun c => (c.1 = 1000%Z ∨ c.1 = 3001%Z)
                          ∧ String.length c.2 ≤ 123 ∧ utf8_length c.2 ≤ 123) added
       ∧ (readyState sock = CLOSING ∨ readyState sock = CLOSED → added = [])
       ∧ isConnected (this w') = false
       ∧ pendingRequests (this w') = ∅)
  ∧ (handleDisconnect_throws false reason w = true →
       w' = stopPing w
       ∧ sockets w' = sockets w
       ∧ isConnected (this w') = isConnected (this w)
       ∧ pendingRequests (this w') = pendingRequests (this w)
       ∧ 123 < utf8_length (String.substring 0 123 reason)
       ∧ (readyState sock = CONNECTING ∨ (readyState sock = OPEN ∧ false = false)))
  ∧ ∀ s', s' ≠ 0 → sockets w' !! s' = sockets w !! s'.
Proof.
  apply (handleDisconnect_close_call false "Server disconnected: kicked" sample_connected 0).
  - vm_compute. reflexivity.
  - vm_compute. reflexivity.
Defined.

(** Both cases occur on the connected sample: a short reason is accepted, and
    a reason of 110 accented letters, cut to 123 code units, takes 225 bytes
    and makes the call throw, so that the session is still marked connected
    and its socket still has its handlers. *)
Lemma handleDisconnect_both_cases :
  let w := sample_connected in
  let long := "Server disconnected: " +:+ sample_long_reason in
  handleDisconnect_throws false "Server disconnected: kicked" w = false
  ∧ handleDisconnect_throws false long w = true
  ∧ utf8_length (String.substring 0 123 long) = 225
  ∧ isConnected (this (handleDisconnect false long w)) = true
  ∧ socket_attached 0 (handleDisconnect false long w) = true
  ∧ pingInterval (this (handleDisconnect false long w)) = None.
Proof. vm_compute. repeat split; reflexivity. Qed.

End DisconnectSocket.

Section DisconnectTwice.

Lemma stopPing_quiet w :
  pingInterval (this w) = None → pingTimeout (this w) = None → stopPing w = w.
Proof. intros Hpi Hpt. unfold stopPing. rewrite Hpi. cbv zeta. by rewrite Hpt. Qed.

Lemma closeSocket_quiet graceful reason w :
  (∀ s sock, ws (this w) = Some s → sockets w !! s = Some sock →
     readyState sock = CLOSING ∨ readyState sock = CLOSED) →
  closeSocket graceful reason w = w.
Proof.
  intros Hsock. unfold closeSocket, ws_readyState.
  destruct (ws (this w)) as [s|] eqn:Hws; [|done]. simpl.
  destruct (sockets w !! s) as [sock|] eqn:Hs; [|done]. simpl.
  by destruct (Hsock s sock eq_refl Hs) as [->| ->].
Qed.

Lemma alter_detach_id (s : nat) (socks : list WebSocket) :
  (∀ sock, socks !! s = Some sock → attached sock = false) →
  alter (socket_set_attached false) s socks = socks.
Proof.
  intros H. apply list_eq. intros i. destruct (decide (i = s)) as [->|Hne].
  - rewrite list_lookup_alter_eq. destruct (socks !! s) as [sock|] eqn:Hs; [|done].
    simpl. f_equal. specialize (H sock eq_refl). destruct sock. simpl in *. by subst.
  - by rewrite list_lookup_alter_ne.
Qed.

Lemma cleanupConnection_quiet w :
  isConnected (this w) = false →
  pingInterval (this w) = None → pingTimeout (this w) = None →
  pendingRequests (this w) = ∅ → connectionPromise (this w) = None →
  (∀ s sock, ws (this w) = Some s → sockets w !! s = Some sock → attached sock = false) →
  cleanupConnection w = w.
Proof.
  intros Hc Hpi Hpt HP Hcp Hsock. apply World_ext.
  - rewrite cleanupConnection_this. apply WKIM_ext; by fields.
  - rewrite cleanupConnection_sockets. destruct (ws (this w)) as [s|] eqn:Hws; [|done].
    apply alter_detach_id. intros sock. by apply Hsock.
  - rewrite cleanupConnection_timers, HP, Hpi, Hpt, map_to_list_empty. done.
  - by rewrite cleanupConnection_nextTimer.
  - by rewrite cleanupConnection_promises.
  - rewrite cleanupConnection_settlements. unfold sweep_of, connection_rejection.
    rewrite HP, Hcp, map_to_list_empty. simpl. by rewrite app_nil_r.
  - unfold cleanupConnection, dropConnectionPromise. wsimpl.
    rewrite HP, Hcp, map_to_list_empty. simpl. by wsimpl.
  - by rewrite cleanupConnection_emitted.
  - by rewrite cleanupConnection_delivered.
  - by rewrite cleanupConnection_heap.
Qed.

(** An instance that holds nothing of a connection: not connected, no ping
    timer, no pending request, no connection promise, and a socket (if any)
    that is closing or closed and without handlers. *)
Lemma handleDisconnect_quiet graceful reason w :
  isConnected (this w) = false →
  pingInterval (this w) = None → pingTimeout (this w) = None →
  pendingRequests (this w) = ∅ → connectionPromise (this w) = None →
  (∀ s sock, ws (this w) = Some s → sockets w !! s = Some sock →
     attached sock = false ∧ (readyState sock = CLOSING ∨ readyState sock = CLOSED)) →
  handleDisconnect graceful reason w = w.
Proof.
  intros Hc Hpi Hpt HP Hcp Hsock. unfold handleDisconnect. cbv zeta.
  assert (Hatt : ∀ s sock, ws (this w) = Some s → sockets w !! s = Some sock →
            attached sock = false).
  { intros s sock H1 H2. by destruct (Hsock s sock H1 H2). }
  assert (Hst : ∀ s sock, ws (this w) = Some s → sockets w !! s = Some sock →
            readyState sock = CLOSING ∨ readyState sock = CLOSED).
  { intros s sock H1 H2. by destruct (Hsock s sock H1 H2). }
  rewrite stopPing_quiet by done.
  assert (Hq : cleanupConnection w = w) by (by apply cleanupConnection_quiet).
  assert (Hno : closeSocket_throws graceful reason w = false).
  { unfold closeSocket_throws, ws_readyState.
    destruct (ws (this w)) as [s|] eqn:Hws; [|done]. simpl.
    destruct (sockets w !! s) as [sock|] eqn:Hs; [|done]. simpl.
    by destruct (Hst s sock eq_refl Hs) as [->| ->]. }
  rewrite Hno, closeSocket_quiet by done. by destruct (ws (this w)).
Qed.

Lemma disconnect_socket_closed w s sock :
  ws (this w) = Some s → sockets (disconnect w) !! s = Some sock →
  attached sock = false ∧ (readyState sock = CLOSING ∨ readyState sock = CLOSED).
Proof.
  intros Hws. unfold disconnect. cbv zeta.
  set (w0 := cleanupBeforeUnloadHandler _).
  assert (Hws0 : ws (this w0) = Some s).
  { unfold w0, cleanupBeforeUnloadHandler. by frame. }
  clearbody w0. destruct (sockets w0 !! s) as [sock0|] eqn:Hs0.
  - rewrite (handleDisconnect_socket true "Manual disconnection" w0 s sock0
               (handleDisconnect_throws_short true "Manual disconnection" w0 eq_refl)
               Hws0 Hs0).
    rewrite list_lookup_insert_eq by (by eapply lookup_lt_Some).
    intros [= <-]. destruct (readyState sock0) eqn:Hst; simpl; rewrite ?Hst; tauto.
  - intros Hs. exfalso.
    assert (Hlen : length (sockets (handleDisconnect true "Manual disconnection" w0))
                   = length (sockets w0)).
    { rewrite handleDisconnect_manual, Hws0.
      rewrite cleanupConnection_sockets. wsimpl. rewrite Hws0, length_alter.
      unfold closeSocket. destruct (ws_readyState _) as [[]|];
        try destruct (true); rewrite ?ws_close_sockets; wsimpl;
        rewrite ?Hws0, ?length_alter; done. }
    apply lookup_lt_Some in Hs. apply lookup_ge_None in Hs0. lia.
Qed.

Lemma disconnect_state w :
  isConnected (this (disconnect w)) = false
  ∧ pingInterval (this (disconnect w)) = None
  ∧ pingTimeout (this (disconnect w)) = None
  ∧ pendingRequests (this (disconnect w)) = ∅
  ∧ connectionPromise (this (disconnect w)) = None
  ∧ beforeUnloadHandler (this (disconnect w)) = false.
Proof.
  unfold disconnect. cbv zeta.
  rewrite handleDisconnect_this, cleanupConnection_this by done. fields.
  repeat split; try done. unfold cleanupBeforeUnloadHandler. by frame.
Qed.

Lemma upd_this_id f w : f (this w) = this w → upd_this f w = w.
Proof. intros H. destruct w. unfold upd_this. simpl in *. by rewrite H. Qed.

(** A second [disconnect()] changes nothing: no second [close] call, no
    rejection, no event. *)
Theorem disconnect_idempotent w : disconnect (disconnect w) = disconnect w.
Proof.
  destruct (disconnect_state w) as (Hc & Hpi & Hpt & HP & Hcp & Hbuh).
  pose proof (disconnect_manualDisconnect w) as Hman.
  pose proof (disconnect_isReconnecting w) as Hrec.
  pose proof (fun s => disconnect_socket_closed (disconnect w) s) as Hsock.
  assert (Hsock' : ∀ s sock, ws (this (disconnect w)) = Some s →
            sockets (disconnect w) !! s = Some sock →
            attached sock = false ∧ (readyState sock = CLOSING ∨ readyState sock = CLOSED)).
  { intros s sock Hws. rewrite disconnect_ws in Hws. by apply disconnect_socket_closed. }
  clear Hsock. revert Hc Hpi Hpt HP Hcp Hbuh Hman Hrec Hsock'.
  generalize (disconnect w). clear w. intros w Hc Hpi Hpt HP Hcp Hbuh Hman Hrec Hsock.
  unfold disconnect at 1. cbv zeta.
  assert (H1 : upd_this (set_manualDisconnect true) w = w).
  { apply upd_this_id. destruct (this w). simpl in *. by subst. }
  rewrite H1.
  assert (H2 : upd_this (set_isReconnecting false) w = w).
  { apply upd_this_id. destruct (this w). simpl in *. by subst. }
  rewrite H2.
  assert (H3 : cleanupBeforeUnloadHandler w = w).
  { unfold cleanupBeforeUnloadHandler. by rewrite Hbuh. }
  rewrite H3. by apply handleDisconnect_quiet.
Qed.

End DisconnectTwice.

Section Destroy.


End Destroy.

(** ** Construction: the constructor and [init] *)

Section Construction.

(** A new instance knows the seven events, each with no listener yet; it has
    no socket, no timer, no promise and no pending request, and is not
    connected.  Its [deviceId] is never missing nor empty: the one given is
    kept when it is not empty, otherwise one is made from the session
    identifier and the clock; [uid], [token] and [deviceFlag] are kept.  The
    page-unload handler is installed exactly when there is a [window]. *)
Theorem new_WKIM_initial url a env :
  let w := new_WKIM url a env in
  (∀ e, eventListeners (this w) !! Event.name e = Some [])
  ∧ (∃ d, deviceId (auth (this w)) = Some d ∧ String.eqb d "" = false)
  ∧ (∀ d, deviceId a = Some d → String.eqb d "" = false → auth (this w) = a)
  ∧ uid (auth (this w)) = uid a
  ∧ token (auth (this w)) = token a
  ∧ deviceFlag (auth (this w)) = deviceFlag a
  ∧ ws (this w) = None
  ∧ isConnected (this w) = false
  ∧ pendingRequests (this w) = ∅
  ∧ sockets w = [] ∧ timers w = ∅ ∧ promises w = [] ∧ settlements w = []
  ∧ emitted w = []
  ∧ beforeUnloadHandler (this w) = has_window env.
Proof.
  unfold new_WKIM, setupBeforeUnloadHandler. cbv zeta.
  destruct (has_window env); fields.
  all: split; [by intros []|].
  all: split;
    [destruct (deviceId a) as [d|] eqn:Hd;
       [destruct (String.eqb d "") eqn:He; [by eexists|exists d; by rewrite Hd]
       |by eexists]|].
  all: split;
    [intros d Hd He; rewrite Hd, He; destruct a; simpl in *; by subst|].
  all: repeat split; try done.
  all: destruct (deviceId a) as [d|]; [by destruct (String.eqb d "")|done].
Qed.

Lemma eqb_empty_false s : s ≠ "" → String.eqb s "" = false.
Proof. by intros H%String.eqb_neq. Qed.

Lemma lookup_snoc_at {A} (l l' : list A) (x : A) :
  length l' = length l → (l' ++ [x]) !! length l = Some x.
Proof. intros H. by rewrite lookup_app_r, H, Nat.sub_diag by lia. Qed.

(** [init] with well-formed arguments always creates a new instance and
    returns it.  Only [singleton: true] destroys the previous global instance;
    with no [singleton] option the new instance replaces the global one, which
    is left as it is (still connected, if it was); with [singleton: false] the
    global instance is not changed.  No other instance is touched. *)
Theorem init_creates_instance url a options env r :
  url ≠ "" → uid a ≠ "" → token a ≠ "" →
  let n := length (instances r) in
  let r' := (init url (Some a) options env r).1 in
  (init url (Some a) options env r).2 = inr n
  ∧ instances r' !! n = Some (new_WKIM url a env)
  ∧ length (instances r') = S n
  ∧ globalInstance r'
    = match singleton options with
      | Some false => globalInstance r
      | _ => Some n
      end
  ∧ ∀ i w, instances r !! i = Some w →
      instances r' !! i
      = Some (match singleton options with
              | Some true => if bool_decide (globalInstance r = Some i) then destroy w else w
              | _ => w
              end).
Proof.
  intros Hurl Huid Htok n r'. unfold r', n, init.
  rewrite !eqb_empty_false by done. simpl.
  destruct (singleton options) as [[]|]; simpl.
  - destruct (globalInstance r) as [g|] eqn:Hg; simpl.
    + unfold destroy_instance. simpl. rewrite bool_decide_eq_true_2 by done. simpl.
      rewrite length_alter. split; [done|]. split; [|split; [|split; [done|]]].
      * apply lookup_snoc_at, length_alter.
      * rewrite length_app, length_alter. simpl. lia.
      * intros i w Hi. rewrite lookup_app_l by (rewrite length_alter; by eapply lookup_lt_Some).
        destruct (decide (i = g)) as [->|Hne].
        -- rewrite bool_decide_eq_true_2 by done. by rewrite list_lookup_alter_eq, Hi.
        -- rewrite bool_decide_eq_false_2 by congruence.
           by rewrite list_lookup_alter_ne.
    + split; [done|]. split; [|split; [|split; [done|]]].
      * by apply lookup_snoc_at.
      * rewrite length_app. simpl. lia.
      * intros i w Hi. by rewrite lookup_app_l by (by eapply lookup_lt_Some).
  - split; [done|]. split; [|split; [|split; [done|]]].
    + by apply lookup_snoc_at.
    + rewrite length_app. simpl. lia.
    + intros i w Hi. by rewrite lookup_app_l by (by eapply lookup_lt_Some).
  - split; [done|]. split; [|split; [|split; [done|]]].
    + by apply lookup_snoc_at.
    + rewrite length_app. simpl. lia.
    + intros i w Hi. by rewrite lookup_app_l by (by eapply lookup_lt_Some).
Qed.

Lemma init_creates_instance_witness :
  let r := sample_registry in
  let n := length (instances r) in
  let r' := (init "ws://localhost:5100" (Some sample_auth) (mkInitOptions (Some true))
               sample_env r).1 in
  (init "ws://localhost:5100" (Some sample_auth) (mkInitOptions (Some true)) sample_env r).2
  = inr n
  ∧ instances r' !! n = Some (new_WKIM "ws://localhost:5100" sample_auth sample_env)
  ∧ length (instances r') = S n
  ∧ globalInstance r' = Some n
  ∧ ∀ i w, instances r !! i = Some w →
      instances r' !! i
      = Some (if bool_decide (globalInstance r = Some i) then destroy w else w).
Proof.
  apply (init_creates_instance "ws://localhost:5100" sample_auth (mkInitOptions (Some true))
           sample_env sample_registry); done.
Defined.

End Construction.

(** ** One request, from [sendRequest] to its end *)

Section RequestLifeCycle.

(** The world right after a successful [sendRequest]. *)
Lemma sendRequest_sent method params timeoutMs k env w :
  ws_is_open w = true → write_error env = None →
  sendRequest method params timeoutMs k env w
  = ws_send (Request method params (request_uuid env))
      (registered method timeoutMs k env w).
Proof.
  intros Hopen Hw. rewrite sendRequest_registers by done. cbv zeta. by rewrite Hw.
Qed.

Lemma registered_this method timeoutMs k env w :
  this (registered method timeoutMs k env w)
  = set_pendingRequests
      (<[request_uuid env := mkPending (length (promises w)) (length (promises w))
                               (nextTimer w)]> (pendingRequests (this w))) (this w).
Proof. done. Qed.

Lemma registered_timers method timeoutMs k env w :
  timers (registered method timeoutMs k env w)
  = <[nextTimer w := mkTimer (TRequestTimeout (request_uuid env) method
                                (length (promises w))) timeoutMs false]> (timers w).
Proof. done. Qed.

Lemma registered_settlements method timeoutMs k env w :
  settlements (registered method timeoutMs k env w) = settlements w.
Proof. done. Qed.

Lemma registered_promises method timeoutMs k env w :
  promises (registered method timeoutMs k env w)
  = promises w ++ [mkPromise (FromSendRequest method) k].
Proof. done. Qed.

Lemma registered_sockets method timeoutMs k env w :
  sockets (registered method timeoutMs k env w) = sockets w.
Proof. done. Qed.

(** A request that cannot be sent leaves no trace: when the socket is not
    open, or when the write of the frame throws, the promise returned is
    rejected on the spot (with "WebSocket is not open." or with what was
    thrown), and the pending-request table, the timers and the sockets are
    what they were before the call: no entry, no timer and no frame is left
    behind. *)
Theorem sendRequest_failure_leaves_no_trace method params timeoutMs k env w :
  pendingRequests (this w) !! request_uuid env = None →
  timers w !! nextTimer w = None →
  ws_is_open w = false ∨ (∃ e, write_error env = Some e) →
  let w' := sendRequest method params timeoutMs k env w in
  ∃ error,
    settlements w'
    = settlements w ++ [mkSettlement (length (promises w)) (Reject error) BySendRequest]
    ∧ (ws_is_open w = false → error = VError "WebSocket is not open.")
    ∧ (ws_is_open w = true → write_error env = Some error)
    ∧ promises w' = promises w ++ [mkPromise (FromSendRequest method) k]
    ∧ pendingRequests (this w') = pendingRequests (this w)
    ∧ timers w' = timers w
    ∧ sockets w' = sockets w.
Proof.
  intros HP HT Hfail w'. destruct (ws_is_open w) eqn:Hopen.
  - destruct Hfail as [?|[e He]]; [done|]. exists e.
    unfold w'. rewrite sendRequest_registers by done. cbv zeta. rewrite He.
    wsimpl. rewrite registered_this, registered_timers, registered_settlements,
      registered_promises, registered_sockets. fields.
    rewrite !delete_insert_id by done. done.
  - exists (VError "WebSocket is not open."). unfold w', sendRequest.
    replace (ws_is_open (new_promise (mkPromise (FromSendRequest method) k) w))
      with (ws_is_open w) by done.
    rewrite Hopen. simpl. wsimpl. done.
Qed.

Lemma sendRequest_failure_leaves_no_trace_witness :
  let w := sample_connected in
  let w' := sendRequest "send" (JObj []) 15000 KApp failing_env w in
  ∃ error,
    settlements w'
    = settlements w ++ [mkSettlement (length (promises w)) (Reject error) BySendRequest]
    ∧ (ws_is_open w = false → error = VError "WebSocket is not open.")
    ∧ (ws_is_open w = true → write_error failing_env = Some error)
    ∧ promises w' = promises w ++ [mkPromise (FromSendRequest "send") KApp]
    ∧ pendingRequests (this w') = pendingRequests (this w)
    ∧ timers w' = timers w
    ∧ sockets w' = sockets w.
Proof.
  apply (sendRequest_failure_leaves_no_trace "send" (JObj []) 15000 KApp failing_env
           sample_connected).
  - vm_compute. reflexivity.
  - vm_compute. reflexivity.
  - right. by eexists.
Defined.

(** A request and its response.  When the socket is open and the write
    succeeds, [sendRequest] writes one frame and leaves the request pending,
    with nothing settled yet.  The response that carries the request's
    identifier then settles the promise once, rejecting with the response's
    [error] when it has one and resolving with its [result] otherwise; the
    entry is gone and the timeout timer is cancelled, so that the table and
    the timers are again what they were before the request. *)
Theorem response_settles_request method params timeoutMs k env response w :
  ws_is_open w = true → write_error env = None →
  pendingRequests (this w) !! request_uuid env = None →
  timers w !! nextTimer w = None →
  get_prop_opt response "id" = JStr (request_uuid env) →
  let p := length (promises w) in
  let w1 := sendRequest method params timeoutMs k env w in
  let w2 := handleResponse response w1 in
  outbox w1 = outbox w ++ [Request method params (request_uuid env)]
  ∧ pending w1 p
  ∧ settlements w1 = settlements w
  ∧ settlements w2 = settlements w ++ [mkSettlement p (response_outcome response) ByResponse]
  ∧ pendingRequests (this w2) = pendingRequests (this w)
  ∧ timers w2 = timers w
  ∧ sockets w2 = sockets w1.
Proof.
  intros Hopen Hw HP HT Hid p w1 w2.
  assert (E1 : w1 = ws_send (Request method params (request_uuid env))
                      (registered method timeoutMs k env w))
    by (by apply sendRequest_sent).
  assert (Hent : pendingRequests (this w1) !! request_uuid env
                 = Some (mkPending p p (nextTimer w))).
  { rewrite E1, ws_send_this, registered_this. fields. by rewrite lookup_insert_eq. }
  assert (Htm : timers w1 !! nextTimer w
                = Some (mkTimer (TRequestTimeout (request_uuid env) method p) timeoutMs false)).
  { rewrite E1, ws_send_timers, registered_timers. by rewrite lookup_insert_eq. }
  assert (HP1 : pendingRequests (this w1)
                = <[request_uuid env := mkPending p p (nextTimer w)]> (pendingRequests (this w))).
  { by rewrite E1, ws_send_this, registered_this. }
  assert (HT1 : timers w1
                = <[nextTimer w := mkTimer (TRequestTimeout (request_uuid env) method p)
                                     timeoutMs false]> (timers w)).
  { by rewrite E1, ws_send_timers, registered_timers. }
  assert (HS1 : settlements w1 = settlements w).
  { by rewrite E1, ws_send_settlements, registered_settlements. }
  split; [|split; [|split; [done|]]].
  - rewrite E1. rewrite ws_send_outbox by done. done.
  - exists (request_uuid env), (mkPending p p (nextTimer w)), method, timeoutMs. by simpl.
  - clearbody w1. unfold w2, handleResponse. cbv zeta. rewrite Hid, Hent. simpl.
    unfold response_outcome.
    destruct (truthy (get_prop_opt response "error")); wsimpl;
      rewrite HP1, HT1, HS1, !delete_insert_id by done; done.
Qed.

Lemma response_settles_request_witness :
  let w := sample_connected in
  let env := env_with "req-2" in
  let response := default JNull (sample_parse "connack req-2") in
  let p := length (promises w) in
  let w1 := sendRequest "send" (JObj []) 15000 KApp env w in
  let w2 := handleResponse response w1 in
  outbox w1 = outbox w ++ [Request "send" (JObj []) (request_uuid env)]
  ∧ pending w1 p
  ∧ settlements w1 = settlements w
  ∧ settlements w2 = settlements w ++ [mkSettlement p (response_outcome response) ByResponse]
  ∧ pendingRequests (this w2) = pendingRequests (this w)
  ∧ timers w2 = timers w
  ∧ sockets w2 = sockets w1.
Proof.
  apply (response_settles_request "send" (JObj []) 15000 KApp (env_with "req-2")
           (default JNull (sample_parse "connack req-2")) sample_connected);
    vm_compute; reflexivity.
Defined.

(** A request that is not answered.  When its timer fires the promise is
    rejected once, with the timeout error that names the method and the
    identifier; the entry and the timer are gone.  A response that arrives
    after that is discarded: it changes nothing. *)
Theorem timeout_settles_request method params timeoutMs k env env' w :
  ws_is_open w = true → write_error env = None →
  pendingRequests (this w) !! request_uuid env = None →
  timers w !! nextTimer w = None →
  let p := length (promises w) in
  let w1 := sendRequest method params timeoutMs k env w in
  let w2 := fire_timer (nextTimer w) env' w1 in
  settlements w2
  = settlements w
    ++ [mkSettlement p
          (Reject (VError ("Request timeout for method " +:+ method +:+
                           " (id: " +:+ request_uuid env +:+ ")")))
          ByTimeout]
  ∧ pendingRequests (this w2) = pendingRequests (this w)
  ∧ timers w2 = timers w
  ∧ sockets w2 = sockets w1
  ∧ ∀ response,
      get_prop_opt response "id" = JStr (request_uuid env) →
      handleResponse response w2 = w2.
Proof.
  intros Hopen Hw HP HT p w1 w2.
  assert (E1 : w1 = ws_send (Request method params (request_uuid env))
                      (registered method timeoutMs k env w))
    by (by apply sendRequest_sent).
  assert (HP1 : pendingRequests (this w1)
                = <[request_uuid env := mkPending p p (nextTimer w)]> (pendingRequests (this w))).
  { by rewrite E1, ws_send_this, registered_this. }
  assert (HT1 : timers w1
                = <[nextTimer w := mkTimer (TRequestTimeout (request_uuid env) method p)
                                     timeoutMs false]> (timers w)).
  { by rewrite E1, ws_send_timers, registered_timers. }
  assert (HS1 : settlements w1 = settlements w).
  { by rewrite E1, ws_send_settlements, registered_settlements. }
  clearbody w1.
  assert (E2 : w2 = request_timeout (request_uuid env) method p (clearTimer (nextTimer w) w1)).
  { unfold w2, fire_timer. rewrite HT1, lookup_insert_eq. done. }
  assert (HP2 : pendingRequests (this w2) = pendingRequests (this w)).
  { rewrite E2. unfold request_timeout. wsimpl. by rewrite HP1, delete_insert_id. }
  split; [|split; [done|split; [|split]]].
  - rewrite E2. unfold request_timeout. wsimpl. by rewrite HS1.
  - rewrite E2. unfold request_timeout. wsimpl. by rewrite HT1, delete_insert_id.
  - rewrite E2. unfold request_timeout. by wsimpl.
  - intros response Hid. clearbody w2. unfold handleResponse. cbv zeta.
    by rewrite Hid, HP2, HP.
Qed.

Lemma timeout_settles_request_witness :
  let w := sample_connected in
  let env := env_with "req-2" in
  let p := length (promises w) in
  let w1 := sendRequest "send" (JObj []) 15000 KApp env w in
  let w2 := fire_timer (nextTimer w) (env_with "unused-11") w1 in
  settlements w2
  = settlements w
    ++ [mkSettlement p
          (Reject (VError ("Request timeout for method " +:+ "send" +:+
                           " (id: " +:+ request_uuid env +:+ ")")))
          ByTimeout]
  ∧ pendingRequests (this w2) = pendingRequests (this w)
  ∧ timers w2 = timers w
  ∧ sockets w2 = sockets w1
  ∧ ∀ response,
      get_prop_opt response "id" = JStr (request_uuid env) →
      handleResponse response w2 = w2.
Proof.
  apply (timeout_settles_request "send" (JObj []) 15000 KApp (env_with "req-2")
           (env_with "unused-11") sample_connected);
    vm_compute; reflexivity.
Defined.

End RequestLifeCycle.
(** ** Who reconnects, and who does not *)

Section Reconnection.

Variable JSON_parse : string -> option JSVal.

Lemma cleanupConnection_isReconnecting w :
  isReconnecting (this (cleanupConnection w)) = isReconnecting (this w).
Proof. by rewrite cleanupConnection_this. Qed.

Lemma handleNotification_disconnect notification env w :
  get_prop_opt notification "method" = JStr "disconnect" →
  handleNotification JSON_parse notification env w
  = handleDisconnect false
      ("Server disconnected: " +:+
       to_text (js_or (get_prop_opt (get_prop_opt notification "params") "reason")
                      (get_prop_opt (get_prop_opt notification "params") "reasonCode")))
      (emit Event.Disconnect (VJson (get_prop_opt notification "params")) w).
Proof. intros Hm. unfold handleNotification. cbv zeta. by rewrite Hm. Qed.

Lemma cleanupConnection_microtasks_idle w :
  pendingRequests (this w) = ∅ → connectionPromise (this w) = None →
  microtasks (cleanupConnection w) = microtasks w.
Proof.
  intros HP Hcp. unfold cleanupConnection, dropConnectionPromise. wsimpl.
  rewrite HP, Hcp, map_to_list_empty. simpl. by wsimpl.
Qed.

(** The turn of a [disconnect] notification whose [close] call is accepted,
    and the close event after it, with listeners that are observers. *)
Lemma server_disconnect_steps notification env env' code reason w s :
  get_prop_opt notification "method" = JStr "disconnect" →
  ws (this w) = Some s →
  let params := get_prop_opt notification "params" in
  let text :=
    "Server disconnected: " +:+
    to_text (js_or (get_prop_opt params "reason") (get_prop_opt params "reasonCode")) in
  close_throws (String.substring 0 123 text) = false →
  let w1 := handleNotification JSON_parse notification env w in
  let w2 := handle JSON_parse (WsClose s code reason) env' w1 in
  emitted w1 = emitted w ++ [(Event.Disconnect, VJson params)]
  ∧ isConnected (this w1) = false
  ∧ pendingRequests (this w1) = ∅
  ∧ (∃ swept, swept ≡ₚ sweep_of w
       ∧ settlements w1 = settlements w ++ swept ++ connection_rejection w)
  ∧ isReconnecting (this w1) = isReconnecting (this w)
  ∧ reconnectAttempts (this w1) = reconnectAttempts (this w)
  ∧ (∀ t tm, timers w1 !! t = Some tm → timers w !! t = Some tm)
  ∧ (pendingRequests (this w) = ∅ → connectionPromise (this w) = None →
     microtasks w1 = microtasks w)
  ∧ this w2 = this w1 ∧ timers w2 = timers w1 ∧ emitted w2 = emitted w1
  ∧ microtasks w2 = microtasks w1.
Proof.
  intros Hm Hws params text Hok w1 w2.
  assert (E1 : w1 = handleDisconnect false text
                      (emit Event.Disconnect (VJson params) w))
    by (by apply handleNotification_disconnect).
  assert (Hd : socket_attached s w1 = false).
  { rewrite E1. apply handleDisconnect_detaches; [done|]. by wsimpl. }
  assert (E2 : w1 = cleanupConnection
                      (closeSocket false text
                         (stopPing (emit Event.Disconnect (VJson params) w)))).
  { rewrite E1, handleDisconnect_short by done. by rewrite emit_this, Hws. }
  split; [by rewrite E1; wsimpl|].
  split; [by rewrite E1, handleDisconnect_this, cleanupConnection_this|].
  split; [by rewrite E1, handleDisconnect_this, cleanupConnection_this|].
  split.
  { exists (sweep_of w). split; [done|].
    rewrite E2, cleanupConnection_settlements. unfold sweep_of, connection_rejection.
    by wsimpl. }
  split; [by rewrite E1, handleDisconnect_this, cleanupConnection_this; wsimpl|].
  split; [by rewrite E1, handleDisconnect_this, cleanupConnection_this; wsimpl|].
  split.
  { intros t tm. rewrite E1. intros H%handleDisconnect_timers_lookup. revert H. by wsimpl. }
  split.
  { intros HP Hcp. rewrite E2, cleanupConnection_microtasks_idle; by wsimpl. }
  clearbody w1.
  destruct (handle_detached JSON_parse (WsClose s code reason) env' w1 s Hd) as [st [H|H]].
  { right. right. right. by eexists _, _. }
  all: unfold w2; rewrite H; by fields.
Qed.


Lemma beforeUnload_stops w :
  ws_readyState w ≠ Some CONNECTING → no_handshake_pending w → stopped (beforeUnload w).
Proof.
  intros Hnc [Hq Htab]. unfold beforeUnload. cbv zeta.
  match goal with |- context [ws_is_open ?x] =>
    assert (Hst : ws_readyState x = ws_readyState w) by done;
    assert (Hthis : manualDisconnect (this x) = true ∧ isReconnecting (this x) = false)
      by (by fields);
    assert (Hp : promises x = promises w ∧ microtasks x = microtasks w
                 ∧ pendingRequests (this x) = pendingRequests (this w)) by (by fields);
    destruct (ws_is_open x) eqn:Ho; revert Hst Hthis Hp Ho; generalize x
  end.
  - intros w1 Hst [H1 H2] (H3 & H4 & H5) Ho.
    destruct (ws_close_readyState 1000 "Page unloaded" w1) as [Ha Hb].
    split; rewrite ?ws_close_this; try done.
    split; rewrite ?ws_close_this, ?ws_close_promises, ?ws_close_microtasks, ?H3, ?H4, ?H5;
      done.
  - intros w1 Hst [H1 H2] (H3 & H4 & H5) Ho.
    split; try done.
    + by rewrite Hst.
    + unfold ws_is_open in Ho. by apply bool_decide_eq_false in Ho.
    + split; rewrite ?H3, ?H4, ?H5; done.
Qed.

Lemma beforeUnload_timers w : timers (beforeUnload w) = timers w.
Proof. unfold beforeUnload. cbv zeta. destruct (ws_is_open _); by wsimpl. Qed.

Lemma beforeUnload_sockets_length w : length (sockets (beforeUnload w)) = length (sockets w).
Proof.
  unfold beforeUnload. cbv zeta. destruct (ws_is_open _); [|done].
  rewrite ws_close_sockets. fields. destruct (ws (this w)); [|done]. by rewrite length_alter.
Qed.

(** Once the page-unload handler has run in a session whose socket is not
    still connecting and whose handshake is over or not begun, nothing
    starts a reconnection, and the close event of the socket in particular
    does not: whatever happens then, as long as [connect()] is not called,
    neither by the application ([h]) nor by a listener ([B]), the instance
    stays manually disconnected and not reconnecting, no timer is armed and
    no socket is created.  The handler closes the socket when it is open. *)
Theorem page_unload_prevents_reconnect fuel B h w w2 :
  ws_readyState w ≠ Some CONNECTING →
  no_handshake_pending w →
  never_connects B → no_connect_call h →
  run_live fuel B JSON_parse h (beforeUnload w) = Some w2 →
  manualDisconnect (this w2) = true
  ∧ isReconnecting (this w2) = false
  ∧ length (sockets w2) = length (sockets w)
  ∧ (∀ t tm, timers w2 !! t = Some tm → timers w !! t = Some tm)
  ∧ (ws_is_open w = true →
     close_calls (beforeUnload w) = close_calls w ++ [(1000%Z, "Page unloaded")]).
Proof.
  intros Hnc Hnh HB Hh Hrun.
  pose proof (ss_run_live fuel B JSON_parse HB h (beforeUnload w) (beforeUnload w) w2 Hh
                Hrun (ss_refl _ (beforeUnload_stops w Hnc Hnh))) as ([Hm Hi _ _ _] & Htm & Hlen).
  repeat apply conj; try done.
  - by rewrite Hlen, beforeUnload_sockets_length.
  - intros t tm H%Htm. by rewrite beforeUnload_timers in H.
  - intros Ho. unfold beforeUnload. cbv zeta.
    replace (ws_is_open (upd_this (set_isReconnecting false)
                           (upd_this (set_manualDisconnect true) w)))
      with (ws_is_open w) by done.
    rewrite Ho. apply ws_is_open_inv in Ho. destruct Ho as (s & sock & Hws & Hs & _).
    unfold close_calls. rewrite ws_close_this, ws_close_sockets. fields.
    rewrite Hws. simpl. by rewrite list_lookup_alter_eq, Hs.
Qed.

End Reconnection.

Section ReconnectionSamples.


(** A [disconnect] notification is not final when a ping is in flight: the
    sweep rejects the ping, the [catch] of the ping reports a time-out and
    calls [tryReconnect], and a retry is scheduled (timer 3). *)
Lemma server_disconnect_with_ping_in_flight :
  let w := sample_pinging in
  let result := run_live 1 silent sample_parse_more kicked_history w in
  isConnected (this w) = true
  ∧ dom (pendingRequests (this w)) = {["req-5"]}
  ∧ (isReconnecting ∘ this <$> result) = Some true
  ∧ ((fun w' => timers w' !! 3) <$> result) = Some (Some (mkTimer TReconnect 1000 false))
  ∧ (emitted <$> result)
    = Some (emitted w
            ++ [(Event.Disconnect, VJson (get_prop_opt server_disconnect "params"));
                (Event.Error, VError "Ping timeout");
                (Event.Reconnecting, reconnecting_info 1 1000)]).
Proof. cbv zeta. repeat apply conj; vm_compute; reflexivity. Qed.

Lemma sample_connected_window_no_handshake : no_handshake_pending sample_connected_window.
Proof.
  split.
  - intros k o Hin. vm_compute in Hin. by apply elem_of_nil in Hin.
  - intros id pr.
    assert (He : pendingRequests (this sample_connected_window) = ∅)
      by (vm_compute; reflexivity).
    by rewrite He, lookup_empty.
Qed.

Lemma unload_history_no_connect : no_connect_call unload_history.
Proof.
  intros env. unfold unload_history.
  repeat (apply not_elem_of_cons; split; [done|]). apply not_elem_of_nil.
Qed.

Lemma page_unload_prevents_reconnect_witness :
  let w := sample_connected_window in
  let w2 := default w (run_live 1 sample_behaviour sample_parse unload_history
                         (beforeUnload w)) in
  manualDisconnect (this w2) = true
  ∧ isReconnecting (this w2) = false
  ∧ length (sockets w2) = length (sockets w)
  ∧ (∀ t tm, timers w2 !! t = Some tm → timers w !! t = Some tm)
  ∧ (ws_is_open w = true →
     close_calls (beforeUnload w) = close_calls w ++ [(1000%Z, "Page unloaded")]).
Proof.
  apply (page_unload_prevents_reconnect sample_parse 1 sample_behaviour unload_history
           sample_connected_window).
  - vm_compute. discriminate.
  - apply sample_connected_window_no_handshake.
  - apply sample_behaviour_never_connects.
  - apply unload_history_no_connect.
  - vm_compute. reflexivity.
Defined.

(** The page is unloaded while the socket is connecting: the handler finds
    no open socket to close; the socket opens, the server accepts the
    handshake, whose reaction marks the session connected and takes
    [manualDisconnect] back; when the connection is lost, a retry is
    scheduled (timer 2).  The same happens when the handler runs during the
    handshake on the open socket, whose reply is still handled while the
    socket is closing. *)
Lemma unload_before_handshake_retries :
  let connecting :=
    run_live 1 silent sample_parse unload_while_connecting_history sample_new_window in
  let handshaking :=
    run_live 1 silent sample_parse unload_during_handshake_history sample_new_window in
  beforeUnloadHandler (this sample_new_window) = true
  ∧ (manualDisconnect ∘ this <$> connecting) = Some false
  ∧ (isReconnecting ∘ this <$> connecting) = Some true
  ∧ ((fun w' => timers w' !! 2) <$> connecting)
    = Some (Some (mkTimer TReconnect 1000 false))
  ∧ (manualDisconnect ∘ this <$> handshaking) = Some false
  ∧ (isReconnecting ∘ this <$> handshaking) = Some true
  ∧ ((fun w' => timers w' !! 2) <$> handshaking)
    = Some (Some (mkTimer TReconnect 1000 false)).
Proof. cbv zeta. repeat apply conj; vm_compute; reflexivity. Qed.

End ReconnectionSamples.

(** ** A ping that is not answered *)

Section PingTimeout.

(** The connection is up, but a ping gets no answer: the [catch] of the ping
    reports "Ping timeout" and schedules a retry.  Nothing closes the socket
    and [isConnected] stays [true], so when the retry timer fires [connect()]
    resolves at once without opening a socket, and [isReconnecting] stays
    set.  From then on [tryReconnect] returns at once: when the socket later
    closes, the [disconnect] event is emitted but no retry is scheduled. *)
Theorem ping_timeout_retry_is_void env code reason w :
  isConnected (this w) = true →
  isReconnecting (this w) = false → manualDisconnect (this w) = false →
  reconnectAttempts (this w) < maxReconnectAttempts (this w) →
  timers w !! nextTimer w = None →
  let d := (initialReconnectDelay (this w) * 2 ^ Z.of_nat (reconnectAttempts (this w)))%Z in
  let w1 := ping_catch w in
  let w2 := fire_timer (nextTimer w) env w1 in
  let w3 := onclose code reason w2 in
  timers w1 = <[nextTimer w := mkTimer TReconnect d false]> (timers w)
  ∧ emitted w1
    = emitted w ++ [(Event.Error, VError "Ping timeout");
                    (Event.Reconnecting,
                     reconnecting_info (S (reconnectAttempts (this w))) d)]
  ∧ sockets w2 = sockets w
  ∧ timers w2 = timers w
  ∧ settlements w2
    = settlements w ++ [mkSettlement (length (promises w)) (Resolve (VJson JUndefined))
                          ByConnect]
  ∧ isConnected (this w2) = true
  ∧ isReconnecting (this w2) = true
  ∧ tryReconnect w2 = w2
  ∧ isConnected (this w3) = false
  ∧ (∀ t tm, timers w3 !! t = Some tm → timers w !! t = Some tm).
Proof.
  intros Hc Hrec Hman Hlt HT d w1 w2 w3.
  assert (E1 : w1 = setTimeout TReconnect d
                      (emit Event.Reconnecting
                         (reconnecting_info (S (reconnectAttempts (this w))) d)
                         (upd_this (fun o => set_reconnectAttempts (S (reconnectAttempts o)) o)
                            (upd_this (set_isReconnecting true)
                               (emit Event.Error (VError "Ping timeout") w))))).
  { unfold w1, ping_catch, tryReconnect. cbv zeta. wsimpl. rewrite Hrec, Hman. simpl.
    unfold scheduleReconnect. wsimpl.
    replace (_ <=? _)%nat with false by (symmetry; apply Nat.leb_gt; lia). done. }
  assert (HT1 : timers w1 = <[nextTimer w := mkTimer TReconnect d false]> (timers w)).
  { rewrite E1. by wsimpl. }
  assert (Hthis1 : this w1
            = set_reconnectAttempts (S (reconnectAttempts (this w)))
                (set_isReconnecting true (this w))).
  { rewrite E1. by wsimpl. }
  assert (Hem1 : emitted w1 = emitted w ++ [(Event.Error, VError "Ping timeout");
                    (Event.Reconnecting,
                     reconnecting_info (S (reconnectAttempts (this w))) d)]).
  { rewrite E1. wsimpl. by rewrite <- app_assoc. }
  assert (Hs1 : sockets w1 = sockets w) by (rewrite E1; by wsimpl).
  assert (Hp1 : promises w1 = promises w) by (rewrite E1; by wsimpl).
  assert (Hse1 : settlements w1 = settlements w) by (rewrite E1; by wsimpl).
  clear E1. clearbody w1.
  assert (E2 : w2 = settle (length (promises w)) (Resolve (VJson JUndefined)) ByConnect
                      (new_promise (mkPromise FromConnect KReconnectCatch)
                         (clearTimer (nextTimer w) w1))).
  { unfold w2, fire_timer. rewrite HT1, lookup_insert_eq. simpl.
    unfold reconnect_tick. fields. rewrite Hthis1. fields.
    unfold connect. fields. rewrite Hthis1. fields. by rewrite Hc, Hp1. }
  assert (Hthis2 : this w2 = this w1) by (rewrite E2; by wsimpl).
  assert (HT2 : timers w2 = timers w).
  { rewrite E2. wsimpl. by rewrite HT1, delete_insert_id. }
  assert (Hs2 : sockets w2 = sockets w) by (rewrite E2; wsimpl; done).
  assert (Hse2 : settlements w2 = settlements w ++
            [mkSettlement (length (promises w)) (Resolve (VJson JUndefined)) ByConnect]).
  { rewrite E2. wsimpl. by rewrite Hse1. }
  clear E2. clearbody w2.
  assert (Hrec2 : isReconnecting (this w2) = true) by (by rewrite Hthis2, Hthis1).
  assert (Hc2 : isConnected (this w2) = true) by (by rewrite Hthis2, Hthis1).
  assert (Htry : ∀ x, isReconnecting (this x) = true → tryReconnect x = x).
  { intros x Hx. unfold tryReconnect. by rewrite Hx. }
  repeat split; try done.
  - by apply Htry.
  - unfold w3, onclose. cbv zeta.
    match goal with |- context [emit ?e ?v (cleanupConnection ?x)] =>
      set (w0 := emit e v (cleanupConnection x)) end.
    assert (H0 : isConnected (this w0) = false).
    { unfold w0. by rewrite emit_this, cleanupConnection_this. }
    destruct (_ && _); [|done].
    rewrite Htry; [done|]. unfold w0.
    rewrite emit_this, cleanupConnection_isReconnecting.
    destruct (connectionPromise (this w2)); [|done].
    destruct (negb _); [|done]. by wsimpl.
  - intros t tm. unfold w3, onclose. cbv zeta.
    match goal with |- context [emit ?e ?v (cleanupConnection ?x)] =>
      set (w0 := emit e v (cleanupConnection x));
      assert (Hx : timers x = timers w2 ∧ isReconnecting (this x) = true) end.
    { destruct (connectionPromise (this w2)); [|done].
      destruct (negb _); [|done]. by wsimpl. }
    assert (Hw0 : tryReconnect w0 = w0).
    { apply Htry. unfold w0. rewrite emit_this, cleanupConnection_isReconnecting. apply Hx. }
    assert (Hin : timers w0 !! t = Some tm → timers w !! t = Some tm).
    { unfold w0. rewrite emit_timers. intros H%cleanupConnection_timers_lookup.
      destruct Hx as [Hx _]. by rewrite Hx, HT2 in H. }
    destruct (_ && _); [by rewrite Hw0|done].
Qed.

End PingTimeout.

Section PingTimeoutSamples.

Lemma ping_timeout_retry_is_void_witness :
  let env := env_with "unused-14" in
  let w := sample_connected in
  let d := (initialReconnectDelay (this w) * 2 ^ Z.of_nat (reconnectAttempts (this w)))%Z in
  let w1 := ping_catch w in
  let w2 := fire_timer (nextTimer w) env w1 in
  let w3 := onclose 1006 "" w2 in
  timers w1 = <[nextTimer w := mkTimer TReconnect d false]> (timers w)
  ∧ emitted w1
    = emitted w ++ [(Event.Error, VError "Ping timeout");
                    (Event.Reconnecting,
                     reconnecting_info (S (reconnectAttempts (this w))) d)]
  ∧ sockets w2 = sockets w
  ∧ timers w2 = timers w
  ∧ settlements w2
    = settlements w ++ [mkSettlement (length (promises w)) (Resolve (VJson JUndefined))
                          ByConnect]
  ∧ isConnected (this w2) = true
  ∧ isReconnecting (this w2) = true
  ∧ tryReconnect w2 = w2
  ∧ isConnected (this w3) = false
  ∧ (∀ t tm, timers w3 !! t = Some tm → timers w !! t = Some tm).
Proof.
  apply (ping_timeout_retry_is_void (env_with "unused-14") 1006 "" sample_connected);
    try (vm_compute; reflexivity).
  vm_compute. lia.
Defined.

End PingTimeoutSamples.

(** ** [send] before the session is ready *)

Section SendGuards.

(** [send] fails at once when the instance is not connected, when the socket
    is not open, or when the payload is not an object: the promise it
    returns is rejected with the corresponding error, nothing is written to
    the socket, no request is registered, and the caller's header object is
    not touched. *)
Theorem send_rejects_when_not_ready channelId channelType payload options env w :
  isConnected (this w) = false ∨ ws_is_open w = false ∨ is_object payload = false →
  let w' := send channelId channelType payload options env w in
  ∃ msg,
    settlements w'
    = settlements w ++ [mkSettlement (length (promises w)) (Reject (VError msg)) BySend]
    ∧ (isConnected (this w) = false ∨ ws_is_open w = false →
       msg = "Not connected. Call connect() first.")
    ∧ (isConnected (this w) = true → ws_is_open w = true →
       msg = "Payload must be a non-null object.")
    ∧ promises w' = promises w ++ [mkPromise FromSend KApp]
    ∧ heap w' = heap w
    ∧ sockets w' = sockets w
    ∧ this w' = this w
    ∧ timers w' = timers w.
Proof.
  intros Hbad w'. unfold w', send.
  destruct (isConnected (this w)) eqn:Hc; simpl.
  - destruct (ws_is_open w) eqn:Ho; simpl.
    + destruct Hbad as [?|[?|Hp]]; [done|done|]. rewrite Hp. simpl.
      exists "Payload must be a non-null object.". unfold Promise_reject. wsimpl.
      repeat split; try done. by intros [?|?].
    + exists "Not connected. Call connect() first.". unfold Promise_reject. wsimpl.
      repeat split; done.
  - exists "Not connected. Call connect() first.". unfold Promise_reject. wsimpl.
    repeat split; done.
Qed.

Lemma send_rejects_when_not_ready_witness :
  let w := sample_new in
  let w' := send "bob" 1 (JObj []) plain_options sample_env w in
  ∃ msg,
    settlements w'
    = settlements w ++ [mkSettlement (length (promises w)) (Reject (VError msg)) BySend]
    ∧ (isConnected (this w) = false ∨ ws_is_open w = false →
       msg = "Not connected. Call connect() first.")
    ∧ (isConnected (this w) = true → ws_is_open w = true →
       msg = "Payload must be a non-null object.")
    ∧ promises w' = promises w ++ [mkPromise FromSend KApp]
    ∧ heap w' = heap w
    ∧ sockets w' = sockets w
    ∧ this w' = this w
    ∧ timers w' = timers w.
Proof.
  apply (send_rejects_when_not_ready "bob" 1 (JObj []) plain_options sample_env sample_new).
  left. vm_compute. reflexivity.
Defined.

End SendGuards.

(** ** Timers along a history *)

Section TimerBookkeeping.

Variable JSON_parse : string -> option JSVal.


End TimerBookkeeping.

Section TimerBookkeepingSamples.


End TimerBookkeepingSamples.

(** ** Opening a connection *)

Section OpenConnection.

Variable JSON_parse : string -> option JSVal.

(** [connect()] on an idle instance, then the socket opening: one socket is
    created (connecting, with its handlers) and becomes [this.ws]; nothing is
    written before it opens; when it opens, exactly one frame is written, the
    [connect] request, with the instance's [uid] and [token], the clock, and
    a [deviceFlag] that is never 0 (the configured one, or 2 when it is
    missing or 0); the request is pending with a timeout of five seconds, and
    the promise of [connect()] is not settled yet. *)
Theorem connect_then_open_sends_handshake k env env' w :
  isConnected (this w) = false →
  ws_readyState w ≠ Some CONNECTING →
  ctor_error env = None → write_error env' = None →
  pendingRequests (this w) !! request_uuid env' = None →
  timers w !! nextTimer w = None →
  let s := length (sockets w) in
  let w1 := connect k env w in
  let w2 := handle JSON_parse (WsOpen s) env' w1 in
  let a := auth (this w) in
  let p := S (length (promises w)) in
  sockets w1 = sockets w ++ [mkWebSocket CONNECTING true [] []]
  ∧ ws (this w1) = Some s
  ∧ settlements w2 = settlements w
  ∧ (∃ params,
       outbox w2 = [Request "connect" params (request_uuid env')]
       ∧ get_prop params "uid" = Some (JStr (uid a))
       ∧ get_prop params "token" = Some (JStr (token a))
       ∧ get_prop params "deviceFlag"
         = Some (JNum (match deviceFlag a with
                       | Some f => if (f =? 0)%Z then 2 else f
                       | None => 2
                       end))
       ∧ get_prop params "clientTimestamp" = Some (JNum (now env')))
  ∧ pendingRequests (this w2)
    = <[request_uuid env' := mkPending p p (nextTimer w)]> (pendingRequests (this w))
  ∧ timers w2
    = <[nextTimer w := mkTimer (TRequestTimeout (request_uuid env') "connect" p) 5000 false]>
        (timers w)
  ∧ connectionPromise (this w2)
    = Some (mkConn (length (promises w)) (length (promises w))).
Proof.
  intros Hc Hnc Hctor Hwr HP HT s w1 w2 a p.
  assert (E1 : w1 = upd_this (set_ws (Some s))
      (set_sockets (sockets w ++ [mkWebSocket CONNECTING true [] []])
         (upd_this (set_connectionPromise
                      (Some (mkConn (length (promises w)) (length (promises w)))))
            (upd_this (set_manualDisconnect false)
               (new_promise (mkPromise FromConnect k) w))))).
  { unfold w1, connect. fields. rewrite Hc, Hctor.
    change (ws_readyState (new_promise _ w)) with (ws_readyState w).
    by rewrite bool_decide_eq_false_2 by done. }
  split; [by rewrite E1|]. split; [by rewrite E1|].
  set (w1' := upd_socket s (socket_set_readyState OPEN) w1).
  assert (Hs1' : sockets w1' = sockets w ++ [mkWebSocket OPEN true [] []]).
  { unfold w1'. rewrite E1. fields. unfold s.
    by rewrite <- (Nat.add_0_r (length (sockets w))), alter_app_r. }
  assert (Hthis1' : this w1' = this w1) by done.
  assert (Hopen : ws_is_open w1' = true).
  { unfold ws_is_open, ws_readyState. rewrite Hthis1', Hs1', E1. fields. simpl.
    unfold s. rewrite lookup_app_r, Nat.sub_diag by lia. simpl.
    done. }
  assert (Hatt : socket_attached s w1' = true).
  { unfold socket_attached. rewrite Hs1'. unfold s.
    by rewrite lookup_app_r, Nat.sub_diag by lia. }
  assert (E2 : w2 = sendConnectRequest env' w1').
  { unfold w2, handle. cbv zeta. fold w1'. by rewrite Hatt. }
  assert (Hp1' : promises w1' = promises w ++ [mkPromise FromConnect k])
    by (unfold w1'; by rewrite E1).
  assert (HT1' : timers w1' = timers w) by (unfold w1'; by rewrite E1).
  assert (Hn1' : nextTimer w1' = nextTimer w) by (unfold w1'; by rewrite E1).
  assert (HP1' : pendingRequests (this w1') = pendingRequests (this w))
    by (unfold w1'; by rewrite E1).
  assert (Hse1' : settlements w1' = settlements w) by (unfold w1'; by rewrite E1).
  assert (Hau1' : auth (this w1') = a) by (unfold w1'; by rewrite E1).
  assert (Hcp1' : connectionPromise (this w1')
                  = Some (mkConn (length (promises w)) (length (promises w))))
    by (unfold w1'; by rewrite E1).
  assert (Hout1' : outbox w1' = []).
  { unfold outbox. rewrite Hthis1', Hs1', E1. fields. simpl. unfold s.
    by rewrite lookup_app_r, Nat.sub_diag by lia. }
  clearbody w1'. clear E1. clearbody w1.
  rewrite E2. unfold sendConnectRequest. cbv zeta.
  rewrite sendRequest_registers by done. cbv zeta. rewrite Hwr.
  rewrite ws_send_settlements, registered_settlements, ws_send_this, registered_this,
    ws_send_timers, registered_timers, Hse1', HP1', HT1', Hn1', Hp1', Hau1'.
  rewrite length_app. simpl. rewrite Nat.add_1_r. fold p.
  split; [done|]. split; [|by fields].
  eexists. split.
  - rewrite ws_send_outbox.
    + unfold outbox. rewrite registered_sockets, registered_this. fields.
      fold (outbox w1'). rewrite Hout1'. simpl. reflexivity.
    + unfold ws_is_open, ws_readyState in *.
      by rewrite registered_sockets, registered_this.
  - simpl. repeat split; try done.
    unfold js_or. destruct (deviceFlag a) as [f|]; simpl; [|done].
    by destruct (f =? 0)%Z.
Qed.

End OpenConnection.

Section OpenConnectionSamples.

Lemma connect_then_open_sends_handshake_witness :
  let k := KApp in
  let env := env_with "unused-1" in
  let env' := env_with "req-1" in
  let w := sample_new in
  let s := length (sockets w) in
  let w1 := connect k env w in
  let w2 := handle sample_parse (WsOpen s) env' w1 in
  let a := auth (this w) in
  let p := S (length (promises w)) in
  sockets w1 = sockets w ++ [mkWebSocket CONNECTING true [] []]
  ∧ ws (this w1) = Some s
  ∧ settlements w2 = settlements w
  ∧ (∃ params,
       outbox w2 = [Request "connect" params (request_uuid env')]
       ∧ get_prop params "uid" = Some (JStr (uid a))
       ∧ get_prop params "token" = Some (JStr (token a))
       ∧ get_prop params "deviceFlag"
         = Some (JNum (match deviceFlag a with
                       | Some f => if (f =? 0)%Z then 2 else f
                       | None => 2
                       end))
       ∧ get_prop params "clientTimestamp" = Some (JNum (now env')))
  ∧ pendingRequests (this w2)
    = <[request_uuid env' := mkPending p p (nextTimer w)]> (pendingRequests (this w))
  ∧ timers w2
    = <[nextTimer w := mkTimer (TRequestTimeout (request_uuid env') "connect" p) 5000 false]>
        (timers w)
  ∧ connectionPromise (this w2)
    = Some (mkConn (length (promises w)) (length (promises w))).
Proof.
  apply (connect_then_open_sends_handshake sample_parse KApp (env_with "unused-1")
           (env_with "req-1") sample_new); try (vm_compute; reflexivity).
  vm_compute. discriminate.
Defined.

End OpenConnectionSamples.

Section ConstructorFailure.

(** [connect()] on an idle instance (not connected, no request pending) when
    the WebSocket constructor throws: the error is emitted as an [error]
    event and the promise of [connect()] is rejected with it, by one call; no
    socket is created, [this.ws] is what it was, no timer is armed, and no
    connection promise is left behind. *)
Theorem connect_constructor_failure k env error w :
  isConnected (this w) = false →
  ws_readyState w ≠ Some CONNECTING →
  pendingRequests (this w) = ∅ →
  ctor_error env = Some error →
  let p := length (promises w) in
  let w' := connect k env w in
  emitted w' = emitted w ++ [(Event.Error, error)]
  ∧ promises w' = promises w ++ [mkPromise FromConnect k]
  ∧ settlements w' = settlements w ++ [mkSettlement p (Reject error) ByConnect]
  ∧ connectionPromise (this w') = None
  ∧ isConnected (this w') = false
  ∧ ws (this w') = ws (this w)
  ∧ length (sockets w') = length (sockets w)
  ∧ (∀ t tm, timers w' !! t = Some tm → timers w !! t = Some tm).
Proof.
  intros Hc Hnc HP Hctor p w'.
  assert (E : w' = cleanupConnection
            (upd_this (set_connectionPromise None)
               (settle p (Reject error) ByConnect
                  (emit Event.Error error
                     (upd_this (set_connectionPromise (Some (mkConn p p)))
                        (upd_this (set_manualDisconnect false)
                           (new_promise (mkPromise FromConnect k) w))))))).
  { unfold w', connect. fields. rewrite Hc, Hctor.
    change (ws_readyState (new_promise _ w)) with (ws_readyState w).
    rewrite bool_decide_eq_false_2 by done. by wsimpl. }
  rewrite E. clear E.
  split; [by wsimpl|]. split; [by wsimpl|]. split.
  { rewrite cleanupConnection_settlements. unfold connection_rejection, sweep_of. wsimpl.
    rewrite HP, map_to_list_empty. simpl. by rewrite app_nil_r. }
  split; [by rewrite cleanupConnection_this|].
  split; [by rewrite cleanupConnection_this|].
  split; [by rewrite cleanupConnection_this; wsimpl|].
  split.
  - rewrite cleanupConnection_sockets. wsimpl.
    destruct (ws (this w)); [by rewrite length_alter|done].
  - intros t tm H%cleanupConnection_timers_lookup. revert H. by wsimpl.
Qed.

End ConstructorFailure.

Section ConstructorFailureSamples.

Lemma connect_constructor_failure_witness :
  let env := mkEnv "unused-15" "msg-3" 1700000000000%Z None
               (Some (VError "The URL is invalid.")) false in
  let error := VError "The URL is invalid." in
  let w := sample_new in
  let p := length (promises w) in
  let w' := connect KApp env w in
  emitted w' = emitted w ++ [(Event.Error, error)]
  ∧ promises w' = promises w ++ [mkPromise FromConnect KApp]
  ∧ settlements w' = settlements w ++ [mkSettlement p (Reject error) ByConnect]
  ∧ connectionPromise (this w') = None
  ∧ isConnected (this w') = false
  ∧ ws (this w') = ws (this w)
  ∧ length (sockets w') = length (sockets w)
  ∧ (∀ t tm, timers w' !! t = Some tm → timers w !! t = Some tm).
Proof.
  apply (connect_constructor_failure KApp
           (mkEnv "unused-15" "msg-3" 1700000000000%Z None
              (Some (VError "The URL is invalid.")) false)
           (VError "The URL is invalid.") sample_new); try (vm_compute; reflexivity).
  vm_compute. discriminate.
Defined.

End ConstructorFailureSamples.

(** ** Inbound frames that are not for anyone *)

Section UnusableFrames.

Variable JSON_parse : string -> option JSVal.

(** Text that is not JSON costs one [error] event and nothing else.  A frame
    that parses but cannot be used (not an object; neither [id] nor
    [method]; or an [id] that no pending request has, with or without a
    [method]) is dropped: nothing changes, no event is emitted and no
    listener is called.  In particular a frame that has an [id] is never
    treated as a notification. *)
Theorem handleMessage_drops_unusable_frames data env w :
  (JSON_parse data = None →
   ∃ error,
     handleMessage JSON_parse data env w = emit Event.Error error w
     ∧ emitted (handleMessage JSON_parse data env w) = emitted w ++ [(Event.Error, error)]
     ∧ this (handleMessage JSON_parse data env w) = this w
     ∧ timers (handleMessage JSON_parse data env w) = timers w
     ∧ settlements (handleMessage JSON_parse data env w) = settlements w
     ∧ sockets (handleMessage JSON_parse data env w) = sockets w)
  ∧ (∀ message, JSON_parse data = Some message → unusable w message →
       handleMessage JSON_parse data env w = w).
Proof.
  split.
  - intros Hp. unfold handleMessage. rewrite Hp. eexists. split; [done|]. by wsimpl.
  - intros message Hp Hu. unfold handleMessage. rewrite Hp.
    destruct Hu as [Hid|[[Hid Hm]|[Hid Hnone]]]; rewrite Hid; [done| |].
    + by rewrite Hm.
    + unfold handleResponse. cbv zeta.
      destruct (get_prop_opt message "id") as [| | | |i| |] eqn:Hi; try done.
      by rewrite (Hnone i eq_refl).
Qed.

End UnusableFrames.

Section UnusableFramesSamples.

(** The second part of the statement above holds for all frames; here is one
    unusable frame: a reply to a request that is not pending any more. *)
Lemma late_connack_is_unusable :
  unusable sample_connected (default JNull (sample_parse "connack req-1")).
Proof.
  right. right. split; [by vm_compute|].
  intros i Hi. vm_compute in Hi. injection Hi as <-. by vm_compute.
Qed.

End UnusableFramesSamples.

(** ** The keep-alive interval *)

Section PingTick.

(** Each time the keep-alive interval fires: if the socket is open, one
    [ping] request is written and registered with a timeout of ten seconds,
    and the interval stays armed; if the socket is not open, the interval
    clears itself and nothing else happens. *)
Theorem ping_interval_tick h d env w :
  timers w !! h = Some (mkTimer TPing d true) →
  pingInterval (this w) = Some h → pingTimeout (this w) = None →
  write_error env = None →
  pendingRequests (this w) !! request_uuid env = None →
  timers w !! nextTimer w = None →
  let p := length (promises w) in
  let w' := fire_timer h env w in
  (ws_is_open w = true →
     outbox w' = outbox w ++ [Request "ping" (JObj []) (request_uuid env)]
     ∧ timers w'
       = <[nextTimer w := mkTimer (TRequestTimeout (request_uuid env) "ping" p) 10000 false]>
           (timers w)
     ∧ pendingRequests (this w')
       = <[request_uuid env := mkPending p p (nextTimer w)]> (pendingRequests (this w))
     ∧ pingInterval (this w') = Some h
     ∧ settlements w' = settlements w)
  ∧ (ws_is_open w = false →
     timers w' = delete h (timers w)
     ∧ pingInterval (this w') = None
     ∧ pendingRequests (this w') = pendingRequests (this w)
     ∧ sockets w' = sockets w
     ∧ promises w' = promises w
     ∧ settlements w' = settlements w
     ∧ emitted w' = emitted w).
Proof.
  intros Ht Hpi Hpt Hwr HP HT p w'.
  assert (E : w' = ping_tick env w).
  { unfold w', fire_timer. by rewrite Ht. }
  rewrite E. unfold ping_tick. split; intros Hopen; rewrite Hopen.
  - rewrite sendRequest_sent by done.
    rewrite ws_send_outbox
      by (unfold ws_is_open, ws_readyState in *;
          by rewrite registered_sockets, registered_this).
    rewrite ws_send_timers, ws_send_this, ws_send_settlements, registered_timers,
      registered_this, registered_settlements. fields.
    repeat split; done.
  - wsimpl. rewrite Hpi, Hpt. simpl. done.
Qed.

End PingTick.

Section PingTickSamples.

Lemma ping_interval_tick_witness :
  let h := 1 in
  let d := PING_INTERVAL_MS in
  let env := env_with "req-5" in
  let w := sample_connected in
  let p := length (promises w) in
  let w' := fire_timer h env w in
  (ws_is_open w = true →
     outbox w' = outbox w ++ [Request "ping" (JObj []) (request_uuid env)]
     ∧ timers w'
       = <[nextTimer w := mkTimer (TRequestTimeout (request_uuid env) "ping" p) 10000 false]>
           (timers w)
     ∧ pendingRequests (this w')
       = <[request_uuid env := mkPending p p (nextTimer w)]> (pendingRequests (this w))
     ∧ pingInterval (this w') = Some h
     ∧ settlements w' = settlements w)
  ∧ (ws_is_open w = false →
     timers w' = delete h (timers w)
     ∧ pingInterval (this w') = None
     ∧ pendingRequests (this w') = pendingRequests (this w)
     ∧ sockets w' = sockets w
     ∧ promises w' = promises w
     ∧ settlements w' = settlements w
     ∧ emitted w' = emitted w).
Proof.
  apply (ping_interval_tick 1 PING_INTERVAL_MS (env_with "req-5") sample_connected);
    vm_compute; reflexivity.
Defined.

End PingTickSamples.

(** ** At most one keep-alive timer *)

Section KeepAlive.

Lemma kp_refl w : keeps_ping w w.
Proof. by intros H. Qed.

Lemma kp_trans w0 w1 w2 : keeps_ping w0 w1 → keeps_ping w1 w2 → keeps_ping w0 w2.
Proof. intros H1 H2 H. by apply H2, H1. Qed.

(** Code that arms no keep-alive timer and leaves [pingInterval] alone. *)
Lemma kp_shrink w0 w w' :
  pingInterval (this w') = pingInterval (this w) →
  (∀ t tm, timers w' !! t = Some tm → callback tm = TPing → timers w !! t = Some tm) →
  keeps_ping w0 w → keeps_ping w0 w'.
Proof.
  intros Hpi Hsub Hg H0 t tm Ht Hcb. rewrite Hpi. apply (Hg H0); [|done]. by apply Hsub.
Qed.

Lemma kp_same w0 w w' :
  pingInterval (this w') = pingInterval (this w) → timers w' = timers w →
  keeps_ping w0 w → keeps_ping w0 w'.
Proof. intros Hpi HT. apply kp_shrink; [done|]. intros t tm. by rewrite HT. Qed.

Lemma kp_emit w0 e v w : keeps_ping w0 w → keeps_ping w0 (emit e v w).
Proof. apply kp_same; by wsimpl. Qed.

Lemma kp_ws_send w0 f w : keeps_ping w0 w → keeps_ping w0 (ws_send f w).
Proof. apply kp_same; by wsimpl. Qed.

Lemma kp_ws_close w0 code reason w : keeps_ping w0 w → keeps_ping w0 (ws_close code reason w).
Proof. apply kp_same; by wsimpl. Qed.

Lemma kp_upd_socket w0 s f w : keeps_ping w0 w → keeps_ping w0 (upd_socket s f w).
Proof. by apply kp_same. Qed.

Lemma kp_set_sockets w0 l w : keeps_ping w0 w → keeps_ping w0 (set_sockets l w).
Proof. by apply kp_same. Qed.

Lemma kp_set_heap w0 l w : keeps_ping w0 w → keeps_ping w0 (set_heap l w).
Proof. by apply kp_same. Qed.

Lemma kp_set_microtasks w0 l w : keeps_ping w0 w → keeps_ping w0 (set_microtasks l w).
Proof. by apply kp_same. Qed.

Lemma kp_new_promise w0 r w : keeps_ping w0 w → keeps_ping w0 (new_promise r w).
Proof. by apply kp_same. Qed.

Lemma kp_settle w0 p o c w : keeps_ping w0 w → keeps_ping w0 (settle p o c w).
Proof. apply kp_same; by wsimpl. Qed.

Lemma kp_detachHandlers w0 w : keeps_ping w0 w → keeps_ping w0 (detachHandlers w).
Proof. apply kp_same; by wsimpl. Qed.

Lemma kp_closeSocket w0 graceful reason w :
  keeps_ping w0 w → keeps_ping w0 (closeSocket graceful reason w).
Proof. apply kp_same; by wsimpl. Qed.

Lemma kp_dropConnectionPromise w0 w :
  keeps_ping w0 w → keeps_ping w0 (dropConnectionPromise w).
Proof. apply kp_same; [by rewrite dropConnectionPromise_this|by wsimpl]. Qed.

Lemma kp_upd_this w0 f w :
  (∀ o, pingInterval (f o) = pingInterval o) →
  keeps_ping w0 w → keeps_ping w0 (upd_this f w).
Proof. intros Hf. apply kp_same; [apply Hf|done]. Qed.

Lemma kp_clearTimer w0 t w : keeps_ping w0 w → keeps_ping w0 (clearTimer t w).
Proof.
  apply kp_shrink; [done|]. intros t' tm. fields. by intros [_ H]%lookup_delete_Some.
Qed.

Lemma kp_setTimeout w0 cb d w :
  cb ≠ TPing → keeps_ping w0 w → keeps_ping w0 (setTimeout cb d w).
Proof.
  intros Hcb. apply kp_shrink; [done|]. intros t tm. fields.
  intros [[_ <-]|[_ H]]%lookup_insert_Some; [|done]. simpl. by intros.
Qed.

Lemma kp_sweep w0 l w : keeps_ping w0 w → keeps_ping w0 (foldl rejectPending w l).
Proof.
  apply kp_shrink; [by wsimpl|]. intros t tm. rewrite sweep_timers.
  by intros H%foldl_delete_lookup_Some.
Qed.

(** [stopPing] clears the one keep-alive timer there can be. *)
Lemma kp_stopPing w0 w : keeps_ping w0 w → keeps_ping w0 (stopPing w).
Proof.
  intros Hg H0 t tm. rewrite stopPing_timers, stopPing_this. fields.
  intros Ht Hcb. exfalso.
  pose proof Ht as Ht'. do 2 apply delete_opt_lookup_Some in Ht'.
  destruct (Hg H0 t tm Ht' Hcb) as [Hpi _]. rewrite Hpi in Ht.
  apply delete_opt_lookup_Some in Ht. simpl in Ht. by rewrite lookup_delete_eq in Ht.
Qed.

(** [startPing] replaces it. *)
Lemma kp_startPing w0 w : keeps_ping w0 w → keeps_ping w0 (startPing w).
Proof.
  intros Hg H0. pose proof (kp_stopPing w0 w Hg H0) as H1. revert H1.
  unfold startPing. cbv zeta.
  assert (Hpi : pingInterval (this (stopPing w)) = None) by (by rewrite stopPing_this).
  revert Hpi. generalize (stopPing w). intros w1 Hpi H1 t tm. fields.
  intros [[<- <-]|[_ Ht]]%lookup_insert_Some Hcb; [done|].
  destruct (H1 t tm Ht Hcb) as [H _]. by rewrite Hpi in H.
Qed.

End KeepAlive.

(** The lemmas above, and the ones that follow for the methods, are applied
    by the shape of the world they are about. *)
Create HintDb kp discriminated.

#[global] Hint Extern 1 (keeps_ping _ (emit _ _ _)) => apply kp_emit : kp.
#[global] Hint Extern 1 (keeps_ping _ (ws_send _ _)) => apply kp_ws_send : kp.
#[global] Hint Extern 1 (keeps_ping _ (ws_close _ _ _)) => apply kp_ws_close : kp.
#[global] Hint Extern 1 (keeps_ping _ (upd_socket _ _ _)) => apply kp_upd_socket : kp.
#[global] Hint Extern 1 (keeps_ping _ (set_sockets _ _)) => apply kp_set_sockets : kp.
#[global] Hint Extern 1 (keeps_ping _ (set_heap _ _)) => apply kp_set_heap : kp.
#[global] Hint Extern 1 (keeps_ping _ (set_microtasks _ _)) => apply kp_set_microtasks : kp.
#[global] Hint Extern 1 (keeps_ping _ (new_promise _ _)) => apply kp_new_promise : kp.
#[global] Hint Extern 1 (keeps_ping _ (settle _ _ _ _)) => apply kp_settle : kp.
#[global] Hint Extern 1 (keeps_ping _ (detachHandlers _)) => apply kp_detachHandlers : kp.
#[global] Hint Extern 1 (keeps_ping _ (closeSocket _ _ _)) => apply kp_closeSocket : kp.
#[global] Hint Extern 1 (keeps_ping _ (dropConnectionPromise _)) =>
  apply kp_dropConnectionPromise : kp.
#[global] Hint Extern 1 (keeps_ping _ (upd_this _ _)) =>
  apply kp_upd_this; [by intros; fields|] : kp.
#[global] Hint Extern 1 (keeps_ping _ (clearTimer _ _)) => apply kp_clearTimer : kp.
#[global] Hint Extern 1 (keeps_ping _ (setTimeout _ _ _)) =>
  apply kp_setTimeout; [done|] : kp.
#[global] Hint Extern 1 (keeps_ping _ (foldl rejectPending _ _)) => apply kp_sweep : kp.
#[global] Hint Extern 1 (keeps_ping _ (stopPing _)) => apply kp_stopPing : kp.
#[global] Hint Extern 1 (keeps_ping _ (startPing _)) => apply kp_startPing : kp.
#[global] Hint Extern 1 (keeps_ping _ (handlePong _)) => unfold handlePong : kp.
#[global] Hint Extern 9 (keeps_ping _ (match ?x with _ => _ end)) => destruct x : kp.

Ltac kp := cbv zeta; auto 60 with kp nocore.

Section KeepAliveMethods.

Lemma kp_cleanupConnection w0 w : keeps_ping w0 w → keeps_ping w0 (cleanupConnection w).
Proof. intros Hg. unfold cleanupConnection. kp. Qed.

End KeepAliveMethods.

#[global] Hint Extern 1 (keeps_ping _ (cleanupConnection _)) =>
  apply kp_cleanupConnection : kp.

Section KeepAliveMethods2.

Lemma kp_handleDisconnect w0 graceful reason w :
  keeps_ping w0 w → keeps_ping w0 (handleDisconnect graceful reason w).
Proof. intros Hg. unfold handleDisconnect. kp. Qed.

Lemma kp_cleanupBeforeUnloadHandler w0 w :
  keeps_ping w0 w → keeps_ping w0 (cleanupBeforeUnloadHandler w).
Proof. intros Hg. unfold cleanupBeforeUnloadHandler. kp. Qed.

Lemma kp_scheduleReconnect w0 w : keeps_ping w0 w → keeps_ping w0 (scheduleReconnect w).
Proof. intros Hg. unfold scheduleReconnect. kp. Qed.

Lemma kp_sendRequest w0 method params timeoutMs k env w :
  keeps_ping w0 w → keeps_ping w0 (sendRequest method params timeoutMs k env w).
Proof. intros Hg. unfold sendRequest. kp. Qed.

Lemma kp_request_timeout w0 requestId method p w :
  keeps_ping w0 w → keeps_ping w0 (request_timeout requestId method p w).
Proof. intros Hg. unfold request_timeout. kp. Qed.

Lemma kp_sendNotification w0 method params env w :
  keeps_ping w0 w → keeps_ping w0 (sendNotification method params env w).
Proof. intros Hg. unfold sendNotification. kp. Qed.

Lemma kp_handleResponse w0 response w :
  keeps_ping w0 w → keeps_ping w0 (handleResponse response w).
Proof. intros Hg. unfold handleResponse. kp. Qed.

Lemma kp_Promise_reject w0 error w :
  keeps_ping w0 w → keeps_ping w0 (Promise_reject error w).
Proof. intros Hg. unfold Promise_reject. kp. Qed.

Lemma kp_on w0 e cb w : keeps_ping w0 w → keeps_ping w0 (on e cb w).
Proof. intros Hg. unfold on. kp. Qed.

Lemma kp_off w0 e cb w : keeps_ping w0 w → keeps_ping w0 (off e cb w).
Proof. intros Hg. unfold off. kp. Qed.

Lemma kp_beforeUnload w0 w : keeps_ping w0 w → keeps_ping w0 (beforeUnload w).
Proof. intros Hg. unfold beforeUnload. kp. Qed.

End KeepAliveMethods2.

#[global] Hint Extern 1 (keeps_ping _ (handleDisconnect _ _ _)) =>
  apply kp_handleDisconnect : kp.
#[global] Hint Extern 1 (keeps_ping _ (cleanupBeforeUnloadHandler _)) =>
  apply kp_cleanupBeforeUnloadHandler : kp.
#[global] Hint Extern 1 (keeps_ping _ (scheduleReconnect _)) =>
  apply kp_scheduleReconnect : kp.
#[global] Hint Extern 1 (keeps_ping _ (sendRequest _ _ _ _ _ _)) =>
  apply kp_sendRequest : kp.
#[global] Hint Extern 1 (keeps_ping _ (request_timeout _ _ _ _)) =>
  apply kp_request_timeout : kp.
#[global] Hint Extern 1 (keeps_ping _ (sendNotification _ _ _ _)) =>
  apply kp_sendNotification : kp.
#[global] Hint Extern 1 (keeps_ping _ (handleResponse _ _)) =>
  apply kp_handleResponse : kp.
#[global] Hint Extern 1 (keeps_ping _ (Promise_reject _ _)) =>
  apply kp_Promise_reject : kp.
#[global] Hint Extern 1 (keeps_ping _ (on _ _ _)) => apply kp_on : kp.
#[global] Hint Extern 1 (keeps_ping _ (off _ _ _)) => apply kp_off : kp.
#[global] Hint Extern 1 (keeps_ping _ (beforeUnload _)) => apply kp_beforeUnload : kp.

Section KeepAliveMethods3.

Lemma kp_disconnect w0 w : keeps_ping w0 w → keeps_ping w0 (disconnect w).
Proof. intros Hg. unfold disconnect. kp. Qed.

Lemma kp_tryReconnect w0 w : keeps_ping w0 w → keeps_ping w0 (tryReconnect w).
Proof. intros Hg. unfold tryReconnect. kp. Qed.

Lemma kp_sendRecvAck w0 hdr messageId messageSeq env w :
  keeps_ping w0 w → keeps_ping w0 (sendRecvAck hdr messageId messageSeq env w).
Proof. intros Hg. unfold sendRecvAck. kp. Qed.

Lemma kp_ping_tick w0 env w : keeps_ping w0 w → keeps_ping w0 (ping_tick env w).
Proof. intros Hg. unfold ping_tick. kp. Qed.

Lemma kp_sendConnectRequest w0 env w :
  keeps_ping w0 w → keeps_ping w0 (sendConnectRequest env w).
Proof. intros Hg. unfold sendConnectRequest. kp. Qed.

Lemma kp_auth_then w0 result w : keeps_ping w0 w → keeps_ping w0 (auth_then result w).
Proof. intros Hg. unfold auth_then. kp. Qed.

Lemma kp_auth_catch w0 error w : keeps_ping w0 w → keeps_ping w0 (auth_catch error w).
Proof. intros Hg. unfold auth_catch. kp. Qed.

Lemma kp_connect w0 k env w : keeps_ping w0 w → keeps_ping w0 (connect k env w).
Proof. intros Hg. unfold connect. kp. Qed.

Lemma kp_send w0 channelId channelType payload options env w :
  keeps_ping w0 w → keeps_ping w0 (send channelId channelType payload options env w).
Proof. intros Hg. unfold send. kp. Qed.

End KeepAliveMethods3.

#[global] Hint Extern 1 (keeps_ping _ (disconnect _)) => apply kp_disconnect : kp.
#[global] Hint Extern 1 (keeps_ping _ (tryReconnect _)) => apply kp_tryReconnect : kp.
#[global] Hint Extern 1 (keeps_ping _ (sendRecvAck _ _ _ _ _)) => apply kp_sendRecvAck : kp.
#[global] Hint Extern 1 (keeps_ping _ (ping_tick _ _)) => apply kp_ping_tick : kp.
#[global] Hint Extern 1 (keeps_ping _ (sendConnectRequest _ _)) =>
  apply kp_sendConnectRequest : kp.
#[global] Hint Extern 1 (keeps_ping _ (auth_then _ _)) => apply kp_auth_then : kp.
#[global] Hint Extern 1 (keeps_ping _ (auth_catch _ _)) => apply kp_auth_catch : kp.
#[global] Hint Extern 1 (keeps_ping _ (connect _ _ _)) => apply kp_connect : kp.
#[global] Hint Extern 1 (keeps_ping _ (send _ _ _ _ _ _)) => apply kp_send : kp.

Section KeepAliveMethods4.

Variable JSON_parse : string -> option JSVal.

Lemma kp_destroy w0 w : keeps_ping w0 w → keeps_ping w0 (destroy w).
Proof. intros Hg. unfold destroy. kp. Qed.

Lemma kp_ping_catch w0 w : keeps_ping w0 w → keeps_ping w0 (ping_catch w).
Proof. intros Hg. unfold ping_catch. kp. Qed.

Lemma kp_reconnect_catch w0 w : keeps_ping w0 w → keeps_ping w0 (reconnect_catch w).
Proof. intros Hg. unfold reconnect_catch. kp. Qed.

Lemma kp_onclose w0 code reason w : keeps_ping w0 w → keeps_ping w0 (onclose code reason w).
Proof. intros Hg. unfold onclose. kp. Qed.

Lemma kp_reconnect_tick w0 env w : keeps_ping w0 w → keeps_ping w0 (reconnect_tick env w).
Proof. intros Hg. unfold reconnect_tick. kp. Qed.

Lemma kp_handleEventNotification w0 params w :
  keeps_ping w0 w → keeps_ping w0 (handleEventNotification JSON_parse params w).
Proof. intros Hg. unfold handleEventNotification. kp. Qed.

Lemma kp_handleNotification w0 notification env w :
  keeps_ping w0 w → keeps_ping w0 (handleNotification JSON_parse notification env w).
Proof.
  intros Hg. unfold handleNotification. cbv zeta.
  destruct (get_prop_opt notification "method") as [| | | |m| |]; try done.
  repeat match goal with |- keeps_ping _ (match ?x with _ => _ end) => destruct x end;
    first [ done | unfold handlePong; done
          | by apply kp_emit
          | by apply kp_handleDisconnect, kp_emit
          | by apply kp_handleEventNotification
          | by apply kp_sendRecvAck, kp_emit ].
Qed.

Lemma kp_handleMessage w0 data env w :
  keeps_ping w0 w → keeps_ping w0 (handleMessage JSON_parse data env w).
Proof.
  intros Hg. unfold handleMessage.
  destruct (JSON_parse data) as [message|]; [|by apply kp_emit].
  destruct (has_prop "id" message) as [[]|]; [by apply kp_handleResponse| |done].
  destruct (has_prop "method" message) as [[]|]; [|done|done].
  by apply kp_handleNotification.
Qed.

Lemma kp_fire_timer w0 t env w : keeps_ping w0 w → keeps_ping w0 (fire_timer t env w).
Proof.
  intros Hg. unfold fire_timer.
  destruct (timers w !! t) as [[cb d r]|]; [|done]. cbv zeta. simpl.
  assert (H1 : keeps_ping w0 (if r then w else clearTimer t w)).
  { destruct r; [done|by apply kp_clearTimer]. }
  revert H1. generalize (if r then w else clearTimer t w). intros w1 H1.
  destruct cb; [by apply kp_request_timeout|by apply kp_ping_tick|by apply kp_reconnect_tick].
Qed.

Lemma kp_handle w0 t env w : keeps_ping w0 w → keeps_ping w0 (handle JSON_parse t env w).
Proof.
  intros Hg. destruct t; simpl.
  - by apply kp_connect.
  - by apply kp_disconnect.
  - by apply kp_destroy.
  - by apply kp_send.
  - by apply kp_on.
  - by apply kp_off.
  - by apply kp_set_heap.
  - destruct (socket_attached _ _); [|by apply kp_upd_socket].
    unfold onopen. by apply kp_sendConnectRequest, kp_upd_socket.
  - destruct (socket_attached _ _); [|done]. by apply kp_handleMessage.
  - destruct (socket_attached _ _); [|done]. unfold onerror. by apply kp_emit.
  - destruct (socket_attached _ _); [|by apply kp_upd_socket].
    by apply kp_onclose, kp_upd_socket.
  - by apply kp_fire_timer.
  - destruct (beforeUnloadHandler _); [|done]. by apply kp_beforeUnload.
Qed.

Lemma kp_run_reaction w0 k o w : keeps_ping w0 w → keeps_ping w0 (run_reaction k o w).
Proof.
  intros Hg. destruct k, o; unfold run_reaction, handlePong.
  - exact Hg.
  - exact Hg.
  - by apply kp_auth_then.
  - by apply kp_set_microtasks.
  - exact Hg.
  - by apply kp_auth_catch.
  - exact Hg.
  - by apply kp_set_microtasks.
  - exact Hg.
  - by apply kp_ping_catch.
  - exact Hg.
  - by apply kp_reconnect_catch.
Qed.

Lemma kp_step l w : keeps_ping w (step JSON_parse l w).
Proof.
  destruct l as [t env|]; simpl.
  - apply kp_handle, kp_refl.
  - unfold run_microtask. destruct (microtasks w) as [|[k o] rest]; [apply kp_refl|].
    apply kp_run_reaction, kp_set_microtasks, kp_refl.
Qed.

Lemma kp_run h : ∀ w w', run JSON_parse h w = Some w' → keeps_ping w w'.
Proof.
  induction h as [|l h IH]; intros w w'; simpl.
  - intros [= <-]. apply kp_refl.
  - destruct (enabled l w); [|done]. intros Hrun.
    eapply kp_trans; [apply kp_step|by apply IH].
Qed.

Lemma ping_timers_ok_new url a env : ping_timers_ok (new_WKIM url a env).
Proof.
  unfold new_WKIM, setupBeforeUnloadHandler. cbv zeta.
  destruct (has_window env); intros t tm; fields; by rewrite lookup_empty.
Qed.


End KeepAliveMethods4.

Section KeepAliveSamples.


End KeepAliveSamples.

(** ** A successful connection, from [connect()] to the [connect] event *)

Section Handshake.

Variable JSON_parse : string -> option JSVal.

Lemma settle_fresh p o c w r :
  (∀ s, s ∈ settlements w → target s ≠ p) → promises w !! p = Some r →
  microtasks (settle p o c w) = microtasks w ++ [(reaction r, o)].
Proof.
  intros Hs Hp. unfold settle.
  assert (His : is_settled p w = false).
  { unfold is_settled. apply not_true_is_false. intros He.
    apply existsb_exists in He as (s & Hin & Heq).
    apply Nat.eqb_eq in Heq. apply (Hs s); [|done]. by apply list_elem_of_In. }
  rewrite His. fields. by rewrite Hp.
Qed.

(** [connect()] on an instance that is neither connected nor connecting, when
    the socket can be constructed. *)
Lemma connect_creates_socket k env w :
  isConnected (this w) = false →
  ws_readyState w ≠ Some CONNECTING →
  ctor_error env = None →
  connect k env w
  = upd_this (set_ws (Some (length (sockets w))))
      (set_sockets (sockets w ++ [mkWebSocket CONNECTING true [] []])
         (upd_this (set_connectionPromise
                      (Some (mkConn (length (promises w)) (length (promises w)))))
            (upd_this (set_manualDisconnect false)
               (new_promise (mkPromise FromConnect k) w)))).
Proof.
  intros Hc Hnc Hctor. unfold connect. fields. rewrite Hc, Hctor.
  change (ws_readyState (new_promise _ w)) with (ws_readyState w).
  by rewrite bool_decide_eq_false_2 by done.
Qed.

(** The session right after the socket of a new [connect()] has opened. *)
Lemma connect_then_open_world env env' w :
  isConnected (this w) = false →
  ws_readyState w ≠ Some CONNECTING →
  ctor_error env = None → write_error env' = None →
  ∃ params,
    handle JSON_parse (WsOpen (length (sockets w))) env'
      (handle JSON_parse AppConnect env w)
    = mkWorld
        (set_pendingRequests
           (<[request_uuid env' := mkPending (S (length (promises w)))
                                     (S (length (promises w))) (nextTimer w)]>
              (pendingRequests (this w)))
           (set_ws (Some (length (sockets w)))
              (set_connectionPromise
                 (Some (mkConn (length (promises w)) (length (promises w))))
                 (set_manualDisconnect false (this w)))))
        (sockets w
         ++ [mkWebSocket OPEN true [Request "connect" params (request_uuid env')] []])
        (<[nextTimer w := mkTimer (TRequestTimeout (request_uuid env') "connect"
                                     (S (length (promises w)))) 5000 false]> (timers w))
        (S (nextTimer w))
        (promises w ++ [mkPromise FromConnect KApp;
                        mkPromise (FromSendRequest "connect") KAuthThen])
        (settlements w) (microtasks w) (emitted w) (delivered w) (heap w).
Proof.
  intros Hc Hnc Hctor Hwr.
  change (handle JSON_parse AppConnect env w) with (connect KApp env w).
  rewrite (connect_creates_socket KApp env w Hc Hnc Hctor).
  unfold handle. cbv zeta.
  set (w1 := upd_socket _ _ _).
  assert (Hs1 : sockets w1 = sockets w ++ [mkWebSocket OPEN true [] []]).
  { unfold w1. fields.
    by rewrite <- (Nat.add_0_r (length (sockets w))), alter_app_r. }
  assert (Hws1 : ws (this w1) = Some (length (sockets w))) by done.
  assert (Hatt : socket_attached (length (sockets w)) w1 = true).
  { unfold socket_attached. by rewrite Hs1, lookup_app_r, Nat.sub_diag by lia. }
  assert (Hopen : ws_is_open w1 = true).
  { unfold ws_is_open, ws_readyState. rewrite Hws1, Hs1. simpl.
    by rewrite lookup_app_r, Nat.sub_diag by lia. }
  rewrite Hatt. unfold onopen, sendConnectRequest. cbv zeta.
  rewrite sendRequest_registers by done. cbv zeta. rewrite Hwr.
  eexists. apply World_ext.
  - rewrite ws_send_this, registered_this. unfold w1. fields.
    rewrite length_app. simpl. by rewrite Nat.add_1_r.
  - rewrite ws_send_sockets, registered_this, registered_sockets. fields.
    rewrite Hws1, Hs1.
    rewrite <- (Nat.add_0_r (length (sockets w))), alter_app_r. simpl.
    unfold socket_send. simpl. reflexivity.
  - rewrite ws_send_timers, registered_timers. unfold w1. fields.
    rewrite length_app. simpl. by rewrite Nat.add_1_r.
  - by rewrite ws_send_nextTimer.
  - rewrite ws_send_promises, registered_promises. unfold w1. fields.
    by rewrite <- app_assoc.
  - by rewrite ws_send_settlements.
  - by rewrite ws_send_microtasks.
  - by rewrite ws_send_emitted.
  - by rewrite ws_send_delivered.
  - by rewrite ws_send_heap.
Qed.

(** An answer without an error to a request in flight. *)
Lemma handleResponse_effect response i pr r w :
  get_prop_opt response "id" = JStr i →
  pendingRequests (this w) !! i = Some pr →
  truthy (get_prop_opt response "error") = false →
  promises w !! resolve pr = Some r →
  (∀ s, s ∈ settlements w → target s ≠ resolve pr) →
  handleResponse response w
  = mkWorld (set_pendingRequests (delete i (pendingRequests (this w))) (this w))
      (sockets w) (delete (timeoutTimer pr) (timers w)) (nextTimer w) (promises w)
      (settlements w ++ [mkSettlement (resolve pr)
                           (Resolve (VJson (get_prop_opt response "result"))) ByResponse])
      (microtasks w ++ [(reaction r, Resolve (VJson (get_prop_opt response "result")))])
      (emitted w) (delivered w) (heap w).
Proof.
  intros Hid Hent Herr Hp Hs. unfold handleResponse. cbv zeta.
  rewrite Hid, Hent, Herr.
  apply World_ext; wsimpl; try reflexivity.
  rewrite (settle_fresh _ _ _ _ r); [done| |done].
  intros s Hin. apply Hs. by wsimpl_in Hin.
Qed.

(** The reaction to the answer of the [connect] request. *)
Lemma auth_then_effect result c r w :
  pingInterval (this w) = None → pingTimeout (this w) = None →
  connectionPromise (this w) = Some c →
  promises w !! cp_resolve c = Some r →
  (∀ s, s ∈ settlements w → target s ≠ cp_resolve c) →
  auth_then result w
  = mkWorld
      (set_connectionPromise None
         (set_pingInterval (Some (nextTimer w))
            (set_manualDisconnect false (set_isReconnecting false
               (set_reconnectAttempts 0 (set_isConnected true (this w)))))))
      (sockets w) (<[nextTimer w := mkTimer TPing PING_INTERVAL_MS true]> (timers w))
      (S (nextTimer w)) (promises w)
      (settlements w ++ [mkSettlement (cp_resolve c) (Resolve (VJson JUndefined))
                           ByHandshake])
      (microtasks w ++ [(reaction r, Resolve (VJson JUndefined))])
      (emitted w ++ [(Event.Connect, result)])
      (delivered w ++ ((fun l => (l, Event.Connect, result)) <$> listeners Event.Connect w))
      (heap w).
Proof.
  intros Hpi Hpt Hcp Hp Hs. unfold auth_then. cbv zeta.
  match goal with |- context [connectionPromise (this ?x)] => set (wA := x) end.
  assert (HA : wA = mkWorld
      (set_pingInterval (Some (nextTimer w))
         (set_manualDisconnect false (set_isReconnecting false
            (set_reconnectAttempts 0 (set_isConnected true (this w))))))
      (sockets w) (<[nextTimer w := mkTimer TPing PING_INTERVAL_MS true]> (timers w))
      (S (nextTimer w)) (promises w) (settlements w) (microtasks w)
      (emitted w ++ [(Event.Connect, result)])
      (delivered w ++ ((fun l => (l, Event.Connect, result)) <$> listeners Event.Connect w))
      (heap w)).
  { unfold wA, startPing. rewrite stopPing_quiet by done.
    apply World_ext; rewrite ?delivered_emit; wsimpl; reflexivity. }
  clearbody wA. subst wA. fields. rewrite Hcp.
  apply World_ext; wsimpl; try reflexivity.
  rewrite (settle_fresh _ _ _ _ r); done.
Qed.

(** The handshake with listeners that are observers. *)
Lemma handshake_world env1 env2 env3 data response w :
  isConnected (this w) = false →
  ws_readyState w ≠ Some CONNECTING →
  ctor_error env1 = None → write_error env2 = None →
  pingInterval (this w) = None → pingTimeout (this w) = None →
  microtasks w = [] →
  (∀ s, s ∈ settlements w → target s < length (promises w)) →
  JSON_parse data = Some response →
  has_prop "id" response = Some true →
  get_prop_opt response "id" = JStr (request_uuid env2) →
  truthy (get_prop_opt response "error") = false →
  let s := length (sockets w) in
  let p := length (promises w) in
  let result := VJson (get_prop_opt response "result") in
  let w2 := handle JSON_parse (WsOpen s) env2 (handle JSON_parse AppConnect env1 w) in
  let w4 := run_microtask (handle JSON_parse (WsMessage s data) env3 w2) in
  isConnected (this w4) = true
  ∧ reconnectAttempts (this w4) = 0
  ∧ isReconnecting (this w4) = false
  ∧ connectionPromise (this w4) = None
  ∧ pendingRequests (this w4) = delete (request_uuid env2) (pendingRequests (this w))
  ∧ pingInterval (this w4) = Some (S (nextTimer w))
  ∧ timers w4 = <[S (nextTimer w) := mkTimer TPing PING_INTERVAL_MS true]>
                  (delete (nextTimer w) (timers w))
  ∧ emitted w4 = emitted w ++ [(Event.Connect, result)]
  ∧ delivered w4
    = delivered w ++ ((fun l => (l, Event.Connect, result)) <$> listeners Event.Connect w)
  ∧ settlements w4
    = settlements w ++ [mkSettlement (S p) (Resolve result) ByResponse;
                        mkSettlement p (Resolve (VJson JUndefined)) ByHandshake].
Proof.
  intros Hc Hnc Hctor Hwr Hpi Hpt Hmt Hknown Hparse Hid Hidv Herr. cbv zeta.
  destruct (connect_then_open_world env1 env2 w Hc Hnc Hctor Hwr) as [params E].
  rewrite E. clear E. unfold handle, socket_attached. fields.
  rewrite lookup_app_r, Nat.sub_diag by lia. simpl.
  unfold handleMessage. rewrite Hparse, Hid.
  rewrite (handleResponse_effect response (request_uuid env2)
             (mkPending (S (length (promises w))) (S (length (promises w))) (nextTimer w))
             (mkPromise (FromSendRequest "connect") KAuthThen)); fields.
  - rewrite Hmt. unfold run_microtask. fields. simpl app. unfold run_reaction.
    rewrite (auth_then_effect _ (mkConn (length (promises w)) (length (promises w)))
               (mkPromise FromConnect KApp)); fields.
    + unfold listeners. fields. rewrite !delete_insert_eq, <- app_assoc.
      repeat split; reflexivity.
    + done.
    + done.
    + reflexivity.
    + simpl. rewrite lookup_app_r by lia. by rewrite Nat.sub_diag.
    + simpl. intros s [Hs| ->%list_elem_of_singleton]%elem_of_app.
      * apply Hknown in Hs. lia.
      * simpl. lia.
  - done.
  - by rewrite lookup_insert_eq.
  - done.
  - simpl. rewrite lookup_app_r by lia.
    by replace (S (length (promises w)) - length (promises w)) with 1 by lia.
  - simpl. intros s Hs. apply Hknown in Hs. lia.
Qed.

(** From an instance that is not connected: [connect()], then the socket
    opens, then the server answers the [connect] request without an error.
    When the reaction to the answer has run, the instance is connected, the
    retry state is reset, the time-out of the request is cancelled and its
    entry removed, the keep-alive interval is the one timer added, [connect]
    has been emitted once with the result, and the request's promise and
    then the promise of [connect()] have been resolved, each by one call.
    The listeners of [connect] are called once each, in order: this when
    every listener returns without calling back into the instance and
    without writing to its argument. *)
Theorem handshake_completes fuel B env1 env2 env3 data response w :
  passive B →
  isConnected (this w) = false →
  ws_readyState w ≠ Some CONNECTING →
  ctor_error env1 = None → write_error env2 = None →
  pingInterval (this w) = None → pingTimeout (this w) = None →
  microtasks w = [] →
  (∀ s, s ∈ settlements w → target s < length (promises w)) →
  JSON_parse data = Some response →
  has_prop "id" response = Some true →
  get_prop_opt response "id" = JStr (request_uuid env2) →
  truthy (get_prop_opt response "error") = false →
  let s := length (sockets w) in
  let p := length (promises w) in
  let result := VJson (get_prop_opt response "result") in
  ∃ w4,
    turns_live (S fuel) B JSON_parse
      [LTask AppConnect env1; LTask (WsOpen s) env2; LTask (WsMessage s data) env3; LMicro] w
    = Some w4
    ∧ isConnected (this w4) = true
    ∧ reconnectAttempts (this w4) = 0
    ∧ isReconnecting (this w4) = false
    ∧ connectionPromise (this w4) = None
    ∧ pendingRequests (this w4) = delete (request_uuid env2) (pendingRequests (this w))
    ∧ pingInterval (this w4) = Some (S (nextTimer w))
    ∧ timers w4 = <[S (nextTimer w) := mkTimer TPing PING_INTERVAL_MS true]>
                    (delete (nextTimer w) (timers w))
    ∧ emitted w4 = emitted w ++ [(Event.Connect, result)]
    ∧ delivered w4
      = delivered w ++ ((fun l => (l, Event.Connect, result)) <$> listeners Event.Connect w)
    ∧ settlements w4
      = settlements w ++ [mkSettlement (S p) (Resolve result) ByResponse;
                          mkSettlement p (Resolve (VJson JUndefined)) ByHandshake].
Proof.
  intros HB Hc Hnc Hctor Hwr Hpi Hpt Hmt Hknown Hparse Hid Hidv Herr s p result.
  eexists. split.
  - by apply turns_passive.
  - by apply (handshake_world env1 env2 env3 data response w).
Qed.


End Handshake.
Section HandshakeSamples.

Lemma handshake_completes_witness :
  let w := on Event.Connect 7 sample_new in
  let env2 := env_with "req-1" in
  let data := "connack req-1" in
  let response := default JNull (sample_parse data) in
  let s := length (sockets w) in
  let p := length (promises w) in
  let result := VJson (get_prop_opt response "result") in
  ∃ w4,
    turns_live 1 silent sample_parse
      [LTask AppConnect (env_with "unused-1"); LTask (WsOpen s) env2;
       LTask (WsMessage s data) (env_with "unused-2"); LMicro] w
    = Some w4
    ∧ isConnected (this w4) = true
    ∧ reconnectAttempts (this w4) = 0
    ∧ isReconnecting (this w4) = false
    ∧ connectionPromise (this w4) = None
    ∧ pendingRequests (this w4) = delete (request_uuid env2) (pendingRequests (this w))
    ∧ pingInterval (this w4) = Some (S (nextTimer w))
    ∧ timers w4 = <[S (nextTimer w) := mkTimer TPing PING_INTERVAL_MS true]>
                    (delete (nextTimer w) (timers w))
    ∧ emitted w4 = emitted w ++ [(Event.Connect, result)]
    ∧ delivered w4
      = delivered w ++ ((fun l => (l, Event.Connect, result)) <$> listeners Event.Connect w)
    ∧ settlements w4
      = settlements w ++ [mkSettlement (S p) (Resolve result) ByResponse;
                          mkSettlement p (Resolve (VJson JUndefined)) ByHandshake].
Proof.
  apply (handshake_completes sample_parse 0 silent (env_with "unused-1") (env_with "req-1")
           (env_with "unused-2") "connack req-1"
           (default JNull (sample_parse "connack req-1"))
           (on Event.Connect 7 sample_new));
    try apply silent_passive; try (vm_compute; reflexivity).
  - vm_compute. discriminate.
  - intros s Hs. vm_compute in Hs. by apply elem_of_nil in Hs.
Defined.

End HandshakeSamples.

(** ** A connection that is lost *)

Section ConnectionLost.

Variable JSON_parse : string -> option JSVal.

Lemma tryReconnect_first w :
  isReconnecting (this w) = false → manualDisconnect (this w) = false →
  reconnectAttempts (this w) < maxReconnectAttempts (this w) →
  tryReconnect w
  = setTimeout TReconnect
      (initialReconnectDelay (this w) * 2 ^ Z.of_nat (reconnectAttempts (this w)))%Z
      (emit Event.Reconnecting
         (reconnecting_info (S (reconnectAttempts (this w)))
            (initialReconnectDelay (this w) * 2 ^ Z.of_nat (reconnectAttempts (this w)))%Z)
         (upd_this (fun o => set_reconnectAttempts (S (reconnectAttempts o)) o)
            (upd_this (set_isReconnecting true) w))).
Proof.
  intros Hr Hm Hlt. unfold tryReconnect. rewrite Hr, Hm. simpl orb. cbv iota.
  unfold scheduleReconnect. fields.
  destruct (Nat.leb_spec (maxReconnectAttempts (this w)) (reconnectAttempts (this w)));
    [lia|reflexivity].
Qed.

Lemma onclose_connected code reason w :
  isConnected (this w) = true → manualDisconnect (this w) = false →
  onclose code reason w
  = tryReconnect
      (emit Event.Disconnect (VJson (JObj [("code", JNum code); ("reason", JStr reason)]))
         (cleanupConnection w)).
Proof.
  intros Hc Hm. unfold onclose. rewrite Hc. cbv zeta.
  change (negb true) with false. cbv iota.
  replace (match connectionPromise (this w) with Some _ => w | None => w end)
    with w by (by destruct (connectionPromise (this w))).
  rewrite emit_this, cleanupConnection_this.
  generalize (cleanupConnection w). intros wc. fields. by rewrite Hm.
Qed.

Lemma handle_close_attached s code reason env w :
  socket_attached s w = true →
  handle JSON_parse (WsClose s code reason) env w
  = onclose code reason (upd_socket s (socket_set_readyState CLOSED) w).
Proof.
  intros Hatt. unfold handle. cbv zeta.
  replace (socket_attached s (upd_socket s (socket_set_readyState CLOSED) w)) with true;
    [done|].
  revert Hatt. unfold socket_attached, upd_socket. fields.
  rewrite list_lookup_alter_eq. by destruct (sockets w !! s).
Qed.

(** The session after the close of the socket of a connected session. *)
Lemma connection_lost_world code reason w :
  isConnected (this w) = true →
  manualDisconnect (this w) = false → isReconnecting (this w) = false →
  reconnectAttempts (this w) < maxReconnectAttempts (this w) →
  let n := reconnectAttempts (this w) in
  let d := (initialReconnectDelay (this w) * 2 ^ Z.of_nat n)%Z in
  onclose code reason w
  = mkWorld
      (set_reconnectAttempts (S n) (set_isReconnecting true (this (cleanupConnection w))))
      (sockets (cleanupConnection w))
      (<[nextTimer w := mkTimer TReconnect d false]> (timers (cleanupConnection w)))
      (S (nextTimer w)) (promises w)
      (settlements w ++ sweep_of w ++ connection_rejection w)
      (microtasks (cleanupConnection w))
      (emitted w ++ [(Event.Disconnect,
                      VJson (JObj [("code", JNum code); ("reason", JStr reason)]));
                     (Event.Reconnecting, reconnecting_info (S n) d)])
      (delivered w
       ++ ((fun l => (l, Event.Disconnect,
                      VJson (JObj [("code", JNum code); ("reason", JStr reason)])))
             <$> listeners Event.Disconnect w)
       ++ ((fun l => (l, Event.Reconnecting, reconnecting_info (S n) d))
             <$> listeners Event.Reconnecting w))
      (heap w).
Proof.
  intros Hc Hm Hr Hlt. cbv zeta.
  rewrite onclose_connected by done.
  rewrite tryReconnect_first
    by (rewrite ?emit_this, ?cleanupConnection_this; fields; done).
  rewrite !emit_this.
  assert (E1 : reconnectAttempts (this (cleanupConnection w)) = reconnectAttempts (this w))
    by (by rewrite cleanupConnection_this).
  assert (E2 : initialReconnectDelay (this (cleanupConnection w))
               = initialReconnectDelay (this w))
    by (by rewrite cleanupConnection_this).
  assert (E9 : eventListeners (this (cleanupConnection w)) = eventListeners (this w))
    by (by rewrite cleanupConnection_this).
  rewrite E1, E2.
  pose proof (cleanupConnection_settlements w) as E3.
  pose proof (cleanupConnection_nextTimer w) as E4.
  pose proof (cleanupConnection_promises w) as E5.
  pose proof (cleanupConnection_emitted w) as E6.
  pose proof (cleanupConnection_heap w) as E7.
  pose proof (cleanupConnection_delivered w) as E8.
  revert E1 E3 E4 E5 E6 E7 E8 E9. generalize (cleanupConnection w).
  intros wc E1 E3 E4 E5 E6 E7 E8 E9.
  apply World_ext; rewrite ?delivered_emit; unfold setTimeout, listeners; fields;
    rewrite ?emit_timers, ?emit_nextTimer, ?emit_this, ?emit_sockets, ?emit_promises,
      ?emit_settlements, ?emit_microtasks, ?emit_emitted, ?emit_heap, ?delivered_emit;
    unfold listeners; fields;
    rewrite ?emit_timers, ?emit_nextTimer, ?emit_this, ?emit_sockets, ?emit_promises,
      ?emit_settlements, ?emit_microtasks, ?emit_emitted, ?emit_heap; fields;
    rewrite ?E1, ?E3, ?E4, ?E5, ?E6, ?E7, ?E8, ?E9, <- ?app_assoc; try reflexivity.
  rewrite delivered_emit. unfold listeners. by rewrite E8, E9, <- app_assoc.
Qed.

(** A retry timer fires while the instance is reconnecting. *)
Lemma retry_fires t d env w :
  timers w !! t = Some (mkTimer TReconnect d false) →
  isReconnecting (this w) = true → isConnected (this w) = false →
  ws_readyState w ≠ Some CONNECTING → ctor_error env = None →
  handle JSON_parse (TimerFire t) env w
  = mkWorld
      (set_ws (Some (length (sockets w)))
         (set_connectionPromise (Some (mkConn (length (promises w)) (length (promises w))))
            (set_manualDisconnect false (this w))))
      (sockets w ++ [mkWebSocket CONNECTING true [] []])
      (delete t (timers w)) (nextTimer w)
      (promises w ++ [mkPromise FromConnect KReconnectCatch])
      (settlements w) (microtasks w) (emitted w) (delivered w) (heap w).
Proof.
  intros Ht Hr Hc Hnc Hctor. unfold handle, fire_timer. rewrite Ht. cbv zeta.
  cbn [callback repeating]. unfold reconnect_tick.
  change (this (clearTimer t w)) with (this w). rewrite Hr. simpl negb. cbv iota.
  rewrite connect_creates_socket by done. reflexivity.
Qed.

(** The loss of the connection and the retry, with listeners that are
    observers. *)
Lemma connection_lost_steps s code reason env env' w :
  socket_attached s w = true → ws (this w) = Some s →
  isConnected (this w) = true →
  manualDisconnect (this w) = false → isReconnecting (this w) = false →
  reconnectAttempts (this w) < maxReconnectAttempts (this w) →
  ctor_error env' = None →
  let n := reconnectAttempts (this w) in
  let d := (initialReconnectDelay (this w) * 2 ^ Z.of_nat n)%Z in
  let w' := handle JSON_parse (WsClose s code reason) env w in
  let w'' := handle JSON_parse (TimerFire (nextTimer w)) env' w' in
  (isConnected (this w') = false
   ∧ isReconnecting (this w') = true
   ∧ reconnectAttempts (this w') = S n
   ∧ pendingRequests (this w') = ∅
   ∧ pingInterval (this w') = None ∧ pingTimeout (this w') = None
   ∧ settlements w' = settlements w ++ sweep_of w ++ connection_rejection w
   ∧ emitted w'
     = emitted w ++ [(Event.Disconnect,
                      VJson (JObj [("code", JNum code); ("reason", JStr reason)]));
                     (Event.Reconnecting, reconnecting_info (S n) d)]
   ∧ timers w' !! nextTimer w = Some (mkTimer TReconnect d false)
   ∧ (∀ t tm, timers w' !! t = Some tm → t ≠ nextTimer w → timers w !! t = Some tm))
  ∧ (timers w'' = delete (nextTimer w) (timers w')
     ∧ sockets w'' = sockets w' ++ [mkWebSocket CONNECTING true [] []]
     ∧ ws (this w'') = Some (length (sockets w))
     ∧ isReconnecting (this w'') = true
     ∧ settlements w'' = settlements w').
Proof.
  intros Hatt Hws Hc Hm Hr Hlt Hctor. cbv zeta.
  rewrite handle_close_attached by done.
  rewrite (connection_lost_world code reason
             (upd_socket s (socket_set_readyState CLOSED) w)) by done.
  change (this (upd_socket s (socket_set_readyState CLOSED) w)) with (this w).
  change (nextTimer (upd_socket s (socket_set_readyState CLOSED) w)) with (nextTimer w).
  split.
  - fields. rewrite cleanupConnection_this. fields. repeat split; try done.
    + by rewrite lookup_insert_eq.
    + intros t tm Hlk Hne. rewrite lookup_insert_ne in Hlk by done.
      by apply cleanupConnection_timers_lookup in Hlk.
  - erewrite retry_fires; fields.
    + rewrite cleanupConnection_sockets. fields. rewrite Hws.
      by rewrite !length_alter.
    + by rewrite lookup_insert_eq.
    + done.
    + by rewrite cleanupConnection_this.
    + unfold ws_readyState. fields. rewrite cleanupConnection_this. fields.
      rewrite Hws. simpl. rewrite cleanupConnection_sockets. fields. rewrite Hws.
      rewrite !list_lookup_alter_eq.
      destruct (sockets w !! s) as [sock|]; simpl; [|done]. by intros [=].
    + done.
Qed.

(** The socket of a connected session closes; [disconnect()] has not been
    called, the session is not already reconnecting, and retries are left.
    The session is marked disconnected and reconnecting; every request in
    flight is rejected and the table emptied; [disconnect] and then
    [reconnecting] are emitted, with the close code and reason and with the
    attempt number and delay; one timer is added, the retry, after
    [initialReconnectDelay * 2 ^ attempts] milliseconds, and no other timer
    appears.  When that timer fires next and a socket can be constructed, it
    is consumed and a new socket is connecting as the current one.  This
    when every listener returns without calling back into the instance. *)
Theorem connection_lost_schedules_retry fuel B s code reason env env' w :
  passive B →
  socket_attached s w = true → ws (this w) = Some s →
  isConnected (this w) = true →
  manualDisconnect (this w) = false → isReconnecting (this w) = false →
  reconnectAttempts (this w) < maxReconnectAttempts (this w) →
  ctor_error env' = None →
  let n := reconnectAttempts (this w) in
  let d := (initialReconnectDelay (this w) * 2 ^ Z.of_nat n)%Z in
  ∃ w' w'',
    handle_live (S fuel) B JSON_parse (WsClose s code reason) env w = Some w'
    ∧ handle_live (S fuel) B JSON_parse (TimerFire (nextTimer w)) env' w' = Some w''
    ∧ (isConnected (this w') = false
     ∧ isReconnecting (this w') = true
     ∧ reconnectAttempts (this w') = S n
     ∧ pendingRequests (this w') = ∅
     ∧ pingInterval (this w') = None ∧ pingTimeout (this w') = None
     ∧ (∃ swept, swept ≡ₚ sweep_of w
          ∧ settlements w' = settlements w ++ swept ++ connection_rejection w)
     ∧ emitted w'
       = emitted w ++ [(Event.Disconnect,
                        VJson (JObj [("code", JNum code); ("reason", JStr reason)]));
                       (Event.Reconnecting, reconnecting_info (S n) d)]
     ∧ timers w' !! nextTimer w = Some (mkTimer TReconnect d false)
     ∧ (∀ t tm, timers w' !! t = Some tm → t ≠ nextTimer w → timers w !! t = Some tm))
    ∧ (timers w'' = delete (nextTimer w) (timers w')
       ∧ sockets w'' = sockets w' ++ [mkWebSocket CONNECTING true [] []]
       ∧ ws (this w'') = Some (length (sockets w))
       ∧ isReconnecting (this w'') = true
       ∧ settlements w'' = settlements w').
Proof.
  intros HB Hatt Hws Hc Hm Hr Hlt Hctor n d.
  exists (handle JSON_parse (WsClose s code reason) env w),
    (handle JSON_parse (TimerFire (nextTimer w)) env'
       (handle JSON_parse (WsClose s code reason) env w)).
  split; [by apply handle_passive|]. split; [by apply handle_passive|].
  destruct (connection_lost_steps s code reason env env' w Hatt Hws Hc Hm Hr Hlt Hctor)
    as [(H1 & H2 & H3 & H4 & H5 & H6 & H7 & H8) Hfire].
  split; [|exact Hfire].
  split; [exact H1|]. split; [exact H2|]. split; [exact H3|]. split; [exact H4|].
  split; [exact H5|]. split; [exact H6|]. split; [|exact H8].
  exists (sweep_of w). by split.
Qed.

End ConnectionLost.

Section ConnectionLostSamples.

Lemma connection_lost_schedules_retry_witness :
  let w := sample_connected in
  let s := 0 in
  let code := 1006%Z in
  let reason := "" in
  let n := reconnectAttempts (this w) in
  let d := (initialReconnectDelay (this w) * 2 ^ Z.of_nat n)%Z in
  ∃ w' w'',
    handle_live 1 silent sample_parse (WsClose s code reason) (env_with "unused-4") w
    = Some w'
    ∧ handle_live 1 silent sample_parse (TimerFire (nextTimer w)) (env_with "unused-5") w'
      = Some w''
    ∧ (isConnected (this w') = false
     ∧ isReconnecting (this w') = true
     ∧ reconnectAttempts (this w') = S n
     ∧ pendingRequests (this w') = ∅
     ∧ pingInterval (this w') = None ∧ pingTimeout (this w') = None
     ∧ (∃ swept, swept ≡ₚ sweep_of w
          ∧ settlements w' = settlements w ++ swept ++ connection_rejection w)
     ∧ emitted w'
       = emitted w ++ [(Event.Disconnect,
                        VJson (JObj [("code", JNum code); ("reason", JStr reason)]));
                       (Event.Reconnecting, reconnecting_info (S n) d)]
     ∧ timers w' !! nextTimer w = Some (mkTimer TReconnect d false)
     ∧ (∀ t tm, timers w' !! t = Some tm → t ≠ nextTimer w → timers w !! t = Some tm))
    ∧ (timers w'' = delete (nextTimer w) (timers w')
       ∧ sockets w'' = sockets w' ++ [mkWebSocket CONNECTING true [] []]
       ∧ ws (this w'') = Some (length (sockets w))
       ∧ isReconnecting (this w'') = true
       ∧ settlements w'' = settlements w').
Proof.
  apply (connection_lost_schedules_retry sample_parse 0 silent 0 1006%Z ""
           (env_with "unused-4") (env_with "unused-5") sample_connected);
    try apply silent_passive; try (vm_compute; reflexivity).
  - vm_compute. lia.
Defined.

End ConnectionLostSamples.

(** ** The reconnection policy along any history *)

Section RetryPolicy.

Variables (m : nat) (b : Z).

Lemma rp_refl w : keeps_retry m b w w.
Proof. by intros H. Qed.

Lemma rp_trans w0 w1 w2 :
  keeps_retry m b w0 w1 → keeps_retry m b w1 w2 → keeps_retry m b w0 w2.
Proof. intros H1 H2 H. by apply H2, H1. Qed.

(** Code that arms no retry timer and leaves the counter and the
    configuration alone. *)
Lemma rp_shrink w0 w w' :
  maxReconnectAttempts (this w') = maxReconnectAttempts (this w) →
  initialReconnectDelay (this w') = initialReconnectDelay (this w) →
  reconnectAttempts (this w') = reconnectAttempts (this w) →
  (∀ t tm, timers w' !! t = Some tm → callback tm = TReconnect → timers w !! t = Some tm) →
  keeps_retry m b w0 w → keeps_retry m b w0 w'.
Proof.
  intros E1 E2 E3 Hsub Hg H0. destruct (Hg H0) as (Hm & Hb & Ha & Ht).
  unfold retry_policy_ok. rewrite E1, E2, E3. repeat split; try done.
  - apply (Ht t tm); [by apply Hsub|done].
  - apply (Ht t tm); [by apply Hsub|done].
Qed.

Lemma rp_same w0 w w' :
  maxReconnectAttempts (this w') = maxReconnectAttempts (this w) →
  initialReconnectDelay (this w') = initialReconnectDelay (this w) →
  reconnectAttempts (this w') = reconnectAttempts (this w) →
  timers w' = timers w →
  keeps_retry m b w0 w → keeps_retry m b w0 w'.
Proof. intros E1 E2 E3 HT. apply rp_shrink; try done. intros t tm. by rewrite HT. Qed.

Lemma rp_emit w0 e v w : keeps_retry m b w0 w → keeps_retry m b w0 (emit e v w).
Proof. apply rp_same; by wsimpl. Qed.

Lemma rp_ws_send w0 f w : keeps_retry m b w0 w → keeps_retry m b w0 (ws_send f w).
Proof. apply rp_same; by wsimpl. Qed.

Lemma rp_ws_close w0 code reason w :
  keeps_retry m b w0 w → keeps_retry m b w0 (ws_close code reason w).
Proof. apply rp_same; by wsimpl. Qed.

Lemma rp_upd_socket w0 s f w : keeps_retry m b w0 w → keeps_retry m b w0 (upd_socket s f w).
Proof. by apply rp_same. Qed.

Lemma rp_set_sockets w0 l w : keeps_retry m b w0 w → keeps_retry m b w0 (set_sockets l w).
Proof. by apply rp_same. Qed.

Lemma rp_set_heap w0 l w : keeps_retry m b w0 w → keeps_retry m b w0 (set_heap l w).
Proof. by apply rp_same. Qed.

Lemma rp_set_microtasks w0 l w :
  keeps_retry m b w0 w → keeps_retry m b w0 (set_microtasks l w).
Proof. by apply rp_same. Qed.

Lemma rp_new_promise w0 r w : keeps_retry m b w0 w → keeps_retry m b w0 (new_promise r w).
Proof. by apply rp_same. Qed.

Lemma rp_settle w0 p o c w : keeps_retry m b w0 w → keeps_retry m b w0 (settle p o c w).
Proof. apply rp_same; by wsimpl. Qed.

Lemma rp_detachHandlers w0 w : keeps_retry m b w0 w → keeps_retry m b w0 (detachHandlers w).
Proof. apply rp_same; by wsimpl. Qed.

Lemma rp_closeSocket w0 graceful reason w :
  keeps_retry m b w0 w → keeps_retry m b w0 (closeSocket graceful reason w).
Proof. apply rp_same; by wsimpl. Qed.

Lemma rp_dropConnectionPromise w0 w :
  keeps_retry m b w0 w → keeps_retry m b w0 (dropConnectionPromise w).
Proof. apply rp_same; try (by rewrite dropConnectionPromise_this). by wsimpl. Qed.

Lemma rp_upd_this w0 f w :
  (∀ o, maxReconnectAttempts (f o) = maxReconnectAttempts o) →
  (∀ o, initialReconnectDelay (f o) = initialReconnectDelay o) →
  (∀ o, reconnectAttempts (f o) = reconnectAttempts o) →
  keeps_retry m b w0 w → keeps_retry m b w0 (upd_this f w).
Proof. intros F1 F2 F3. apply rp_same; [apply F1|apply F2|apply F3|done]. Qed.

(** The counter is reset. *)
Lemma rp_reset w0 w :
  keeps_retry m b w0 w → keeps_retry m b w0 (upd_this (set_reconnectAttempts 0) w).
Proof.
  intros Hg H0. destruct (Hg H0) as (Hm & Hb & Ha & Ht).
  unfold retry_policy_ok. fields. repeat split; try done; try lia.
  - by apply (Ht t tm).
  - by apply (Ht t tm).
Qed.

Lemma rp_clearTimer w0 t w : keeps_retry m b w0 w → keeps_retry m b w0 (clearTimer t w).
Proof.
  apply rp_shrink; try done. intros t' tm. fields. by intros [_ H]%lookup_delete_Some.
Qed.

Lemma rp_setTimeout w0 cb d w :
  cb ≠ TReconnect → keeps_retry m b w0 w → keeps_retry m b w0 (setTimeout cb d w).
Proof.
  intros Hcb. apply rp_shrink; try done. intros t tm. fields.
  intros [[_ <-]|[_ H]]%lookup_insert_Some; [|done]. simpl. by intros.
Qed.

Lemma rp_setInterval w0 cb d w :
  cb ≠ TReconnect → keeps_retry m b w0 w → keeps_retry m b w0 (setInterval cb d w).
Proof.
  intros Hcb. apply rp_shrink; try done. intros t tm. fields.
  intros [[_ <-]|[_ H]]%lookup_insert_Some; [|done]. simpl. by intros.
Qed.

Lemma rp_sweep w0 l w : keeps_retry m b w0 w → keeps_retry m b w0 (foldl rejectPending w l).
Proof.
  apply rp_shrink; try (by wsimpl). intros t tm. rewrite sweep_timers.
  by intros H%foldl_delete_lookup_Some.
Qed.

Lemma rp_stopPing w0 w : keeps_retry m b w0 w → keeps_retry m b w0 (stopPing w).
Proof.
  apply rp_shrink; try (by rewrite stopPing_this). intros t tm.
  rewrite stopPing_timers. intros H _. by do 2 apply delete_opt_lookup_Some in H.
Qed.

(** One more attempt is scheduled, or the policy gives up. *)
Lemma rp_scheduleReconnect w0 w :
  keeps_retry m b w0 w → keeps_retry m b w0 (scheduleReconnect w).
Proof.
  intros Hg. unfold scheduleReconnect.
  destruct (Nat.leb_spec (maxReconnectAttempts (this w)) (reconnectAttempts (this w)))
    as [Hle|Hlt]; cbv zeta.
  - apply rp_emit, rp_reset. by apply rp_upd_this.
  - intros H0. destruct (Hg H0) as (Hm & Hb & Ha & Ht).
    unfold retry_policy_ok, setTimeout. fields.
    rewrite !emit_this, !emit_timers, !emit_nextTimer. fields.
    split; [done|]. split; [done|]. split; [lia|].
    intros t tm [[_ <-]|[_ H]]%lookup_insert_Some Hcb; [|by apply (Ht t tm)].
    simpl. split; [done|]. exists (reconnectAttempts (this w)).
    split; [lia|]. by rewrite Hb.
Qed.

End RetryPolicy.

(** As for the keep-alive timer, the lemmas are applied by the shape of the
    world they are about. *)
Create HintDb rp discriminated.

#[global] Hint Extern 1 (keeps_retry _ _ _ (emit _ _ _)) => apply rp_emit : rp.
#[global] Hint Extern 1 (keeps_retry _ _ _ (ws_send _ _)) => apply rp_ws_send : rp.
#[global] Hint Extern 1 (keeps_retry _ _ _ (ws_close _ _ _)) => apply rp_ws_close : rp.
#[global] Hint Extern 1 (keeps_retry _ _ _ (upd_socket _ _ _)) => apply rp_upd_socket : rp.
#[global] Hint Extern 1 (keeps_retry _ _ _ (set_sockets _ _)) => apply rp_set_sockets : rp.
#[global] Hint Extern 1 (keeps_retry _ _ _ (set_heap _ _)) => apply rp_set_heap : rp.
#[global] Hint Extern 1 (keeps_retry _ _ _ (set_microtasks _ _)) => apply rp_set_microtasks : rp.
#[global] Hint Extern 1 (keeps_retry _ _ _ (new_promise _ _)) => apply rp_new_promise : rp.
#[global] Hint Extern 1 (keeps_retry _ _ _ (settle _ _ _ _)) => apply rp_settle : rp.
#[global] Hint Extern 1 (keeps_retry _ _ _ (detachHandlers _)) => apply rp_detachHandlers : rp.
#[global] Hint Extern 1 (keeps_retry _ _ _ (closeSocket _ _ _)) => apply rp_closeSocket : rp.
#[global] Hint Extern 1 (keeps_retry _ _ _ (dropConnectionPromise _)) =>
  apply rp_dropConnectionPromise : rp.
#[global] Hint Extern 1 (keeps_retry _ _ _ (upd_this _ _)) =>
  apply rp_upd_this; [by intros; fields..|] : rp.
#[global] Hint Extern 1 (keeps_retry _ _ _ (upd_this (set_reconnectAttempts 0) _)) =>
  apply rp_reset : rp.
#[global] Hint Extern 1 (keeps_retry _ _ _ (clearTimer _ _)) => apply rp_clearTimer : rp.
#[global] Hint Extern 1 (keeps_retry _ _ _ (setTimeout _ _ _)) =>
  apply rp_setTimeout; [done|] : rp.
#[global] Hint Extern 1 (keeps_retry _ _ _ (foldl rejectPending _ _)) => apply rp_sweep : rp.
#[global] Hint Extern 1 (keeps_retry _ _ _ (stopPing _)) => apply rp_stopPing : rp.
#[global] Hint Extern 1 (keeps_retry _ _ _ (setInterval _ _ _)) =>
  apply rp_setInterval; [done|] : rp.
#[global] Hint Extern 1 (keeps_retry _ _ _ (startPing _)) => unfold startPing; cbv zeta : rp.
#[global] Hint Extern 1 (keeps_retry _ _ _ (scheduleReconnect _)) =>
  apply rp_scheduleReconnect : rp.
#[global] Hint Extern 1 (keeps_retry _ _ _ (handlePong _)) => unfold handlePong : rp.
#[global] Hint Extern 9 (keeps_retry _ _ _ (match ?x with _ => _ end)) => destruct x : rp.

Ltac rp := cbv zeta; auto 60 with rp nocore.

Section RetryPolicyMethods.

Variables (m : nat) (b : Z).

Lemma rp_cleanupConnection w0 w : keeps_retry m b w0 w → keeps_retry m b w0 (cleanupConnection w).
Proof. intros Hg. unfold cleanupConnection. rp. Qed.

End RetryPolicyMethods.

#[global] Hint Extern 1 (keeps_retry _ _ _ (cleanupConnection _)) =>
  apply rp_cleanupConnection : rp.

Section RetryPolicyMethods2.

Variables (m : nat) (b : Z).

Lemma rp_handleDisconnect w0 graceful reason w :
  keeps_retry m b w0 w → keeps_retry m b w0 (handleDisconnect graceful reason w).
Proof. intros Hg. unfold handleDisconnect. rp. Qed.

Lemma rp_cleanupBeforeUnloadHandler w0 w :
  keeps_retry m b w0 w → keeps_retry m b w0 (cleanupBeforeUnloadHandler w).
Proof. intros Hg. unfold cleanupBeforeUnloadHandler. rp. Qed.

Lemma rp_sendRequest w0 method params timeoutMs k env w :
  keeps_retry m b w0 w → keeps_retry m b w0 (sendRequest method params timeoutMs k env w).
Proof. intros Hg. unfold sendRequest. rp. Qed.

Lemma rp_request_timeout w0 requestId method p w :
  keeps_retry m b w0 w → keeps_retry m b w0 (request_timeout requestId method p w).
Proof. intros Hg. unfold request_timeout. rp. Qed.

Lemma rp_sendNotification w0 method params env w :
  keeps_retry m b w0 w → keeps_retry m b w0 (sendNotification method params env w).
Proof. intros Hg. unfold sendNotification. rp. Qed.

Lemma rp_handleResponse w0 response w :
  keeps_retry m b w0 w → keeps_retry m b w0 (handleResponse response w).
Proof. intros Hg. unfold handleResponse. rp. Qed.

Lemma rp_Promise_reject w0 error w :
  keeps_retry m b w0 w → keeps_retry m b w0 (Promise_reject error w).
Proof. intros Hg. unfold Promise_reject. rp. Qed.

Lemma rp_on w0 e cb w : keeps_retry m b w0 w → keeps_retry m b w0 (on e cb w).
Proof. intros Hg. unfold on. rp. Qed.

Lemma rp_off w0 e cb w : keeps_retry m b w0 w → keeps_retry m b w0 (off e cb w).
Proof. intros Hg. unfold off. rp. Qed.

Lemma rp_beforeUnload w0 w : keeps_retry m b w0 w → keeps_retry m b w0 (beforeUnload w).
Proof. intros Hg. unfold beforeUnload. rp. Qed.

End RetryPolicyMethods2.

#[global] Hint Extern 1 (keeps_retry _ _ _ (handleDisconnect _ _ _)) =>
  apply rp_handleDisconnect : rp.
#[global] Hint Extern 1 (keeps_retry _ _ _ (cleanupBeforeUnloadHandler _)) =>
  apply rp_cleanupBeforeUnloadHandler : rp.
#[global] Hint Extern 1 (keeps_retry _ _ _ (sendRequest _ _ _ _ _ _)) =>
  apply rp_sendRequest : rp.
#[global] Hint Extern 1 (keeps_retry _ _ _ (request_timeout _ _ _ _)) =>
  apply rp_request_timeout : rp.
#[global] Hint Extern 1 (keeps_retry _ _ _ (sendNotification _ _ _ _)) =>
  apply rp_sendNotification : rp.
#[global] Hint Extern 1 (keeps_retry _ _ _ (handleResponse _ _)) =>
  apply rp_handleResponse : rp.
#[global] Hint Extern 1 (keeps_retry _ _ _ (Promise_reject _ _)) =>
  apply rp_Promise_reject : rp.
#[global] Hint Extern 1 (keeps_retry _ _ _ (on _ _ _)) => apply rp_on : rp.
#[global] Hint Extern 1 (keeps_retry _ _ _ (off _ _ _)) => apply rp_off : rp.
#[global] Hint Extern 1 (keeps_retry _ _ _ (beforeUnload _)) => apply rp_beforeUnload : rp.

Section RetryPolicyMethods3.

Variables (m : nat) (b : Z).

Lemma rp_disconnect w0 w : keeps_retry m b w0 w → keeps_retry m b w0 (disconnect w).
Proof. intros Hg. unfold disconnect. rp. Qed.

Lemma rp_tryReconnect w0 w : keeps_retry m b w0 w → keeps_retry m b w0 (tryReconnect w).
Proof. intros Hg. unfold tryReconnect. rp. Qed.

Lemma rp_sendRecvAck w0 hdr messageId messageSeq env w :
  keeps_retry m b w0 w → keeps_retry m b w0 (sendRecvAck hdr messageId messageSeq env w).
Proof. intros Hg. unfold sendRecvAck. rp. Qed.

Lemma rp_ping_tick w0 env w : keeps_retry m b w0 w → keeps_retry m b w0 (ping_tick env w).
Proof. intros Hg. unfold ping_tick. rp. Qed.

Lemma rp_sendConnectRequest w0 env w :
  keeps_retry m b w0 w → keeps_retry m b w0 (sendConnectRequest env w).
Proof. intros Hg. unfold sendConnectRequest. rp. Qed.

Lemma rp_auth_then w0 result w : keeps_retry m b w0 w → keeps_retry m b w0 (auth_then result w).
Proof. intros Hg. unfold auth_then. rp. Qed.

Lemma rp_auth_catch w0 error w : keeps_retry m b w0 w → keeps_retry m b w0 (auth_catch error w).
Proof. intros Hg. unfold auth_catch. rp. Qed.

Lemma rp_connect w0 k env w : keeps_retry m b w0 w → keeps_retry m b w0 (connect k env w).
Proof. intros Hg. unfold connect. rp. Qed.

Lemma rp_send w0 channelId channelType payload options env w :
  keeps_retry m b w0 w → keeps_retry m b w0 (send channelId channelType payload options env w).
Proof. intros Hg. unfold send. rp. Qed.

End RetryPolicyMethods3.

#[global] Hint Extern 1 (keeps_retry _ _ _ (disconnect _)) => apply rp_disconnect : rp.
#[global] Hint Extern 1 (keeps_retry _ _ _ (tryReconnect _)) => apply rp_tryReconnect : rp.
#[global] Hint Extern 1 (keeps_retry _ _ _ (sendRecvAck _ _ _ _ _)) => apply rp_sendRecvAck : rp.
#[global] Hint Extern 1 (keeps_retry _ _ _ (ping_tick _ _)) => apply rp_ping_tick : rp.
#[global] Hint Extern 1 (keeps_retry _ _ _ (sendConnectRequest _ _)) =>
  apply rp_sendConnectRequest : rp.
#[global] Hint Extern 1 (keeps_retry _ _ _ (auth_then _ _)) => apply rp_auth_then : rp.
#[global] Hint Extern 1 (keeps_retry _ _ _ (auth_catch _ _)) => apply rp_auth_catch : rp.
#[global] Hint Extern 1 (keeps_retry _ _ _ (connect _ _ _)) => apply rp_connect : rp.
#[global] Hint Extern 1 (keeps_retry _ _ _ (send _ _ _ _ _ _)) => apply rp_send : rp.

Section RetryPolicyMethods4.

Variables (m : nat) (b : Z).
Variable JSON_parse : string -> option JSVal.

Lemma rp_destroy w0 w : keeps_retry m b w0 w → keeps_retry m b w0 (destroy w).
Proof. intros Hg. unfold destroy. rp. Qed.

Lemma rp_ping_catch w0 w : keeps_retry m b w0 w → keeps_retry m b w0 (ping_catch w).
Proof. intros Hg. unfold ping_catch. rp. Qed.

Lemma rp_reconnect_catch w0 w : keeps_retry m b w0 w → keeps_retry m b w0 (reconnect_catch w).
Proof. intros Hg. unfold reconnect_catch. rp. Qed.

Lemma rp_onclose w0 code reason w : keeps_retry m b w0 w → keeps_retry m b w0 (onclose code reason w).
Proof. intros Hg. unfold onclose. rp. Qed.

Lemma rp_reconnect_tick w0 env w : keeps_retry m b w0 w → keeps_retry m b w0 (reconnect_tick env w).
Proof. intros Hg. unfold reconnect_tick. rp. Qed.

Lemma rp_handleEventNotification w0 params w :
  keeps_retry m b w0 w → keeps_retry m b w0 (handleEventNotification JSON_parse params w).
Proof. intros Hg. unfold handleEventNotification. rp. Qed.

Lemma rp_handleNotification w0 notification env w :
  keeps_retry m b w0 w → keeps_retry m b w0 (handleNotification JSON_parse notification env w).
Proof.
  intros Hg. unfold handleNotification. cbv zeta.
  destruct (get_prop_opt notification "method") as [| | | |method| |]; try done.
  repeat match goal with |- keeps_retry _ _ _ (match ?x with _ => _ end) => destruct x end;
    first [ done | unfold handlePong; done
          | by apply rp_emit
          | by apply rp_handleDisconnect, rp_emit
          | by apply rp_handleEventNotification
          | by apply rp_sendRecvAck, rp_emit ].
Qed.

Lemma rp_handleMessage w0 data env w :
  keeps_retry m b w0 w → keeps_retry m b w0 (handleMessage JSON_parse data env w).
Proof.
  intros Hg. unfold handleMessage.
  destruct (JSON_parse data) as [message|]; [|by apply rp_emit].
  destruct (has_prop "id" message) as [[]|]; [by apply rp_handleResponse| |done].
  destruct (has_prop "method" message) as [[]|]; [|done|done].
  by apply rp_handleNotification.
Qed.

Lemma rp_fire_timer w0 t env w : keeps_retry m b w0 w → keeps_retry m b w0 (fire_timer t env w).
Proof.
  intros Hg. unfold fire_timer.
  destruct (timers w !! t) as [[cb d r]|]; [|done]. cbv zeta. simpl.
  assert (H1 : keeps_retry m b w0 (if r then w else clearTimer t w)).
  { destruct r; [done|by apply rp_clearTimer]. }
  revert H1. generalize (if r then w else clearTimer t w). intros w1 H1.
  destruct cb; [by apply rp_request_timeout|by apply rp_ping_tick|by apply rp_reconnect_tick].
Qed.

Lemma rp_handle w0 t env w : keeps_retry m b w0 w → keeps_retry m b w0 (handle JSON_parse t env w).
Proof.
  intros Hg. destruct t; simpl.
  - by apply rp_connect.
  - by apply rp_disconnect.
  - by apply rp_destroy.
  - by apply rp_send.
  - by apply rp_on.
  - by apply rp_off.
  - by apply rp_set_heap.
  - destruct (socket_attached _ _); [|by apply rp_upd_socket].
    unfold onopen. by apply rp_sendConnectRequest, rp_upd_socket.
  - destruct (socket_attached _ _); [|done]. by apply rp_handleMessage.
  - destruct (socket_attached _ _); [|done]. unfold onerror. by apply rp_emit.
  - destruct (socket_attached _ _); [|by apply rp_upd_socket].
    by apply rp_onclose, rp_upd_socket.
  - by apply rp_fire_timer.
  - destruct (beforeUnloadHandler _); [|done]. by apply rp_beforeUnload.
Qed.

Lemma rp_run_reaction w0 k o w : keeps_retry m b w0 w → keeps_retry m b w0 (run_reaction k o w).
Proof.
  intros Hg. destruct k, o; unfold run_reaction, handlePong.
  - exact Hg.
  - exact Hg.
  - by apply rp_auth_then.
  - by apply rp_set_microtasks.
  - exact Hg.
  - by apply rp_auth_catch.
  - exact Hg.
  - by apply rp_set_microtasks.
  - exact Hg.
  - by apply rp_ping_catch.
  - exact Hg.
  - by apply rp_reconnect_catch.
Qed.

Lemma rp_step l w : keeps_retry m b w (step JSON_parse l w).
Proof.
  destruct l as [t env|]; simpl.
  - apply rp_handle, rp_refl.
  - unfold run_microtask. destruct (microtasks w) as [|[k o] rest]; [apply rp_refl|].
    apply rp_run_reaction, rp_set_microtasks, rp_refl.
Qed.

Lemma rp_run h : ∀ w w', run JSON_parse h w = Some w' → keeps_retry m b w w'.
Proof.
  induction h as [|l h IH]; intros w w'; simpl.
  - intros [= <-]. apply rp_refl.
  - destruct (enabled l w); [|done]. intros Hrun.
    eapply rp_trans; [apply rp_step|by apply IH].
Qed.

End RetryPolicyMethods4.

Section RetryPolicyKept.

Variable JSON_parse : string -> option JSVal.

Lemma retry_policy_ok_new url a env : retry_policy_ok 5 1000 (new_WKIM url a env).
Proof.
  unfold new_WKIM, setupBeforeUnloadHandler. cbv zeta.
  destruct (has_window env); (split; [done|]; split; [done|]; split; [fields; lia|]);
    intros t tm; fields; by rewrite lookup_empty.
Qed.


End RetryPolicyKept.

Section RetryPolicySamples.


End RetryPolicySamples.
